(** * FastComms: framed serial messages with an optional 8-bit checksum

    A shallow embedding of [fastcomms.h] / [fastcomms.cpp] and the
    properties of its receive assembler, its transmit queue and its
    checksum.

    Conventions of the embedding.
    - A [char] or [uint8_t] cell is its raw byte, a [Z] in [0, 256).
      Arithmetic on [uint8_t] variables is reduced with [u8]; where a
      [char] takes part in integer arithmetic it is first promoted with
      [int_of_char] ([char] is signed on AVR).
    - A [char] array is the list of its cells; a C string held in it is
      the run of cells before the first NUL.
    - An access outside an array, a string operation that leaves its
      buffer and a dereference of a null pointer are undefined in C++.
      The embedding stops there with a [Fault] that names the access.
    - The port and the message handler are outside the program.  The
      port is the bytes waiting to be read and the room left for
      writing; a handler call is recorded in a log and is taken to
      return without calling back into the object. *)

From Stdlib Require Import ZArith List Bool Lia String Ascii Permutation.
Import ListNotations.
Open Scope Z_scope.

(** ** Build-time configuration ([fastcomms.h]) *)

Definition BUFFER_SIZE : Z := 64.
Definition TX_QUEUE_SIZE : Z := 4.
Definition MSG_END_A : Z := 13.   (* '\r' *)
Definition MSG_END_B : Z := 10.   (* '\n' *)

Definition bytes_of_string (s : string) : list Z :=
  map (fun c => Z.of_nat (nat_of_ascii c)) (list_ascii_of_string s).

Definition RX_BUFFER_OVERFLOW : list Z := bytes_of_string "!rx buffer full!".
Definition RX_BAD_CHECKSUM : list Z := bytes_of_string "!rx badchecksum!".

(** ** Machine integers and characters *)

Definition u8 (x : Z) : Z := x mod 256.

Definition int_of_char (c : Z) : Z := if c <? 128 then c else c - 256.

Definition is_byte (b : Z) : Prop := 0 <= b < 256.
Definition is_char (b : Z) : Prop := 0 < b < 256.

(** ** C strings *)

(** The string a [const char*] denotes: the cells before the first NUL.
    For a caller's argument the end of the list stands for its
    terminator. *)
Fixpoint cstr (m : list Z) : list Z :=
  match m with
  | [] => []
  | c :: m' => if c =? 0 then [] else c :: cstr m'
  end.

Definition zlen {A} (l : list A) : Z := Z.of_nat (List.length l).

Definition strlen (m : list Z) : Z := zlen (cstr m).

Definition has_nul (m : list Z) : bool := existsb (fun c => c =? 0) m.

(** ** The checksum ([FastComms::checkSum]) *)

Definition checkSum (msg : list Z) : Z :=
  fold_left (fun sum c => u8 (sum + int_of_char c)) (cstr msg) 0.

(** The sum of the bytes of a string, as the wire format defines it. *)
Definition byte_sum (P : list Z) : Z := fold_right Z.add 0 P.

(** ** Undefined behaviour *)

(** The arrays of the program: the members [_in], [_msg], [_out] and
    [_ob] (outer index [Arr_ob], the cells of one slot [Arr_slot]) and
    the locals [data], [buf] and [sum] of [txrx]. *)
Inductive array_id :=
| Arr_in | Arr_msg | Arr_out | Arr_ob | Arr_slot
| Arr_data | Arr_buf | Arr_sum.

Inductive fault :=
| OutOfBounds (a : array_id) (i : Z)   (* first cell touched outside [a] *)
| NullPointer.

Inductive res (A : Type) : Type :=
| Ok (x : A)
| Fault (f : fault).
Arguments Ok {A} x.
Arguments Fault {A} f.

Definition bind {A B} (r : res A) (k : A -> res B) : res B :=
  match r with
  | Ok x => k x
  | Fault f => Fault f
  end.

Notation "'let?' x := e 'in' k" := (bind e (fun x => k))
  (at level 10, x pattern, e at level 200, k at level 200).

(** ** Arrays *)

Definition in_range {A} (l : list A) (i : Z) : bool :=
  (0 <=? i) && (i <? zlen l).

Fixpoint list_set {A} (l : list A) (n : nat) (x : A) : list A :=
  match l, n with
  | [], _ => []
  | _ :: t, O => x :: t
  | h :: t, S n' => h :: list_set t n' x
  end.

Definition load {A} (a : array_id) (l : list A) (i : Z) : res A :=
  if in_range l i then
    match nth_error l (Z.to_nat i) with
    | Some x => Ok x
    | None => Fault (OutOfBounds a i)
    end
  else Fault (OutOfBounds a i).

Definition store {A} (a : array_id) (l : list A) (i : Z) (x : A) : res (list A) :=
  if in_range l i then Ok (list_set l (Z.to_nat i) x)
  else Fault (OutOfBounds a i).

(** Cells of a local array before anything is written to them.  They are
    indeterminate in C++; the program never reads one before writing it,
    and the embedding fills them with NUL. *)
Definition uninit (n : Z) : list Z := repeat 0 (Z.to_nat n).

(** [src] written into [dst] from cell [off] on. *)
Definition write_at (a : array_id) (dst : list Z) (off : Z) (src : list Z)
  : res (list Z) :=
  if off + zlen src <=? zlen dst then
    Ok (firstn (Z.to_nat off) dst ++ src
        ++ skipn (Z.to_nat (off + zlen src)) dst)
  else Fault (OutOfBounds a (zlen dst)).

(** The string held in an array; reading on past the array is a fault. *)
Definition c_string (a : array_id) (buf : list Z) : res (list Z) :=
  if has_nul buf then Ok (cstr buf) else Fault (OutOfBounds a (zlen buf)).

(** [strcpy(dst, src)]: the string [s] of [src] and its terminator. *)
Definition strcpy (a : array_id) (dst s : list Z) : res (list Z) :=
  write_at a dst 0 (s ++ [0]).

(** [strncat(dst, src, n)]: at most [n] characters of [src], appended to
    the string in [dst], and a terminator. *)
Definition strncat (a : array_id) (dst src : list Z) (n : Z) : res (list Z) :=
  let? d := c_string a dst in
  write_at a dst (zlen d) (firstn (Z.to_nat n) (cstr src) ++ [0]).

(** [%d] of a [uint8_t] (0 to 255). *)
Definition dec_digits (n : Z) : list Z :=
  if n <? 10 then [48 + n]
  else if n <? 100 then [48 + n / 10; 48 + n mod 10]
  else [48 + n / 100; 48 + (n / 10) mod 10; 48 + n mod 10].

(** [sprintf(dst, fmt, ...)] once the format is expanded to [s]. *)
Definition sprintf (a : array_id) (dst s : list Z) : res (list Z) :=
  write_at a dst 0 (s ++ [0]).

(** ** The object ([class FastComms]) *)

(** A [char*] of the queue: null, or the first cell of slot [_ob[k]]. *)
Inductive ptr :=
| Null
| Slot (k : Z).

(** A message handler, named by a number; [None] is the null pointer. *)
Definition handler := nat.

Record FastComms := mkFastComms {
  _useChecksum : bool;
  _port : bool;                  (* [_port != nullptr] *)
  _msg : list Z;                 (* char _msg[BUFFER_SIZE] *)
  _in : list Z;                  (* char _in[BUFFER_SIZE] *)
  _i : Z;                        (* uint8_t *)
  _rx : bool;
  _msgHandler : option handler;
  _out : list ptr;               (* char* _out[TX_QUEUE_SIZE] *)
  _ob : list (list Z);           (* char _ob[TX_QUEUE_SIZE][BUFFER_SIZE] *)
  _obi : Z;                      (* uint8_t *)
  _o : Z;                        (* uint8_t *)
  _txb : Z;                      (* uint8_t *)
  _txlen : Z                     (* uint8_t *)
}.

Definition set_useChecksum (v : bool) (fc : FastComms) : FastComms :=
  mkFastComms v (_port fc) (_msg fc) (_in fc) (_i fc) (_rx fc)
    (_msgHandler fc) (_out fc) (_ob fc) (_obi fc) (_o fc) (_txb fc) (_txlen fc).
Definition set_port (v : bool) (fc : FastComms) : FastComms :=
  mkFastComms (_useChecksum fc) v (_msg fc) (_in fc) (_i fc) (_rx fc)
    (_msgHandler fc) (_out fc) (_ob fc) (_obi fc) (_o fc) (_txb fc) (_txlen fc).
Definition set_msg (v : list Z) (fc : FastComms) : FastComms :=
  mkFastComms (_useChecksum fc) (_port fc) v (_in fc) (_i fc) (_rx fc)
    (_msgHandler fc) (_out fc) (_ob fc) (_obi fc) (_o fc) (_txb fc) (_txlen fc).
Definition set_in (v : list Z) (fc : FastComms) : FastComms :=
  mkFastComms (_useChecksum fc) (_port fc) (_msg fc) v (_i fc) (_rx fc)
    (_msgHandler fc) (_out fc) (_ob fc) (_obi fc) (_o fc) (_txb fc) (_txlen fc).
Definition set_i (v : Z) (fc : FastComms) : FastComms :=
  mkFastComms (_useChecksum fc) (_port fc) (_msg fc) (_in fc) v (_rx fc)
    (_msgHandler fc) (_out fc) (_ob fc) (_obi fc) (_o fc) (_txb fc) (_txlen fc).
Definition set_rx (v : bool) (fc : FastComms) : FastComms :=
  mkFastComms (_useChecksum fc) (_port fc) (_msg fc) (_in fc) (_i fc) v
    (_msgHandler fc) (_out fc) (_ob fc) (_obi fc) (_o fc) (_txb fc) (_txlen fc).
Definition set_msgHandler (v : option handler) (fc : FastComms) : FastComms :=
  mkFastComms (_useChecksum fc) (_port fc) (_msg fc) (_in fc) (_i fc) (_rx fc)
    v (_out fc) (_ob fc) (_obi fc) (_o fc) (_txb fc) (_txlen fc).
Definition set_out (v : list ptr) (fc : FastComms) : FastComms :=
  mkFastComms (_useChecksum fc) (_port fc) (_msg fc) (_in fc) (_i fc) (_rx fc)
    (_msgHandler fc) v (_ob fc) (_obi fc) (_o fc) (_txb fc) (_txlen fc).
Definition set_ob (v : list (list Z)) (fc : FastComms) : FastComms :=
  mkFastComms (_useChecksum fc) (_port fc) (_msg fc) (_in fc) (_i fc) (_rx fc)
    (_msgHandler fc) (_out fc) v (_obi fc) (_o fc) (_txb fc) (_txlen fc).
Definition set_obi (v : Z) (fc : FastComms) : FastComms :=
  mkFastComms (_useChecksum fc) (_port fc) (_msg fc) (_in fc) (_i fc) (_rx fc)
    (_msgHandler fc) (_out fc) (_ob fc) v (_o fc) (_txb fc) (_txlen fc).
Definition set_o (v : Z) (fc : FastComms) : FastComms :=
  mkFastComms (_useChecksum fc) (_port fc) (_msg fc) (_in fc) (_i fc) (_rx fc)
    (_msgHandler fc) (_out fc) (_ob fc) (_obi fc) v (_txb fc) (_txlen fc).
Definition set_txb (v : Z) (fc : FastComms) : FastComms :=
  mkFastComms (_useChecksum fc) (_port fc) (_msg fc) (_in fc) (_i fc) (_rx fc)
    (_msgHandler fc) (_out fc) (_ob fc) (_obi fc) (_o fc) v (_txlen fc).
Definition set_txlen (v : Z) (fc : FastComms) : FastComms :=
  mkFastComms (_useChecksum fc) (_port fc) (_msg fc) (_in fc) (_i fc) (_rx fc)
    (_msgHandler fc) (_out fc) (_ob fc) (_obi fc) (_o fc) (_txb fc) v.

(** The cells a queue pointer points to. *)
Definition deref (ob : list (list Z)) (p : ptr) : res (list Z) :=
  match p with
  | Null => Fault NullPointer
  | Slot k => load Arr_ob ob k
  end.

Definition deref_store (ob : list (list Z)) (p : ptr) (cells : list Z)
  : res (list (list Z)) :=
  match p with
  | Null => Fault NullPointer
  | Slot k => store Arr_ob ob k cells
  end.

(** An object as its constructor leaves it: the members with a default
    initialiser have it, the arrays have their declared sizes and any
    contents. *)
Definition FastComms_new (msg inb : list Z) (out : list ptr)
  (ob : list (list Z)) : FastComms :=
  mkFastComms false false msg inb 0 false None out ob 0 0 0 0.

Definition zeros (n : Z) : list Z := repeat 0 (Z.to_nat n).

(** The object with its arrays zeroed (static storage). *)
Definition FastComms_static : FastComms :=
  FastComms_new (zeros BUFFER_SIZE) (zeros BUFFER_SIZE)
    (repeat Null (Z.to_nat TX_QUEUE_SIZE))
    (repeat (zeros BUFFER_SIZE) (Z.to_nat TX_QUEUE_SIZE)).

(** [FastComms::init]; [port] tells whether the pointer given is not
    null. *)
Definition init (useChecksum : bool) (port : bool) (fc : FastComms) : FastComms :=
  set_useChecksum useChecksum (if port then set_port true fc else fc).

(** [FastComms::setMsgHandler] *)
Definition setMsgHandler (h : option handler) (fc : FastComms) : FastComms :=
  set_msgHandler h fc.

(** [FastComms::getMsg]: the message buffer. *)
Definition getMsg (fc : FastComms) : list Z := _msg fc.

(** [FastComms::sendMsg] *)
Definition sendMsg (msg : list Z) (fc : FastComms) : res (Z * FastComms) :=
  if _o fc <? TX_QUEUE_SIZE then
    let l := u8 (strlen msg) in
    if l <? BUFFER_SIZE then
      let p := Slot (_obi fc) in
      let? out := store Arr_out (_out fc) (_o fc) p in
      let? s0 := deref (_ob fc) p in
      let? s1 := store Arr_slot s0 0 0 in
      let? s2 := strncat Arr_slot s1 msg (BUFFER_SIZE - 1) in
      let? ob := deref_store (_ob fc) p s2 in
      let fc := set_out out fc in
      let fc := set_ob ob fc in
      let fc := set_o (u8 (_o fc + 1)) fc in
      let fc := if _obi fc <? TX_QUEUE_SIZE - 1
                then set_obi (u8 (_obi fc + 1)) fc
                else set_obi 0 fc in
      Ok (1, fc)
    else Ok (-2, fc)
  else Ok (-1, fc).

(** ** The serial port and the world around the object *)

(** What the object sees of [HardwareSerial]: the bytes received and not
    yet read, and the room left in the transmit buffer. *)
Record HardwareSerial := mkSerial {
  rx_pending : list Z;
  tx_free : Z
}.

(** What a call does that is seen outside the object, in order. *)
Inductive event :=
| EvRead (b : Z)                        (* _port->read() gave b *)
| EvWrite (b : Z)                       (* _port->write(b) *)
| EvHandler (h : handler) (msg : list Z) (* _msgHandler(_msg), string msg *)
| EvSendMsg (msg : list Z) (r : Z).     (* this->sendMsg(msg) gave r *)

Record World := mkWorld {
  this : FastComms;
  serial : HardwareSerial;
  log : list event
}.

Definition with_this (f : FastComms -> FastComms) (w : World) : World :=
  mkWorld (f (this w)) (serial w) (log w).

Definition emit (e : event) (w : World) : World :=
  mkWorld (this w) (serial w) (log w ++ [e]).

Definition available (w : World) : Z := zlen (rx_pending (serial w)).
Definition availableForWrite (w : World) : Z := tx_free (serial w).

(** [_port->read()]: the oldest pending byte, or -1. *)
Definition port_read (w : World) : Z * World :=
  match rx_pending (serial w) with
  | [] => (-1, emit (EvRead (-1)) w)
  | b :: rest =>
    (b, emit (EvRead b)
          (mkWorld (this w) (mkSerial rest (tx_free (serial w))) (log w)))
  end.

(** [_port->write(b)] *)
Definition port_write (b : Z) (w : World) : World :=
  emit (EvWrite (u8 b))
    (mkWorld (this w)
       (mkSerial (rx_pending (serial w)) (tx_free (serial w) - 1)) (log w)).

(** [this->sendMsg(msg)] from inside [txrx]; the result is dropped. *)
Definition send_diag (msg : list Z) (w : World) : res World :=
  let? (r, fc) := sendMsg msg (this w) in
  Ok (emit (EvSendMsg (cstr msg) r) (mkWorld fc (serial w) (log w))).

(** [if (_msgHandler != 0) _msgHandler(_msg);] *)
Definition call_handler (w : World) : res World :=
  match _msgHandler (this w) with
  | None => Ok w
  | Some h =>
    let? m := c_string Arr_msg (_msg (this w)) in
    Ok (emit (EvHandler h m) w)
  end.

(** ** [FastComms::txrx], receive half *)

(** Lines 143-186: a terminator with a checksum byte before it. *)
Definition rx_checksummed (w : World) : res World :=
  let fc := this w in
  let? rxsum := load Arr_in (_in fc) (_i fc - 2) in
  let data := uninit (BUFFER_SIZE - 3) in
  let? inb := store Arr_in (_in fc) (_i fc - 2) 0 in
  let w := with_this (set_in inb) w in
  let? s := c_string Arr_in inb in
  let? data := strcpy Arr_data data s in
  let? d := c_string Arr_data data in
  let? w :=
    if rxsum =? checkSum d then
      let w := with_this (set_rx true) w in
      let? m := strcpy Arr_msg (_msg (this w)) d in
      let w := with_this (set_msg m) w in
      call_handler w
    else
      let? w := send_diag RX_BAD_CHECKSUM w in
      let buf := uninit 64 in
      let? buf := sprintf Arr_buf buf (bytes_of_string "!" ++ d) in
      let? w := send_diag buf w in
      let sum := zeros 10 in
      let? sum := sprintf Arr_sum sum
                    (bytes_of_string "!got [" ++ dec_digits rxsum
                     ++ bytes_of_string "]") in
      send_diag sum w in
  Ok (with_this (set_i 0) w).

(** Lines 187-202: a terminator taken without a checksum. *)
Definition rx_plain (w : World) : res World :=
  let fc := this w in
  let w := with_this (set_rx true) w in
  let? inb := store Arr_in (_in fc) (_i fc - 1) 0 in
  let w := with_this (set_in inb) w in
  let? s := c_string Arr_in inb in
  let? m := strcpy Arr_msg (_msg fc) s in
  let w := with_this (set_msg m) w in
  call_handler w.

(** Lines 131-219: one byte read and placed at [_in[_i]]. *)
Definition rx_byte (w : World) : res World :=
  let '(b, w) := port_read w in
  let fc := this w in
  let? inb := store Arr_in (_in fc) (_i fc) (u8 b) in
  let w := with_this (set_in inb) w in
  let fc := this w in
  let? c := load Arr_in (_in fc) (_i fc) in
  if (0 <? _i fc) && (c =? MSG_END_B) then
    let? prev := load Arr_in (_in fc) (_i fc - 1) in
    if prev =? MSG_END_A then
      let? w :=
        if _useChecksum fc && (2 <? _i fc) then rx_checksummed w
        else rx_plain w in
      Ok (with_this (set_i 0) w)
    else Ok (with_this (set_i (u8 (_i fc + 1))) w)
  else Ok (with_this (set_i (u8 (_i fc + 1))) w).

(** Lines 122-229. *)
Definition rx_section (w : World) : res World :=
  if _i (this w) <? BUFFER_SIZE then
    if 0 <? available w then rx_byte w else Ok w
  else
    let w := with_this (set_i 0) w in
    send_diag RX_BUFFER_OVERFLOW w.

(** ** [FastComms::txrx], transmit half *)

(** Lines 235-248: the frame length of a message not yet started. *)
Definition tx_start (fc : FastComms) : res FastComms :=
  if (_txb fc =? 0) && (_txlen fc =? 0) then
    let? head := load Arr_out (_out fc) 0 in
    let? cells := deref (_ob fc) head in
    let? s := c_string Arr_slot cells in
    Ok (set_txlen (u8 (zlen s + (if _useChecksum fc then 3 else 2))) fc)
  else Ok fc.

(** [_out[0][_txb]] *)
Definition tx_payload_byte (fc : FastComms) : res Z :=
  let? head := load Arr_out (_out fc) 0 in
  let? cells := deref (_ob fc) head in
  load Arr_slot cells (_txb fc).

(** [checkSum(_out[0])] *)
Definition tx_checksum (fc : FastComms) : res Z :=
  let? head := load Arr_out (_out fc) 0 in
  let? cells := deref (_ob fc) head in
  let? s := c_string Arr_slot cells in
  Ok (checkSum s).

(** Lines 258-309: the byte to write, if any. *)
Definition tx_select (fc : FastComms) : res (option Z) :=
  let bytes_left := u8 (_txlen fc - _txb fc) in
  if _useChecksum fc then
    if bytes_left <=? 3 then
      if bytes_left =? 3 then
        let? c := tx_checksum fc in Ok (Some c)
      else if bytes_left =? 2 then Ok (Some MSG_END_A)
      else if bytes_left =? 1 then Ok (Some MSG_END_B)
      else Ok None
    else
      let? c := tx_payload_byte fc in Ok (Some c)
  else
    if bytes_left <=? 2 then
      if bytes_left =? 2 then Ok (Some MSG_END_A)
      else if bytes_left =? 1 then Ok (Some MSG_END_B)
      else Ok None
    else
      let? c := tx_payload_byte fc in Ok (Some c).

(** Lines 319-324: [for (_m = 1; _m <= _o; _m++) _out[_m - 1] = _out[_m];]
    with [n] passes left. *)
Fixpoint tx_shift (n : nat) (m : Z) (out : list ptr) : res (list ptr) :=
  match n with
  | O => Ok out
  | S n' =>
    let? p := load Arr_out out m in
    let? out := store Arr_out out (m - 1) p in
    tx_shift n' (m + 1) out
  end.

(** Lines 316-332: the head entry leaves the queue. *)
Definition tx_dequeue (fc : FastComms) : res FastComms :=
  let? out := tx_shift (Z.to_nat (_o fc)) 1 (_out fc) in
  let fc := set_out out fc in
  let fc := set_o (u8 (_o fc - 1)) fc in
  let fc := set_txlen 0 fc in
  Ok (set_txb 0 fc).

(** Lines 230-333. *)
Definition tx_section (w : World) : res World :=
  if 0 <? _o (this w) then
    let? fc := tx_start (this w) in
    let w := mkWorld fc (serial w) (log w) in
    if _txb fc <? _txlen fc then
      if 0 <? availableForWrite w then
        let? b := tx_select fc in
        let w := match b with
                 | Some b => port_write b w
                 | None => w
                 end in
        Ok (with_this (set_txb (u8 (_txb fc + 1))) w)
      else Ok w
    else
      let? fc := tx_dequeue fc in
      Ok (mkWorld fc (serial w) (log w))
  else Ok w.

(** ** [FastComms::txrx] *)

Definition txrx (w : World) : res (bool * World) :=
  if negb (_port (this w)) then Ok (false, w)
  else
    let? w := rx_section w in
    let? w := tx_section w in
    if _rx (this w) then Ok (true, with_this (set_rx false) w)
    else Ok (false, w).

(** ** Runs *)

(** A byte arrives at the port. *)
Definition arrive (b : Z) (w : World) : World :=
  mkWorld (this w)
    (mkSerial (rx_pending (serial w) ++ [b]) (tx_free (serial w))) (log w).

(** The application calls [sendMsg]. *)
Definition app_sendMsg (msg : list Z) (w : World) : res (Z * World) :=
  let? (r, fc) := sendMsg msg (this w) in
  Ok (r, mkWorld fc (serial w) (log w)).

(** [n] calls of [txrx] in a row, with what each returned. *)
Fixpoint ticks (n : nat) (w : World) : res (list bool * World) :=
  match n with
  | O => Ok ([], w)
  | S n' =>
    let? (r, w) := txrx w in
    let? (rs, w) := ticks n' w in
    Ok (r :: rs, w)
  end.

(** The bytes of [bs] arrive one per tick. *)
Fixpoint feed (bs : list Z) (w : World) : res (list bool * World) :=
  match bs with
  | [] => Ok ([], w)
  | b :: bs' =>
    let? (r, w) := txrx (arrive b w) in
    let? (rs, w) := feed bs' w in
    Ok (r :: rs, w)
  end.

(** The bytes written to the port, the handler calls and the diagnostics
    of a log. *)
Definition written (l : list event) : list Z :=
  flat_map (fun e => match e with EvWrite b => [b] | _ => [] end) l.

Definition handled (l : list event) : list (handler * list Z) :=
  flat_map (fun e => match e with EvHandler h m => [(h, m)] | _ => [] end) l.

Definition diagnostics (l : list event) : list (list Z * Z) :=
  flat_map (fun e => match e with EvSendMsg m r => [(m, r)] | _ => [] end) l.

Definition is_write (e : event) : bool :=
  match e with EvWrite _ => true | _ => false end.

Definition is_read (e : event) : bool :=
  match e with EvRead _ => true | _ => false end.

(** The strings queued for sending, head first. *)
Definition queued (fc : FastComms) : list (res (list Z)) :=
  map (fun p => let? cells := deref (_ob fc) p in c_string Arr_slot cells)
    (firstn (Z.to_nat (_o fc)) (_out fc)).

(** The wire format of a payload: [Payload [Checksum] TERM_A TERM_B]. *)
Definition frame (useChecksum : bool) (P : list Z) : list Z :=
  P ++ (if useChecksum then [checkSum P] else []) ++ [MSG_END_A; MSG_END_B].

(** A terminator pair somewhere in a byte sequence. *)
Fixpoint has_term_pair (l : list Z) : bool :=
  match l with
  | [] => false
  | a :: t =>
    match t with
    | [] => false
    | b :: _ => ((a =? MSG_END_A) && (b =? MSG_END_B)) || has_term_pair t
    end
  end.

(** An initialised object on an idle port that can take [cap] bytes. *)
Definition fresh_world (useChecksum : bool) (h : option handler) (cap : Z)
  : World :=
  mkWorld (setMsgHandler h (init useChecksum true FastComms_static))
    (mkSerial [] cap) [].

(** ** Well-formed and reachable states *)

(** The transmit queue as its declarations shape it. *)
Record wf_queue (fc : FastComms) : Prop := mk_wf_queue {
  wf_out : zlen (_out fc) = TX_QUEUE_SIZE;
  wf_ob : zlen (_ob fc) = TX_QUEUE_SIZE;
  wf_slots : Forall (fun s => zlen s = BUFFER_SIZE) (_ob fc);
  wf_obi : 0 <= _obi fc < TX_QUEUE_SIZE;
  wf_o : 0 <= _o fc <= TX_QUEUE_SIZE
}.

(** The states a program can bring the object to: construction, then any
    calls of [init], [setMsgHandler], [sendMsg] and [txrx] ([getMsg] only
    reads), while the port receives bytes and drains its transmit buffer
    in between. *)
Inductive reachable : World -> Prop :=
| reach_new msg inb out ob p :
    zlen msg = BUFFER_SIZE -> zlen inb = BUFFER_SIZE ->
    zlen out = TX_QUEUE_SIZE -> zlen ob = TX_QUEUE_SIZE ->
    Forall (fun s => zlen s = BUFFER_SIZE) ob ->
    reachable (mkWorld (FastComms_new msg inb out ob) p [])
| reach_init w c p :
    reachable w -> reachable (with_this (init c p) w)
| reach_setMsgHandler w h :
    reachable w -> reachable (with_this (setMsgHandler h) w)
| reach_sendMsg w msg r w' :
    reachable w -> app_sendMsg msg w = Ok (r, w') -> reachable w'
| reach_txrx w r w' :
    reachable w -> txrx w = Ok (r, w') -> reachable w'
| reach_port w p :
    reachable w -> reachable (mkWorld (this w) p (log w)).

(** The byte-selection rule of the transmit cursor, as the
    specification words it: with [remaining = total - offset], the
    checksum when 3 remain in checksum mode, [TERM_A] when 2 remain,
    [TERM_B] when 1 remains, else the payload byte at [offset]. *)
Definition selection_rule (useChecksum : bool) (payload : list Z)
  (offset total : Z) : Z :=
  let remaining := total - offset in
  if useChecksum && (remaining =? 3) then checkSum payload
  else if remaining =? 2 then MSG_END_A
  else if remaining =? 1 then MSG_END_B
  else nth (Z.to_nat offset) payload 0.

(** The entries of the queue after the head has left it. *)
Definition shifted (o : Z) (out out' : list ptr) : Prop :=
  zlen out' = zlen out
  /\ forall j, 0 <= j < o - 1 ->
       nth_error out' (Z.to_nat j) = nth_error out (Z.to_nat (j + 1)).

(** ** What an enqueue leaves behind *)

(** A slot once [msg] has been copied into it. *)
Definition slot_with (msg old : list Z) : list Z :=
  cstr msg ++ 0 :: skipn (Z.to_nat (strlen msg + 1)) old.

(** The round-robin successor of a slot index. *)
Definition next_slot (k : Z) : Z :=
  if k <? TX_QUEUE_SIZE - 1 then k + 1 else 0.

(** The object after [msg] has been queued. *)
Definition enqueued (msg : list Z) (fc : FastComms) : FastComms :=
  let k := _obi fc in
  let fc := set_out (list_set (_out fc) (Z.to_nat (_o fc)) (Slot k)) fc in
  let fc := set_ob (list_set (_ob fc) (Z.to_nat k)
                      (slot_with msg (nth (Z.to_nat k) (_ob fc) []))) fc in
  let fc := set_o (_o fc + 1) fc in
  set_obi (next_slot k) fc.

(** The frame length of a payload. *)
Definition total_of (useChecksum : bool) (s : list Z) : Z :=
  zlen s + (if useChecksum then 3 else 2).

(** The head of the queue is slot [k], which holds the string [s]. *)
Definition head_slot (fc : FastComms) (k : Z) (s : list Z) : Prop :=
  load Arr_out (_out fc) 0 = Ok (Slot k)
  /\ (exists rest, load Arr_ob (_ob fc) k = Ok (s ++ 0 :: rest)
                   /\ zlen (s ++ 0 :: rest) = BUFFER_SIZE)
  /\ Forall is_char s.

(** The cursor is at rest, or inside the frame of the head string [s]. *)
Definition cursor_ok (fc : FastComms) (s : list Z) : Prop :=
  (_txb fc = 0 /\ _txlen fc = 0)
  \/ (_txlen fc = total_of (_useChecksum fc) s
      /\ 0 <= _txb fc <= _txlen fc).

(** The bytes read from the port in a log. *)
Definition reads (l : list event) : list Z :=
  flat_map (fun e => match e with EvRead b => [b] | _ => [] end) l.

(** ** Frame boundaries *)

(** The byte [b], stored after the bytes [pre], completes a terminator. *)
Definition boundary (pre : list Z) (b : Z) : bool :=
  match pre with
  | [] => false
  | _ => (last pre 0 =? MSG_END_A) && (b =? MSG_END_B)
  end.

(** The handler call made for the message [m]. *)
Definition handler_events (h : option handler) (m : list Z) : list event :=
  match h with
  | Some f => [EvHandler f m]
  | None => []
  end.

(** The message buffer once the string [s] has been copied into it. *)
Definition msg_with (s old : list Z) : list Z :=
  s ++ 0 :: skipn (Z.to_nat (zlen s + 1)) old.

(** The two generated diagnostics of a checksum failure. *)
Definition bad_checksum_echo (d : list Z) : list Z :=
  bytes_of_string "!" ++ d.

Definition bad_checksum_report (rxsum : Z) : list Z :=
  bytes_of_string "!got [" ++ dec_digits rxsum ++ bytes_of_string "]".

(** ** Quiet states *)

(** A receiver that has nothing to send: the port is set up, the queue
    is empty, no message is flagged and no byte is waiting. *)
Definition rx_idle (w : World) : Prop :=
  _port (this w) = true /\ _o (this w) = 0 /\ _rx (this w) = false
  /\ rx_pending (serial w) = [].

(** A sender that has nothing to receive: the port is set up, the
    receive buffer is not full, no message is flagged and no byte is
    waiting. *)
Definition tx_quiet (w : World) : Prop :=
  _port (this w) = true /\ 0 <= _i (this w) < BUFFER_SIZE
  /\ _rx (this w) = false /\ rx_pending (serial w) = [].

(** The pointers of the queue that are in use, head first. *)
Definition live (fc : FastComms) : list ptr :=
  firstn (Z.to_nat (_o fc)) (_out fc).

(** ** The two ends of a round trip *)

(** A sender in mode [cs] that can take the frame of [P]: quiet, its
    queue empty, its cursor at rest and room in the port for the frame. *)
Definition sender_ready (cs : bool) (P : list Z) (w : World) : Prop :=
  tx_quiet w /\ wf_queue (this w) /\ _o (this w) = 0
  /\ _txb (this w) = 0 /\ _txlen (this w) = 0
  /\ _useChecksum (this w) = cs
  /\ total_of cs P <= tx_free (serial w).

(** A receiver in mode [cs] with handler [h]: idle, its buffers of the
    declared sizes and its input buffer empty. *)
Definition receiver_ready (cs : bool) (h : handler) (w : World) : Prop :=
  rx_idle w /\ zlen (_in (this w)) = BUFFER_SIZE
  /\ zlen (_msg (this w)) = BUFFER_SIZE /\ _i (this w) = 0
  /\ _useChecksum (this w) = cs /\ _msgHandler (this w) = Some h.

(** The longest payload of a mode that the receiver takes without
    leaving a buffer. *)
Definition max_payload (cs : bool) : Z :=
  if cs then BUFFER_SIZE - 4 else BUFFER_SIZE - 2.

(** A log without port traffic. *)
Definition no_port_io (l : list event) : bool :=
  forallb (fun e => negb (is_write e || is_read e)) l.

(** A fault on the inbound buffer [_in]. *)
Definition is_in_fault (f : fault) : bool :=
  match f with
  | OutOfBounds Arr_in _ => true
  | _ => false
  end.

(** What holds of the inbound buffer in every reachable state. *)
Definition inbound_ok (fc : FastComms) : Prop :=
  zlen (_in fc) = BUFFER_SIZE /\ 0 <= _i fc <= BUFFER_SIZE.

(** ** The two sides of the object *)

(** The members that [sendMsg] and the transmit half of [txrx] never
    write, and the members that belong to the transmit queue. *)
Definition rx_side (fc : FastComms) :=
  (_useChecksum fc, _port fc, _msg fc, _in fc, _i fc, _rx fc, _msgHandler fc).

Definition tx_side (fc : FastComms) :=
  (_out fc, _ob fc, _obi fc, _o fc, _txb fc, _txlen fc).

(** What the receive half of one call can have done with a message:
    stored one, flagged it and handed it to the handler, or left the
    message buffer and the flag alone. *)
Definition rx_delivers (w w' : World) : Prop :=
  _rx (this w') = true
  /\ exists m,
       c_string Arr_msg (_msg (this w')) = Ok m
       /\ exists l,
            log w' = log w ++ l
            /\ handled l = handled (handler_events (_msgHandler (this w)) m)
            /\ diagnostics l = [].

Definition rx_keeps (w w' : World) : Prop :=
  _rx (this w') = _rx (this w)
  /\ _msg (this w') = _msg (this w)
  /\ exists l, log w' = log w ++ l /\ handled l = [].

(** ** The transmit queue as a ring of slots *)

(** Slots are handed out round robin.  With [obi] the slot the next
    message will take and [o] entries queued, entry [j] of the queue
    sits in this slot. *)
Definition ring_slot (obi o j : Z) : Z := (obi - o + j) mod TX_QUEUE_SIZE.

(** The cells of slot [k]. *)
Definition slot_cells (fc : FastComms) (k : Z) : list Z :=
  nth (Z.to_nat k) (_ob fc) [].

(** What holds of the transmit queue in every reachable state: the
    queue has its declared shape, its entries point to the last [_o]
    slots handed out, each of them holds a terminated string, and the
    cursor is at rest or inside the frame of the head entry. *)
Record queue_ok (fc : FastComms) : Prop := mk_queue_ok {
  qk_wf : wf_queue fc;
  qk_ring : forall j, 0 <= j < _o fc ->
            nth_error (_out fc) (Z.to_nat j)
            = Some (Slot (ring_slot (_obi fc) (_o fc) j));
  qk_str : forall j, 0 <= j < _o fc ->
           has_nul (slot_cells fc (ring_slot (_obi fc) (_o fc) j)) = true;
  qk_cursor : 0 <= _txb fc <= _txlen fc
              /\ (_txlen fc = 0
                  \/ (0 < _o fc
                      /\ _txlen fc
                         <= strlen (slot_cells fc
                                      (ring_slot (_obi fc) (_o fc) 0)) + 3))
}.

(** What holds of the whole object in every reachable state. *)
Definition state_ok (fc : FastComms) : Prop :=
  inbound_ok fc /\ zlen (_msg fc) = BUFFER_SIZE /\ queue_ok fc.

(** The three accesses outside an array that [txrx] can make. *)
Definition known_fault (f : fault) : Prop :=
  f = OutOfBounds Arr_data (BUFFER_SIZE - 3)
  \/ f = OutOfBounds Arr_sum 10
  \/ f = OutOfBounds Arr_out TX_QUEUE_SIZE.

(** ** Emptying the queue *)

(** The bytes that a queue holding the strings [ss] puts on the wire,
    and the calls of [txrx] that this takes: one for every frame byte
    and one more for every entry, to take it off the queue. *)
Definition wire (cs : bool) (ss : list (list Z)) : list Z :=
  flat_map (frame cs) ss.

Definition drain_ticks (cs : bool) (ss : list (list Z)) : nat :=
  fold_right (fun s n => (List.length (frame cs s) + 1 + n)%nat) O ss.

(** ** A receiver that is also sending *)

(** The port is set up, no message is flagged, no byte is waiting, and
    the transmit queue is in order and not full.  The queue may hold
    entries and the cursor may be anywhere in the head frame. *)
Definition listening (w : World) : Prop :=
  _port (this w) = true /\ _rx (this w) = false
  /\ rx_pending (serial w) = []
  /\ queue_ok (this w) /\ _o (this w) < TX_QUEUE_SIZE.

(** A listening object between two frames: its buffers have their
    declared sizes and its input buffer is empty. *)
Definition between_frames (w : World) : Prop :=
  listening w
  /\ zlen (_in (this w)) = BUFFER_SIZE /\ zlen (_msg (this w)) = BUFFER_SIZE
  /\ _i (this w) = 0.

(** A payload that a receiver in mode [cs] takes as one frame. *)
Definition valid_payload (cs : bool) (P : list Z) : Prop :=
  Forall is_char P /\ zlen P <= max_payload cs
  /\ has_term_pair (P ++ (if cs then [checkSum P] else [])) = false.

(** What the calls of [txrx] return while the frame of [P] arrives. *)
Definition frame_results (cs : bool) (P : list Z) : list bool :=
  repeat false (List.length (frame cs P) - 1) ++ [true].

(** The handler calls made for the messages [Ps]. *)
Definition handler_calls (h : option handler) (Ps : list (list Z))
  : list (handler * list Z) :=
  match h with
  | Some f => map (fun P => (f, P)) Ps
  | None => []
  end.

(** What a frame leaves behind: the bytes [bs] have been read, the
    message [m] is in the message buffer and has been handed to the
    handler, if there is one; the mode and the handler are what they
    were, nothing was enqueued and the queue has not grown. *)
Definition frame_taken (w w' : World) (m bs : list Z) : Prop :=
  _useChecksum (this w') = _useChecksum (this w)
  /\ _msgHandler (this w') = _msgHandler (this w)
  /\ cstr (getMsg (this w')) = m
  /\ _o (this w') <= _o (this w)
  /\ handled (log w')
     = handled (log w) ++ handler_calls (_msgHandler (this w)) [m]
  /\ diagnostics (log w') = diagnostics (log w)
  /\ reads (log w') = reads (log w) ++ bs.

(** ** A sender under back-pressure *)

(** A sender to which nothing arrives: its queue holds the strings
    [ss], fewer than [TX_QUEUE_SIZE] of them, and its cursor is at rest
    or inside the frame of the first. *)
Definition sending (w : World) (ss : list (list Z)) : Prop :=
  tx_quiet w /\ queue_ok (this w) /\ _o (this w) < TX_QUEUE_SIZE
  /\ queued (this w) = map Ok ss /\ Forall (Forall is_char) ss
  /\ cursor_ok (this w) (hd [] ss)
  /\ 0 <= tx_free (serial w).

(** The bytes of the queue [ss] that are still to be written. *)
Definition outstanding (w : World) (ss : list (list Z)) : list Z :=
  skipn (Z.to_nat (_txb (this w))) (wire (_useChecksum (this w)) ss).

(** ** Facts about strings *)

Lemma cstr_chars (P : list Z) : Forall is_char P -> cstr P = P.
Proof.
  induction 1 as [|c P Hc _ IH]; simpl; [reflexivity|].
  unfold is_char in Hc.
  destruct (Z.eqb_spec c 0); [lia | now rewrite IH].
Qed.

Lemma cstr_idem (m : list Z) : cstr (cstr m) = cstr m.
Proof.
  induction m as [|c m IH]; simpl; [reflexivity|].
  destruct (Z.eqb_spec c 0) as [E|E]; simpl; [reflexivity|].
  destruct (Z.eqb_spec c 0); [contradiction | now rewrite IH].
Qed.

(** ** The checksum is the byte sum modulo 256 *)

Lemma u8_int_of_char (s c : Z) : u8 (s + int_of_char c) = u8 (s + c).
Proof.
  unfold u8, int_of_char. destruct (c <? 128); [reflexivity|].
  replace (s + (c - 256)) with (s + c + (-1) * 256) by lia.
  apply Z.mod_add. lia.
Qed.

Lemma checkSum_fold (l : list Z) (acc : Z) :
  fold_left (fun sum c => u8 (sum + int_of_char c)) l (u8 acc)
  = u8 (acc + byte_sum l).
Proof.
  revert acc. induction l as [|c l IH]; intros acc; simpl.
  - now rewrite Z.add_0_r.
  - rewrite u8_int_of_char.
    replace (u8 (u8 acc + c)) with (u8 (acc + c)).
    + rewrite IH. f_equal. lia.
    + unfold u8. now rewrite Zplus_mod_idemp_l.
Qed.

Lemma checkSum_cstr (m : list Z) : checkSum m = byte_sum (cstr m) mod 256.
Proof.
  unfold checkSum. change 0 with (u8 0) at 1. now rewrite checkSum_fold.
Qed.

Lemma checkSum_range (m : list Z) : 0 <= checkSum m < 256.
Proof. rewrite checkSum_cstr. apply Z.mod_pos_bound. lia. Qed.


(** ** Facts about arrays *)

Lemma zlen_nonneg {A} (l : list A) : 0 <= zlen l.
Proof. unfold zlen. lia. Qed.

Lemma zlen_nil {A} : zlen (@nil A) = 0.
Proof. reflexivity. Qed.

Lemma zlen_cons {A} (x : A) (l : list A) : zlen (x :: l) = zlen l + 1.
Proof. unfold zlen. simpl. lia. Qed.

Lemma zlen_app {A} (l1 l2 : list A) : zlen (l1 ++ l2) = zlen l1 + zlen l2.
Proof. unfold zlen. rewrite length_app. lia. Qed.

Lemma zlen_repeat {A} (x : A) (n : nat) : zlen (repeat x n) = Z.of_nat n.
Proof. unfold zlen. now rewrite repeat_length. Qed.

Lemma to_nat_zlen {A} (l : list A) : Z.to_nat (zlen l) = List.length l.
Proof. unfold zlen. lia. Qed.

Lemma list_set_length {A} (l : list A) (n : nat) (x : A) :
  List.length (list_set l n x) = List.length l.
Proof.
  revert n. induction l as [|h t IH]; intros [|n]; simpl; auto.
Qed.

Lemma list_set_app {A} (pre : list A) (y x : A) (rest : list A) :
  list_set (pre ++ y :: rest) (List.length pre) x = pre ++ x :: rest.
Proof. induction pre as [|h t IH]; simpl; [reflexivity | now rewrite IH]. Qed.

Lemma zlen_list_set {A} (l : list A) (n : nat) (x : A) :
  zlen (list_set l n x) = zlen l.
Proof. unfold zlen. now rewrite list_set_length. Qed.

Lemma in_range_true {A} (l : list A) (i : Z) :
  0 <= i < zlen l -> in_range l i = true.
Proof.
  intros H. unfold in_range.
  apply andb_true_intro. split; [apply Z.leb_le | apply Z.ltb_lt]; lia.
Qed.

Lemma load_app {A} (a : array_id) (pre : list A) (x : A) (rest : list A) (i : Z) :
  i = zlen pre -> load a (pre ++ x :: rest) i = Ok x.
Proof.
  intros ->. unfold load.
  rewrite in_range_true.
  - rewrite to_nat_zlen, nth_error_app2, Nat.sub_diag by lia. reflexivity.
  - rewrite zlen_app, zlen_cons. pose proof (zlen_nonneg pre).
    pose proof (zlen_nonneg rest). lia.
Qed.

Lemma store_app {A} (a : array_id) (pre : list A) (y x : A) (rest : list A) (i : Z) :
  i = zlen pre -> store a (pre ++ y :: rest) i x = Ok (pre ++ x :: rest).
Proof.
  intros ->. unfold store.
  rewrite in_range_true.
  - now rewrite to_nat_zlen, list_set_app.
  - rewrite zlen_app, zlen_cons. pose proof (zlen_nonneg pre).
    pose proof (zlen_nonneg rest). lia.
Qed.

Lemma load_Ok {A} (a : array_id) (l : list A) (i : Z) :
  0 <= i < zlen l -> exists x, load a l i = Ok x
                               /\ nth_error l (Z.to_nat i) = Some x.
Proof.
  intros H. unfold load. rewrite in_range_true by assumption.
  destruct (nth_error l (Z.to_nat i)) as [x|] eqn:E.
  - now exists x.
  - apply nth_error_None in E. unfold zlen in H. lia.
Qed.

Lemma load_inv {A} (a : array_id) (l : list A) (i : Z) (x : A) :
  load a l i = Ok x -> 0 <= i < zlen l /\ nth_error l (Z.to_nat i) = Some x.
Proof.
  unfold load, in_range.
  destruct (Z.leb_spec 0 i), (Z.ltb_spec i (zlen l)); simpl; try discriminate.
  destruct (nth_error l (Z.to_nat i)); [|discriminate].
  intros [= ->]. split; [lia | reflexivity].
Qed.

Lemma store_Ok {A} (a : array_id) (l : list A) (i : Z) (x : A) :
  0 <= i < zlen l -> store a l i x = Ok (list_set l (Z.to_nat i) x).
Proof. intros H. unfold store. now rewrite in_range_true. Qed.

Lemma store_inv {A} (a : array_id) (l l' : list A) (i : Z) (x : A) :
  store a l i x = Ok l' ->
  0 <= i < zlen l /\ l' = list_set l (Z.to_nat i) x /\ zlen l' = zlen l.
Proof.
  unfold store, in_range.
  destruct (Z.leb_spec 0 i), (Z.ltb_spec i (zlen l)); simpl; try discriminate.
  intros [= <-]. rewrite zlen_list_set. repeat split; lia.
Qed.

Lemma bind_Ok {A B} (r : res A) (k : A -> res B) (y : B) :
  bind r k = Ok y -> exists x, r = Ok x /\ k x = Ok y.
Proof. destruct r as [x|f]; simpl; [eauto | discriminate]. Qed.

Lemma bind_Fault {A B} (r : res A) (k : A -> res B) (f : fault) :
  bind r k = Fault f -> r = Fault f \/ exists x, r = Ok x /\ k x = Fault f.
Proof. destruct r as [x|g]; simpl; [eauto | intros [= ->]; auto]. Qed.

Lemma u8_small (x : Z) : 0 <= x < 256 -> u8 x = x.
Proof. intros H. unfold u8. now apply Z.mod_small. Qed.

(** ** Facts about strings in arrays *)

Lemma cstr_app_zero (l rest : list Z) : cstr (l ++ 0 :: rest) = cstr l.
Proof.
  induction l as [|c l IH]; simpl; [reflexivity|].
  destruct (c =? 0); [reflexivity | now rewrite IH].
Qed.

Lemma has_nul_app_zero (l rest : list Z) : has_nul (l ++ 0 :: rest) = true.
Proof.
  unfold has_nul. rewrite existsb_app. simpl. apply orb_true_r.
Qed.

Lemma zlen_cstr_le (m : list Z) : zlen (cstr m) <= zlen m.
Proof.
  induction m as [|c m IH]; simpl; [lia|].
  destruct (c =? 0); rewrite ?zlen_cons, ?zlen_nil;
    pose proof (zlen_nonneg m); lia.
Qed.

Lemma is_char_byte (l : list Z) : Forall is_char l -> Forall is_byte l.
Proof.
  apply Forall_impl. unfold is_char, is_byte. intros; lia.
Qed.

Lemma c_string_app_zero (a : array_id) (s rest : list Z) :
  Forall is_char s -> c_string a (s ++ 0 :: rest) = Ok s.
Proof.
  intros H. unfold c_string.
  now rewrite has_nul_app_zero, cstr_app_zero, cstr_chars.
Qed.

Lemma firstn_zlen_all {A} (l : list A) (n : Z) :
  zlen l <= n -> firstn (Z.to_nat n) l = l.
Proof. intros H. apply firstn_all2. unfold zlen in H. lia. Qed.

(** ** [sendMsg] *)

Ltac rsimpl :=
  cbv [set_useChecksum set_port set_msg set_in set_i set_rx set_msgHandler
       set_out set_ob set_obi set_o set_txb set_txlen with_this emit
       this serial log rx_pending tx_free
       _useChecksum _port _msg _in _i _rx _msgHandler _out _ob _obi _o
       _txb _txlen].

Ltac rsimpl_in_all :=
  cbv [set_useChecksum set_port set_msg set_in set_i set_rx set_msgHandler
       set_out set_ob set_obi set_o set_txb set_txlen with_this emit
       this serial log rx_pending tx_free
       _useChecksum _port _msg _in _i _rx _msgHandler _out _ob _obi _o
       _txb _txlen] in *.

Lemma sendMsg_full (msg : list Z) (fc : FastComms) :
  TX_QUEUE_SIZE <= _o fc -> sendMsg msg fc = Ok (-1, fc).
Proof.
  intros H. unfold sendMsg.
  destruct (Z.ltb_spec (_o fc) TX_QUEUE_SIZE); [lia | reflexivity].
Qed.

Lemma sendMsg_too_large (msg : list Z) (fc : FastComms) :
  _o fc < TX_QUEUE_SIZE -> BUFFER_SIZE <= strlen msg < 256 ->
  sendMsg msg fc = Ok (-2, fc).
Proof.
  intros Ho Hl. unfold sendMsg.
  destruct (Z.ltb_spec (_o fc) TX_QUEUE_SIZE); [|lia].
  rewrite u8_small by (unfold BUFFER_SIZE in Hl; lia).
  destruct (Z.ltb_spec (strlen msg) BUFFER_SIZE); [lia | reflexivity].
Qed.

Lemma strncat_fresh (s0 msg : list Z) :
  zlen s0 = BUFFER_SIZE -> strlen msg < BUFFER_SIZE ->
  (let? s1 := store Arr_slot s0 0 0 in
   strncat Arr_slot s1 msg (BUFFER_SIZE - 1)) = Ok (slot_with msg s0).
Proof.
  intros Hs Hl. destruct s0 as [|c s0]; [discriminate|].
  rewrite zlen_cons in Hs. unfold BUFFER_SIZE in *.
  unfold store. rewrite (in_range_true (c :: s0) 0).
  2:{ rewrite zlen_cons. lia. }
  cbn [bind Z.to_nat list_set]. unfold strncat, c_string.
  cbn [has_nul existsb Z.eqb orb bind cstr zlen List.length Z.of_nat].
  unfold strlen in Hl.
  rewrite firstn_zlen_all by lia.
  unfold write_at. rewrite !zlen_app, !zlen_cons.
  change (zlen (@nil Z)) with 0.
  destruct (Z.leb_spec (0 + (zlen (cstr msg) + (0 + 1))) (zlen s0 + 1)); [|lia].
  unfold slot_with, strlen. cbn [Z.to_nat firstn app].
  rewrite <- app_assoc. cbn [app]. do 2 f_equal.
  pose proof (zlen_nonneg (cstr msg)).
  replace (Z.to_nat (0 + (zlen (cstr msg) + (0 + 1))))
    with (S (Z.to_nat (zlen (cstr msg)))) by lia.
  replace (Z.to_nat (zlen (cstr msg) + 1))
    with (S (Z.to_nat (zlen (cstr msg)))) by lia.
  reflexivity.
Qed.

Lemma sendMsg_ok (msg : list Z) (fc : FastComms) :
  wf_queue fc -> _o fc < TX_QUEUE_SIZE -> strlen msg < BUFFER_SIZE ->
  sendMsg msg fc = Ok (1, enqueued msg fc).
Proof.
  intros [Hout Hob Hsl Hobi Ho] Hlt Hl. unfold sendMsg.
  destruct (Z.ltb_spec (_o fc) TX_QUEUE_SIZE); [|lia].
  assert (0 <= strlen msg) by apply zlen_nonneg.
  rewrite u8_small by (unfold BUFFER_SIZE in Hl; lia).
  destruct (Z.ltb_spec (strlen msg) BUFFER_SIZE); [|lia].
  cbv zeta.
  rewrite store_Ok by lia. cbn [bind deref deref_store].
  destruct (load_Ok Arr_ob (_ob fc) (_obi fc)) as (s0 & E0 & N0); [lia|].
  rewrite E0. cbn [bind].
  assert (Hs0 : zlen s0 = BUFFER_SIZE).
  { rewrite Forall_forall in Hsl. apply Hsl. eapply nth_error_In; eauto. }
  pose proof (strncat_fresh s0 msg Hs0 Hl) as E1.
  destruct (store Arr_slot s0 0 0) as [s1|]; [|discriminate].
  cbn [bind] in *. rewrite E1. cbn [bind].
  rewrite store_Ok by lia. cbn [bind].
  unfold enqueued, next_slot. rewrite (nth_error_nth _ _ _ N0).
  destruct fc as [cs pt msg0 inb i rx hd out ob obi o txb txlen]; rsimpl_in_all.
  rewrite !u8_small by (unfold TX_QUEUE_SIZE in *; lia).
  destruct (obi <? TX_QUEUE_SIZE - 1); reflexivity.
Qed.

(** ** The transmit half *)

Lemma load_app_l (a : array_id) (s rest : list Z) (i : Z) :
  0 <= i < zlen s ->
  load a (s ++ rest) i = Ok (nth (Z.to_nat i) s 0).
Proof.
  intros H. unfold load. rewrite in_range_true.
  - assert (L : (Z.to_nat i < List.length s)%nat) by (unfold zlen in H; lia).
    rewrite nth_error_app1 by assumption.
    now rewrite (nth_error_nth' s 0 L).
  - rewrite zlen_app. pose proof (zlen_nonneg rest). lia.
Qed.

Lemma head_slot_len (fc : FastComms) (k : Z) (s : list Z) :
  head_slot fc k s -> 0 <= zlen s < BUFFER_SIZE.
Proof.
  intros (_ & (rest & _ & L) & _). rewrite zlen_app, zlen_cons in L.
  pose proof (zlen_nonneg s). pose proof (zlen_nonneg rest). lia.
Qed.

Lemma total_of_range (cs : bool) (s : list Z) :
  0 <= zlen s < BUFFER_SIZE -> 2 <= total_of cs s < 256.
Proof. unfold total_of, BUFFER_SIZE. destruct cs; lia. Qed.

Lemma tx_start_rest (fc : FastComms) (k : Z) (s : list Z) :
  head_slot fc k s -> _txb fc = 0 -> _txlen fc = 0 ->
  tx_start fc = Ok (set_txlen (total_of (_useChecksum fc) s) fc).
Proof.
  intros Hh Hb Hl. pose proof (head_slot_len _ _ _ Hh) as Hs.
  destruct Hh as (Eo & (rest & Es & L) & Hc).
  unfold tx_start. rewrite Hb, Hl. cbn [Z.eqb andb].
  rewrite Eo. cbn [bind deref]. rewrite Es. cbn [bind].
  rewrite c_string_app_zero by assumption. cbn [bind].
  fold (total_of (_useChecksum fc) s).
  rewrite u8_small; [reflexivity|].
  pose proof (total_of_range (_useChecksum fc) s Hs). lia.
Qed.

Lemma tx_start_busy (fc : FastComms) :
  ~ (_txb fc = 0 /\ _txlen fc = 0) -> tx_start fc = Ok fc.
Proof.
  intros H. unfold tx_start.
  destruct (Z.eqb_spec (_txb fc) 0), (Z.eqb_spec (_txlen fc) 0);
    cbn [andb]; auto. tauto.
Qed.

Lemma tx_select_rule (fc : FastComms) (k : Z) (s : list Z) :
  head_slot fc k s ->
  _txlen fc = total_of (_useChecksum fc) s ->
  0 <= _txb fc < _txlen fc ->
  tx_select fc
  = Ok (Some (selection_rule (_useChecksum fc) s (_txb fc) (_txlen fc))).
Proof.
  intros Hh Hl Hb. pose proof (head_slot_len _ _ _ Hh) as Hs.
  pose proof (total_of_range (_useChecksum fc) s Hs) as Ht.
  destruct Hh as (Eo & (rest & Es & L) & Hc).
  unfold tx_select, selection_rule, tx_checksum, tx_payload_byte.
  rewrite Eo. cbn [bind deref]. rewrite Es. cbn [bind].
  rewrite c_string_app_zero by assumption. cbn [bind].
  rewrite u8_small by lia.
  unfold total_of in *.
  destruct (_useChecksum fc); cbn [andb].
  - destruct (Z.leb_spec (_txlen fc - _txb fc) 3).
    + destruct (Z.eqb_spec (_txlen fc - _txb fc) 3); [reflexivity|].
      destruct (Z.eqb_spec (_txlen fc - _txb fc) 2); [reflexivity|].
      destruct (Z.eqb_spec (_txlen fc - _txb fc) 1); [reflexivity|lia].
    + destruct (Z.eqb_spec (_txlen fc - _txb fc) 3); [lia|].
      destruct (Z.eqb_spec (_txlen fc - _txb fc) 2); [lia|].
      destruct (Z.eqb_spec (_txlen fc - _txb fc) 1); [lia|].
      rewrite load_app_l by lia. reflexivity.
  - destruct (Z.leb_spec (_txlen fc - _txb fc) 2).
    + destruct (Z.eqb_spec (_txlen fc - _txb fc) 2); [reflexivity|].
      destruct (Z.eqb_spec (_txlen fc - _txb fc) 1); [reflexivity|lia].
    + destruct (Z.eqb_spec (_txlen fc - _txb fc) 2); [lia|].
      destruct (Z.eqb_spec (_txlen fc - _txb fc) 1); [lia|].
      rewrite load_app_l by lia. reflexivity.
Qed.

(** The selected byte is the byte of the frame at the cursor. *)
Lemma selection_rule_frame (cs : bool) (s : list Z) (j : Z) :
  0 <= j < total_of cs s ->
  selection_rule cs s j (total_of cs s) = nth (Z.to_nat j) (frame cs s) 0.
Proof.
  intros H. unfold selection_rule, frame, total_of in *.
  pose proof (zlen_nonneg s) as Hs.
  assert (Z.to_nat j = Z.to_nat j) by reflexivity.
  destruct cs; cbn [andb].
  - destruct (Z.eqb_spec (zlen s + 3 - j) 3).
    + replace j with (zlen s) by lia. rewrite to_nat_zlen.
      rewrite app_nth2, Nat.sub_diag by lia. reflexivity.
    + destruct (Z.eqb_spec (zlen s + 3 - j) 2).
      * replace (Z.to_nat j) with (List.length s + 1)%nat by (unfold zlen in *; lia).
        rewrite app_nth2 by lia.
        replace (List.length s + 1 - List.length s)%nat with 1%nat by lia.
        reflexivity.
      * destruct (Z.eqb_spec (zlen s + 3 - j) 1).
        -- replace (Z.to_nat j) with (List.length s + 2)%nat by (unfold zlen in *; lia).
           rewrite app_nth2 by lia.
           replace (List.length s + 2 - List.length s)%nat with 2%nat by lia.
           reflexivity.
        -- rewrite app_nth1 by (unfold zlen in *; lia). reflexivity.
  - destruct (Z.eqb_spec (zlen s + 2 - j) 2).
    + replace j with (zlen s) by lia. rewrite to_nat_zlen.
      rewrite app_nth2, Nat.sub_diag by lia. reflexivity.
    + destruct (Z.eqb_spec (zlen s + 2 - j) 1).
      * replace (Z.to_nat j) with (List.length s + 1)%nat by (unfold zlen in *; lia).
        rewrite app_nth2 by lia.
        replace (List.length s + 1 - List.length s)%nat with 1%nat by lia.
        reflexivity.
      * rewrite app_nth1 by (unfold zlen in *; lia). reflexivity.
Qed.

Lemma zlen_frame (cs : bool) (s : list Z) : zlen (frame cs s) = total_of cs s.
Proof.
  unfold frame, total_of. rewrite !zlen_app.
  destruct cs; rewrite ?zlen_cons; change (zlen (@nil Z)) with 0; lia.
Qed.

Lemma nth_is_byte (s : list Z) (n : nat) :
  Forall is_char s -> is_byte (nth n s 0).
Proof.
  intros H. revert n. induction H as [|c s Hc _ IH]; intros [|n]; simpl;
    unfold is_byte, is_char in *; try lia. apply IH.
Qed.

Lemma selection_rule_byte (cs : bool) (s : list Z) (j t : Z) :
  Forall is_char s -> is_byte (selection_rule cs s j t).
Proof.
  intros H. unfold selection_rule.
  destruct (cs && (t - j =? 3)); [apply checkSum_range|].
  destruct (t - j =? 2); [unfold is_byte, MSG_END_A; lia|].
  destruct (t - j =? 1); [unfold is_byte, MSG_END_B; lia|].
  now apply nth_is_byte.
Qed.

(** The transmit half with bytes left to send: one byte goes out. *)
Lemma tx_section_write (w : World) (k : Z) (s : list Z) :
  let fc := this w in
  let total := total_of (_useChecksum fc) s in
  0 < _o fc -> head_slot fc k s -> 0 < tx_free (serial w) ->
  (_txb fc = 0 /\ _txlen fc = 0) \/ (_txlen fc = total /\ 0 <= _txb fc < total) ->
  tx_section w
  = Ok (mkWorld (set_txb (_txb fc + 1) (set_txlen total fc))
          (mkSerial (rx_pending (serial w)) (tx_free (serial w) - 1))
          (log w ++ [EvWrite (selection_rule (_useChecksum fc) s (_txb fc) total)])).
Proof.
  intros fc total Ho Hh Hf Hc.
  pose proof (head_slot_len _ _ _ Hh) as Hs.
  pose proof (total_of_range (_useChecksum fc) s Hs) as Ht. fold total in Ht.
  unfold tx_section. fold fc.
  destruct (Z.ltb_spec 0 (_o fc)); [|lia].
  assert (E : tx_start fc = Ok (set_txlen total fc)).
  { destruct Hc as [[Hb Hl] | [Hl Hb]].
    - now apply tx_start_rest with k.
    - rewrite tx_start_busy by lia. rewrite <- Hl. now destruct fc. }
  rewrite E. cbn [bind].
  assert (Hb : 0 <= _txb fc < total) by lia.
  replace (_txb (set_txlen total fc)) with (_txb fc) by reflexivity.
  replace (_txlen (set_txlen total fc)) with total by reflexivity.
  destruct (Z.ltb_spec (_txb fc) total); [|lia].
  unfold availableForWrite. cbn [serial].
  destruct (Z.ltb_spec 0 (tx_free (serial w))); [|lia].
  rewrite (tx_select_rule (set_txlen total fc) k s);
    [| exact Hh | reflexivity | exact Hb].
  cbn [bind]. unfold port_write.
  replace (_txb (set_txlen total fc)) with (_txb fc) by reflexivity.
  replace (_txlen (set_txlen total fc)) with total by reflexivity.
  replace (_useChecksum (set_txlen total fc)) with (_useChecksum fc)
    by reflexivity.
  rewrite (u8_small (selection_rule _ _ _ _))
    by (apply selection_rule_byte, Hh).
  rewrite u8_small by lia.
  destruct w as [fc0 [rxp txf] lg]. subst fc. destruct fc0. reflexivity.
Qed.
Lemma nth_error_list_set_eq {A} (l : list A) (n : nat) (x : A) :
  (n < List.length l)%nat -> nth_error (list_set l n x) n = Some x.
Proof.
  revert n. induction l as [|h t IH]; intros [|n] H; simpl in *;
    try lia; [reflexivity | apply IH; lia].
Qed.

Lemma nth_error_list_set_neq {A} (l : list A) (n m : nat) (x : A) :
  n <> m -> nth_error (list_set l n x) m = nth_error l m.
Proof.
  revert n m. induction l as [|h t IH]; intros [|n] [|m] H; simpl;
    try reflexivity; try lia. apply IH. lia.
Qed.

Lemma tx_shift_spec (n : nat) : forall (m : Z) (out : list ptr),
  1 <= m -> m + Z.of_nat n <= zlen out ->
  exists out',
    tx_shift n m out = Ok out'
    /\ zlen out' = zlen out
    /\ (forall j, m - 1 <= j < m - 1 + Z.of_nat n ->
          nth_error out' (Z.to_nat j) = nth_error out (Z.to_nat (j + 1)))
    /\ (forall j, 0 <= j -> j < m - 1 \/ m - 1 + Z.of_nat n <= j ->
          nth_error out' (Z.to_nat j) = nth_error out (Z.to_nat j)).
Proof.
  induction n as [|n IH]; intros m out Hm Hn.
  - exists out. cbn [tx_shift]. repeat split; auto. intros; lia.
  - cbn [tx_shift].
    destruct (load_Ok Arr_out out m) as (p & Ep & Np); [lia|].
    rewrite Ep. cbn [bind]. rewrite store_Ok by lia. cbn [bind].
    set (out1 := list_set out (Z.to_nat (m - 1)) p).
    assert (L1 : zlen out1 = zlen out) by apply zlen_list_set.
    destruct (IH (m + 1) out1) as (out' & E & L & Hs & Hk); [lia | lia |].
    exists out'. split; [exact E|]. split; [lia|]. split.
    + intros j Hj. destruct (Z.eq_dec j (m - 1)) as [->|Hne].
      * rewrite Hk by lia. unfold out1.
        rewrite nth_error_list_set_eq by (unfold zlen in *; lia).
        now replace (m - 1 + 1) with m by lia.
      * rewrite Hs by lia. unfold out1.
        apply nth_error_list_set_neq. lia.
    + intros j Hj0 Hj. rewrite Hk by lia. unfold out1.
      apply nth_error_list_set_neq. lia.
Qed.

(** A dequeue from a full queue reads [_out[TX_QUEUE_SIZE]]. *)
Lemma tx_dequeue_full (fc : FastComms) :
  _o fc = TX_QUEUE_SIZE -> zlen (_out fc) = TX_QUEUE_SIZE ->
  tx_dequeue fc = Fault (OutOfBounds Arr_out TX_QUEUE_SIZE).
Proof.
  intros Ho Hl. unfold tx_dequeue. rewrite Ho.
  destruct (_out fc) as [|a [|b [|c [|d [|e t]]]]]; try discriminate.
  - reflexivity.
  - exfalso. rewrite !zlen_cons in Hl. pose proof (zlen_nonneg t).
    unfold TX_QUEUE_SIZE in Hl. lia.
Qed.

Lemma tx_dequeue_ok (fc : FastComms) :
  0 < _o fc < TX_QUEUE_SIZE -> zlen (_out fc) = TX_QUEUE_SIZE ->
  exists out',
    tx_dequeue fc
    = Ok (set_txb 0 (set_txlen 0 (set_o (_o fc - 1) (set_out out' fc))))
    /\ shifted (_o fc) (_out fc) out'.
Proof.
  intros Ho Hl. unfold tx_dequeue.
  destruct (tx_shift_spec (Z.to_nat (_o fc)) 1 (_out fc))
    as (out' & E & L & Hs & _); [lia | lia |].
  exists out'. rewrite E. cbn [bind]. split.
  - replace (_o (set_out out' fc)) with (_o fc) by reflexivity.
    rewrite u8_small by (unfold TX_QUEUE_SIZE in *; lia). reflexivity.
  - split; [exact L|]. intros j Hj. apply Hs. lia.
Qed.

(** The transmit half with the frame of the head entry sent: the entry
    leaves the queue and nothing is written. *)
Lemma tx_section_dequeue (w : World) :
  let fc := this w in
  0 < _o fc < TX_QUEUE_SIZE -> zlen (_out fc) = TX_QUEUE_SIZE ->
  0 < _txlen fc -> _txlen fc <= _txb fc ->
  exists out',
    tx_section w
    = Ok (mkWorld (set_txb 0 (set_txlen 0 (set_o (_o fc - 1) (set_out out' fc))))
            (serial w) (log w))
    /\ shifted (_o fc) (_out fc) out'.
Proof.
  intros fc Ho Hl Ht Hb. unfold tx_section. fold fc.
  destruct (Z.ltb_spec 0 (_o fc)); [|lia].
  rewrite tx_start_busy by lia. cbn [bind].
  destruct (Z.ltb_spec (_txb fc) (_txlen fc)); [lia|].
  destruct (tx_dequeue_ok fc Ho Hl) as (out' & E & S).
  exists out'. rewrite E. split; [reflexivity | exact S].
Qed.

Lemma tx_section_idle (w : World) : _o (this w) = 0 -> tx_section w = Ok w.
Proof. intros H. unfold tx_section. now rewrite H. Qed.

(** ** The receive half *)

Lemma load_last (a : array_id) (pre rest : list Z) :
  pre <> [] -> load a (pre ++ rest) (zlen pre - 1) = Ok (last pre 0).
Proof.
  intros H. rewrite (app_removelast_last 0 H) at 1 2.
  rewrite <- app_assoc. cbn [app]. apply load_app.
  rewrite zlen_app, zlen_cons. change (zlen (@nil Z)) with 0. lia.
Qed.

Lemma txrx_unfold (w : World) :
  _port (this w) = true ->
  txrx w = (let? w1 := rx_section w in
            let? w2 := tx_section w1 in
            if _rx (this w2) then Ok (true, with_this (set_rx false) w2)
            else Ok (false, w2)).
Proof. intros H. unfold txrx. now rewrite H. Qed.

Lemma rx_byte_head (w : World) (b : Z) :
  rx_pending (serial w) = [] ->
  rx_byte (arrive b w)
  = (let w := mkWorld (this w) (serial w) (log w ++ [EvRead b]) in
     let fc := this w in
     let? inb := store Arr_in (_in fc) (_i fc) (u8 b) in
     let w := with_this (set_in inb) w in
     let fc := this w in
     let? c := load Arr_in (_in fc) (_i fc) in
     if (0 <? _i fc) && (c =? MSG_END_B) then
       let? prev := load Arr_in (_in fc) (_i fc - 1) in
       if prev =? MSG_END_A then
         let? w :=
           if _useChecksum fc && (2 <? _i fc) then rx_checksummed w
           else rx_plain w in
         Ok (with_this (set_i 0) w)
       else Ok (with_this (set_i (u8 (_i fc + 1))) w)
     else Ok (with_this (set_i (u8 (_i fc + 1))) w)).
Proof.
  intros H. destruct w as [fc [rxp txf] lg]. cbn in H. subst rxp.
  reflexivity.
Qed.

Lemma rx_section_arrive (w : World) (b : Z) :
  _i (this w) < BUFFER_SIZE ->
  rx_section (arrive b w) = rx_byte (arrive b w).
Proof.
  intros H. unfold rx_section.
  replace (_i (this (arrive b w))) with (_i (this w)) by reflexivity.
  destruct (Z.ltb_spec (_i (this w)) BUFFER_SIZE); [|lia].
  unfold available, arrive. cbn [serial rx_pending].
  rewrite zlen_app, zlen_cons. change (zlen (@nil Z)) with 0.
  pose proof (zlen_nonneg (rx_pending (serial w))).
  destruct (Z.ltb_spec 0 (zlen (rx_pending (serial w)) + (0 + 1))); [|lia].
  reflexivity.
Qed.

(** A byte that completes no terminator is stored and the index moves on. *)
Lemma rx_section_store (w : World) (pre : list Z) (y : Z) (rest : list Z) (b : Z) :
  _in (this w) = pre ++ y :: rest -> _i (this w) = zlen pre ->
  zlen pre < BUFFER_SIZE -> rx_pending (serial w) = [] ->
  is_byte b -> boundary pre b = false ->
  rx_section (arrive b w)
  = Ok (mkWorld (set_i (zlen pre + 1) (set_in (pre ++ b :: rest) (this w)))
          (serial w) (log w ++ [EvRead b])).
Proof.
  intros Hin Hi Hlt Hp Hb Hnb.
  rewrite rx_section_arrive by lia. rewrite rx_byte_head by assumption.
  destruct w as [[cs pt msg0 inb i rx hd out ob obi o txb txlen] sp lg].
  rsimpl_in_all. subst inb i.
  rewrite (u8_small b Hb), store_app by reflexivity. cbn [bind].
  rewrite load_app by reflexivity. cbn [bind].
  pose proof (zlen_nonneg pre) as Hp0.
  rewrite (u8_small (zlen pre + 1)) by (unfold BUFFER_SIZE in *; lia).
  destruct (Z.ltb_spec 0 (zlen pre)); cbn [andb]; [|reflexivity].
  destruct (Z.eqb_spec b MSG_END_B) as [->|]; [|reflexivity].
  assert (Hne : pre <> []) by (intros ->; cbn in *; lia).
  replace (pre ++ MSG_END_B :: rest) with (pre ++ (MSG_END_B :: rest)) by reflexivity.
  rewrite load_last by assumption. cbn [bind].
  unfold boundary in Hnb. destruct pre as [|p0 pre']; [congruence|].
  rewrite Z.eqb_refl, andb_true_r in Hnb. rewrite Hnb. reflexivity.
Qed.

Lemma cstr_cstr_app_zero (m rest : list Z) : cstr (cstr m ++ 0 :: rest) = cstr m.
Proof. now rewrite cstr_app_zero, cstr_idem. Qed.

Lemma strcpy_ok (a : array_id) (dst s : list Z) :
  zlen s + 1 <= zlen dst -> strcpy a dst s = Ok (msg_with s dst).
Proof.
  intros H. unfold strcpy, write_at, msg_with.
  rewrite zlen_app, zlen_cons. change (zlen (@nil Z)) with 0.
  destruct (Z.leb_spec (0 + (zlen s + (0 + 1))) (zlen dst)); [|lia].
  cbn [Z.to_nat firstn app]. rewrite <- app_assoc. cbn [app].
  now replace (0 + (zlen s + (0 + 1))) with (zlen s + 1) by lia.
Qed.

Lemma strcpy_overrun (a : array_id) (dst s : list Z) :
  zlen dst < zlen s + 1 -> strcpy a dst s = Fault (OutOfBounds a (zlen dst)).
Proof.
  intros H. unfold strcpy, write_at.
  rewrite zlen_app, zlen_cons. change (zlen (@nil Z)) with 0.
  destruct (Z.leb_spec (0 + (zlen s + (0 + 1))) (zlen dst)); [lia|reflexivity].
Qed.

Lemma zlen_skipn {A} (n : Z) (l : list A) :
  0 <= n <= zlen l -> zlen (skipn (Z.to_nat n) l) = zlen l - n.
Proof. intros H. unfold zlen in *. rewrite length_skipn. lia. Qed.

Lemma zlen_msg_with (s old : list Z) :
  zlen s + 1 <= zlen old -> zlen (msg_with s old) = zlen old.
Proof.
  intros H. unfold msg_with. pose proof (zlen_nonneg s).
  rewrite zlen_app, zlen_cons, zlen_skipn by lia. lia.
Qed.

Lemma c_string_msg_with (a : array_id) (m old : list Z) :
  c_string a (msg_with (cstr m) old) = Ok (cstr m).
Proof.
  unfold c_string, msg_with.
  now rewrite has_nul_app_zero, cstr_cstr_app_zero.
Qed.

Lemma slot_with_msg_with (msg old : list Z) :
  slot_with msg old = msg_with (cstr msg) old.
Proof. reflexivity. Qed.

Lemma call_handler_ok (w : World) (m old : list Z) :
  _msg (this w) = msg_with (cstr m) old ->
  call_handler w
  = Ok (mkWorld (this w) (serial w)
          (log w ++ handler_events (_msgHandler (this w)) (cstr m))).
Proof.
  intros H. unfold call_handler, handler_events.
  destruct (_msgHandler (this w)) as [h|].
  - rewrite H, c_string_msg_with. reflexivity.
  - rewrite app_nil_r. now destruct w.
Qed.

(** ** Diagnostics *)

Lemma enqueued_cstr (m1 m2 : list Z) (fc : FastComms) :
  cstr m1 = cstr m2 -> enqueued m1 fc = enqueued m2 fc.
Proof.
  intros H. unfold enqueued, slot_with, strlen. now rewrite H.
Qed.

Lemma next_slot_range (k : Z) :
  0 <= k < TX_QUEUE_SIZE -> 0 <= next_slot k < TX_QUEUE_SIZE.
Proof.
  unfold next_slot, TX_QUEUE_SIZE. intros H.
  destruct (Z.ltb_spec k (4 - 1)); lia.
Qed.

Lemma Forall_list_set {A} (P : A -> Prop) (l : list A) (n : nat) (x : A) :
  Forall P l -> P x -> Forall P (list_set l n x).
Proof.
  intros H Hx. revert n.
  induction H as [|h t Hh Ht IH]; intros n; destruct n as [|n]; simpl;
    try constructor; auto.
Qed.

Lemma wf_queue_enqueued (msg : list Z) (fc : FastComms) :
  wf_queue fc -> _o fc < TX_QUEUE_SIZE -> strlen msg < BUFFER_SIZE ->
  wf_queue (enqueued msg fc).
Proof.
  intros [Hout Hob Hsl Hobi Ho] Hlt Hl.
  destruct (load_Ok Arr_ob (_ob fc) (_obi fc)) as (s0 & _ & N0); [lia|].
  assert (Hs0 : zlen s0 = BUFFER_SIZE).
  { rewrite Forall_forall in Hsl. apply Hsl. eapply nth_error_In; eauto. }
  unfold enqueued. rewrite (nth_error_nth _ _ _ N0).
  destruct fc as [cs pt msg0 inb i rx hd out ob obi o txb txlen].
  rsimpl_in_all. constructor; rsimpl.
  - now rewrite zlen_list_set.
  - now rewrite zlen_list_set.
  - apply Forall_list_set; [assumption|].
    rewrite slot_with_msg_with, zlen_msg_with; [assumption|].
    unfold strlen in Hl. lia.
  - now apply next_slot_range.
  - lia.
Qed.

Lemma send_diag_ok (msg : list Z) (w : World) :
  wf_queue (this w) -> _o (this w) < TX_QUEUE_SIZE ->
  strlen msg < BUFFER_SIZE ->
  send_diag msg w
  = Ok (mkWorld (enqueued msg (this w)) (serial w)
          (log w ++ [EvSendMsg (cstr msg) 1])).
Proof.
  intros Hw Ho Hl. unfold send_diag.
  rewrite sendMsg_ok by assumption. reflexivity.
Qed.

Lemma send_diag_full (msg : list Z) (w : World) :
  TX_QUEUE_SIZE <= _o (this w) ->
  send_diag msg w
  = Ok (mkWorld (this w) (serial w) (log w ++ [EvSendMsg (cstr msg) (-1)])).
Proof.
  intros Ho. unfold send_diag. rewrite sendMsg_full by assumption.
  reflexivity.
Qed.

Lemma app_cons_assoc {A} (l : list A) (x : A) (r : list A) :
  (l ++ [x]) ++ r = l ++ x :: r.
Proof. now rewrite <- app_assoc. Qed.

(** A terminator taken on the path without checksum: the bytes before it
    become the message. *)
Lemma rx_section_plain (w : World) (body : list Z) (y : Z) (rest : list Z) :
  let fc := this w in
  _in fc = (body ++ [MSG_END_A]) ++ y :: rest ->
  _i fc = zlen body + 1 -> zlen body + 1 < BUFFER_SIZE ->
  zlen (_msg fc) = BUFFER_SIZE -> rx_pending (serial w) = [] ->
  _useChecksum fc = false \/ zlen body <= 1 ->
  rx_section (arrive MSG_END_B w)
  = Ok (mkWorld
          (set_i 0 (set_msg (msg_with (cstr body) (_msg fc))
             (set_in (body ++ 0 :: MSG_END_B :: rest) (set_rx true fc))))
          (serial w)
          (log w ++ EvRead MSG_END_B
                 :: handler_events (_msgHandler fc) (cstr body))).
Proof.
  intros fc Hin Hi Hlt Hm Hp Hcs. subst fc.
  rewrite rx_section_arrive by lia. rewrite rx_byte_head by assumption.
  destruct w as [[cs pt msg0 inb i rx hd out ob obi o txb txlen] sp lg].
  rsimpl_in_all. subst inb i.
  pose proof (zlen_nonneg body) as Hb0.
  assert (Hpre : zlen (body ++ [MSG_END_A]) = zlen body + 1).
  { rewrite zlen_app, zlen_cons. change (zlen (@nil Z)) with 0. lia. }
  rewrite (u8_small MSG_END_B) by (unfold MSG_END_B; lia).
  rewrite store_app by (symmetry; exact Hpre). cbn [bind].
  rewrite load_app by (symmetry; exact Hpre). cbn [bind].
  destruct (Z.ltb_spec 0 (zlen body + 1)); [|lia].
  rewrite Z.eqb_refl. cbn [andb].
  rewrite app_cons_assoc.
  rewrite load_app by lia. cbn [bind]. rewrite Z.eqb_refl.
  assert (Hpath : cs && (2 <? zlen body + 1) = false).
  { destruct Hcs as [->|Hle]; [reflexivity|].
    destruct (Z.ltb_spec 2 (zlen body + 1)); [lia | apply andb_false_r]. }
  rewrite Hpath. unfold rx_plain. rsimpl.
  rewrite store_app by lia. cbn [bind].
  unfold c_string at 1. rewrite has_nul_app_zero, cstr_app_zero. cbn [bind].
  pose proof (zlen_cstr_le body) as Hc.
  rewrite strcpy_ok by (unfold BUFFER_SIZE in *; lia). cbn [bind].
  erewrite call_handler_ok by reflexivity. cbn [bind]. rsimpl.
  rewrite <- app_assoc. reflexivity.
Qed.

(** A terminator taken on the path with checksum, checksum right. *)
Lemma rx_section_checksum_ok (w : World) (P : list Z) (c y : Z) (rest : list Z) :
  let fc := this w in
  _in fc = (P ++ [c; MSG_END_A]) ++ y :: rest ->
  _i fc = zlen P + 2 -> zlen P + 2 < BUFFER_SIZE -> 0 < zlen P ->
  zlen (_msg fc) = BUFFER_SIZE -> rx_pending (serial w) = [] ->
  _useChecksum fc = true ->
  zlen (cstr P) + 1 <= BUFFER_SIZE - 3 ->
  c = checkSum (cstr P) ->
  rx_section (arrive MSG_END_B w)
  = Ok (mkWorld
          (set_i 0 (set_msg (msg_with (cstr P) (_msg fc))
             (set_rx true
                (set_in (P ++ 0 :: MSG_END_A :: MSG_END_B :: rest) fc))))
          (serial w)
          (log w ++ EvRead MSG_END_B
                 :: handler_events (_msgHandler fc) (cstr P))).
Proof.
  intros fc Hin Hi Hlt Hpos Hm Hp Hcs Hfit Hsum. subst fc.
  rewrite rx_section_arrive by lia. rewrite rx_byte_head by assumption.
  destruct w as [[cs pt msg0 inb i rx hd out ob obi o txb txlen] sp lg].
  rsimpl_in_all. subst inb i cs.
  assert (Hpre : zlen (P ++ [c; MSG_END_A]) = zlen P + 2).
  { rewrite zlen_app, !zlen_cons. change (zlen (@nil Z)) with 0. lia. }
  rewrite (u8_small MSG_END_B) by (unfold MSG_END_B; lia).
  rewrite store_app by (symmetry; exact Hpre). cbn [bind].
  rewrite load_app by (symmetry; exact Hpre). cbn [bind].
  destruct (Z.ltb_spec 0 (zlen P + 2)); [|lia].
  rewrite Z.eqb_refl. cbn [andb].
  replace ((P ++ [c; MSG_END_A]) ++ MSG_END_B :: rest)
    with ((P ++ [c]) ++ MSG_END_A :: MSG_END_B :: rest)
    by (now rewrite <- !app_assoc).
  rewrite load_app
    by (rewrite zlen_app, zlen_cons; change (zlen (@nil Z)) with 0; lia).
  cbn [bind]. rewrite Z.eqb_refl.
  destruct (Z.ltb_spec 2 (zlen P + 2)); [|lia]. cbn [andb].
  unfold rx_checksummed. rsimpl.
  rewrite app_cons_assoc.
  rewrite load_app by lia. cbn [bind].
  rewrite store_app by lia. cbn [bind].
  unfold c_string at 1. rewrite has_nul_app_zero, cstr_app_zero. cbn [bind].
  rewrite strcpy_ok
    by (unfold uninit; rewrite zlen_repeat; unfold BUFFER_SIZE in *; lia).
  cbn [bind]. rewrite c_string_msg_with. cbn [bind].
  rewrite <- Hsum, Z.eqb_refl.
  pose proof (zlen_nonneg (cstr P)).
  rewrite strcpy_ok by (unfold BUFFER_SIZE in *; lia). cbn [bind].
  erewrite call_handler_ok by reflexivity. cbn [bind]. rsimpl.
  rewrite <- app_assoc. reflexivity.
Qed.
Lemma sprintf_ok (a : array_id) (dst s : list Z) :
  zlen s + 1 <= zlen dst -> sprintf a dst s = Ok (msg_with s dst).
Proof. exact (strcpy_ok a dst s). Qed.


Lemma dec_digits_spec (c : Z) :
  0 <= c < 256 ->
  Forall is_char (dec_digits c)
  /\ zlen (dec_digits c) = (if c <? 10 then 1 else if c <? 100 then 2 else 3).
Proof.
  intros H. unfold dec_digits.
  destruct (Z.ltb_spec c 10); [|destruct (Z.ltb_spec c 100)];
    (split; [|reflexivity]);
    repeat (apply Forall_cons || apply Forall_nil); unfold is_char;
    Z.div_mod_to_equations; lia.
Qed.

Lemma bad_checksum_report_spec (c : Z) :
  0 <= c < 256 ->
  cstr (bad_checksum_report c) = bad_checksum_report c
  /\ zlen (bad_checksum_report c)
     = 7 + (if c <? 10 then 1 else if c <? 100 then 2 else 3).
Proof.
  intros H. destruct (dec_digits_spec c H) as [Hc Hl].
  unfold bad_checksum_report. split.
  - apply cstr_chars. apply Forall_app. split.
    + repeat constructor.
    + apply Forall_app. split; [assumption | repeat constructor].
  - rewrite !zlen_app, Hl.
    change (zlen (bytes_of_string "!got [")) with 6.
    change (zlen (bytes_of_string "]")) with 1. lia.
Qed.

Lemma cstr_msg_with (s old : list Z) :
  cstr s = s -> cstr (msg_with s old) = s.
Proof. intros H. unfold msg_with. now rewrite cstr_app_zero. Qed.

(** A terminator taken on the path with checksum, checksum wrong. *)
Lemma rx_section_checksum_bad (w : World) (P : list Z) (c y : Z) (rest : list Z) :
  let fc := this w in
  let d := cstr P in
  _in fc = (P ++ [c; MSG_END_A]) ++ y :: rest ->
  _i fc = zlen P + 2 -> zlen P + 2 < BUFFER_SIZE -> 0 < zlen P ->
  rx_pending (serial w) = [] -> _useChecksum fc = true ->
  zlen d + 1 <= BUFFER_SIZE - 3 ->
  0 <= c < 100 -> c <> checkSum d ->
  wf_queue fc -> _o fc + 3 <= TX_QUEUE_SIZE ->
  rx_section (arrive MSG_END_B w)
  = Ok (mkWorld
          (set_i 0
             (enqueued (bad_checksum_report c)
                (enqueued (bad_checksum_echo d)
                   (enqueued RX_BAD_CHECKSUM
                      (set_in (P ++ 0 :: MSG_END_A :: MSG_END_B :: rest) fc)))))
          (serial w)
          (log w ++ [EvRead MSG_END_B; EvSendMsg RX_BAD_CHECKSUM 1;
                     EvSendMsg (bad_checksum_echo d) 1;
                     EvSendMsg (bad_checksum_report c) 1])).
Proof.
  intros fc d Hin Hi Hlt Hpos Hp Hcs Hfit Hc Hsum Hwf Ho. subst fc d.
  rewrite rx_section_arrive by lia. rewrite rx_byte_head by assumption.
  destruct w as [[cs pt msg0 inb i rx hd out ob obi o txb txlen] sp lg].
  rsimpl_in_all. subst inb i cs.
  assert (Hpre : zlen (P ++ [c; MSG_END_A]) = zlen P + 2).
  { rewrite zlen_app, !zlen_cons. change (zlen (@nil Z)) with 0. lia. }
  rewrite (u8_small MSG_END_B) by (unfold MSG_END_B; lia).
  rewrite store_app by (symmetry; exact Hpre). cbn [bind].
  rewrite load_app by (symmetry; exact Hpre). cbn [bind].
  destruct (Z.ltb_spec 0 (zlen P + 2)); [|lia].
  rewrite Z.eqb_refl. cbn [andb].
  replace ((P ++ [c; MSG_END_A]) ++ MSG_END_B :: rest)
    with ((P ++ [c]) ++ MSG_END_A :: MSG_END_B :: rest)
    by (now rewrite <- !app_assoc).
  rewrite load_app
    by (rewrite zlen_app, zlen_cons; change (zlen (@nil Z)) with 0; lia).
  cbn [bind]. rewrite Z.eqb_refl.
  destruct (Z.ltb_spec 2 (zlen P + 2)); [|lia]. cbn [andb].
  unfold rx_checksummed. rsimpl.
  rewrite app_cons_assoc.
  rewrite load_app by lia. cbn [bind].
  rewrite store_app by lia. cbn [bind].
  unfold c_string at 1. rewrite has_nul_app_zero, cstr_app_zero. cbn [bind].
  rewrite strcpy_ok
    by (unfold uninit; rewrite zlen_repeat; unfold BUFFER_SIZE in *; lia).
  cbn [bind]. rewrite c_string_msg_with. cbn [bind].
  set (d := cstr P) in *.
  destruct (Z.eqb_spec c (checkSum d)); [contradiction|].
  pose proof (zlen_nonneg d) as Hd0.
  (* first diagnostic *)
  set (fc0 := {| _useChecksum := true; _port := pt; _msg := msg0;
                 _in := P ++ 0 :: MSG_END_A :: MSG_END_B :: rest;
                 _i := zlen P + 2; _rx := rx; _msgHandler := hd;
                 _out := out; _ob := ob; _obi := obi; _o := o;
                 _txb := txb; _txlen := txlen |}) in *.
  assert (Hwf0 : wf_queue fc0) by (destruct Hwf; constructor; assumption).
  rewrite send_diag_ok; [|exact Hwf0|cbn; lia|cbv; reflexivity].
  cbn [bind].
  change (cstr RX_BAD_CHECKSUM) with RX_BAD_CHECKSUM.
  assert (Hwf1 : wf_queue (enqueued RX_BAD_CHECKSUM fc0)).
  { apply wf_queue_enqueued; [exact Hwf0 | cbn; lia | cbv; reflexivity]. }
  (* second diagnostic *)
  fold (bad_checksum_echo d).
  assert (He : cstr (bad_checksum_echo d) = bad_checksum_echo d).
  { unfold bad_checksum_echo, d. cbn. now rewrite cstr_idem. }
  assert (Hel : zlen (bad_checksum_echo d) = zlen d + 1).
  { unfold bad_checksum_echo. rewrite zlen_app.
    change (zlen (bytes_of_string "!")) with 1. lia. }
  rewrite sprintf_ok
    by (unfold uninit; rewrite zlen_repeat; unfold BUFFER_SIZE in *; lia).
  cbn [bind].
  assert (Hb : cstr (msg_with (bad_checksum_echo d) (uninit 64))
               = bad_checksum_echo d) by now apply cstr_msg_with.
  rewrite send_diag_ok;
    [| exact Hwf1 | cbn; lia
     | unfold strlen; rewrite Hb, Hel; unfold BUFFER_SIZE in *; lia].
  cbn [bind this serial log]. rewrite Hb.
  rewrite (enqueued_cstr _ (bad_checksum_echo d)) by (now rewrite Hb, He).
  assert (Hwf2 : wf_queue (enqueued (bad_checksum_echo d)
                             (enqueued RX_BAD_CHECKSUM fc0))).
  { apply wf_queue_enqueued; [exact Hwf1 | cbn; lia |].
    unfold strlen. rewrite He, Hel. unfold BUFFER_SIZE in *. lia. }
  (* third diagnostic *)
  fold (bad_checksum_report c).
  destruct (bad_checksum_report_spec c) as [Hr Hrl]; [lia|].
  assert (Hrl' : zlen (bad_checksum_report c) <= 9).
  { rewrite Hrl. destruct (Z.ltb_spec c 10); [lia|].
    destruct (Z.ltb_spec c 100); lia. }
  pose proof (zlen_nonneg (bad_checksum_report c)).
  rewrite sprintf_ok by (unfold zeros; rewrite zlen_repeat; lia).
  cbn [bind].
  assert (Hs : cstr (msg_with (bad_checksum_report c) (zeros 10))
               = bad_checksum_report c) by now apply cstr_msg_with.
  rewrite send_diag_ok;
    [| exact Hwf2 | cbn; lia
     | unfold strlen; rewrite Hs; unfold BUFFER_SIZE; lia].
  cbn [bind this serial log]. rewrite Hs.
  rewrite (enqueued_cstr _ (bad_checksum_report c)) by (now rewrite Hs, Hr).
  unfold with_this. cbn [this serial log].
  rewrite <- !app_assoc. cbn [app].
  reflexivity.
Qed.

(** A checksummed frame whose payload fills [data] to its last cell. *)
Lemma rx_section_data_overrun (w : World) (P : list Z) (c y : Z) (rest : list Z) :
  let fc := this w in
  _in fc = (P ++ [c; MSG_END_A]) ++ y :: rest ->
  _i fc = zlen P + 2 -> zlen P + 2 < BUFFER_SIZE -> 0 < zlen P ->
  rx_pending (serial w) = [] -> _useChecksum fc = true ->
  BUFFER_SIZE - 3 < zlen (cstr P) + 1 ->
  rx_section (arrive MSG_END_B w)
  = Fault (OutOfBounds Arr_data (BUFFER_SIZE - 3)).
Proof.
  intros fc Hin Hi Hlt Hpos Hp Hcs Hfit. subst fc.
  rewrite rx_section_arrive by lia. rewrite rx_byte_head by assumption.
  destruct w as [[cs pt msg0 inb i rx hd out ob obi o txb txlen] sp lg].
  rsimpl_in_all. subst inb i cs.
  assert (Hpre : zlen (P ++ [c; MSG_END_A]) = zlen P + 2).
  { rewrite zlen_app, !zlen_cons. change (zlen (@nil Z)) with 0. lia. }
  rewrite (u8_small MSG_END_B) by (unfold MSG_END_B; lia).
  rewrite store_app by (symmetry; exact Hpre). cbn [bind].
  rewrite load_app by (symmetry; exact Hpre). cbn [bind].
  destruct (Z.ltb_spec 0 (zlen P + 2)); [|lia].
  rewrite Z.eqb_refl. cbn [andb].
  replace ((P ++ [c; MSG_END_A]) ++ MSG_END_B :: rest)
    with ((P ++ [c]) ++ MSG_END_A :: MSG_END_B :: rest)
    by (now rewrite <- !app_assoc).
  rewrite load_app
    by (rewrite zlen_app, zlen_cons; change (zlen (@nil Z)) with 0; lia).
  cbn [bind]. rewrite Z.eqb_refl.
  destruct (Z.ltb_spec 2 (zlen P + 2)); [|lia]. cbn [andb].
  unfold rx_checksummed. rsimpl.
  rewrite app_cons_assoc.
  rewrite load_app by lia. cbn [bind].
  rewrite store_app by lia. cbn [bind].
  unfold c_string at 1. rewrite has_nul_app_zero, cstr_app_zero. cbn [bind].
  rewrite strcpy_overrun
    by (unfold uninit; rewrite zlen_repeat; unfold BUFFER_SIZE in *; lia).
  unfold uninit. rewrite zlen_repeat. reflexivity.
Qed.

(** The tick after the index has reached the capacity. *)
Lemma rx_section_overflow (w : World) :
  _i (this w) = BUFFER_SIZE ->
  rx_section w = send_diag RX_BUFFER_OVERFLOW (with_this (set_i 0) w).
Proof. intros H. unfold rx_section. now rewrite H. Qed.

(** ** Runs of the receive half *)

Lemma has_term_pair_boundary (pre : list Z) (b : Z) (rest : list Z) :
  has_term_pair (pre ++ b :: rest) = false -> boundary pre b = false.
Proof.
  induction pre as [|a pre IH]; [reflexivity|].
  destruct pre as [|a' pre'].
  - cbn [app has_term_pair boundary last].
    intros H. apply orb_false_elim in H. apply H.
  - intros H. cbn [app has_term_pair] in H.
    apply orb_false_elim in H. destruct H as [_ H].
    specialize (IH H). exact IH.
Qed.

Lemma has_term_pair_snoc_A (l : list Z) :
  has_term_pair (l ++ [MSG_END_A]) = has_term_pair l.
Proof.
  induction l as [|a l IH]; [reflexivity|].
  destruct l as [|a' l'].
  - cbn. now rewrite andb_false_r.
  - cbn [app has_term_pair] in *. now rewrite IH.
Qed.

Lemma feed_app (a b : list Z) (w : World) :
  feed (a ++ b) w
  = (let? (r1, w1) := feed a w in
     let? (r2, w2) := feed b w1 in
     Ok (r1 ++ r2, w2)).
Proof.
  revert w. induction a as [|x a IH]; intros w; cbn [app feed bind].
  - destruct (feed b w) as [[r2 w2]|]; reflexivity.
  - destruct (txrx (arrive x w)) as [[r w1]|]; cbn [bind]; [|reflexivity].
    rewrite IH. destruct (feed a w1) as [[r1 w2]|]; cbn [bind]; [|reflexivity].
    destruct (feed b w2) as [[r2 w3]|]; reflexivity.
Qed.

(** One tick of an idle receiver that stores a byte. *)
Lemma txrx_store (w : World) (pre : list Z) (y : Z) (rest : list Z) (b : Z) :
  rx_idle w ->
  _in (this w) = pre ++ y :: rest -> _i (this w) = zlen pre ->
  zlen pre < BUFFER_SIZE -> is_byte b -> boundary pre b = false ->
  txrx (arrive b w)
  = Ok (false,
        mkWorld (set_i (zlen pre + 1) (set_in (pre ++ b :: rest) (this w)))
          (serial w) (log w ++ [EvRead b])).
Proof.
  intros (Hport & Ho & Hrx & Hp) Hin Hi Hlt Hb Hnb.
  rewrite txrx_unfold by exact Hport.
  rewrite (rx_section_store w pre y rest b) by assumption. cbn [bind].
  rewrite tx_section_idle by (destruct w as [[] ? ?]; exact Ho). cbn [bind].
  destruct w as [[] ? ?]. rsimpl_in_all. now subst.
Qed.

Lemma rx_idle_step (w : World) (fc : FastComms) (l : list event) :
  rx_idle w ->
  _port fc = _port (this w) -> _o fc = _o (this w) -> _rx fc = _rx (this w) ->
  rx_idle (mkWorld fc (serial w) l).
Proof. intros (? & ? & ? & ?) E1 E2 E3. repeat split; cbn; congruence. Qed.

(** Bytes that complete no terminator pile up in the buffer. *)
Lemma feed_store (bs : list Z) : forall (pre rest : list Z) (w : World),
  rx_idle w ->
  _in (this w) = pre ++ rest -> _i (this w) = zlen pre ->
  zlen bs <= zlen rest -> zlen pre + zlen bs <= BUFFER_SIZE ->
  Forall is_byte bs -> has_term_pair (pre ++ bs) = false ->
  feed bs w
  = Ok (repeat false (List.length bs),
        mkWorld (set_i (zlen pre + zlen bs)
                   (set_in (pre ++ bs ++ skipn (List.length bs) rest) (this w)))
          (serial w) (log w ++ map EvRead bs)).
Proof.
  induction bs as [|b bs IH]; intros pre rest w Hidle Hin Hi Hr Hc Hb Hnp.
  - cbn [feed List.length repeat skipn app map].
    rewrite app_nil_r, Z.add_0_r, <- Hin, <- Hi.
    now destruct w as [[] ? ?].
  - rewrite zlen_cons in Hr, Hc.
    pose proof (zlen_nonneg bs) as Hbs. pose proof (zlen_nonneg pre) as Hpre.
    destruct rest as [|y rest]; [cbn in Hr; lia|].
    rewrite zlen_cons in Hr. inversion Hb as [|? ? Hb1 Hb2]; subst.
    cbn [feed].
    rewrite (txrx_store w pre y rest b); try assumption; try lia;
      [|now apply has_term_pair_boundary with bs].
    cbn [bind].
    rewrite (IH (pre ++ [b]) rest).
    + cbn [bind List.length repeat skipn map].
      destruct w as [[] ? ?]. rsimpl.
      rewrite zlen_app, !zlen_cons. change (zlen (@nil Z)) with 0.
      rewrite <- !app_assoc. cbn [app].
      replace (zlen pre + (0 + 1) + zlen bs) with (zlen pre + (zlen bs + 1)) by lia.
      reflexivity.
    + apply rx_idle_step; [assumption | reflexivity ..].
    + cbn. now rewrite <- app_assoc.
    + cbn. rewrite zlen_app, zlen_cons. reflexivity.
    + lia.
    + rewrite zlen_app, zlen_cons. change (zlen (@nil Z)) with 0. lia.
    + assumption.
    + now rewrite <- app_assoc.
Qed.

(** ** The queue after an enqueue *)

Lemma firstn_list_set_snoc {A} (l : list A) (n : nat) (x : A) :
  (n < List.length l)%nat ->
  firstn (S n) (list_set l n x) = firstn n l ++ [x].
Proof.
  revert n. induction l as [|h t IH]; intros [|n] H; simpl in *; try lia.
  - reflexivity.
  - now rewrite IH by lia.
Qed.

Lemma live_enqueued (msg : list Z) (fc : FastComms) :
  wf_queue fc -> _o fc < TX_QUEUE_SIZE ->
  live (enqueued msg fc) = live fc ++ [Slot (_obi fc)].
Proof.
  intros [Hout _ _ _ Ho] Hlt. unfold live, enqueued.
  destruct fc as [cs pt msg0 inb i rx hd out ob obi o txb txlen].
  rsimpl_in_all.
  replace (Z.to_nat (o + 1)) with (S (Z.to_nat o)) by lia.
  apply firstn_list_set_snoc. unfold zlen in Hout. lia.
Qed.

Lemma deref_list_set_other (ob : list (list Z)) (k : Z) (cells : list Z) (p : ptr) :
  0 <= k -> p <> Slot k ->
  deref (list_set ob (Z.to_nat k) cells) p = deref ob p.
Proof.
  intros Hk Hp. destruct p as [|j]; [reflexivity|].
  cbn [deref]. unfold load, in_range. rewrite zlen_list_set.
  destruct ((0 <=? j) && (j <? zlen ob)) eqn:E; [|reflexivity].
  apply andb_prop in E. destruct E as [E1 _]. apply Z.leb_le in E1.
  rewrite nth_error_list_set_neq; [reflexivity|].
  intros H. apply Hp. f_equal. lia.
Qed.

Lemma deref_list_set_same (ob : list (list Z)) (k : Z) (cells : list Z) :
  0 <= k < zlen ob ->
  deref (list_set ob (Z.to_nat k) cells) (Slot k) = Ok cells.
Proof.
  intros Hk. cbn [deref]. unfold load.
  rewrite in_range_true by (now rewrite zlen_list_set).
  rewrite nth_error_list_set_eq by (unfold zlen in Hk; lia). reflexivity.
Qed.

Lemma queued_enqueued (msg : list Z) (fc : FastComms) :
  wf_queue fc -> _o fc < TX_QUEUE_SIZE ->
  ~ In (Slot (_obi fc)) (live fc) ->
  queued (enqueued msg fc) = queued fc ++ [Ok (cstr msg)].
Proof.
  intros Hwf Hlt Hfree. unfold queued.
  fold (live (enqueued msg fc)). fold (live fc).
  rewrite live_enqueued by assumption.
  destruct Hwf as [Hout Hob _ Hobi Ho].
  rewrite map_app. cbn [map]. f_equal.
  - apply map_ext_in. intros p Hp.
    unfold enqueued. cbn [_ob set_obi set_o set_ob set_out].
    rewrite deref_list_set_other; [reflexivity | lia |].
    intros ->. contradiction.
  - f_equal. unfold enqueued. cbn [_ob set_obi set_o set_ob set_out].
    rewrite deref_list_set_same by lia. cbn [bind].
    rewrite slot_with_msg_with. apply c_string_msg_with.
Qed.

Lemma head_slot_enqueued_first (msg : list Z) (fc : FastComms) :
  wf_queue fc -> _o fc = 0 -> strlen msg < BUFFER_SIZE ->
  Forall is_char (cstr msg) ->
  head_slot (enqueued msg fc) (_obi fc) (cstr msg).
Proof.
  intros [Hout Hob Hsl Hobi Ho] Ho0 Hl Hc.
  destruct (load_Ok Arr_ob (_ob fc) (_obi fc)) as (s0 & _ & N0); [lia|].
  assert (Hs0 : zlen s0 = BUFFER_SIZE).
  { rewrite Forall_forall in Hsl. apply Hsl. eapply nth_error_In; eauto. }
  unfold head_slot, enqueued. rewrite (nth_error_nth _ _ _ N0), Ho0.
  cbn [_out _ob set_obi set_o set_ob set_out].
  split; [|split; [|exact Hc]].
  - unfold load. rewrite in_range_true
      by (rewrite zlen_list_set; unfold TX_QUEUE_SIZE in *; lia).
    rewrite nth_error_list_set_eq;
      [reflexivity | unfold zlen, TX_QUEUE_SIZE in *; cbn; lia].
  - exists (skipn (Z.to_nat (strlen msg + 1)) s0). split.
    + apply (deref_list_set_same (_ob fc) (_obi fc)). lia.
    + fold (slot_with msg s0). rewrite slot_with_msg_with, zlen_msg_with.
      * exact Hs0.
      * unfold strlen in Hl. lia.
Qed.

Lemma head_slot_enqueued_later (msg : list Z) (fc : FastComms) (k : Z) (s : list Z) :
  head_slot fc k s -> wf_queue fc -> 0 < _o fc < TX_QUEUE_SIZE ->
  k <> _obi fc ->
  head_slot (enqueued msg fc) k s.
Proof.
  intros (Eo & (rest & Es & L) & Hc) [Hout Hob Hsl Hobi Ho] Hlt Hk.
  unfold head_slot, enqueued.
  cbn [_out _ob set_obi set_o set_ob set_out].
  split; [|split; [|exact Hc]].
  - apply load_inv in Eo. destruct Eo as [R N].
    unfold load. rewrite in_range_true by (now rewrite zlen_list_set).
    rewrite nth_error_list_set_neq by lia. now rewrite N.
  - exists rest. split; [|exact L].
    change (load Arr_ob ?l k) with (deref l (Slot k)).
    rewrite deref_list_set_other; [exact Es | lia | congruence].
Qed.

Lemma next_slot_neq (k : Z) :
  0 <= k < TX_QUEUE_SIZE ->
  next_slot k <> k /\ next_slot (next_slot k) <> k
  /\ next_slot (next_slot k) <> next_slot k.
Proof.
  unfold next_slot, TX_QUEUE_SIZE. intros H.
  destruct (Z.ltb_spec k (4 - 1)); destruct (Z.ltb_spec (k + 1) (4 - 1));
    destruct (Z.ltb_spec 0 (4 - 1)); lia.
Qed.

Lemma tx_section_no_room (w : World) (k : Z) (s : list Z) :
  let fc := this w in
  0 < _o fc -> head_slot fc k s -> tx_free (serial w) <= 0 ->
  _txb fc = 0 -> _txlen fc = 0 ->
  tx_section w
  = Ok (mkWorld (set_txlen (total_of (_useChecksum fc) s) fc)
          (serial w) (log w)).
Proof.
  intros fc Ho Hh Hf Hb Hl.
  pose proof (head_slot_len _ _ _ Hh) as Hs.
  pose proof (total_of_range (_useChecksum fc) s Hs) as Ht.
  unfold tx_section. fold fc.
  destruct (Z.ltb_spec 0 (_o fc)); [|lia].
  rewrite (tx_start_rest fc k s) by assumption. cbn [bind].
  replace (_txb (set_txlen _ fc)) with (_txb fc) by reflexivity.
  replace (_txlen (set_txlen (total_of (_useChecksum fc) s) fc))
    with (total_of (_useChecksum fc) s) by reflexivity.
  rewrite Hb.
  destruct (Z.ltb_spec 0 (total_of (_useChecksum fc) s)); [|lia].
  unfold availableForWrite. cbn [serial].
  destruct (Z.ltb_spec 0 (tx_free (serial w))); [lia | reflexivity].
Qed.

(** ** Runs of the transmit half *)

Lemma rx_section_quiet (w : World) :
  _i (this w) < BUFFER_SIZE -> rx_pending (serial w) = [] ->
  rx_section w = Ok w.
Proof.
  intros Hi Hp. unfold rx_section, available. rewrite Hp.
  destruct (Z.ltb_spec (_i (this w)) BUFFER_SIZE); [reflexivity | lia].
Qed.

(** One tick of a quiet sender with bytes left in the head frame. *)
Lemma txrx_send_byte (w : World) (k : Z) (s : list Z) :
  let fc := this w in
  let total := total_of (_useChecksum fc) s in
  tx_quiet w -> 0 < _o fc -> head_slot fc k s -> 0 < tx_free (serial w) ->
  (_txb fc = 0 /\ _txlen fc = 0) \/ (_txlen fc = total /\ 0 <= _txb fc < total) ->
  txrx w
  = Ok (false,
        mkWorld (set_txb (_txb fc + 1) (set_txlen total fc))
          (mkSerial [] (tx_free (serial w) - 1))
          (log w ++ [EvWrite (nth (Z.to_nat (_txb fc))
                                (frame (_useChecksum fc) s) 0)])).
Proof.
  intros fc total (Hport & Hi & Hrx & Hp) Ho Hh Hf Hc.
  rewrite txrx_unfold by exact Hport.
  rewrite rx_section_quiet by (assumption || lia). cbn [bind].
  rewrite (tx_section_write w k s) by assumption. cbn [bind].
  fold fc. fold total.
  replace (_rx (this _)) with (_rx fc) by reflexivity.
  unfold fc at 1. rewrite Hrx, Hp.
  assert (Hj : 0 <= _txb fc < total).
  { pose proof (head_slot_len _ _ _ Hh) as Hs.
    pose proof (total_of_range (_useChecksum fc) s Hs) as Ht.
    fold total in Ht. destruct Hc as [[-> _]|[_ ?]]; lia. }
  unfold total at 3. rewrite selection_rule_frame by exact Hj.
  reflexivity.
Qed.

Lemma skipn_nth_cons {A} (d : A) (l : list A) (j : nat) :
  (j < List.length l)%nat -> skipn j l = nth j l d :: skipn (S j) l.
Proof.
  revert j. induction l as [|h t IH]; intros [|j] H; simpl in *; try lia.
  - reflexivity.
  - apply IH. lia.
Qed.

(** A quiet sender inside a frame writes its bytes one per tick. *)
Lemma ticks_send (n : nat) : forall (w : World) (k : Z) (s : list Z),
  let fc := this w in
  let total := total_of (_useChecksum fc) s in
  tx_quiet w -> 0 < _o fc -> head_slot fc k s ->
  _txlen fc = total -> 0 <= _txb fc -> _txb fc + Z.of_nat n <= total ->
  Z.of_nat n <= tx_free (serial w) ->
  ticks n w
  = Ok (repeat false n,
        mkWorld (set_txb (_txb fc + Z.of_nat n) fc)
          (mkSerial [] (tx_free (serial w) - Z.of_nat n))
          (log w ++ map EvWrite
                      (firstn n (skipn (Z.to_nat (_txb fc))
                                   (frame (_useChecksum fc) s))))).
Proof.
  induction n as [|n IH]; intros w k s fc total Hq Ho Hh Hl Hb Hn Hf.
  - cbn [ticks repeat firstn map]. rewrite app_nil_r, Z.add_0_r, Z.sub_0_r.
    destruct Hq as (_ & _ & _ & Hp).
    destruct w as [[] [rxp txf] lg]. cbn in Hp. subst rxp. reflexivity.
  - cbn [ticks].
    rewrite (txrx_send_byte w k s); try assumption; try lia;
      [|right; fold fc; fold total; lia].
    cbn [bind]. fold fc. fold total.
    rewrite (IH _ k s).
    + cbn [bind this serial log tx_free repeat]. clear IH.
      destruct w as [[cs pt msg0 inb i rx hd out ob obi o txb txlen] [rxp txf] lg].
      subst fc total. rsimpl_in_all.
      rewrite (skipn_nth_cons 0 (frame cs s) (Z.to_nat txb))
        by (pose proof (zlen_frame cs s); unfold zlen in *; lia).
      cbn [firstn map]. rewrite <- app_assoc. cbn [app].
      replace (S (Z.to_nat txb)) with (Z.to_nat (txb + 1)) by lia.
      replace (txb + 1 + Z.of_nat n) with (txb + Z.of_nat (S n)) by lia.
      replace (txf - 1 - Z.of_nat n) with (txf - Z.of_nat (S n)) by lia.
      subst txlen. reflexivity.
    + destruct Hq as (? & ? & ? & ?). repeat split; try assumption.
      all: destruct w as [[] ? ?]; cbn in *; try assumption; lia.
    + destruct w as [[] ? ?]; cbn in *; assumption.
    + destruct w as [[] ? ?]; exact Hh.
    + destruct w as [[] ? ?]; cbn in *. reflexivity.
    + destruct w as [[] ? ?]; subst fc; cbn in *. lia.
    + destruct w as [[] ? ?]; subst fc total; cbn in *. lia.
    + destruct w as [[] ? ?]; cbn in *. lia.
Qed.

(** A quiet sender with one message queued and the cursor at rest writes
    the whole frame, one byte per tick. *)
Lemma ticks_send_frame (w : World) (k : Z) (s : list Z) :
  let fc := this w in
  let total := total_of (_useChecksum fc) s in
  tx_quiet w -> 0 < _o fc -> head_slot fc k s ->
  _txb fc = 0 -> _txlen fc = 0 -> total <= tx_free (serial w) ->
  ticks (List.length (frame (_useChecksum fc) s)) w
  = Ok (repeat false (List.length (frame (_useChecksum fc) s)),
        mkWorld (set_txb total (set_txlen total fc))
          (mkSerial [] (tx_free (serial w) - total))
          (log w ++ map EvWrite (frame (_useChecksum fc) s))).
Proof.
  intros fc total Hq Ho Hh Hb Hl Hf.
  pose proof (head_slot_len _ _ _ Hh) as Hs.
  pose proof (total_of_range (_useChecksum fc) s Hs) as Ht. fold total in Ht.
  pose proof (zlen_frame (_useChecksum fc) s) as Hfl. fold total in Hfl.
  destruct (frame (_useChecksum fc) s) as [|b0 fr] eqn:Efr;
    [cbn in Hfl; lia|].
  cbn [List.length ticks].
  rewrite (txrx_send_byte w k s); try assumption; try lia; [|left; now split].
  cbn [bind]. fold fc. fold total. rewrite Efr, Hb. cbn [Z.to_nat nth].
  rewrite zlen_cons in Hfl.
  rewrite (ticks_send (List.length fr) _ k s).
  - cbn [bind this serial log tx_free repeat].
    destruct w as [[cs pt msg0 inb i rx hd out ob obi o txb txlen] [rxp txf] lg].
    subst fc total. rsimpl_in_all. rewrite Efr. subst txb.
    change (Z.to_nat (0 + 1)) with 1%nat. cbn [skipn map].
    rewrite firstn_all, <- app_assoc. cbn [app].
    replace (0 + 1 + Z.of_nat (List.length fr)) with (total_of cs s)
      by (unfold zlen in Hfl; lia).
    replace (txf - 1 - Z.of_nat (List.length fr)) with (txf - total_of cs s)
      by (unfold zlen in Hfl; lia).
    reflexivity.
  - destruct Hq as (? & ? & ? & ?). repeat split; try assumption.
    all: destruct w as [[] ? ?]; cbn in *; try assumption; lia.
  - destruct w as [[] ? ?]; cbn in *; assumption.
  - destruct w as [[] ? ?]; exact Hh.
  - destruct w as [[] ? ?]; cbn in *. reflexivity.
  - destruct w as [[] ? ?]; subst fc; cbn in *. lia.
  - destruct w as [[] ? ?]; subst fc total; rsimpl_in_all.
    unfold zlen in Hfl. lia.
  - destruct w as [[] ? ?]; subst fc total; rsimpl_in_all.
    unfold zlen in Hfl. lia.
Qed.

(** ** Whole frames at an idle receiver *)

Lemma skipn_cons_ex {A} (l : list A) (n : Z) :
  0 <= n < zlen l -> exists y r, skipn (Z.to_nat n) l = y :: r.
Proof.
  intros H. destruct (skipn (Z.to_nat n) l) as [|y r] eqn:E.
  - apply (f_equal (@List.length A)) in E. rewrite length_skipn in E.
    unfold zlen in H. cbn in E. lia.
  - eauto.
Qed.

Lemma txrx_plain (w : World) (body : list Z) (y : Z) (rest : list Z) :
  let fc := this w in
  rx_idle w ->
  _in fc = (body ++ [MSG_END_A]) ++ y :: rest ->
  _i fc = zlen body + 1 -> zlen body + 1 < BUFFER_SIZE ->
  zlen (_msg fc) = BUFFER_SIZE ->
  _useChecksum fc = false \/ zlen body <= 1 ->
  txrx (arrive MSG_END_B w)
  = Ok (true,
        mkWorld
          (set_i 0 (set_msg (msg_with (cstr body) (_msg fc))
             (set_in (body ++ 0 :: MSG_END_B :: rest) fc)))
          (serial w)
          (log w ++ EvRead MSG_END_B
                 :: handler_events (_msgHandler fc) (cstr body))).
Proof.
  intros fc (Hport & Ho & Hrx & Hp) Hin Hi Hlt Hm Hcs.
  rewrite txrx_unfold by exact Hport.
  rewrite (rx_section_plain w body y rest) by assumption. cbn [bind].
  rewrite tx_section_idle by (destruct w as [[] ? ?]; exact Ho). cbn [bind].
  destruct w as [[] ? ?]. subst fc. rsimpl_in_all. now subst.
Qed.

Lemma txrx_checksum_ok (w : World) (P : list Z) (c y : Z) (rest : list Z) :
  let fc := this w in
  rx_idle w ->
  _in fc = (P ++ [c; MSG_END_A]) ++ y :: rest ->
  _i fc = zlen P + 2 -> zlen P + 2 < BUFFER_SIZE -> 0 < zlen P ->
  zlen (_msg fc) = BUFFER_SIZE -> _useChecksum fc = true ->
  zlen (cstr P) + 1 <= BUFFER_SIZE - 3 -> c = checkSum (cstr P) ->
  txrx (arrive MSG_END_B w)
  = Ok (true,
        mkWorld
          (set_i 0 (set_msg (msg_with (cstr P) (_msg fc))
             (set_in (P ++ 0 :: MSG_END_A :: MSG_END_B :: rest) fc)))
          (serial w)
          (log w ++ EvRead MSG_END_B
                 :: handler_events (_msgHandler fc) (cstr P))).
Proof.
  intros fc (Hport & Ho & Hrx & Hp) Hin Hi Hlt Hpos Hm Hcs Hfit Hsum.
  rewrite txrx_unfold by exact Hport.
  rewrite (rx_section_checksum_ok w P c y rest) by assumption. cbn [bind].
  rewrite tx_section_idle by (destruct w as [[] ? ?]; exact Ho). cbn [bind].
  destruct w as [[] ? ?]. subst fc. rsimpl_in_all. now subst.
Qed.

(** The bytes before a terminator, with no terminator inside, reach the
    buffer unchanged and leave the index just after them. *)
Lemma feed_body (w : World) (body : list Z) :
  let fc := this w in
  rx_idle w -> zlen (_in fc) = BUFFER_SIZE -> _i fc = 0 ->
  zlen body + 2 <= BUFFER_SIZE ->
  Forall is_byte body -> has_term_pair body = false ->
  exists y rest,
    feed (body ++ [MSG_END_A]) w
    = Ok (repeat false (List.length body + 1),
          mkWorld (set_i (zlen body + 1)
                     (set_in ((body ++ [MSG_END_A]) ++ y :: rest) fc))
            (serial w) (log w ++ map EvRead (body ++ [MSG_END_A]))).
Proof.
  intros fc Hidle Hin Hi Hlen Hb Hnp.
  pose proof (zlen_nonneg body) as Hb0.
  assert (Hl1 : zlen (body ++ [MSG_END_A]) = zlen body + 1).
  { rewrite zlen_app, zlen_cons. change (zlen (@nil Z)) with 0. lia. }
  destruct (skipn_cons_ex (_in fc) (zlen body + 1)) as (y & rest & Hsk);
    [unfold BUFFER_SIZE in *; lia|].
  exists y, rest.
  rewrite (feed_store (body ++ [MSG_END_A]) [] (_in fc) w); try assumption.
  - cbn [app zlen List.length Z.of_nat Z.add]. fold (zlen (body ++ [MSG_END_A])).
    rewrite Hl1. rewrite length_app. cbn [List.length].
    replace (List.length body + 1)%nat with (Z.to_nat (zlen body + 1))
      by (unfold zlen; lia).
    rewrite Hsk. reflexivity.
  - reflexivity.
  - rewrite Hl1. unfold BUFFER_SIZE in *. lia.
  - cbn [zlen List.length Z.of_nat Z.add]. fold (zlen (body ++ [MSG_END_A])).
    lia.
  - apply Forall_app. split; [assumption|].
    repeat constructor; unfold MSG_END_A; lia.
  - cbn [app]. now rewrite has_term_pair_snoc_A.
Qed.

(** ** Three diagnostics on an empty queue *)

Lemma obi_enqueued (msg : list Z) (fc : FastComms) :
  _obi (enqueued msg fc) = next_slot (_obi fc).
Proof. reflexivity. Qed.

Lemma o_enqueued (msg : list Z) (fc : FastComms) :
  _o (enqueued msg fc) = _o fc + 1.
Proof. reflexivity. Qed.

Lemma o_set_i (v : Z) (fc : FastComms) : _o (set_i v fc) = _o fc.
Proof. reflexivity. Qed.

Lemma rx_set_i (v : Z) (fc : FastComms) : _rx (set_i v fc) = _rx fc.
Proof. reflexivity. Qed.

Lemma txb_set_i (v : Z) (fc : FastComms) : _txb (set_i v fc) = _txb fc.
Proof. reflexivity. Qed.

Lemma txlen_set_i (v : Z) (fc : FastComms) : _txlen (set_i v fc) = _txlen fc.
Proof. reflexivity. Qed.

Lemma msg_set_i (v : Z) (fc : FastComms) : _msg (set_i v fc) = _msg fc.
Proof. reflexivity. Qed.

Lemma rx_enqueued (msg : list Z) (fc : FastComms) :
  _rx (enqueued msg fc) = _rx fc.
Proof. reflexivity. Qed.

Lemma txb_enqueued (msg : list Z) (fc : FastComms) :
  _txb (enqueued msg fc) = _txb fc.
Proof. reflexivity. Qed.

Lemma txlen_enqueued (msg : list Z) (fc : FastComms) :
  _txlen (enqueued msg fc) = _txlen fc.
Proof. reflexivity. Qed.

Lemma msg_enqueued (msg : list Z) (fc : FastComms) :
  _msg (enqueued msg fc) = _msg fc.
Proof. reflexivity. Qed.

Lemma i_enqueued (msg : list Z) (fc : FastComms) :
  _i (enqueued msg fc) = _i fc.
Proof. reflexivity. Qed.

Lemma head_slot_set_i (fc : FastComms) (k : Z) (s : list Z) (v : Z) :
  head_slot fc k s -> head_slot (set_i v fc) k s.
Proof. intros H. exact H. Qed.

Lemma wf_queue_set_i (fc : FastComms) (v : Z) :
  wf_queue fc -> wf_queue (set_i v fc).
Proof. intros [? ? ? ? ?]. constructor; assumption. Qed.

Lemma wf_queue_set_in (fc : FastComms) (v : list Z) :
  wf_queue fc -> wf_queue (set_in v fc).
Proof. intros [? ? ? ? ?]. constructor; assumption. Qed.

Lemma queued_set_i (fc : FastComms) (v : Z) : queued (set_i v fc) = queued fc.
Proof. reflexivity. Qed.

Lemma enqueue_three (fc : FastComms) (m1 m2 m3 : list Z) :
  wf_queue fc -> _o fc = 0 ->
  strlen m1 < BUFFER_SIZE -> strlen m2 < BUFFER_SIZE ->
  strlen m3 < BUFFER_SIZE -> Forall is_char (cstr m1) ->
  let fc3 := enqueued m3 (enqueued m2 (enqueued m1 fc)) in
  queued fc3 = [Ok (cstr m1); Ok (cstr m2); Ok (cstr m3)]
  /\ head_slot fc3 (_obi fc) (cstr m1)
  /\ _o fc3 = 3.
Proof.
  intros Hwf Ho H1 H2 H3 Hc fc3. subst fc3.
  set (fc1 := enqueued m1 fc). set (fc2 := enqueued m2 fc1).
  assert (Hk : 0 <= _obi fc < TX_QUEUE_SIZE) by apply Hwf.
  destruct (next_slot_neq (_obi fc) Hk) as (N1 & N2 & N3).
  assert (Hlt0 : _o fc < TX_QUEUE_SIZE) by (rewrite Ho; reflexivity).
  assert (Hwf1 : wf_queue fc1) by now apply wf_queue_enqueued.
  assert (Ho1 : _o fc1 = 1) by (unfold fc1; rewrite o_enqueued, Ho; reflexivity).
  assert (Hlt1 : _o fc1 < TX_QUEUE_SIZE) by (rewrite Ho1; reflexivity).
  assert (Hwf2 : wf_queue fc2) by now apply wf_queue_enqueued.
  assert (Ho2 : _o fc2 = 2) by (unfold fc2; rewrite o_enqueued, Ho1; reflexivity).
  assert (Hlt2 : _o fc2 < TX_QUEUE_SIZE) by (rewrite Ho2; reflexivity).
  assert (L0 : live fc = []) by (unfold live; now rewrite Ho).
  assert (L1 : live fc1 = [Slot (_obi fc)])
    by (unfold fc1; rewrite live_enqueued, L0 by assumption; reflexivity).
  assert (L2 : live fc2 = [Slot (_obi fc); Slot (next_slot (_obi fc))])
    by (unfold fc2; rewrite live_enqueued, L1 by assumption; reflexivity).
  assert (Q0 : queued fc = []) by (unfold queued; now rewrite Ho).
  split; [|split].
  - rewrite queued_enqueued; [| exact Hwf2 | exact Hlt2 |].
    + unfold fc2 at 1. rewrite queued_enqueued; [| exact Hwf1 | exact Hlt1 |].
      * unfold fc1 at 1. rewrite queued_enqueued, Q0; [reflexivity | | | ];
          try assumption. rewrite L0. intros [].
      * rewrite L1. unfold fc1. rewrite obi_enqueued.
        intros [E|[]]. injection E as E. congruence.
    + rewrite L2. unfold fc2, fc1. rewrite !obi_enqueued.
      intros [E|[E|[]]]; injection E as E; congruence.
  - apply head_slot_enqueued_later;
      [ | exact Hwf2 | rewrite Ho2; split; reflexivity
        | unfold fc2, fc1; rewrite !obi_enqueued; congruence ].
    unfold fc2. apply head_slot_enqueued_later;
      [ | exact Hwf1 | rewrite Ho1; split; reflexivity
        | unfold fc1; rewrite obi_enqueued; congruence ].
    unfold fc1. now apply head_slot_enqueued_first.
  - rewrite o_enqueued, Ho2. reflexivity.
Qed.

(** ** Logs *)

Lemma handled_app (l1 l2 : list event) :
  handled (l1 ++ l2) = handled l1 ++ handled l2.
Proof. apply flat_map_app. Qed.

Lemma diagnostics_app (l1 l2 : list event) :
  diagnostics (l1 ++ l2) = diagnostics l1 ++ diagnostics l2.
Proof. apply flat_map_app. Qed.

Lemma written_app (l1 l2 : list event) :
  written (l1 ++ l2) = written l1 ++ written l2.
Proof. apply flat_map_app. Qed.

Lemma handled_reads (bs : list Z) : handled (map EvRead bs) = [].
Proof. induction bs; cbn; auto. Qed.

Lemma diagnostics_reads (bs : list Z) : diagnostics (map EvRead bs) = [].
Proof. induction bs; cbn; auto. Qed.

Lemma written_writes (bs : list Z) : written (map EvWrite bs) = bs.
Proof.
  induction bs as [|b bs IH]; [reflexivity|].
  cbn [map]. unfold written in *. cbn [flat_map app]. now rewrite IH.
Qed.

(** ** Delivery of a frame *)

Lemma feed_frame_plain (w : World) (body : list Z) (h : handler) :
  let fc := this w in
  rx_idle w -> zlen (_in fc) = BUFFER_SIZE -> zlen (_msg fc) = BUFFER_SIZE ->
  _i fc = 0 -> _msgHandler fc = Some h ->
  _useChecksum fc = false \/ zlen body <= 1 ->
  zlen body + 2 <= BUFFER_SIZE ->
  Forall is_byte body -> has_term_pair body = false ->
  exists w',
    feed (body ++ [MSG_END_A; MSG_END_B]) w
    = Ok (repeat false (List.length body + 1) ++ [true], w')
    /\ log w' = log w ++ map EvRead (body ++ [MSG_END_A; MSG_END_B])
                      ++ [EvHandler h (cstr body)]
    /\ _msg (this w') = msg_with (cstr body) (_msg fc)
    /\ _i (this w') = 0.
Proof.
  intros fc Hidle Hin Hm Hi Hh Hcs Hlen Hb Hnp.
  destruct (feed_body w body) as (y & rest & Hfeed); try assumption.
  fold fc in Hfeed. set (w1 := mkWorld _ _ _) in Hfeed.
  replace (body ++ [MSG_END_A; MSG_END_B])
    with ((body ++ [MSG_END_A]) ++ [MSG_END_B]) by (now rewrite <- app_assoc).
  rewrite feed_app, Hfeed. cbn [bind feed].
  assert (Hidle1 : rx_idle w1) by (apply rx_idle_step; [assumption | reflexivity ..]).
  rewrite (txrx_plain w1 body y rest); try assumption; try reflexivity;
    [| unfold BUFFER_SIZE in *; lia].
  cbn [bind]. eexists. split; [reflexivity|].
  assert (Hh1 : _msgHandler (this w1) = Some h) by exact Hh.
  rewrite Hh1.
  cbn [this log _msg _i set_i set_msg set_in handler_events].
  unfold w1. cbn [log].
  rewrite !map_app. cbn [map].
  rewrite <- !app_assoc. cbn [app]. repeat split.
Qed.

Lemma feed_frame_checksum_ok (w : World) (P : list Z) (h : handler) :
  let fc := this w in
  rx_idle w -> zlen (_in fc) = BUFFER_SIZE -> zlen (_msg fc) = BUFFER_SIZE ->
  _i fc = 0 -> _msgHandler fc = Some h -> _useChecksum fc = true ->
  0 < zlen P <= BUFFER_SIZE - 4 ->
  Forall is_char P -> has_term_pair (P ++ [checkSum P]) = false ->
  exists w',
    feed (P ++ [checkSum P; MSG_END_A; MSG_END_B]) w
    = Ok (repeat false (List.length P + 2) ++ [true], w')
    /\ log w' = log w
                ++ map EvRead (P ++ [checkSum P; MSG_END_A; MSG_END_B])
                ++ [EvHandler h P]
    /\ _msg (this w') = msg_with P (_msg fc)
    /\ _i (this w') = 0.
Proof.
  intros fc Hidle Hin Hm Hi Hh Hcs Hlen HP Hnp.
  pose proof (cstr_chars P HP) as HcP.
  set (c := checkSum P) in *.
  assert (Hbody : Forall is_byte (P ++ [c])).
  { apply Forall_app. split; [now apply is_char_byte|].
    repeat constructor; apply checkSum_range. }
  assert (Hbl : zlen (P ++ [c]) = zlen P + 1).
  { rewrite zlen_app, zlen_cons. change (zlen (@nil Z)) with 0. lia. }
  destruct (feed_body w (P ++ [c])) as (y & rest & Hfeed); try assumption.
  { rewrite Hbl. unfold BUFFER_SIZE in *. lia. }
  fold fc in Hfeed. rewrite Hbl in Hfeed.
  set (w1 := mkWorld _ _ _) in Hfeed.
  replace (P ++ [c; MSG_END_A; MSG_END_B])
    with (((P ++ [c]) ++ [MSG_END_A]) ++ [MSG_END_B])
    by (now rewrite <- !app_assoc).
  rewrite feed_app, Hfeed. cbn [bind feed].
  assert (Hidle1 : rx_idle w1) by (apply rx_idle_step; [assumption | reflexivity ..]).
  assert (Hin1 : _in (this w1) = (P ++ [c; MSG_END_A]) ++ y :: rest).
  { cbn. now rewrite <- !app_assoc. }
  assert (Hi1 : _i (this w1) = zlen P + 2) by (cbn; lia).
  assert (Hlt1 : zlen P + 2 < BUFFER_SIZE) by (unfold BUFFER_SIZE in *; lia).
  assert (Hfit : zlen (cstr P) + 1 <= BUFFER_SIZE - 3)
    by (rewrite HcP; unfold BUFFER_SIZE in *; lia).
  assert (Hsum : c = checkSum (cstr P)) by now rewrite HcP.
  rewrite (txrx_checksum_ok w1 P c y rest Hidle1 Hin1 Hi1 Hlt1 (proj1 Hlen)
             Hm Hcs Hfit Hsum).
  cbn [bind]. eexists. split.
  - rewrite length_app. cbn [List.length].
    replace (List.length P + 1 + 1)%nat with (List.length P + 2)%nat by lia.
    reflexivity.
  - assert (Hh1 : _msgHandler (this w1) = Some h) by exact Hh.
    rewrite Hh1, HcP.
    cbn [this log _msg _i set_i set_msg set_in handler_events].
    unfold w1. cbn [log].
    rewrite !map_app. cbn [map].
    rewrite <- !app_assoc. cbn [app]. repeat split.
Qed.

(** A ready receiver fed the frame of [P] delivers [P], once. *)
Lemma feed_frame_delivers (cs : bool) (P : list Z) (h : handler) (w : World) :
  receiver_ready cs h w ->
  Forall is_char P -> zlen P <= max_payload cs ->
  has_term_pair (P ++ (if cs then [checkSum P] else [])) = false ->
  exists w',
    feed (frame cs P) w
    = Ok (repeat false (List.length (frame cs P) - 1) ++ [true], w')
    /\ log w' = log w ++ map EvRead (frame cs P) ++ [EvHandler h P]
    /\ _msg (this w') = msg_with P (_msg (this w))
    /\ _i (this w') = 0.
Proof.
  intros (Hidle & Hin & Hm & Hi & Hcs & Hh) HP Hlen Hnp.
  pose proof (cstr_chars P HP) as HcP.
  pose proof (zlen_nonneg P) as HP0.
  unfold frame, max_payload in *. destruct cs.
  - destruct P as [|p0 P'] eqn:EP.
    + (* the empty payload: the checksum byte alone is taken as a plain
         message, which is empty as well *)
      destruct (feed_frame_plain w [checkSum []] h)
        as (w' & Hf & Hl & Hmsg & Hi'); try assumption;
        try (cbv; congruence).
      * right. cbv. congruence.
      * repeat constructor; cbv; congruence.
      * exists w'. cbn [app] in *. split; [exact Hf|].
        split; [exact Hl|]. split; [exact Hmsg | exact Hi'].
    + rewrite <- EP in *.
      assert (Hpos : 0 < zlen P) by (rewrite EP, zlen_cons; pose proof (zlen_nonneg P'); lia).
      destruct (feed_frame_checksum_ok w P h)
        as (w' & Hf & Hl & Hmsg & Hi'); try assumption; [lia|].
      exists w'. cbn [app].
      replace (List.length (P ++ [checkSum P; MSG_END_A; MSG_END_B]) - 1)%nat
        with (List.length P + 2)%nat by (rewrite length_app; cbn; lia).
      split; [exact Hf|]. split; [exact Hl|]. split; [exact Hmsg | exact Hi'].
  - rewrite app_nil_r in Hnp. cbn [app].
    destruct (feed_frame_plain w P h)
      as (w' & Hf & Hl & Hmsg & Hi'); try assumption.
    + now left.
    + unfold BUFFER_SIZE in *. lia.
    + now apply is_char_byte.
    + exists w'. rewrite HcP in *.
      replace (List.length (P ++ [MSG_END_A; MSG_END_B]) - 1)%nat
        with (List.length P + 1)%nat by (rewrite length_app; cbn; lia).
      split; [exact Hf|]. split; [exact Hl|]. split; [exact Hmsg | exact Hi'].
Qed.

(** A ready sender given [P] writes the frame of [P], one byte per tick. *)
Lemma send_frame (cs : bool) (P : list Z) (w : World) :
  sender_ready cs P w -> Forall is_char P -> zlen P < BUFFER_SIZE ->
  exists w1 w2,
    app_sendMsg P w = Ok (1, w1)
    /\ ticks (List.length (frame cs P)) w1
       = Ok (repeat false (List.length (frame cs P)), w2)
    /\ log w2 = log w ++ map EvWrite (frame cs P).
Proof.
  intros (Hq & Hwf & Ho & Hb & Hl & Hcs & Hroom) HP Hlen.
  pose proof (cstr_chars P HP) as HcP.
  assert (Hsl : strlen P < BUFFER_SIZE) by (unfold strlen; now rewrite HcP).
  assert (Hlt : _o (this w) < TX_QUEUE_SIZE) by (rewrite Ho; reflexivity).
  unfold app_sendMsg. rewrite sendMsg_ok by assumption. cbn [bind].
  set (w1 := mkWorld (enqueued P (this w)) (serial w) (log w)).
  assert (Hh : head_slot (this w1) (_obi (this w)) (cstr P)).
  { apply head_slot_enqueued_first; try assumption. now rewrite HcP. }
  rewrite HcP in Hh.
  assert (Hq1 : tx_quiet w1) by exact Hq.
  assert (Ho1 : 0 < _o (this w1)).
  { change (_o (this w1)) with (_o (this w) + 1). rewrite Ho. reflexivity. }
  assert (Hcs1 : _useChecksum (this w1) = cs) by exact Hcs.
  pose proof (ticks_send_frame w1 (_obi (this w)) P Hq1 Ho1 Hh Hb Hl) as Ht.
  cbv zeta in Ht. rewrite Hcs1 in Ht. specialize (Ht Hroom).
  exists w1. eexists. split; [reflexivity|]. split; [exact Ht | reflexivity].
Qed.

(** ** What one call adds to the log *)

Ltac inv_bind H :=
  repeat match type of H with
         | bind _ _ = Ok _ =>
           let x := fresh "x" in
           let E := fresh "E" in
           apply bind_Ok in H; destruct H as (x & E & H)
         end.

Lemma no_port_io_quiet (l : list event) :
  no_port_io l = true -> existsb is_write l = false /\ reads l = [].
Proof.
  induction l as [|e l IH]; [now split|].
  cbn [no_port_io forallb]. intros H. apply andb_prop in H.
  destruct H as [He Hl]. destruct (IH Hl) as [IH1 IH2].
  destruct e; cbn in He; try discriminate; cbn; now rewrite ?IH1, ?IH2.
Qed.

Lemma send_diag_log (msg : list Z) (w w' : World) :
  send_diag msg w = Ok w' ->
  serial w' = serial w
  /\ exists r, log w' = log w ++ [EvSendMsg (cstr msg) r].
Proof.
  unfold send_diag. intros H. inv_bind H. destruct x as [r fc].
  injection H as <-. split; [reflexivity | now exists r].
Qed.

Lemma call_handler_log (w w' : World) :
  call_handler w = Ok w' ->
  serial w' = serial w
  /\ exists l, log w' = log w ++ l /\ no_port_io l = true.
Proof.
  unfold call_handler. destruct (_msgHandler (this w)) as [h|].
  - intros H. inv_bind H. injection H as <-. split; [reflexivity|].
    eexists. split; reflexivity.
  - intros [= <-]. split; [reflexivity|]. exists []. now rewrite app_nil_r.
Qed.

Lemma rx_checksummed_log (w w' : World) :
  rx_checksummed w = Ok w' ->
  serial w' = serial w
  /\ exists l, log w' = log w ++ l /\ no_port_io l = true.
Proof.
  unfold rx_checksummed. intros H. inv_bind H. injection H as <-.
  destruct (x =? checkSum x3).
  - inv_bind E4. apply call_handler_log in E4.
    destruct E4 as (Es & l & El & Hl). cbn [serial log with_this] in *.
    split; [exact Es|]. exists l. now split.
  - inv_bind E4.
    apply send_diag_log in E5, E7, E4.
    destruct E5 as (S1 & r1 & L1), E7 as (S2 & r2 & L2), E4 as (S3 & r3 & L3).
    cbn [serial log with_this] in *.
    split; [congruence|]. eexists.
    rewrite L3, L2, L1, <- !app_assoc. split; reflexivity.
Qed.

Lemma rx_plain_log (w w' : World) :
  rx_plain w = Ok w' ->
  serial w' = serial w
  /\ exists l, log w' = log w ++ l /\ no_port_io l = true.
Proof.
  unfold rx_plain. intros H. inv_bind H. apply call_handler_log in H.
  exact H.
Qed.

Lemma rx_byte_log (w w' : World) (b : Z) (rest : list Z) :
  rx_pending (serial w) = b :: rest ->
  rx_byte w = Ok w' ->
  serial w' = mkSerial rest (tx_free (serial w))
  /\ exists l, log w' = log w ++ EvRead b :: l /\ no_port_io l = true.
Proof.
  intros Hp. unfold rx_byte, port_read. rewrite Hp.
  intros H. inv_bind H.
  set (w1 := with_this _ _) in *.
  assert (Hw1 : serial w1 = mkSerial rest (tx_free (serial w))
                /\ log w1 = log w ++ [EvRead b]) by (split; reflexivity).
  destruct Hw1 as [S1 L1].
  assert (Hdone : forall v, serial (with_this (set_i v) w1)
                            = mkSerial rest (tx_free (serial w))
         /\ exists l, log (with_this (set_i v) w1) = log w ++ EvRead b :: l
                      /\ no_port_io l = true).
  { intros v. split; [exact S1|]. exists []. split; [exact L1 | reflexivity]. }
  destruct ((0 <? _i (this w1)) && (x0 =? MSG_END_B)).
  - inv_bind H. destruct (x1 =? MSG_END_A).
    + inv_bind H. injection H as <-.
      assert (Hpath : serial x2 = serial w1
                /\ exists l, log x2 = log w1 ++ l /\ no_port_io l = true).
      { destruct (_useChecksum (this w1) && (2 <? _i (this w1)));
          [now apply rx_checksummed_log | now apply rx_plain_log]. }
      destruct Hpath as (S2 & l & L2 & Hl).
      cbn [serial log with_this]. split; [congruence|].
      exists l. split; [|exact Hl].
      rewrite L2, L1, <- app_assoc. reflexivity.
    + injection H as <-. apply Hdone.
  - injection H as <-. apply Hdone.
Qed.

(** The receive half reads at most one byte and writes none. *)
Lemma rx_section_log (w w' : World) :
  rx_section w = Ok w' ->
  tx_free (serial w') = tx_free (serial w)
  /\ exists l,
       log w' = log w ++ l /\ existsb is_write l = false
       /\ if (_i (this w) <? BUFFER_SIZE) && (0 <? available w)
          then exists b, rx_pending (serial w) = b :: rx_pending (serial w')
                         /\ reads l = [b]
          else rx_pending (serial w') = rx_pending (serial w)
               /\ reads l = [].
Proof.
  unfold rx_section. destruct (_i (this w) <? BUFFER_SIZE); cbn [andb].
  - unfold available.
    destruct (rx_pending (serial w)) as [|b rest] eqn:Hp.
    + cbn. intros [= <-]. split; [reflexivity|].
      exists []. rewrite app_nil_r. repeat split. exact Hp.
    + rewrite zlen_cons. pose proof (zlen_nonneg rest) as Hr0.
      destruct (Z.ltb_spec 0 (zlen rest + 1)) as [_|Hbad]; [|lia].
      intros H. destruct (rx_byte_log w w' b rest Hp H) as (S1 & l & L1 & Hl).
      apply no_port_io_quiet in Hl. destruct Hl as [Hw Hr].
      rewrite S1. split; [reflexivity|].
      exists (EvRead b :: l). split; [exact L1|]. split; [exact Hw|].
      exists b. split; [reflexivity|].
      unfold reads in *. cbn [flat_map app]. now rewrite Hr.
  - intros H. apply send_diag_log in H. destruct H as (S1 & r & L1).
    cbn [serial log with_this] in *. rewrite S1. split; [reflexivity|].
    eexists. split; [exact L1|]. repeat split.
Qed.

(** The transmit half writes at most one byte and reads none. *)
Lemma tx_section_log (w w' : World) :
  tx_section w = Ok w' ->
  rx_pending (serial w') = rx_pending (serial w)
  /\ (log w' = log w \/ exists b, log w' = log w ++ [EvWrite b]).
Proof.
  unfold tx_section. destruct (0 <? _o (this w)); [|intros [= <-]; auto].
  intros H. inv_bind H. destruct (_txb x <? _txlen x).
  - destruct (0 <? availableForWrite _).
    + inv_bind H. injection H as <-. destruct x0 as [b|].
      * split; [reflexivity|]. right. now exists (u8 b).
      * split; [reflexivity|]. now left.
    + injection H as <-. split; [reflexivity|]. now left.
  - inv_bind H. injection H as <-. split; [reflexivity|]. now left.
Qed.

(** ** The inbound buffer is never left *)

Lemma load_fault_id {A} (a : array_id) (l : list A) (i : Z) (f : fault) :
  load a l i = Fault f -> f = OutOfBounds a i /\ ~ (0 <= i < zlen l).
Proof.
  unfold load. destruct (in_range l i) eqn:E.
  - destruct (nth_error l (Z.to_nat i)) eqn:N; [discriminate|].
    apply nth_error_None in N. unfold in_range in E.
    apply andb_prop in E. destruct E as [E1 E2].
    apply Z.leb_le in E1. apply Z.ltb_lt in E2. unfold zlen in E2. lia.
  - intros [= <-]. split; [reflexivity|].
    intros H. now rewrite (in_range_true l i H) in E.
Qed.

Lemma store_fault_id {A} (a : array_id) (l : list A) (i : Z) (x : A) (f : fault) :
  store a l i x = Fault f -> f = OutOfBounds a i /\ ~ (0 <= i < zlen l).
Proof.
  unfold store. destruct (in_range l i) eqn:E; [discriminate|].
  intros [= <-]. split; [reflexivity|].
  intros H. now rewrite (in_range_true l i H) in E.
Qed.

Lemma write_at_fault_id (a : array_id) (dst : list Z) (off : Z) (src : list Z)
    (f : fault) :
  write_at a dst off src = Fault f -> f = OutOfBounds a (zlen dst).
Proof.
  unfold write_at. destruct (off + zlen src <=? zlen dst); [discriminate|].
  now intros [= <-].
Qed.

Lemma c_string_fault_id (a : array_id) (buf : list Z) (f : fault) :
  c_string a buf = Fault f ->
  f = OutOfBounds a (zlen buf) /\ has_nul buf = false.
Proof.
  unfold c_string. destruct (has_nul buf); [discriminate|].
  now intros [= <-].
Qed.

Lemma strncat_fault_id (a : array_id) (dst src : list Z) (n : Z) (f : fault) :
  strncat a dst src n = Fault f -> f = OutOfBounds a (zlen dst).
Proof.
  unfold strncat. intros H. apply bind_Fault in H.
  destruct H as [H | (d & _ & H)].
  - now apply c_string_fault_id in H.
  - now apply write_at_fault_id in H.
Qed.

Lemma has_nul_list_set (l : list Z) (n : nat) :
  (n < List.length l)%nat -> has_nul (list_set l n 0) = true.
Proof.
  revert n. induction l as [|h t IH]; intros [|n] H; simpl in *;
    try lia; try reflexivity.
  fold (has_nul (list_set t n 0)). rewrite IH by lia. apply orb_true_r.
Qed.

Ltac inv_fault H :=
  let x := fresh "x" in
  let E := fresh "E" in
  apply bind_Fault in H; destruct H as [H | (x & E & H)].

Lemma sendMsg_fault (msg : list Z) (fc : FastComms) (f : fault) :
  sendMsg msg fc = Fault f -> is_in_fault f = false.
Proof.
  unfold sendMsg. destruct (_o fc <? TX_QUEUE_SIZE); [|discriminate].
  destruct (u8 (strlen msg) <? BUFFER_SIZE); [|discriminate].
  cbv zeta. cbn [deref deref_store]. intros H.
  inv_fault H; [apply store_fault_id in H; destruct H as [-> _]; reflexivity|].
  inv_fault H; [apply load_fault_id in H; destruct H as [-> _]; reflexivity|].
  inv_fault H; [apply store_fault_id in H; destruct H as [-> _]; reflexivity|].
  inv_fault H; [apply strncat_fault_id in H; subst f; reflexivity|].
  inv_fault H; [apply store_fault_id in H; destruct H as [-> _]; reflexivity|].
  discriminate.
Qed.

Lemma sendMsg_rx_fields (msg : list Z) (fc fc' : FastComms) (r : Z) :
  sendMsg msg fc = Ok (r, fc') -> _in fc' = _in fc /\ _i fc' = _i fc.
Proof.
  unfold sendMsg. destruct (_o fc <? TX_QUEUE_SIZE); [|now intros [= _ <-]].
  destruct (u8 (strlen msg) <? BUFFER_SIZE); [|now intros [= _ <-]].
  cbv zeta. intros H. inv_bind H. injection H as _ <-.
  destruct (_obi _ <? _); split; reflexivity.
Qed.

Lemma send_diag_fault (msg : list Z) (w : World) (f : fault) :
  send_diag msg w = Fault f -> is_in_fault f = false.
Proof.
  unfold send_diag. intros H. inv_fault H.
  - now apply sendMsg_fault in H.
  - destruct x. discriminate.
Qed.

Lemma send_diag_rx_fields (msg : list Z) (w w' : World) :
  send_diag msg w = Ok w' ->
  _in (this w') = _in (this w) /\ _i (this w') = _i (this w).
Proof.
  unfold send_diag. intros H. inv_bind H. destruct x as [r fc].
  injection H as <-. now apply sendMsg_rx_fields in E.
Qed.

Lemma call_handler_fault (w : World) (f : fault) :
  call_handler w = Fault f -> is_in_fault f = false.
Proof.
  unfold call_handler. destruct (_msgHandler (this w)); [|discriminate].
  intros H. inv_fault H; [|discriminate].
  apply c_string_fault_id in H. destruct H as [-> _]. reflexivity.
Qed.

Lemma call_handler_this (w w' : World) :
  call_handler w = Ok w' -> this w' = this w.
Proof.
  unfold call_handler. destruct (_msgHandler (this w)).
  - intros H. inv_bind H. now injection H as <-.
  - now intros [= <-].
Qed.

Lemma rx_checksummed_fault (w : World) (f : fault) :
  2 < _i (this w) < zlen (_in (this w)) ->
  rx_checksummed w = Fault f -> is_in_fault f = false.
Proof.
  intros Hi. unfold rx_checksummed. intros H.
  inv_fault H; [apply load_fault_id in H; lia|].
  inv_fault H; [apply store_fault_id in H; lia|].
  apply store_inv in E0. destruct E0 as (_ & -> & _).
  inv_fault H.
  { apply c_string_fault_id in H. destruct H as [_ H].
    rewrite has_nul_list_set in H; [discriminate|]. unfold zlen in Hi. lia. }
  inv_fault H; [apply write_at_fault_id in H; subst f; reflexivity|].
  inv_fault H; [apply c_string_fault_id in H; destruct H as [-> _]; reflexivity|].
  inv_fault H; [|discriminate].
  match type of H with
  | context [if ?c then _ else _] => destruct c
  end.
  - inv_fault H; [apply write_at_fault_id in H; subst f; reflexivity|].
    now apply call_handler_fault in H.
  - inv_fault H; [now apply send_diag_fault in H|].
    inv_fault H; [apply write_at_fault_id in H; subst f; reflexivity|].
    inv_fault H; [now apply send_diag_fault in H|].
    inv_fault H; [apply write_at_fault_id in H; subst f; reflexivity|].
    now apply send_diag_fault in H.
Qed.

Lemma rx_checksummed_in (w w' : World) :
  rx_checksummed w = Ok w' -> zlen (_in (this w')) = zlen (_in (this w)).
Proof.
  unfold rx_checksummed. intros H. inv_bind H. injection H as <-.
  apply store_inv in E0. destruct E0 as (_ & _ & L0).
  cbn [this with_this _in set_i].
  assert (Hx : zlen (_in (this x4)) = zlen x0); [|congruence].
  destruct (x =? checkSum x3).
  - inv_bind E4. apply call_handler_this in E4. rewrite E4. reflexivity.
  - inv_bind E4.
    repeat match goal with
           | H : send_diag _ _ = Ok _ |- _ =>
             apply send_diag_rx_fields in H; destruct H as [? _]
           end.
    cbn [this with_this _in set_in] in *. congruence.
Qed.

Lemma rx_plain_fault (w : World) (f : fault) :
  0 < _i (this w) < zlen (_in (this w)) ->
  rx_plain w = Fault f -> is_in_fault f = false.
Proof.
  intros Hi. unfold rx_plain. intros H.
  inv_fault H; [apply store_fault_id in H; lia|].
  apply store_inv in E. destruct E as (_ & -> & _).
  inv_fault H.
  { apply c_string_fault_id in H. destruct H as [_ H].
    rewrite has_nul_list_set in H; [discriminate|]. unfold zlen in Hi. lia. }
  inv_fault H; [apply write_at_fault_id in H; subst f; reflexivity|].
  now apply call_handler_fault in H.
Qed.

Lemma rx_plain_in (w w' : World) :
  rx_plain w = Ok w' -> zlen (_in (this w')) = zlen (_in (this w)).
Proof.
  unfold rx_plain. intros H. inv_bind H. apply call_handler_this in H.
  rewrite H. apply store_inv in E. destruct E as (_ & _ & L). exact L.
Qed.
Lemma rx_byte_fault (w : World) (f : fault) :
  0 <= _i (this w) < zlen (_in (this w)) ->
  rx_byte w = Fault f -> is_in_fault f = false.
Proof.
  intros Hi. unfold rx_byte.
  destruct (port_read w) as [b w0] eqn:Er.
  assert (Hw0 : this w0 = this w).
  { unfold port_read in Er. destruct (rx_pending (serial w));
      injection Er as _ <-; reflexivity. }
  rewrite Hw0. intros H.
  inv_fault H; [apply store_fault_id in H; lia|].
  apply store_inv in E. destruct E as (_ & _ & L).
  set (w1 := with_this (set_in x) w0) in *.
  assert (Hi1 : _i (this w1) = _i (this w)) by (unfold w1; cbn; now rewrite Hw0).
  assert (Hl1 : zlen (_in (this w1)) = zlen (_in (this w))) by exact L.
  rewrite Hi1 in H.
  inv_fault H; [apply load_fault_id in H; lia|].
  destruct (Z.ltb_spec 0 (_i (this w))) as [Hpos|]; cbn [andb] in H;
    [|discriminate].
  destruct (x0 =? MSG_END_B); [|discriminate].
  inv_fault H; [apply load_fault_id in H; lia|].
  destruct (x1 =? MSG_END_A); [|discriminate].
  inv_fault H; [|discriminate].
  destruct (_useChecksum (this w1)); cbn [andb] in H.
  - destruct (Z.ltb_spec 2 (_i (this w))).
    + apply rx_checksummed_fault in H; [exact H | lia].
    + apply rx_plain_fault in H; [exact H | lia].
  - apply rx_plain_fault in H; [exact H | lia].
Qed.

Lemma rx_byte_inbound (w w' : World) :
  0 <= _i (this w) < zlen (_in (this w)) ->
  zlen (_in (this w)) = BUFFER_SIZE ->
  rx_byte w = Ok w' -> inbound_ok (this w').
Proof.
  intros Hi Hl. unfold rx_byte.
  destruct (port_read w) as [b w0] eqn:Er.
  assert (Hw0 : this w0 = this w).
  { unfold port_read in Er. destruct (rx_pending (serial w));
      injection Er as _ <-; reflexivity. }
  rewrite Hw0. intros H. inv_bind H.
  apply store_inv in E. destruct E as (_ & _ & L).
  set (w1 := with_this (set_in x) w0) in *.
  assert (Hi1 : _i (this w1) = _i (this w)) by (unfold w1; cbn; now rewrite Hw0).
  assert (Hl1 : zlen (_in (this w1)) = zlen (_in (this w))) by exact L.
  rewrite Hi1 in H.
  assert (Hstep : inbound_ok (this (with_this (set_i (u8 (_i (this w) + 1))) w1))).
  { split; [cbn [this with_this _in set_i]; congruence|].
    cbn [this with_this _i set_i].
    rewrite u8_small by (unfold BUFFER_SIZE in *; lia). lia. }
  destruct ((0 <? _i (this w)) && (x0 =? MSG_END_B)).
  - inv_bind H. destruct (x1 =? MSG_END_A).
    + inv_bind H. injection H as <-.
      split; [|cbn; unfold BUFFER_SIZE; lia].
      cbn [this with_this _in set_i].
      destruct (_useChecksum (this w1) && (2 <? _i (this w))).
      * apply rx_checksummed_in in E1. congruence.
      * apply rx_plain_in in E1. congruence.
    + injection H as <-. exact Hstep.
  - injection H as <-. exact Hstep.
Qed.

Lemma rx_section_fault (w : World) (f : fault) :
  inbound_ok (this w) ->
  rx_section w = Fault f -> is_in_fault f = false.
Proof.
  intros [Hl Hi]. unfold rx_section.
  destruct (Z.ltb_spec (_i (this w)) BUFFER_SIZE) as [Hlt|Hge].
  - destruct (0 <? available w); [|discriminate].
    apply rx_byte_fault. lia.
  - apply send_diag_fault.
Qed.

Lemma rx_section_inbound (w w' : World) :
  inbound_ok (this w) -> rx_section w = Ok w' -> inbound_ok (this w').
Proof.
  intros [Hl Hi]. unfold rx_section.
  destruct (Z.ltb_spec (_i (this w)) BUFFER_SIZE) as [Hlt|Hge].
  - destruct (0 <? available w).
    + apply rx_byte_inbound; lia.
    + intros [= <-]. now split.
  - intros H. apply send_diag_rx_fields in H. destruct H as [E1 E2].
    split; [now rewrite E1|]. rewrite E2. cbn. unfold BUFFER_SIZE. lia.
Qed.

Lemma head_cells_fault {B : Type} (fc : FastComms) (k : list Z -> res B)
    (g : fault) :
  (let? head := load Arr_out (_out fc) 0 in
   let? cells := deref (_ob fc) head in k cells) = Fault g ->
  (forall cells, k cells = Fault g -> is_in_fault g = false) ->
  is_in_fault g = false.
Proof.
  intros H Hk.
  inv_fault H; [apply load_fault_id in H; destruct H as [-> _]; reflexivity|].
  inv_fault H; [|now apply Hk in H].
  destruct x; cbn [deref] in H; [now injection H as <-|].
  apply load_fault_id in H. destruct H as [-> _]. reflexivity.
Qed.

Lemma tx_section_fault (w : World) (f : fault) :
  tx_section w = Fault f -> is_in_fault f = false.
Proof.
  unfold tx_section. destruct (0 <? _o (this w)); [|discriminate].
  pose proof (@head_cells_fault) as Hhead.
  intros H. inv_fault H.
  - unfold tx_start in H. destruct (_ && _); [|discriminate].
    apply (Hhead _ _ _ _ H). intros cells Hc.
    inv_fault Hc; [|discriminate].
    apply c_string_fault_id in Hc. destruct Hc as [-> _]. reflexivity.
  - destruct (_txb x <? _txlen x).
    + destruct (0 <? availableForWrite _); [|discriminate].
      inv_fault H; [|discriminate].
      unfold tx_select, tx_checksum, tx_payload_byte in H.
      assert (Hck : forall g,
        (let? c := (let? head := load Arr_out (_out x) 0 in
                    let? cells := deref (_ob x) head in
                    let? s := c_string Arr_slot cells in Ok (checkSum s)) in
         Ok (Some c)) = Fault g -> is_in_fault g = false).
      { intros g Hg. inv_fault Hg; [|discriminate].
        apply (Hhead _ _ _ _ Hg). intros cells Hc.
        inv_fault Hc; [|discriminate].
        apply c_string_fault_id in Hc. destruct Hc as [-> _]. reflexivity. }
      assert (Hpb : forall g,
        (let? c := (let? head := load Arr_out (_out x) 0 in
                    let? cells := deref (_ob x) head in
                    load Arr_slot cells (_txb x)) in
         Ok (Some c)) = Fault g -> is_in_fault g = false).
      { intros g Hg. inv_fault Hg; [|discriminate].
        apply (Hhead _ _ _ _ Hg). intros cells Hc.
        apply load_fault_id in Hc. destruct Hc as [-> _]. reflexivity. }
      destruct (_useChecksum x).
      * destruct (_ <=? 3); [|now apply Hpb].
        destruct (_ =? 3); [now apply Hck|].
        destruct (_ =? 2); [discriminate|].
        destruct (_ =? 1); discriminate.
      * destruct (_ <=? 2); [|now apply Hpb].
        destruct (_ =? 2); [discriminate|].
        destruct (_ =? 1); discriminate.
    + inv_fault H; [|discriminate].
      unfold tx_dequeue in H. inv_fault H; [|discriminate].
      clear - H. revert H. generalize (_out x) as out, 1 as m.
      induction (Z.to_nat (_o x)) as [|n IH]; intros out m H;
        cbn [tx_shift] in H; [discriminate|].
      inv_fault H; [apply load_fault_id in H; destruct H as [-> _]; reflexivity|].
      inv_fault H; [apply store_fault_id in H; destruct H as [-> _]; reflexivity|].
      now apply IH in H.
Qed.

Lemma tx_section_rx_fields (w w' : World) :
  tx_section w = Ok w' ->
  _in (this w') = _in (this w) /\ _i (this w') = _i (this w).
Proof.
  unfold tx_section. destruct (0 <? _o (this w)); [|now intros [= <-]].
  intros H. inv_bind H.
  assert (Hx : _in x = _in (this w) /\ _i x = _i (this w)).
  { unfold tx_start in E. destruct (_ && _).
    - inv_bind E. injection E as <-. now split.
    - injection E as <-. now split. }
  destruct (_txb x <? _txlen x).
  - destruct (0 <? availableForWrite _).
    + inv_bind H. injection H as <-. destruct x0; exact Hx.
    + injection H as <-. exact Hx.
  - inv_bind H. injection H as <-. unfold tx_dequeue in E0.
    inv_bind E0. injection E0 as <-. exact Hx.
Qed.

Lemma txrx_fault (w : World) (f : fault) :
  inbound_ok (this w) -> txrx w = Fault f -> is_in_fault f = false.
Proof.
  intros Hok. unfold txrx. destruct (negb (_port (this w))); [discriminate|].
  intros H. inv_fault H; [now apply rx_section_fault in H|].
  inv_fault H; [now apply tx_section_fault in H|].
  destruct (_rx (this x0)); discriminate.
Qed.

Lemma txrx_inbound (w w' : World) (r : bool) :
  inbound_ok (this w) -> txrx w = Ok (r, w') -> inbound_ok (this w').
Proof.
  intros Hok. unfold txrx.
  destruct (negb (_port (this w))); [now intros [= _ <-]|].
  intros H. inv_bind H.
  apply rx_section_inbound in E; [|exact Hok].
  apply tx_section_rx_fields in E0. destruct E0 as [E1 E2].
  assert (Hx0 : inbound_ok (this x0)).
  { destruct E as [L I]. split; [now rewrite E1 | now rewrite E2]. }
  destruct (_rx (this x0)); injection H as _ <-; exact Hx0.
Qed.

Lemma reachable_inbound (w : World) : reachable w -> inbound_ok (this w).
Proof.
  induction 1 as [msg inb out ob p Hm Hi Ho Hob Hs
                 | w c p _ IH | w h _ IH | w msg r w' _ IH Hsend
                 | w r w' _ IH Htick | w p _ IH].
  - split; [exact Hi | cbn; unfold BUFFER_SIZE; lia].
  - destruct p; exact IH.
  - exact IH.
  - unfold app_sendMsg in Hsend. inv_bind Hsend. destruct x as [r0 fc].
    injection Hsend as _ <-. apply sendMsg_rx_fields in E.
    destruct E as [E1 E2], IH as [L I].
    split; cbn [this]; [now rewrite E1 | now rewrite E2].
  - exact (txrx_inbound w w' r IH Htick).
  - exact IH.
Qed.

Lemma reachable_fresh (cs : bool) (h : option handler) (cap : Z) :
  reachable (fresh_world cs h cap).
Proof.
  unfold fresh_world.
  apply (reach_setMsgHandler
           (mkWorld (init cs true FastComms_static) (mkSerial [] cap) []) h).
  apply (reach_init (mkWorld FastComms_static (mkSerial [] cap) []) cs true).
  apply reach_new; try reflexivity. repeat constructor.
Qed.

Lemma reachable_feed (bs : list Z) : forall (w w' : World) (rs : list bool),
  reachable w -> feed bs w = Ok (rs, w') -> reachable w'.
Proof.
  induction bs as [|b bs IH]; intros w w' rs Hw H; cbn [feed] in H.
  - now injection H as _ <-.
  - inv_bind H. destruct x as [r w1]. inv_bind H. destruct x as [rs1 w2].
    injection H as _ <-.
    apply (IH w1 w2 rs1); [|exact E0].
    apply (reach_txrx (arrive b w) r w1); [|exact E].
    apply (reach_port w). exact Hw.
Qed.

(** ** The transmit half after a receive half that queued something *)

(** A tick whose receive half leaves a world with no message flagged, a
    nonempty queue and the cursor at rest: the transmit half starts the
    head frame. *)
Lemma txrx_after_rx (w w1 : World) (k : Z) (s : list Z) :
  _port (this w) = true -> rx_section w = Ok w1 ->
  _rx (this w1) = false -> 0 < _o (this w1) -> head_slot (this w1) k s ->
  _txb (this w1) = 0 -> _txlen (this w1) = 0 ->
  exists w',
    txrx w = Ok (false, w')
    /\ log w' = log w1 ++ (if 0 <? tx_free (serial w1)
                           then [EvWrite (nth 0 (frame (_useChecksum (this w1)) s) 0)]
                           else [])
    /\ queued (this w') = queued (this w1)
    /\ _msg (this w') = _msg (this w1)
    /\ _i (this w') = _i (this w1)
    /\ rx_pending (serial w') = rx_pending (serial w1).
Proof.
  intros Hport Hrxs Hrx Ho Hh Hb Hl.
  rewrite txrx_unfold by exact Hport. rewrite Hrxs. cbn [bind].
  pose proof (head_slot_len _ _ _ Hh) as Hs.
  destruct (Z.ltb_spec 0 (tx_free (serial w1))) as [Hroom|Hroom].
  - rewrite (tx_section_write w1 k s Ho Hh Hroom (or_introl (conj Hb Hl))).
    cbn [bind this _rx set_txb set_txlen]. rewrite Hrx.
    eexists. split; [reflexivity|]. cbn [this serial log rx_pending].
    split.
    + rewrite Hb, selection_rule_frame; [reflexivity|].
      pose proof (total_of_range (_useChecksum (this w1)) s Hs). lia.
    + destruct w1 as [[] ? ?]. repeat split.
  - rewrite (tx_section_no_room w1 k s Ho Hh Hroom Hb Hl).
    cbn [bind this _rx set_txlen]. rewrite Hrx.
    eexists. split; [reflexivity|]. cbn [this serial log rx_pending].
    split; [now rewrite app_nil_r|].
    destruct w1 as [[] ? ?]. repeat split.
Qed.

(** ** [sendMsg] on messages shorter than 256 bytes *)

(** For a message whose length fits in 8 bits the three results of
    [sendMsg] are told apart as its comments say: -1 when the queue is
    full, else -2 when the message does not fit a slot, else 1 with the
    message queued; a refusal changes nothing. *)
Lemma sendMsg_short (msg : list Z) (fc : FastComms) :
  wf_queue fc -> strlen msg < 256 ->
  sendMsg msg fc
  = if TX_QUEUE_SIZE <=? _o fc then Ok (-1, fc)
    else if BUFFER_SIZE <=? strlen msg then Ok (-2, fc)
    else Ok (1, enqueued msg fc).
Proof.
  intros Hwf Hl.
  destruct (Z.leb_spec TX_QUEUE_SIZE (_o fc)) as [Hfull|Hroom].
  - now apply sendMsg_full.
  - destruct (Z.leb_spec BUFFER_SIZE (strlen msg)) as [Hbig|Hfit].
    + apply sendMsg_too_large; [exact Hroom | split; assumption].
    + now apply sendMsg_ok.
Qed.

(** ** The overflow notice and a full queue *)

(** With the queue full the overflow notice is refused like any other
    message; the index is reset all the same. *)
Lemma rx_section_overflow_queue_full (w : World) :
  _i (this w) = BUFFER_SIZE -> TX_QUEUE_SIZE <= _o (this w) ->
  rx_section w
  = Ok (mkWorld (set_i 0 (this w)) (serial w)
          (log w ++ [EvSendMsg RX_BUFFER_OVERFLOW (-1)])).
Proof.
  intros Hi Ho. rewrite rx_section_overflow by exact Hi.
  rewrite send_diag_full; [reflexivity | exact Ho].
Qed.

(** ** Scenarios *)

(** Without checksum, "hi" goes out as [h, i, CR, LF] and comes back as
    "hi". *)
Example scenario_plain_hi :
  exists w1 w2 w',
    app_sendMsg (bytes_of_string "hi") (fresh_world false None 8) = Ok (1, w1)
    /\ ticks 4 w1 = Ok (repeat false 4, w2)
    /\ written (log w2) = [104; 105; 13; 10]
    /\ feed [104; 105; 13; 10] (fresh_world false (Some 1%nat) 0)
       = Ok ([false; false; false; true], w')
    /\ handled (log w') = [(1%nat, bytes_of_string "hi")].
Proof.
  do 3 eexists. split; [vm_compute; reflexivity|].
  split; [vm_compute; reflexivity|]. split; [vm_compute; reflexivity|].
  split; vm_compute; reflexivity.
Qed.

(** With checksum, "ab" goes out as [a, b, 195, CR, LF] and comes back as
    "ab". *)
Example scenario_checksum_ab :
  exists w1 w2 w',
    app_sendMsg (bytes_of_string "ab") (fresh_world true None 8) = Ok (1, w1)
    /\ ticks 5 w1 = Ok (repeat false 5, w2)
    /\ written (log w2) = [97; 98; 195; 13; 10]
    /\ feed [97; 98; 195; 13; 10] (fresh_world true (Some 1%nat) 0)
       = Ok ([false; false; false; false; true], w')
    /\ handled (log w') = [(1%nat, bytes_of_string "ab")].
Proof.
  do 3 eexists. split; [vm_compute; reflexivity|].
  split; [vm_compute; reflexivity|]. split; [vm_compute; reflexivity|].
  split; vm_compute; reflexivity.
Qed.

(** A message of exactly BUFFER_SIZE bytes is refused and nothing
    changes. *)
Example scenario_message_of_buffer_size :
  let fc := init false true FastComms_static in
  sendMsg (repeat 97 64) fc = Ok (-2, fc).
Proof. reflexivity. Qed.

(** The fifth message in a row is refused and the queue keeps its four
    entries. *)
Example scenario_queue_full :
  exists w1 w2 w3 w4,
    app_sendMsg [97] (fresh_world false None 0) = Ok (1, w1)
    /\ app_sendMsg [98] w1 = Ok (1, w2)
    /\ app_sendMsg [99] w2 = Ok (1, w3)
    /\ app_sendMsg [100] w3 = Ok (1, w4)
    /\ app_sendMsg [101] w4 = Ok (-1, w4)
    /\ queued (this w4) = [Ok [97]; Ok [98]; Ok [99]; Ok [100]].
Proof.
  do 4 eexists. do 4 (split; [vm_compute; reflexivity|]).
  split; vm_compute; reflexivity.
Qed.

(** A tick with nothing to read and nothing to send changes nothing. *)
Example scenario_idle_tick :
  let w := fresh_world true (Some 1%nat) 8 in
  txrx w = Ok (false, w).
Proof. reflexivity. Qed.

(** * The claims *)

(** C9.  For every byte string [P] (a C string: none of its bytes is NUL),
    [checkSum P] is the sum of the bytes of [P] modulo 256, a value of one
    byte, and the empty string gives 0.  [checkSum] is a total function
    of the string alone: it reads and changes no state and has no failing
    case. *)
Theorem checkSum_is_byte_sum_mod_256 (P : list Z) :
  Forall is_char P ->
  checkSum P = byte_sum P mod 256
  /\ 0 <= checkSum P < 256
  /\ checkSum [] = 0.
Proof.
  intros HP. split; [|split; [apply checkSum_range | reflexivity]].
  rewrite checkSum_cstr, (cstr_chars P HP). reflexivity.
Qed.

Lemma checkSum_is_byte_sum_mod_256_witness :
  checkSum [97; 98] = byte_sum [97; 98] mod 256
  /\ 0 <= checkSum [97; 98] < 256
  /\ checkSum [] = 0.
Proof.
  apply (checkSum_is_byte_sum_mod_256 [97; 98]).
  repeat constructor.
Defined.

(** C1 (amended).  Let [P] be a payload without NUL bytes, of at most
    C-2 bytes with the checksum disabled and at most C-4 bytes with it
    enabled, such that [P] followed by its checksum byte (when one is
    sent) contains no [TERM_A TERM_B] pair.  A ready sender given [P]
    accepts it and, pumped once per frame byte, writes exactly the frame
    [P [checkSum P] TERM_A TERM_B].  A ready receiver in the same mode,
    fed those bytes one per tick, returns true on the last tick only,
    calls the registered handler exactly once, on [P], and holds [P] as
    its message. *)
Theorem frame_roundtrip (cs : bool) (P : list Z) (h : handler)
    (wt wr : World) :
  Forall is_char P -> zlen P <= max_payload cs ->
  has_term_pair (P ++ (if cs then [checkSum P] else [])) = false ->
  sender_ready cs P wt -> receiver_ready cs h wr ->
  exists wt1 wt2 wr',
    app_sendMsg P wt = Ok (1, wt1)
    /\ ticks (List.length (frame cs P)) wt1
       = Ok (repeat false (List.length (frame cs P)), wt2)
    /\ written (log wt2) = written (log wt) ++ frame cs P
    /\ feed (frame cs P) wr
       = Ok (repeat false (List.length (frame cs P) - 1) ++ [true], wr')
    /\ handled (log wr') = handled (log wr) ++ [(h, P)]
    /\ cstr (getMsg (this wr')) = P.
Proof.
  intros HP Hlen Hnp Hs Hr.
  assert (Hlt : zlen P < BUFFER_SIZE)
    by (unfold max_payload, BUFFER_SIZE in *; destruct cs; lia).
  destruct (send_frame cs P wt Hs HP Hlt) as (wt1 & wt2 & E1 & E2 & L2).
  destruct (feed_frame_delivers cs P h wr Hr HP Hlen Hnp)
    as (wr' & F & L & M & _).
  exists wt1, wt2, wr'.
  split; [exact E1|]. split; [exact E2|]. split.
  - now rewrite L2, written_app, written_writes.
  - split; [exact F|]. split.
    + rewrite L, !handled_app, handled_reads. reflexivity.
    + unfold getMsg. rewrite M. apply cstr_msg_with. now apply cstr_chars.
Qed.

Lemma frame_roundtrip_witness :
  exists wt1 wt2 wr',
    app_sendMsg [97; 98] (fresh_world true None 8) = Ok (1, wt1)
    /\ ticks 5 wt1 = Ok (repeat false 5, wt2)
    /\ written (log wt2) = [97; 98; 195; 13; 10]
    /\ feed [97; 98; 195; 13; 10] (fresh_world true (Some 7%nat) 8)
       = Ok ([false; false; false; false; true], wr')
    /\ handled (log wr') = [(7%nat, [97; 98])]
    /\ cstr (getMsg (this wr')) = [97; 98].
Proof.
  apply (frame_roundtrip true [97; 98] 7%nat
           (fresh_world true None 8) (fresh_world true (Some 7%nat) 8)).
  - repeat constructor.
  - vm_compute. discriminate.
  - reflexivity.
  - split; [|split].
    + split; [reflexivity|]. split; [|split; reflexivity].
      cbv. split; [discriminate | reflexivity].
    + constructor;
        [ reflexivity | reflexivity | repeat constructor
        | cbv; split; [discriminate | reflexivity]
        | cbv; split; discriminate ].
    + do 4 (split; [reflexivity|]). cbv. discriminate.
  - repeat split.
Defined.

(** C1 as stated fails in checksum mode.  The payload [253; 13] has two
    bytes, no NUL and no terminator pair inside, but its checksum is 10:
    on the wire the payload's last byte and the checksum byte read as a
    terminator.  The receiver delivers two messages, [253] and the empty
    message, and never the payload. *)
Lemma checksum_byte_can_complete_a_terminator :
  let P := [253; 13] in
  Forall is_char P /\ zlen P <= BUFFER_SIZE - 3
  /\ has_term_pair P = false
  /\ exists wt1 wt2 wr',
       app_sendMsg P (fresh_world true None 8) = Ok (1, wt1)
       /\ ticks 5 wt1 = Ok (repeat false 5, wt2)
       /\ written (log wt2) = frame true P
       /\ feed (frame true P) (fresh_world true (Some 7%nat) 8)
          = Ok ([false; false; true; false; true], wr')
       /\ handled (log wr') = [(7%nat, [253]); (7%nat, [])]
       /\ cstr (getMsg (this wr')) <> P.
Proof.
  split; [repeat constructor|]. split; [vm_compute; discriminate|].
  split; [reflexivity|].
  do 3 eexists. split; [vm_compute; reflexivity|].
  split; [vm_compute; reflexivity|]. split; [vm_compute; reflexivity|].
  split; [vm_compute; reflexivity|]. split; [vm_compute; reflexivity|].
  vm_compute. discriminate.
Qed.

(** C2 (defect).  A checksummed frame with a payload of C-3 bytes is
    taken on the checksum path (the terminator is found at index C-1),
    and copying the payload and its terminator into [data], an array of
    C-3 cells, writes one cell past its end. *)
Theorem payload_extraction_overruns_data :
  let P := repeat 97 61 in
  zlen P = BUFFER_SIZE - 3
  /\ feed (P ++ [checkSum P; MSG_END_A; MSG_END_B])
          (fresh_world true (Some 7%nat) 8)
     = Fault (OutOfBounds Arr_data (BUFFER_SIZE - 3)).
Proof. split; vm_compute; reflexivity. Qed.

(** C3 (amended).  One call of [txrx] on a set-up port reads at most one
    inbound byte: exactly one when the buffer is not full and a byte is
    waiting, none otherwise, however many are waiting.  Everything the
    receive half does with it, the handler call and the diagnostics it
    enqueues included, comes before the transmit half, which then writes
    at most one byte. *)
Theorem tick_reads_one_then_writes_one (w w' : World) (r : bool) :
  _port (this w) = true -> txrx w = Ok (r, w') ->
  exists l_rx l_tx,
    log w' = log w ++ l_rx ++ l_tx
    /\ existsb is_write l_rx = false
    /\ (l_tx = [] \/ exists b, l_tx = [EvWrite b])
    /\ if (_i (this w) <? BUFFER_SIZE) && (0 <? available w)
       then exists b, rx_pending (serial w) = b :: rx_pending (serial w')
                      /\ reads l_rx = [b]
       else rx_pending (serial w') = rx_pending (serial w)
            /\ reads l_rx = [].
Proof.
  intros Hport H. rewrite txrx_unfold in H by exact Hport.
  apply bind_Ok in H. destruct H as (w1 & Hrx & H).
  apply bind_Ok in H. destruct H as (w2 & Htx & H).
  destruct (rx_section_log w w1 Hrx) as (_ & l_rx & L1 & Hw & Hr).
  destruct (tx_section_log w1 w2 Htx) as (P2 & L2).
  assert (Hw' : log w' = log w2 /\ rx_pending (serial w') = rx_pending (serial w2)).
  { destruct (_rx (this w2)); injection H as _ <-; split; reflexivity. }
  destruct Hw' as [Lw Pw].
  exists l_rx.
  destruct L2 as [L2 | (b & L2)].
  - exists []. rewrite app_nil_r, Lw, L2, L1. split; [reflexivity|].
    split; [exact Hw|]. split; [now left|].
    rewrite Pw, P2. exact Hr.
  - exists [EvWrite b].
    rewrite Lw, L2, L1, <- app_assoc. split; [reflexivity|].
    split; [exact Hw|]. split; [right; now exists b|].
    rewrite Pw, P2. exact Hr.
Qed.

Lemma tick_reads_one_then_writes_one_witness :
  let w := mkWorld (enqueued [104; 105] (init false true FastComms_static))
             (mkSerial [97; 98; 99] 8) [] in
  exists l_rx l_tx,
    [EvRead 97; EvWrite 104] = l_rx ++ l_tx
    /\ existsb is_write l_rx = false
    /\ (l_tx = [] \/ exists b, l_tx = [EvWrite b])
    /\ exists b, [97; 98; 99] = b :: [98; 99] /\ reads l_rx = [b].
Proof.
  intros w.
  assert (E : exists w', txrx w = Ok (false, w')
                         /\ log w' = [EvRead 97; EvWrite 104]
                         /\ rx_pending (serial w') = [98; 99]).
  { eexists. split; [vm_compute; reflexivity|]. split; reflexivity. }
  destruct E as (w' & E & L & Pn).
  pose proof (tick_reads_one_then_writes_one w w' false eq_refl E) as T.
  rewrite L, Pn in T. exact T.
Defined.

(** C3 as stated fails: with three bytes waiting, one call of [txrx]
    reads the first and leaves the other two in the port. *)
Lemma tick_leaves_available_bytes_unread :
  exists r w',
    txrx (mkWorld (init false true FastComms_static)
            (mkSerial [97; 98; 99] 8) [])
    = Ok (r, w')
    /\ reads (log w') = [97]
    /\ rx_pending (serial w') = [98; 99]
    /\ rx_pending (serial w') <> [].
Proof.
  do 2 eexists. split; [vm_compute; reflexivity|].
  vm_compute. repeat split; try reflexivity. discriminate.
Qed.

(** C4 (amended).  A call of the transmit half with a nonempty queue and
    room in the port does one of two things.  While bytes of the head
    frame remain, it writes exactly one byte, the one the remaining-count
    rule selects, and advances the offset; the head entry stays queued
    even when the offset thereby reaches the total.  When the offset had
    already reached the total, it writes nothing, removes the head entry
    (the others move down one place, the size drops by one) and resets
    the cursor to (0,0); this is stated for a queue that is not full. *)
Theorem tx_pump_writes_or_dequeues (w : World) (k : Z) (s : list Z) :
  let fc := this w in
  let total := total_of (_useChecksum fc) s in
  0 < _o fc <= TX_QUEUE_SIZE -> zlen (_out fc) = TX_QUEUE_SIZE ->
  head_slot fc k s -> 0 < tx_free (serial w) -> cursor_ok fc s ->
  if _txb fc =? total then
    _o fc < TX_QUEUE_SIZE ->
    exists w',
      tx_section w = Ok w'
      /\ log w' = log w /\ serial w' = serial w
      /\ _o (this w') = _o fc - 1
      /\ shifted (_o fc) (_out fc) (_out (this w'))
      /\ _txb (this w') = 0 /\ _txlen (this w') = 0
  else
    exists w',
      tx_section w = Ok w'
      /\ log w' = log w
                  ++ [EvWrite (selection_rule (_useChecksum fc) s (_txb fc) total)]
      /\ _txb (this w') = _txb fc + 1 /\ _txlen (this w') = total
      /\ _o (this w') = _o fc /\ _out (this w') = _out fc
      /\ _ob (this w') = _ob fc.
Proof.
  intros fc total Ho Hl Hh Hf Hc.
  pose proof (head_slot_len _ _ _ Hh) as Hs.
  pose proof (total_of_range (_useChecksum fc) s Hs) as Ht. fold total in Ht.
  destruct (Z.eqb_spec (_txb fc) total) as [E|N].
  - intros Hq.
    assert (Hlen : _txlen fc = total) by (destruct Hc as [[? ?]|[? ?]]; lia).
    destruct (tx_section_dequeue w) as (out' & Ew & S);
      fold fc; try lia.
    eexists. split; [exact Ew|].
    do 3 (split; [reflexivity|]). split; [exact S|]. split; reflexivity.
  - eexists. split.
    + apply (tx_section_write w k s); try assumption; [subst fc; lia|].
      unfold cursor_ok in Hc. subst fc total.
      destruct Hc as [[? ?]|[? ?]]; [left | right]; lia.
    + cbn [log this]. fold fc. fold total. now destruct fc.
Qed.

Lemma tx_pump_writes_or_dequeues_witness :
  let w := mkWorld (enqueued [104; 105] (init false true FastComms_static))
             (mkSerial [] 8) [] in
  exists w',
    tx_section w = Ok w'
    /\ log w' = [EvWrite 104]
    /\ _txb (this w') = 1 /\ _txlen (this w') = 4
    /\ _o (this w') = 1 /\ _out (this w') = _out (this w)
    /\ _ob (this w') = _ob (this w).
Proof.
  intros w.
  apply (tx_pump_writes_or_dequeues w 0 [104; 105]).
  - vm_compute. split; [reflexivity | discriminate].
  - reflexivity.
  - split; [reflexivity|]. split.
    + eexists. split; reflexivity.
    + repeat constructor.
  - reflexivity.
  - left. split; reflexivity.
Defined.

(** C4 as stated fails: the call that writes the last byte of a frame
    leaves the offset equal to the total with the entry still queued and
    the cursor not reset; the next call, with the queue nonempty and room
    in the port, writes no byte and only then removes the entry. *)
Lemma head_entry_dequeued_one_call_late :
  exists w1 w2 w3,
    app_sendMsg [] (fresh_world false None 8) = Ok (1, w1)
    /\ ticks 2 w1 = Ok ([false; false], w2)
    /\ written (log w2) = [MSG_END_A; MSG_END_B]
    /\ _txb (this w2) = 2 /\ _txlen (this w2) = 2 /\ _o (this w2) = 1
    /\ 0 < tx_free (serial w2)
    /\ txrx w2 = Ok (false, w3)
    /\ written (log w3) = written (log w2)
    /\ _o (this w3) = 0 /\ _txb (this w3) = 0 /\ _txlen (this w3) = 0.
Proof.
  do 3 eexists.
  split; [vm_compute; reflexivity|].
  split; [vm_compute; reflexivity|].
  vm_compute. repeat split; reflexivity.
Qed.

(** C5 (defect).  The length test of [sendMsg] is made on the length
    reduced to 8 bits.  A message of 256 bytes, which is longer than the
    C-byte slot, given to an empty queue is not refused with -2: the call
    returns 1, and the first C-1 bytes of the message are queued. *)
Theorem sendMsg_accepts_a_message_of_256_bytes :
  let msg := repeat 97 256 in
  let fc := init false true FastComms_static in
  BUFFER_SIZE <= strlen msg /\ _o fc < TX_QUEUE_SIZE
  /\ exists fc',
       sendMsg msg fc = Ok (1, fc')
       /\ _o fc' = 1
       /\ queued fc' = [Ok (repeat 97 63)].
Proof.
  split; [vm_compute; discriminate|]. split; [reflexivity|].
  eexists. split; [vm_compute; reflexivity|]. split; vm_compute; reflexivity.
Qed.

(** C6 (amended).  At an idle receiver in checksum mode, a frame whose
    payload [P] (1 to C-4 bytes, none NUL) is followed by a checksum byte
    [c < 100] that differs from [checkSum P] is discarded: no tick
    returns true, the handler is not called and the message buffer is
    left alone.  Exactly three diagnostics are enqueued, in this order:
    the fixed notice [RX_BAD_CHECKSUM], the payload prefixed with '!' and
    the report "!got [c]".  All three begin with '!', the fixed notice
    included. *)
Theorem bad_checksum_discards_and_reports (w : World) (P : list Z) (c : Z) :
  let fc := this w in
  rx_idle w -> wf_queue fc -> zlen (_in fc) = BUFFER_SIZE -> _i fc = 0 ->
  _txb fc = 0 -> _txlen fc = 0 -> _useChecksum fc = true ->
  Forall is_char P -> 0 < zlen P <= BUFFER_SIZE - 4 ->
  has_term_pair (P ++ [c]) = false ->
  0 <= c < 100 -> c <> checkSum P ->
  exists w',
    feed (P ++ [c; MSG_END_A; MSG_END_B]) w
    = Ok (repeat false (List.length P + 3), w')
    /\ handled (log w') = handled (log w)
    /\ _msg (this w') = _msg fc
    /\ diagnostics (log w')
       = diagnostics (log w)
         ++ [(RX_BAD_CHECKSUM, 1); (bad_checksum_echo P, 1);
             (bad_checksum_report c, 1)]
    /\ queued (this w')
       = [Ok RX_BAD_CHECKSUM; Ok (bad_checksum_echo P);
          Ok (bad_checksum_report c)]
    /\ _i (this w') = 0
    /\ hd_error RX_BAD_CHECKSUM = Some 33
    /\ hd_error (bad_checksum_echo P) = Some 33
    /\ hd_error (bad_checksum_report c) = Some 33.
Proof.
  intros fc Hidle Hwf Hin Hi Hb Hl Hcs HP Hlen Hnp Hc Hsum.
  pose proof Hidle as (Hport & Ho & Hrx & Hp).
  pose proof (cstr_chars P HP) as HcP.
  assert (Hbody : Forall is_byte (P ++ [c])).
  { apply Forall_app. split; [now apply is_char_byte|].
    repeat constructor; lia. }
  assert (Hbl : zlen (P ++ [c]) = zlen P + 1).
  { rewrite zlen_app, zlen_cons. change (zlen (@nil Z)) with 0. lia. }
  destruct (feed_body w (P ++ [c])) as (y & rest & Hfeed); try assumption.
  { rewrite Hbl. unfold BUFFER_SIZE in *. lia. }
  fold fc in Hfeed. rewrite Hbl in Hfeed.
  set (w1 := mkWorld _ _ _) in Hfeed.
  replace (P ++ [c; MSG_END_A; MSG_END_B])
    with (((P ++ [c]) ++ [MSG_END_A]) ++ [MSG_END_B])
    by (now rewrite <- !app_assoc).
  rewrite feed_app, Hfeed. cbn [bind feed].
  (* the terminating byte *)
  assert (Hin1 : _in (this w1) = (P ++ [c; MSG_END_A]) ++ y :: rest).
  { cbn. now rewrite <- !app_assoc. }
  assert (Hwf1 : wf_queue (this w1)) by (destruct Hwf; constructor; assumption).
  assert (Hi1 : _i (this w1) = zlen P + 2) by (cbn; lia).
  assert (Hlt1 : zlen P + 2 < BUFFER_SIZE) by (unfold BUFFER_SIZE in *; lia).
  assert (Hfit : zlen (cstr P) + 1 <= BUFFER_SIZE - 3)
    by (rewrite HcP; unfold BUFFER_SIZE in *; lia).
  assert (Hsum1 : c <> checkSum (cstr P)) by now rewrite HcP.
  assert (Hroom3 : _o (this w1) + 3 <= TX_QUEUE_SIZE).
  { change (_o (this w1)) with (_o (this w)). rewrite Ho.
    unfold TX_QUEUE_SIZE. lia. }
  pose proof (rx_section_checksum_bad w1 P c y rest Hin1 Hi1 Hlt1
                (proj1 Hlen) Hp Hcs Hfit Hc Hsum1 Hwf1 Hroom3) as Hrxs.
  cbv zeta in Hrxs. rewrite HcP in Hrxs.
  (* the queue after the three diagnostics *)
  set (fcA := set_in (P ++ 0 :: MSG_END_A :: MSG_END_B :: rest) (this w1))
    in *.
  assert (HwfA : wf_queue fcA) by (apply wf_queue_set_in; exact Hwf1).
  destruct (enqueue_three fcA RX_BAD_CHECKSUM (bad_checksum_echo P)
              (bad_checksum_report c)) as (Hq & Hh & Ho3);
    [ exact HwfA | exact Ho | reflexivity | | | repeat constructor | ].
  { unfold strlen.
    change (cstr (bad_checksum_echo P)) with (33 :: cstr P).
    rewrite HcP, zlen_cons. unfold BUFFER_SIZE in *. lia. }
  { destruct (bad_checksum_report_spec c) as [Hr Hrl]; [lia|].
    unfold strlen. rewrite Hr, Hrl. unfold BUFFER_SIZE.
    destruct (c <? 10); [lia|]. destruct (c <? 100); lia. }
  change (cstr RX_BAD_CHECKSUM) with RX_BAD_CHECKSUM in *.
  assert (He : cstr (bad_checksum_echo P) = bad_checksum_echo P).
  { change (cstr (bad_checksum_echo P)) with (33 :: cstr P). now rewrite HcP. }
  destruct (bad_checksum_report_spec c) as [Hr _]; [lia|].
  rewrite He, Hr in Hq.
  (* the transmit half of the same tick *)
  match type of Hrxs with
  | _ = Ok ?W =>
    destruct (txrx_after_rx (arrive MSG_END_B w1) W (_obi fcA) RX_BAD_CHECKSUM)
      as (w' & Ht & Hlog & Hq' & Hm & Hi' & _)
  end.
  { exact Hport. }
  { exact Hrxs. }
  { cbn [this]. rewrite rx_set_i, !rx_enqueued. exact Hrx. }
  { cbn [this]. rewrite o_set_i, Ho3. reflexivity. }
  { cbn [this]. apply head_slot_set_i. exact Hh. }
  { cbn [this]. rewrite txb_set_i, !txb_enqueued. exact Hb. }
  { cbn [this]. rewrite txlen_set_i, !txlen_enqueued. exact Hl. }
  cbn [this serial log] in Hlog, Hq', Hm, Hi'.
  rewrite queued_set_i, Hq in Hq'.
  rewrite msg_set_i, !msg_enqueued in Hm.
  exists w'. rewrite Ht. cbn [bind].
  split.
  { rewrite length_app. cbn [List.length].
    replace (List.length P + 3)%nat with (List.length P + 1 + 1 + 1)%nat by lia.
    rewrite (repeat_app false (List.length P + 1 + 1) 1). reflexivity. }
  assert (Hw : forall l, handled (map EvWrite l) = []
                         /\ diagnostics (map EvWrite l) = [])
    by (induction l; cbn; auto).
  assert (Htail : exists l,
            (if 0 <? tx_free (serial w1)
             then [EvWrite (nth 0 (frame (_useChecksum
                                           (set_i 0
                                              (enqueued (bad_checksum_report c)
                                                 (enqueued (bad_checksum_echo P)
                                                    (enqueued RX_BAD_CHECKSUM fcA)))))
                                     RX_BAD_CHECKSUM) 0)]
             else []) = map EvWrite l).
  { destruct (0 <? tx_free (serial w1)); [|now exists []].
    eexists [_]. reflexivity. }
  destruct Htail as (tl & Htl). rewrite Htl in Hlog.
  destruct (Hw tl) as [Hw1 Hw2].
  split.
  { rewrite Hlog. unfold w1. cbn [log].
    rewrite !handled_app, handled_reads, Hw1. cbn [handled flat_map app].
    now rewrite !app_nil_r. }
  split; [exact Hm|].
  split.
  { rewrite Hlog. unfold w1. cbn [log].
    rewrite !diagnostics_app, diagnostics_reads, Hw2.
    cbn [diagnostics flat_map app]. now rewrite !app_nil_r. }
  split; [exact Hq'|]. split; [exact Hi'|]. repeat split.
Qed.

Lemma bad_checksum_discards_and_reports_witness :
  exists w',
    feed [97; 98; 0; 13; 10] (fresh_world true (Some 7%nat) 8)
    = Ok (repeat false 5, w')
    /\ handled (log w') = []
    /\ _msg (this w') = zeros BUFFER_SIZE
    /\ diagnostics (log w')
       = [(RX_BAD_CHECKSUM, 1); (bad_checksum_echo [97; 98], 1);
          (bad_checksum_report 0, 1)]
    /\ queued (this w')
       = [Ok RX_BAD_CHECKSUM; Ok (bad_checksum_echo [97; 98]);
          Ok (bad_checksum_report 0)]
    /\ _i (this w') = 0
    /\ hd_error RX_BAD_CHECKSUM = Some 33
    /\ hd_error (bad_checksum_echo [97; 98]) = Some 33
    /\ hd_error (bad_checksum_report 0) = Some 33.
Proof.
  apply (bad_checksum_discards_and_reports
           (fresh_world true (Some 7%nat) 8) [97; 98] 0).
  - repeat split.
  - constructor;
      [ reflexivity | reflexivity | repeat constructor
      | cbv; split; [discriminate | reflexivity]
      | cbv; split; discriminate ].
  - reflexivity.
  - reflexivity.
  - reflexivity.
  - reflexivity.
  - reflexivity.
  - repeat constructor.
  - vm_compute. split; [reflexivity | discriminate].
  - reflexivity.
  - lia.
  - vm_compute. discriminate.
Defined.

(** C6 as stated fails: the fixed bad-checksum notice, the first of the
    three diagnostics, itself begins with '!' (byte 33). *)
Lemma bad_checksum_notice_begins_with_bang :
  exists rs w' d rest,
    feed [97; 98; 0; 13; 10] (fresh_world true (Some 7%nat) 8) = Ok (rs, w')
    /\ diagnostics (log w') = (d, 1) :: rest
    /\ d = RX_BAD_CHECKSUM
    /\ ~ (hd_error d <> Some 33).
Proof.
  do 4 eexists. split; [vm_compute; reflexivity|].
  split; [vm_compute; reflexivity|]. split; [reflexivity|].
  intros H. apply H. reflexivity.
Qed.

(** C7 (amended).  In every state reachable by calls of [init],
    [setMsgHandler], [sendMsg], [getMsg] and [txrx], with the port
    receiving bytes in between, the inbound index satisfies
    [0 <= i <= C]; [i = C] is the state of a full buffer, which the next
    tick resets.  No call ever touches the inbound buffer outside its C
    cells: neither [txrx] nor [sendMsg] can fault on [_in]. *)
Theorem inbound_index_within_capacity (w : World) :
  reachable w ->
  0 <= _i (this w) <= BUFFER_SIZE
  /\ zlen (_in (this w)) = BUFFER_SIZE
  /\ (forall f, txrx w = Fault f -> is_in_fault f = false)
  /\ (forall msg f, sendMsg msg (this w) = Fault f -> is_in_fault f = false).
Proof.
  intros Hr. pose proof (reachable_inbound w Hr) as Hok.
  destruct Hok as [Hl Hi]. split; [exact Hi|]. split; [exact Hl|]. split.
  - intros f. apply txrx_fault. now split.
  - intros msg f. apply sendMsg_fault.
Qed.

Lemma inbound_index_within_capacity_witness :
  let w := fresh_world true (Some 7%nat) 8 in
  0 <= _i (this w) <= BUFFER_SIZE
  /\ zlen (_in (this w)) = BUFFER_SIZE
  /\ (forall f, txrx w = Fault f -> is_in_fault f = false)
  /\ (forall msg f, sendMsg msg (this w) = Fault f -> is_in_fault f = false).
Proof.
  intros w.
  apply (inbound_index_within_capacity w).
  apply (reach_setMsgHandler
           (mkWorld (init true true FastComms_static) (mkSerial [] 8) [])).
  apply (reach_init (mkWorld FastComms_static (mkSerial [] 8) []) true true).
  apply reach_new; try reflexivity. repeat constructor.
Defined.

(** C7 as stated fails: C bytes without a terminator leave the index
    equal to C, in a reachable state. *)
Lemma inbound_index_reaches_capacity :
  ~ (forall w, reachable w -> 0 <= _i (this w) < BUFFER_SIZE).
Proof.
  intros H.
  assert (E : exists rs w1,
             feed (repeat 97 64) (fresh_world false None 8) = Ok (rs, w1)
             /\ _i (this w1) = BUFFER_SIZE).
  { do 2 eexists. split; [vm_compute; reflexivity | reflexivity]. }
  destruct E as (rs & w1 & E & Hi).
  assert (Hr : reachable w1)
    by (eapply reachable_feed; [apply reachable_fresh | exact E]).
  specialize (H w1 Hr). lia.
Qed.

(** C8 (amended).  Feeding C bytes without a terminator pair to an idle
    receiver whose buffer is empty fills the buffer: the index stands at
    C, no message is emitted and nothing is enqueued yet.  The next tick
    reads no byte, resets the index to 0 and enqueues exactly one
    overflow notice (the queue being empty, it is accepted); no message
    is emitted, and every access stays inside its array. *)
Theorem rx_overflow_after_capacity (w : World) (bs : list Z) :
  let fc := this w in
  rx_idle w -> wf_queue fc -> zlen (_in fc) = BUFFER_SIZE -> _i fc = 0 ->
  _txb fc = 0 -> _txlen fc = 0 ->
  zlen bs = BUFFER_SIZE -> Forall is_byte bs -> has_term_pair bs = false ->
  exists w1 w2,
    feed bs w = Ok (repeat false (List.length bs), w1)
    /\ _i (this w1) = BUFFER_SIZE /\ _in (this w1) = bs
    /\ log w1 = log w ++ map EvRead bs
    /\ queued (this w1) = []
    /\ txrx w1 = Ok (false, w2)
    /\ _i (this w2) = 0
    /\ rx_pending (serial w2) = []
    /\ log w2 = log w1 ++ EvSendMsg RX_BUFFER_OVERFLOW 1
                       :: (if 0 <? tx_free (serial w)
                           then [EvWrite (nth 0 RX_BUFFER_OVERFLOW 0)] else [])
    /\ queued (this w2) = [Ok RX_BUFFER_OVERFLOW].
Proof.
  intros fc Hidle Hwf Hin Hi Hb Hl Hlen Hbs Hnp.
  pose proof Hidle as (Hport & Ho & Hrx & Hp).
  (* the C bytes *)
  assert (Hfeed := feed_store bs [] (_in fc) w Hidle eq_refl Hi).
  cbn [app zlen List.length Z.of_nat Z.add] in Hfeed.
  fold (zlen (_in fc)) in Hfeed.
  specialize (Hfeed ltac:(lia) ltac:(lia) Hbs Hnp).
  assert (Hsk : skipn (List.length bs) (_in fc) = []).
  { apply skipn_all2. unfold zlen in *. lia. }
  rewrite Hsk, app_nil_r, Hlen in Hfeed.
  set (w1 := mkWorld (set_i BUFFER_SIZE (set_in bs fc)) (serial w)
               (log w ++ map EvRead bs)) in *.
  (* the tick after *)
  assert (Hwf1 : wf_queue (set_i 0 (this w1)))
    by (apply wf_queue_set_i, wf_queue_set_i, wf_queue_set_in; exact Hwf).
  assert (Ho1 : _o (set_i 0 (this w1)) = 0) by exact Ho.
  assert (Hlt1 : _o (set_i 0 (this w1)) < TX_QUEUE_SIZE)
    by (rewrite Ho1; reflexivity).
  assert (Hrxs : rx_section w1
                 = Ok (mkWorld (enqueued RX_BUFFER_OVERFLOW (set_i 0 (this w1)))
                         (serial w) (log w1 ++ [EvSendMsg RX_BUFFER_OVERFLOW 1]))).
  { rewrite rx_section_overflow by reflexivity.
    rewrite send_diag_ok;
      [reflexivity | exact Hwf1 | exact Hlt1 | reflexivity]. }
  assert (Hhead : head_slot (enqueued RX_BUFFER_OVERFLOW (set_i 0 (this w1)))
                    (_obi fc) RX_BUFFER_OVERFLOW).
  { apply (head_slot_enqueued_first RX_BUFFER_OVERFLOW (set_i 0 (this w1)));
      [exact Hwf1 | exact Ho1 | reflexivity | repeat constructor]. }
  assert (Hq : queued (enqueued RX_BUFFER_OVERFLOW (set_i 0 (this w1)))
               = [Ok RX_BUFFER_OVERFLOW]).
  { rewrite queued_enqueued; [| exact Hwf1 | exact Hlt1 |].
    - unfold queued. now rewrite Ho1.
    - unfold live. rewrite Ho1. intros []. }
  assert (Hq1 : queued (this w1) = []).
  { unfold queued. change (_o (this w1)) with (_o (this w)). now rewrite Ho. }
  match type of Hrxs with
  | _ = Ok ?W =>
    destruct (txrx_after_rx w1 W (_obi fc) RX_BUFFER_OVERFLOW)
      as (w2 & Ht & Hlog & Hq' & _ & Hi' & Hp')
  end.
  { exact Hport. }
  { exact Hrxs. }
  { cbn [this]. rewrite rx_enqueued. exact Hrx. }
  { cbn [this]. rewrite o_enqueued, Ho1. reflexivity. }
  { exact Hhead. }
  { cbn [this]. rewrite txb_enqueued. exact Hb. }
  { cbn [this]. rewrite txlen_enqueued. exact Hl. }
  cbn [this serial log] in Hlog, Hq', Hi', Hp'.
  rewrite Hq in Hq'. rewrite i_enqueued in Hi'.
  exists w1, w2.
  split; [exact Hfeed|]. split; [reflexivity|]. split; [reflexivity|].
  split; [reflexivity|]. split; [exact Hq1|]. split; [exact Ht|].
  split; [exact Hi'|]. split; [rewrite Hp'; exact Hp|]. split; [|exact Hq'].
  rewrite Hlog, <- app_assoc. cbn [app]. do 2 f_equal.
Qed.

Lemma rx_overflow_after_capacity_witness :
  exists w1 w2,
    feed (repeat 97 64) (fresh_world false None 8)
    = Ok (repeat false 64, w1)
    /\ _i (this w1) = BUFFER_SIZE /\ _in (this w1) = repeat 97 64
    /\ log w1 = map EvRead (repeat 97 64)
    /\ queued (this w1) = []
    /\ txrx w1 = Ok (false, w2)
    /\ _i (this w2) = 0
    /\ rx_pending (serial w2) = []
    /\ log w2 = log w1 ++ [EvSendMsg RX_BUFFER_OVERFLOW 1; EvWrite 33]
    /\ queued (this w2) = [Ok RX_BUFFER_OVERFLOW].
Proof.
  apply (rx_overflow_after_capacity (fresh_world false None 8) (repeat 97 64)).
  - repeat split.
  - constructor;
      [ reflexivity | reflexivity | repeat constructor
      | cbv; split; [discriminate | reflexivity]
      | cbv; split; discriminate ].
  - reflexivity.
  - reflexivity.
  - reflexivity.
  - reflexivity.
  - reflexivity.
  - apply Forall_forall. intros x Hx. apply repeat_spec in Hx. subst x.
    unfold is_byte. lia.
  - reflexivity.
Defined.

(** C8 as stated fails: once C bytes without a terminator pair have been
    fed, the index stands at C, not 0, and no overflow notice has been
    enqueued. *)
Lemma overflow_not_handled_by_the_last_byte :
  exists rs w1,
    feed (repeat 97 64) (fresh_world false None 8) = Ok (rs, w1)
    /\ _i (this w1) = BUFFER_SIZE /\ _i (this w1) <> 0
    /\ diagnostics (log w1) = []
    /\ queued (this w1) = [].
Proof.
  do 2 eexists. split; [vm_compute; reflexivity|].
  vm_compute. repeat split; try reflexivity. discriminate.
Qed.

(** C10 (defect).  With TX_QUEUE_SIZE entries queued, the call that
    removes the head entry runs the shift loop up to [_m = _o] and reads
    [_out[TX_QUEUE_SIZE]], one element past the array. *)
Theorem dequeue_from_full_queue_reads_past_out :
  exists w1 w2 w3 w4 w5,
    app_sendMsg [] (fresh_world false None 8) = Ok (1, w1)
    /\ app_sendMsg [] w1 = Ok (1, w2)
    /\ app_sendMsg [] w2 = Ok (1, w3)
    /\ app_sendMsg [] w3 = Ok (1, w4)
    /\ _o (this w4) = TX_QUEUE_SIZE
    /\ ticks 2 w4 = Ok ([false; false], w5)
    /\ written (log w5) = [MSG_END_A; MSG_END_B]
    /\ txrx w5 = Fault (OutOfBounds Arr_out TX_QUEUE_SIZE).
Proof.
  do 5 eexists.
  do 4 (split; [vm_compute; reflexivity|]).
  split; [reflexivity|].
  split; [vm_compute; reflexivity|].
  split; vm_compute; reflexivity.
Qed.

(** * Further properties *)

(** ** What the checksum can and cannot tell apart *)

Lemma byte_sum_app (P Q : list Z) : byte_sum (P ++ Q) = byte_sum P + byte_sum Q.
Proof.
  unfold byte_sum. induction P as [|c P IH]; cbn [app fold_right]; lia.
Qed.

Lemma byte_sum_Permutation (P Q : list Z) :
  Permutation P Q -> byte_sum P = byte_sum Q.
Proof.
  unfold byte_sum.
  induction 1 as [|x l l' _ IH|x y l|l l' l'' _ IH1 _ IH2];
    cbn [fold_right]; lia.
Qed.

Lemma is_char_Permutation (P Q : list Z) :
  Permutation P Q -> Forall is_char P -> Forall is_char Q.
Proof. intros H. now apply Permutation_Forall. Qed.

(** X19.  The checksum is blind to the order of the bytes: two
    strings without NUL that are rearrangements of one another have the
    same checksum, so a frame whose payload bytes were swapped in transit
    still verifies. *)
Theorem checkSum_ignores_byte_order (P Q : list Z) :
  Forall is_char P -> Permutation P Q -> checkSum P = checkSum Q.
Proof.
  intros HP Hperm.
  rewrite !checkSum_cstr.
  rewrite (cstr_chars P HP).
  rewrite (cstr_chars Q (is_char_Permutation P Q Hperm HP)).
  now rewrite (byte_sum_Permutation P Q Hperm).
Qed.

Lemma checkSum_ignores_byte_order_witness :
  checkSum [104; 105; 33] = checkSum [33; 105; 104].
Proof.
  apply (checkSum_ignores_byte_order [104; 105; 33] [33; 105; 104]).
  - repeat constructor.
  - apply perm_trans with (l' := [105; 104; 33]).
    + apply perm_swap.
    + apply perm_trans with (l' := [105; 33; 104]).
      * apply perm_skip. apply perm_swap.
      * apply perm_swap.
Defined.

(** X20.  The checksum tells apart any two strings that differ in
    exactly one byte: a single corrupted payload byte always changes the
    checksum. *)
Theorem checkSum_detects_one_changed_byte (a b : list Z) (x y : Z) :
  Forall is_char a -> Forall is_char b -> is_char x -> is_char y ->
  x <> y ->
  checkSum (a ++ x :: b) <> checkSum (a ++ y :: b).
Proof.
  intros Ha Hb Hx Hy Hxy.
  assert (Hax : Forall is_char (a ++ x :: b))
    by (apply Forall_app; split; [assumption | now constructor]).
  assert (Hay : Forall is_char (a ++ y :: b))
    by (apply Forall_app; split; [assumption | now constructor]).
  rewrite !checkSum_cstr, (cstr_chars _ Hax), (cstr_chars _ Hay).
  rewrite !byte_sum_app. unfold byte_sum at 2 4. cbn [fold_right].
  fold (byte_sum b). unfold is_char in Hx, Hy.
  intros H. apply Hxy.
  Z.div_mod_to_equations. lia.
Qed.

Lemma checkSum_detects_one_changed_byte_witness :
  checkSum ([104] ++ 105 :: [33]) <> checkSum ([104] ++ 106 :: [33]).
Proof.
  apply (checkSum_detects_one_changed_byte [104] [33] 105 106);
    try (repeat constructor); unfold is_char; lia.
Defined.

(** ** An object without a port *)



Lemma port_init_null (c : bool) (fc : FastComms) :
  _port (init c false fc) = _port fc.
Proof. reflexivity. Qed.



(** ** The three results of [sendMsg] *)

Lemma cstr_firstn_cstr (n : nat) (m : list Z) :
  cstr (firstn n (cstr m)) = firstn n (cstr m).
Proof.
  revert n. induction m as [|c m IH]; intros n; cbn [cstr].
  - now rewrite firstn_nil.
  - destruct (Z.eqb_spec c 0) as [->|Hc]; [now rewrite firstn_nil|].
    destruct n as [|n]; [reflexivity|]. cbn [firstn cstr].
    destruct (Z.eqb_spec c 0); [contradiction|]. now rewrite IH.
Qed.

Lemma zlen_firstn_le {A} (n : nat) (l : list A) :
  zlen (firstn n l) <= Z.of_nat n.
Proof. unfold zlen. rewrite length_firstn. lia. Qed.

(** A message that passes the length test is stored as its first
    [BUFFER_SIZE - 1] characters. *)
Lemma sendMsg_prefix (msg : list Z) (fc : FastComms) :
  u8 (strlen msg) < BUFFER_SIZE ->
  sendMsg msg fc
  = sendMsg (firstn (Z.to_nat (BUFFER_SIZE - 1)) (cstr msg)) fc.
Proof.
  intros Hl. unfold sendMsg.
  destruct (_o fc <? TX_QUEUE_SIZE); [|reflexivity].
  set (m' := firstn (Z.to_nat (BUFFER_SIZE - 1)) (cstr msg)).
  assert (Hm' : cstr m' = m') by apply cstr_firstn_cstr.
  assert (Hl' : u8 (strlen m') < BUFFER_SIZE).
  { unfold strlen. rewrite Hm'. pose proof (zlen_nonneg m').
    pose proof (zlen_firstn_le (Z.to_nat (BUFFER_SIZE - 1)) (cstr msg)).
    fold m' in H0. unfold BUFFER_SIZE in *.
    rewrite u8_small; lia. }
  destruct (Z.ltb_spec (u8 (strlen msg)) BUFFER_SIZE); [|lia].
  destruct (Z.ltb_spec (u8 (strlen m')) BUFFER_SIZE); [|lia].
  cbv zeta. unfold strncat. rewrite Hm'. unfold m'.
  rewrite firstn_firstn, Nat.min_id. reflexivity.
Qed.

Lemma strlen_prefix (msg : list Z) :
  strlen (firstn (Z.to_nat (BUFFER_SIZE - 1)) (cstr msg)) < BUFFER_SIZE.
Proof.
  unfold strlen. rewrite cstr_firstn_cstr.
  pose proof (zlen_firstn_le (Z.to_nat (BUFFER_SIZE - 1)) (cstr msg)).
  unfold BUFFER_SIZE in *. lia.
Qed.

(** [sendMsg] on an object whose queue has its declared shape. *)
Lemma sendMsg_spec (msg : list Z) (fc : FastComms) :
  wf_queue fc ->
  sendMsg msg fc
  = if TX_QUEUE_SIZE <=? _o fc then Ok (-1, fc)
    else if BUFFER_SIZE <=? u8 (strlen msg) then Ok (-2, fc)
    else Ok (1, enqueued (firstn (Z.to_nat (BUFFER_SIZE - 1)) (cstr msg)) fc).
Proof.
  intros Hwf.
  destruct (Z.leb_spec TX_QUEUE_SIZE (_o fc)) as [Hfull|Hroom].
  - now apply sendMsg_full.
  - destruct (Z.leb_spec BUFFER_SIZE (u8 (strlen msg))) as [Hbig|Hfit].
    + unfold sendMsg.
      destruct (Z.ltb_spec (_o fc) TX_QUEUE_SIZE); [|lia].
      destruct (Z.ltb_spec (u8 (strlen msg)) BUFFER_SIZE); [lia|reflexivity].
    + rewrite sendMsg_prefix by exact Hfit.
      apply sendMsg_ok; [exact Hwf | exact Hroom | apply strlen_prefix].
Qed.

(** X1.  On an object whose queue has its declared shape, [sendMsg]
    always returns, with 1, -1 or -2 and never the documented -3: -1
    exactly when the queue holds [TX_QUEUE_SIZE] entries, whatever the
    message; -2 exactly when there is room and the 8-bit length of the
    message is [BUFFER_SIZE] or more.  A refused message leaves the
    object unchanged; an accepted one adds one entry. *)
Theorem sendMsg_returns_one_of_three (msg : list Z) (fc : FastComms) :
  wf_queue fc ->
  exists r fc',
    sendMsg msg fc = Ok (r, fc')
    /\ (r = 1 \/ r = -1 \/ r = -2)
    /\ (r = -1 <-> _o fc = TX_QUEUE_SIZE)
    /\ (r = -2 <-> _o fc < TX_QUEUE_SIZE
                   /\ BUFFER_SIZE <= strlen msg mod 256)
    /\ (r <> 1 -> fc' = fc)
    /\ (r = 1 -> _o fc' = _o fc + 1).
Proof.
  intros Hwf. rewrite (sendMsg_spec msg fc Hwf).
  pose proof (wf_o fc Hwf) as Ho. fold (u8 (strlen msg)).
  destruct (Z.leb_spec TX_QUEUE_SIZE (_o fc)) as [Hfull|Hroom].
  - exists (-1), fc. repeat split; try lia; auto.
  - destruct (Z.leb_spec BUFFER_SIZE (u8 (strlen msg))) as [Hbig|Hfit].
    + exists (-2), fc. repeat split; try lia; auto.
    + eexists 1, _. split; [reflexivity|].
      repeat split; try lia; auto.
Qed.

Lemma sendMsg_returns_one_of_three_witness :
  exists r fc',
    sendMsg (repeat 97 64) (init false true FastComms_static) = Ok (r, fc')
    /\ (r = 1 \/ r = -1 \/ r = -2)
    /\ (r = -1 <-> _o (init false true FastComms_static) = TX_QUEUE_SIZE)
    /\ (r = -2 <-> _o (init false true FastComms_static) < TX_QUEUE_SIZE
                   /\ BUFFER_SIZE <= strlen (repeat 97 64) mod 256)
    /\ (r <> 1 -> fc' = init false true FastComms_static)
    /\ (r = 1 -> _o fc' = _o (init false true FastComms_static) + 1).
Proof.
  apply (sendMsg_returns_one_of_three (repeat 97 64)
           (init false true FastComms_static)).
  constructor;
    [reflexivity | reflexivity | repeat constructor
    | cbv; split; [discriminate | reflexivity]
    | cbv; split; discriminate].
Defined.

(** ** What the return value of [txrx] tells *)

Lemma rx_side_eq (a b : FastComms) :
  rx_side a = rx_side b ->
  _useChecksum a = _useChecksum b /\ _port a = _port b /\ _msg a = _msg b
  /\ _in a = _in b /\ _i a = _i b /\ _rx a = _rx b
  /\ _msgHandler a = _msgHandler b.
Proof. unfold rx_side. intros H. injection H. intros. repeat split; assumption. Qed.

Lemma tx_side_eq (a b : FastComms) :
  tx_side a = tx_side b ->
  _out a = _out b /\ _ob a = _ob b /\ _obi a = _obi b /\ _o a = _o b
  /\ _txb a = _txb b /\ _txlen a = _txlen b.
Proof. unfold tx_side. intros H. injection H. intros. repeat split; assumption. Qed.

Lemma sendMsg_rx_side (msg : list Z) (fc fc' : FastComms) (r : Z) :
  sendMsg msg fc = Ok (r, fc') -> rx_side fc' = rx_side fc.
Proof.
  unfold sendMsg. destruct (_o fc <? TX_QUEUE_SIZE); [|now intros [= _ <-]].
  destruct (u8 (strlen msg) <? BUFFER_SIZE); [|now intros [= _ <-]].
  cbv zeta. intros H. inv_bind H. injection H as _ <-.
  destruct (_obi _ <? _); reflexivity.
Qed.

Lemma send_diag_rx_side (msg : list Z) (w w' : World) :
  send_diag msg w = Ok w' -> rx_side (this w') = rx_side (this w).
Proof.
  unfold send_diag. intros H. inv_bind H. destruct x as [r fc].
  injection H as <-. now apply sendMsg_rx_side in E.
Qed.

Lemma tx_start_rx_side (fc fc' : FastComms) :
  tx_start fc = Ok fc' -> rx_side fc' = rx_side fc.
Proof.
  unfold tx_start. destruct (_ && _).
  - intros H. inv_bind H. now injection H as <-.
  - now intros [= <-].
Qed.

Lemma tx_section_rx_side (w w' : World) :
  tx_section w = Ok w' -> rx_side (this w') = rx_side (this w).
Proof.
  unfold tx_section. destruct (0 <? _o (this w)); [|now intros [= <-]].
  intros H. inv_bind H. apply tx_start_rx_side in E.
  destruct (_txb x <? _txlen x).
  - destruct (0 <? availableForWrite _).
    + inv_bind H. injection H as <-. destruct x0; exact E.
    + injection H as <-. exact E.
  - inv_bind H. injection H as <-. unfold tx_dequeue in E0.
    inv_bind E0. injection E0 as <-. exact E.
Qed.

Lemma tx_section_handled (w w' : World) :
  tx_section w = Ok w' ->
  handled (log w') = handled (log w)
  /\ diagnostics (log w') = diagnostics (log w).
Proof.
  intros H. apply tx_section_log in H. destruct H as [_ [->|[b ->]]].
  - now split.
  - rewrite handled_app, diagnostics_app. cbn. now rewrite !app_nil_r.
Qed.

Lemma strcpy_inv (a : array_id) (dst s m : list Z) :
  strcpy a dst s = Ok m -> m = msg_with s dst /\ zlen s + 1 <= zlen dst.
Proof.
  intros H.
  destruct (Z.le_gt_cases (zlen s + 1) (zlen dst)) as [Hle|Hgt].
  - rewrite strcpy_ok in H by exact Hle. now injection H as <-.
  - rewrite strcpy_overrun in H by lia. discriminate.
Qed.

Lemma c_string_inv (a : array_id) (buf s : list Z) :
  c_string a buf = Ok s -> s = cstr buf /\ has_nul buf = true.
Proof.
  unfold c_string. destruct (has_nul buf); [|discriminate].
  now intros [= <-].
Qed.

Lemma call_handler_outcome (w w' : World) (m : list Z) :
  c_string Arr_msg (_msg (this w)) = Ok m ->
  call_handler w = Ok w' ->
  this w' = this w /\ serial w' = serial w
  /\ log w' = log w ++ handler_events (_msgHandler (this w)) m.
Proof.
  intros Hm. unfold call_handler, handler_events.
  destruct (_msgHandler (this w)) as [h|].
  - rewrite Hm. cbn [bind]. intros [= <-]. repeat split.
  - intros [= <-]. rewrite app_nil_r. repeat split.
Qed.

Lemma handled_handler_events_diag (h : option handler) (m : list Z) :
  diagnostics (handler_events h m) = [].
Proof. now destruct h. Qed.

Lemma rx_plain_delivers (w w' : World) :
  rx_plain w = Ok w' -> rx_delivers w w' /\ serial w' = serial w.
Proof.
  unfold rx_plain. intros H. inv_bind H.
  apply c_string_inv in E0. destruct E0 as [-> _].
  apply strcpy_inv in E1. destruct E1 as [-> _].
  eapply call_handler_outcome in H;
    [|cbn [this with_this _msg set_msg]; apply c_string_msg_with].
  destruct H as (Ht & Hs & Hl).
  split; [|exact Hs]. unfold rx_delivers. rewrite Ht.
  split; [reflexivity|]. exists (cstr x). split.
  - cbn [this with_this _msg set_msg]. apply c_string_msg_with.
  - eexists. split; [exact Hl|]. split; [reflexivity|].
    apply handled_handler_events_diag.
Qed.

Lemma send_diag_keeps (msg : list Z) (w w' : World) :
  send_diag msg w = Ok w' ->
  rx_side (this w') = rx_side (this w) /\ serial w' = serial w
  /\ exists r, log w' = log w ++ [EvSendMsg (cstr msg) r].
Proof.
  intros H. split; [now apply send_diag_rx_side in H|].
  now apply send_diag_log in H.
Qed.

Lemma rx_checksummed_outcome (w w' : World) :
  rx_checksummed w = Ok w' ->
  (rx_delivers w w' \/ rx_keeps w w') /\ serial w' = serial w.
Proof.
  unfold rx_checksummed. intros H. inv_bind H. injection H as <-.
  apply c_string_inv in E3. destruct E3 as [-> _].
  match type of E4 with
  | context [if ?c then _ else _] => destruct c
  end.
  - inv_bind E4.
    apply strcpy_inv in E3. destruct E3 as [-> _].
    eapply call_handler_outcome in E4;
      [|cbn [this with_this _msg set_msg]; apply c_string_msg_with].
    destruct E4 as (Ht & Hs & Hl).
    split; [|exact Hs]. left. unfold rx_delivers.
    cbn [this with_this _rx _msg set_i]. rewrite Ht.
    split; [reflexivity|]. exists (cstr x2). split.
    + cbn [this with_this _msg set_msg]. apply c_string_msg_with.
    + eexists. split; [exact Hl|]. split; [reflexivity|].
      apply handled_handler_events_diag.
  - inv_bind E4.
    apply send_diag_keeps in E3, E6, E4.
    destruct E3 as (R1 & S1 & r1 & L1), E6 as (R2 & S2 & r2 & L2),
             E4 as (R3 & S3 & r3 & L3).
    split; [|cbn [serial with_this] in *; congruence].
    right. unfold rx_keeps. cbn [this with_this _rx _msg set_i log].
    unfold rx_side in R1, R2, R3.
    cbn [this with_this _rx _msg set_in] in R1.
    injection R1 as _ _ M1 _ _ X1 _. injection R2 as _ _ M2 _ _ X2 _.
    injection R3 as _ _ M3 _ _ X3 _.
    split; [congruence|]. split; [congruence|].
    eexists. rewrite L3, L2, L1. cbn [log with_this].
    rewrite <- !app_assoc. split; reflexivity.
Qed.

Lemma port_read_this (w w0 : World) (b : Z) :
  port_read w = (b, w0) ->
  this w0 = this w /\ log w0 = log w ++ [EvRead b]
  /\ tx_free (serial w0) = tx_free (serial w).
Proof.
  unfold port_read. destruct (rx_pending (serial w));
    intros [= <- <-]; repeat split.
Qed.

Lemma rx_byte_outcome (w w' : World) :
  rx_byte w = Ok w' -> rx_delivers w w' \/ rx_keeps w w'.
Proof.
  unfold rx_byte. destruct (port_read w) as [b w0] eqn:Er.
  apply port_read_this in Er. destruct Er as (Ht & Hl & _).
  intros H. inv_bind H.
  set (w1 := with_this (set_in x) w0) in *.
  assert (Hw1 : _rx (this w1) = _rx (this w) /\ _msg (this w1) = _msg (this w)
                /\ _msgHandler (this w1) = _msgHandler (this w)
                /\ log w1 = log w ++ [EvRead b]).
  { unfold w1. cbn [this with_this _rx _msg _msgHandler set_in log].
    now rewrite Ht. }
  destruct Hw1 as (Hrx & Hmsg & Hh & Hlog).
  assert (Hstep : forall v, rx_keeps w (with_this (set_i v) w1)).
  { intros v. unfold rx_keeps. cbn [this with_this _rx _msg set_i log].
    split; [exact Hrx|]. split; [exact Hmsg|].
    eexists. split; [exact Hlog | reflexivity]. }
  assert (Hpath : forall w2,
            rx_delivers w1 w2 \/ rx_keeps w1 w2 ->
            rx_delivers w (with_this (set_i 0) w2)
            \/ rx_keeps w (with_this (set_i 0) w2)).
  { intros w2 [(R & m & Hm & l & L & Hhl & Hd)|(R & M & l & L & Hhl)].
    - left. unfold rx_delivers. cbn [this with_this _rx _msg set_i log].
      split; [exact R|]. exists m. split; [exact Hm|].
      exists (EvRead b :: l). rewrite L, Hlog, <- app_assoc.
      split; [reflexivity|]. rewrite <- Hh. split; [exact Hhl | exact Hd].
    - right. unfold rx_keeps. cbn [this with_this _rx _msg set_i log].
      split; [congruence|]. split; [congruence|].
      exists (EvRead b :: l). rewrite L, Hlog, <- app_assoc.
      split; [reflexivity | exact Hhl]. }
  destruct ((0 <? _i (this w1)) && (x0 =? MSG_END_B)).
  - inv_bind H. destruct (x1 =? MSG_END_A).
    + inv_bind H. injection H as <-. apply Hpath.
      destruct (_useChecksum (this w1) && (2 <? _i (this w1))).
      * match goal with
        | Hc : rx_checksummed _ = Ok _ |- _ =>
          apply rx_checksummed_outcome in Hc; destruct Hc as [Hc _]; exact Hc
        end.
      * match goal with
        | Hc : rx_plain _ = Ok _ |- _ =>
          apply rx_plain_delivers in Hc; destruct Hc as [Hc _];
            left; exact Hc
        end.
    + injection H as <-. right. apply Hstep.
  - injection H as <-. right. apply Hstep.
Qed.

Lemma rx_section_outcome (w w' : World) :
  rx_section w = Ok w' -> rx_delivers w w' \/ rx_keeps w w'.
Proof.
  unfold rx_section. destruct (_i (this w) <? BUFFER_SIZE).
  - destruct (0 <? available w); [apply rx_byte_outcome|].
    intros [= <-]. right. unfold rx_keeps. repeat split.
    exists []. now rewrite app_nil_r.
  - intros H. apply send_diag_keeps in H. destruct H as (R & _ & r & L).
    right. unfold rx_keeps. unfold rx_side in R.
    cbn [this with_this _rx _msg set_i] in R.
    injection R as _ _ M _ _ X _.
    split; [exact X|]. split; [exact M|].
    eexists. split; [exact L | reflexivity].
Qed.

(** X10.  A call of [txrx] that returns false has delivered
    nothing: the message buffer that [getMsg] returns is what it was
    before the call, and the handler was not called. *)
Theorem txrx_false_keeps_the_message (w w' : World) :
  txrx w = Ok (false, w') ->
  getMsg (this w') = getMsg (this w)
  /\ handled (log w') = handled (log w).
Proof.
  unfold txrx, getMsg. destruct (negb (_port (this w))).
  { intros [= <-]. now split. }
  intros H. inv_bind H.
  pose proof (tx_section_rx_side _ _ E0) as R.
  pose proof (tx_section_handled _ _ E0) as [Hh _].
  unfold rx_side in R. injection R as _ _ M _ _ X _.
  destruct (_rx (this x0)) eqn:Hrx; [discriminate|].
  injection H as <-. rewrite M, Hh.
  apply rx_section_outcome in E.
  destruct E as [(R & _)|(_ & Hm & l & L & Hl)]; [congruence|].
  split; [exact Hm|]. rewrite L, handled_app, Hl. apply app_nil_r.
Qed.

Lemma txrx_false_keeps_the_message_witness :
  exists w',
    txrx (arrive 97 (fresh_world true (Some 7%nat) 8)) = Ok (false, w')
    /\ getMsg (this w') = getMsg (this (arrive 97 (fresh_world true (Some 7%nat) 8)))
    /\ handled (log w') = handled (log (arrive 97 (fresh_world true (Some 7%nat) 8))).
Proof.
  assert (H : exists w',
             txrx (arrive 97 (fresh_world true (Some 7%nat) 8))
             = Ok (false, w')).
  { vm_compute. eexists. reflexivity. }
  destruct H as [w' H]. exists w'. split; [exact H|].
  exact (txrx_false_keeps_the_message _ _ H).
Defined.

(** X9.  A call of [txrx] made with the flag down that returns true
    has read one byte and delivered one message: the message buffer holds
    a terminated string, the handler, if one is registered, was called
    exactly once, on that string, no diagnostic was enqueued, and the
    flag is down again. *)
Theorem txrx_true_delivers_one_message (w w' : World) :
  _rx (this w) = false -> txrx w = Ok (true, w') ->
  exists m,
    c_string Arr_msg (getMsg (this w')) = Ok m
    /\ handled (log w')
       = handled (log w) ++ match _msgHandler (this w) with
                            | Some h => [(h, m)]
                            | None => []
                            end
    /\ diagnostics (log w') = diagnostics (log w)
    /\ _rx (this w') = false.
Proof.
  intros Hrx0. unfold txrx, getMsg. destruct (negb (_port (this w)));
    [discriminate|].
  intros H. inv_bind H.
  pose proof (tx_section_rx_side _ _ E0) as R.
  pose proof (tx_section_handled _ _ E0) as [Hh Hd].
  unfold rx_side in R. injection R as _ _ M _ _ X _.
  destruct (_rx (this x0)) eqn:Hrx; [|discriminate].
  injection H as <-. cbn [this with_this _msg _rx set_rx log].
  rewrite M, Hh, Hd.
  apply rx_section_outcome in E.
  destruct E as [(_ & m & Hm & l & L & Hl & Hdl)|(R & _)]; [|congruence].
  exists m. split; [exact Hm|]. rewrite L, handled_app, diagnostics_app, Hl, Hdl.
  split; [|split; [apply app_nil_r | reflexivity]].
  f_equal. now destruct (_msgHandler (this w)).
Qed.

Lemma txrx_true_delivers_one_message_witness :
  let w := arrive 10
             (with_this
                (fun fc => set_i 3 (set_in ([104; 105; 13] ++ zeros 61) fc))
                (fresh_world false (Some 7%nat) 8)) in
  exists w' m,
    txrx w = Ok (true, w')
    /\ c_string Arr_msg (getMsg (this w')) = Ok m
    /\ handled (log w')
       = handled (log w) ++ match _msgHandler (this w) with
                            | Some h => [(h, m)]
                            | None => []
                            end
    /\ diagnostics (log w') = diagnostics (log w)
    /\ _rx (this w') = false.
Proof.
  intros w.
  pose (w' := match txrx w with Ok (_, w') => w' | Fault _ => w end).
  assert (Ht : txrx w = Ok (true, w')) by (vm_compute; reflexivity).
  destruct (txrx_true_delivers_one_message w w' eq_refl Ht) as (m & Hm).
  exists w', m. split; [exact Ht | exact Hm].
Defined.

(** ** Writing and the room in the port *)

Lemma tx_section_room (w w' : World) :
  tx_section w = Ok w' ->
  (log w' = log w /\ tx_free (serial w') = tx_free (serial w))
  \/ (0 < tx_free (serial w)
      /\ exists b, log w' = log w ++ [EvWrite b]
                   /\ tx_free (serial w') = tx_free (serial w) - 1).
Proof.
  unfold tx_section. destruct (0 <? _o (this w)); [|intros [= <-]; auto].
  intros H. inv_bind H. destruct (_txb x <? _txlen x).
  - unfold availableForWrite in H. cbn [serial] in H.
    destruct (Z.ltb_spec 0 (tx_free (serial w))) as [Hroom|Hnone].
    + inv_bind H. injection H as <-. destruct x0 as [b|].
      * right. split; [exact Hroom|]. exists (u8 b). split; reflexivity.
      * left. split; reflexivity.
    + injection H as <-. left. split; reflexivity.
  - inv_bind H. injection H as <-. left. split; reflexivity.
Qed.

Lemma rx_section_written (w w' : World) :
  rx_section w = Ok w' ->
  written (log w') = written (log w)
  /\ tx_free (serial w') = tx_free (serial w).
Proof.
  intros H. apply rx_section_log in H.
  destruct H as (Hfree & l & -> & Hw & _). split; [|exact Hfree].
  rewrite written_app.
  assert (Hl : written l = []).
  { clear - Hw. induction l as [|e l IH]; [reflexivity|].
    cbn [existsb] in Hw. apply orb_false_elim in Hw. destruct Hw as [He Hl].
    destruct e; cbn in He; try discriminate; cbn; now apply IH. }
  rewrite Hl. apply app_nil_r.
Qed.

Lemma txrx_room (w w' : World) (r : bool) :
  txrx w = Ok (r, w') ->
  exists bs,
    written (log w') = written (log w) ++ bs
    /\ tx_free (serial w') = tx_free (serial w) - zlen bs
    /\ (bs = [] \/ (0 < tx_free (serial w) /\ zlen bs = 1)).
Proof.
  unfold txrx. destruct (negb (_port (this w))).
  { intros [= _ <-]. exists []. rewrite app_nil_r.
    change (zlen (@nil Z)) with 0. repeat split; [lia | now left]. }
  intros H. inv_bind H.
  apply rx_section_written in E. destruct E as [Hw Hf].
  apply tx_section_room in E0.
  assert (Hw' : log w' = log x0 /\ serial w' = serial x0).
  { destruct (_rx (this x0)); injection H as _ <-; split; reflexivity. }
  destruct Hw' as [L S]. rewrite L, S.
  destruct E0 as [(L0 & F0)|(Hroom & b & L0 & F0)].
  - exists []. rewrite app_nil_r, L0, F0, Hf, Hw.
    change (zlen (@nil Z)) with 0. repeat split; [lia | now left].
  - exists [b]. rewrite L0, written_app, Hw, F0, Hf.
    change (zlen [b]) with 1. repeat split. right. split; [lia | reflexivity].
Qed.

(** X17.  Over any run of [n] calls of [txrx], on a port that starts
    with room for [tx_free] bytes, the object writes at most [n] bytes
    and never more than the port has room for: every byte written takes
    one unit of room, and the room never becomes negative. *)
Theorem ticks_write_within_room (n : nat) :
  forall (w w' : World) (rs : list bool),
  ticks n w = Ok (rs, w') -> 0 <= tx_free (serial w) ->
  exists bs,
    written (log w') = written (log w) ++ bs
    /\ zlen bs <= Z.of_nat n
    /\ tx_free (serial w') = tx_free (serial w) - zlen bs
    /\ 0 <= tx_free (serial w').
Proof.
  induction n as [|n IH]; intros w w' rs H Hroom; cbn [ticks] in H.
  - injection H as _ <-. exists []. rewrite app_nil_r.
    change (zlen (@nil Z)) with 0. repeat split; lia.
  - inv_bind H. destruct x as [r w1]. inv_bind H. destruct x as [rs1 w2].
    injection H as _ <-.
    apply txrx_room in E. destruct E as (b1 & W1 & F1 & Hb1).
    assert (Hroom1 : 0 <= tx_free (serial w1)).
    { rewrite F1. destruct Hb1 as [->|[Hpos Hl]].
      - change (zlen (@nil Z)) with 0. lia.
      - lia. }
    destruct (IH w1 w2 rs1 E0 Hroom1) as (b2 & W2 & L2 & F2 & Hroom2).
    exists (b1 ++ b2). rewrite W2, W1, app_assoc, zlen_app.
    split; [reflexivity|].
    assert (zlen b1 <= 1).
    { destruct Hb1 as [->|[_ Hl]]; [change (zlen (@nil Z)) with 0|]; lia. }
    repeat split; lia.
Qed.

Lemma ticks_write_within_room_witness :
  let w := mkWorld (enqueued [104; 105] (init false true FastComms_static))
             (mkSerial [] 2) [] in
  exists w' bs,
    ticks 4 w = Ok ([false; false; false; false], w')
    /\ written (log w') = written (log w) ++ bs
    /\ zlen bs <= 4
    /\ tx_free (serial w') = tx_free (serial w) - zlen bs
    /\ 0 <= tx_free (serial w').
Proof.
  intros w.
  pose (w' := match ticks 4 w with Ok (_, w') => w' | Fault _ => w end).
  assert (Ht : ticks 4 w = Ok ([false; false; false; false], w'))
    by (vm_compute; reflexivity).
  assert (Hroom : 0 <= tx_free (serial w)) by (cbn; lia).
  destruct (ticks_write_within_room 4 w w' _ Ht Hroom) as (bs & Hbs).
  exists w', bs. split; [exact Ht | exact Hbs].
Defined.

(** ** Frames that the round trip does not cover *)

Lemma feed_frame_plain_message (w : World) (body : list Z) (h : handler) :
  let fc := this w in
  rx_idle w -> zlen (_in fc) = BUFFER_SIZE -> zlen (_msg fc) = BUFFER_SIZE ->
  _i fc = 0 -> _msgHandler fc = Some h ->
  _useChecksum fc = false \/ zlen body <= 1 ->
  zlen body + 2 <= BUFFER_SIZE ->
  Forall is_byte body -> has_term_pair body = false ->
  exists w',
    feed (body ++ [MSG_END_A; MSG_END_B]) w
    = Ok (repeat false (List.length body + 1) ++ [true], w')
    /\ handled (log w') = handled (log w) ++ [(h, cstr body)]
    /\ cstr (getMsg (this w')) = cstr body.
Proof.
  intros fc Hidle Hin Hmsg Hi Hh Hmode Hlen Hb Hpair.
  destruct (feed_frame_plain w body h Hidle Hin Hmsg Hi Hh Hmode Hlen Hb Hpair)
    as (w' & Hfeed & Hlog & Hm & _).
  exists w'. split; [exact Hfeed|]. split.
  - rewrite Hlog, !handled_app, handled_reads. reflexivity.
  - unfold getMsg. rewrite Hm. apply cstr_msg_with, cstr_idem.
Qed.

(** X14.  In checksum mode a terminator that arrives with fewer
    than two bytes before it is taken on the path without checksum: the
    zero or one byte before it is delivered as the message, unverified. *)
Theorem short_frame_is_not_verified (w : World) (body : list Z) (h : handler) :
  receiver_ready true h w -> Forall is_char body -> zlen body <= 1 ->
  exists w',
    feed (body ++ [MSG_END_A; MSG_END_B]) w
    = Ok (repeat false (List.length body + 1) ++ [true], w')
    /\ handled (log w') = handled (log w) ++ [(h, body)]
    /\ cstr (getMsg (this w')) = body.
Proof.
  intros (Hidle & Hin & Hmsg & Hi & _ & Hh) Hb Hlen.
  destruct (feed_frame_plain_message w body h) as (w' & Hfeed & Hh' & Hm);
    try assumption.
  - now right.
  - unfold BUFFER_SIZE. lia.
  - now apply is_char_byte.
  - destruct body as [|b [|c body]]; try reflexivity.
    rewrite !zlen_cons in Hlen. pose proof (zlen_nonneg body). lia.
  - rewrite (cstr_chars body Hb) in Hh', Hm. now exists w'.
Qed.

Lemma short_frame_is_not_verified_witness :
  exists w',
    feed ([97] ++ [MSG_END_A; MSG_END_B]) (fresh_world true (Some 7%nat) 8)
    = Ok (repeat false (List.length [97] + 1) ++ [true], w')
    /\ handled (log w')
       = handled (log (fresh_world true (Some 7%nat) 8)) ++ [(7%nat, [97])]
    /\ cstr (getMsg (this w')) = [97].
Proof.
  apply (short_frame_is_not_verified (fresh_world true (Some 7%nat) 8) [97] 7%nat).
  - repeat split.
  - repeat constructor.
  - cbv. discriminate.
Defined.

(** X15.  With the checksum disabled, the message delivered for a
    frame is the part of its body before the first NUL byte: what
    follows an embedded NUL is received, and dropped. *)
Theorem plain_frame_is_cut_at_nul (w : World) (a b : list Z) (h : handler) :
  receiver_ready false h w ->
  Forall is_char a -> Forall is_byte b ->
  zlen a + 1 + zlen b + 2 <= BUFFER_SIZE ->
  has_term_pair (a ++ 0 :: b) = false ->
  exists w',
    feed ((a ++ 0 :: b) ++ [MSG_END_A; MSG_END_B]) w
    = Ok (repeat false (List.length (a ++ 0 :: b) + 1) ++ [true], w')
    /\ handled (log w') = handled (log w) ++ [(h, a)]
    /\ cstr (getMsg (this w')) = a.
Proof.
  intros (Hidle & Hin & Hmsg & Hi & Hcs & Hh) Ha Hb Hlen Hpair.
  assert (Hc : cstr (a ++ 0 :: b) = a)
    by (rewrite cstr_app_zero; now apply cstr_chars).
  destruct (feed_frame_plain_message w (a ++ 0 :: b) h)
    as (w' & Hfeed & Hh' & Hm); try assumption.
  - now left.
  - rewrite zlen_app, zlen_cons. lia.
  - apply Forall_app. split; [now apply is_char_byte|].
    constructor; [unfold is_byte; lia | exact Hb].
  - rewrite Hc in Hh', Hm. now exists w'.
Qed.

Lemma plain_frame_is_cut_at_nul_witness :
  exists w',
    feed (([104; 105] ++ 0 :: [33]) ++ [MSG_END_A; MSG_END_B])
      (fresh_world false (Some 7%nat) 8)
    = Ok (repeat false (List.length ([104; 105] ++ 0 :: [33]) + 1) ++ [true], w')
    /\ handled (log w')
       = handled (log (fresh_world false (Some 7%nat) 8)) ++ [(7%nat, [104; 105])]
    /\ cstr (getMsg (this w')) = [104; 105].
Proof.
  apply (plain_frame_is_cut_at_nul (fresh_world false (Some 7%nat) 8)
           [104; 105] [33] 7%nat).
  - repeat split.
  - repeat constructor.
  - repeat constructor; cbv; discriminate.
  - cbv. discriminate.
  - reflexivity.
Defined.

(** ** Frames that make the receive half leave a local array *)

Lemma send_diag_total (msg : list Z) (w : World) :
  wf_queue (this w) ->
  exists w', send_diag msg w = Ok w' /\ wf_queue (this w').
Proof.
  intros Hwf. unfold send_diag. rewrite (sendMsg_spec msg _ Hwf).
  destruct (Z.leb_spec TX_QUEUE_SIZE (_o (this w))) as [Hfull|Hroom].
  - eexists. split; [reflexivity | exact Hwf].
  - destruct (BUFFER_SIZE <=? u8 (strlen msg)).
    + eexists. split; [reflexivity | exact Hwf].
    + eexists. split; [reflexivity|]. cbn [this].
      apply wf_queue_enqueued; [exact Hwf | exact Hroom | apply strlen_prefix].
Qed.



(** The last byte of a checksummed frame at an idle receiver. *)
Lemma feed_checksummed_frame_fault (w : World) (P : list Z) (c : Z) (f : fault) :
  let fc := this w in
  rx_idle w -> zlen (_in fc) = BUFFER_SIZE -> _i fc = 0 ->
  Forall is_char P -> zlen P + 3 <= BUFFER_SIZE -> is_byte c ->
  has_term_pair (P ++ [c]) = false ->
  (forall w1 y rest,
     _in (this w1) = (P ++ [c; MSG_END_A]) ++ y :: rest ->
     _i (this w1) = zlen P + 2 -> rx_pending (serial w1) = [] ->
     rx_side (this w1)
     = rx_side (set_i (zlen P + 2) (set_in (_in (this w1)) fc)) ->
     tx_side (this w1) = tx_side fc ->
     rx_section (arrive MSG_END_B w1) = Fault f) ->
  feed (P ++ [c; MSG_END_A; MSG_END_B]) w = Fault f.
Proof.
  intros fc Hidle Hin Hi HP Hlen Hc Hnp Hlast.
  assert (Hbody : Forall is_byte (P ++ [c])).
  { apply Forall_app. split; [now apply is_char_byte|].
    constructor; [exact Hc | constructor]. }
  assert (Hbl : zlen (P ++ [c]) = zlen P + 1).
  { rewrite zlen_app, zlen_cons. change (zlen (@nil Z)) with 0. lia. }
  destruct (feed_body w (P ++ [c])) as (y & rest & Hfeed); try assumption.
  { rewrite Hbl. lia. }
  fold fc in Hfeed. rewrite Hbl in Hfeed.
  set (w1 := mkWorld _ _ _) in Hfeed.
  replace (P ++ [c; MSG_END_A; MSG_END_B])
    with (((P ++ [c]) ++ [MSG_END_A]) ++ [MSG_END_B])
    by (now rewrite <- !app_assoc).
  rewrite feed_app, Hfeed. cbn [bind feed].
  assert (Hport : _port (this (arrive MSG_END_B w1)) = true)
    by (destruct Hidle as (Hpt & _); exact Hpt).
  rewrite txrx_unfold by exact Hport.
  rewrite (Hlast w1 y rest); [reflexivity| | | | |].
  - cbn. now rewrite <- !app_assoc.
  - cbn. lia.
  - destruct Hidle as (_ & _ & _ & Hp). exact Hp.
  - unfold w1. cbn [this].
    replace (zlen P + 1 + 1) with (zlen P + 2) by lia. reflexivity.
  - reflexivity.
Qed.



(** X8.  In checksum mode, every frame with [BUFFER_SIZE - 3]
    payload bytes before its checksum byte makes the receive half write
    past the end of [data], whatever the payload and whether or not the
    checksum is right: the copy is made before the checksum is looked
    at. *)
Theorem full_length_frame_overruns_data (w : World) (P : list Z) (c : Z) :
  let fc := this w in
  rx_idle w -> zlen (_in fc) = BUFFER_SIZE -> _i fc = 0 ->
  _useChecksum fc = true ->
  Forall is_char P -> zlen P = BUFFER_SIZE - 3 -> is_byte c ->
  has_term_pair (P ++ [c]) = false ->
  feed (P ++ [c; MSG_END_A; MSG_END_B]) w
  = Fault (OutOfBounds Arr_data (BUFFER_SIZE - 3)).
Proof.
  intros fc Hidle Hin Hi Hcs HP Hlen Hc Hnp.
  apply feed_checksummed_frame_fault; try assumption.
  - unfold BUFFER_SIZE in *. lia.
  - intros w1 y rest Hin1 Hi1 Hp1 Hrx _.
    apply rx_side_eq in Hrx. destruct Hrx as (Hcs1 & _).
    apply (rx_section_data_overrun w1 P c y rest); try assumption.
    + unfold BUFFER_SIZE in *. lia.
    + unfold BUFFER_SIZE in *. lia.
    + now rewrite Hcs1.
    + rewrite (cstr_chars P HP). lia.
Qed.

Lemma full_length_frame_overruns_data_witness :
  feed (repeat 98 61 ++ [7; MSG_END_A; MSG_END_B])
    (fresh_world true None 0)
  = Fault (OutOfBounds Arr_data (BUFFER_SIZE - 3)).
Proof.
  apply (full_length_frame_overruns_data (fresh_world true None 0)
           (repeat 98 61) 7).
  - repeat split.
  - reflexivity.
  - reflexivity.
  - reflexivity.
  - apply Forall_forall. intros x Hx. apply repeat_spec in Hx. subst x.
    cbv. split; reflexivity.
  - reflexivity.
  - cbv. split; [discriminate | reflexivity].
  - vm_compute. reflexivity.
Defined.

(** ** The ring of slots *)

Lemma ring_slot_range (obi o j : Z) : 0 <= ring_slot obi o j < TX_QUEUE_SIZE.
Proof. unfold ring_slot, TX_QUEUE_SIZE. apply Z.mod_pos_bound. lia. Qed.

Lemma ring_slot_enq (obi o j : Z) :
  0 <= obi < TX_QUEUE_SIZE ->
  ring_slot (next_slot obi) (o + 1) j = ring_slot obi o j.
Proof.
  unfold ring_slot, next_slot, TX_QUEUE_SIZE. intros H.
  destruct (Z.ltb_spec obi (4 - 1)); Z.div_mod_to_equations; lia.
Qed.

Lemma ring_slot_last (obi o : Z) :
  0 <= obi < TX_QUEUE_SIZE -> ring_slot (next_slot obi) (o + 1) o = obi.
Proof.
  unfold ring_slot, next_slot, TX_QUEUE_SIZE. intros H.
  destruct (Z.ltb_spec obi (4 - 1)); Z.div_mod_to_equations; lia.
Qed.

Lemma ring_slot_not_next (obi o j : Z) :
  0 <= obi < TX_QUEUE_SIZE -> 0 <= j < o -> o < TX_QUEUE_SIZE ->
  ring_slot obi o j <> obi.
Proof.
  unfold ring_slot, TX_QUEUE_SIZE. intros H Hj Ho.
  Z.div_mod_to_equations. lia.
Qed.

Lemma ring_slot_deq (obi o j : Z) :
  ring_slot obi (o - 1) j = ring_slot obi o (j + 1).
Proof. unfold ring_slot. f_equal. lia. Qed.

Lemma ring_slot_inj (obi o j1 j2 : Z) :
  0 <= j1 < o -> 0 <= j2 < o -> o <= TX_QUEUE_SIZE ->
  ring_slot obi o j1 = ring_slot obi o j2 -> j1 = j2.
Proof.
  unfold ring_slot, TX_QUEUE_SIZE. intros H1 H2 Ho.
  Z.div_mod_to_equations. lia.
Qed.

Lemma nth_list_set_eq {A} (l : list A) (n : nat) (x d : A) :
  (n < List.length l)%nat -> nth n (list_set l n x) d = x.
Proof.
  intros H. apply nth_error_nth. now apply nth_error_list_set_eq.
Qed.

Lemma nth_list_set_neq {A} (l : list A) (n m : nat) (x d : A) :
  n <> m -> nth m (list_set l n x) d = nth m l d.
Proof.
  revert n m. induction l as [|h t IH]; intros [|n] [|m] H; cbn;
    try reflexivity; try congruence.
  apply IH. congruence.
Qed.

(** ** The queue invariant *)

Lemma out_enqueued (msg : list Z) (fc : FastComms) :
  _out (enqueued msg fc)
  = list_set (_out fc) (Z.to_nat (_o fc)) (Slot (_obi fc)).
Proof. reflexivity. Qed.

Lemma ob_enqueued (msg : list Z) (fc : FastComms) :
  _ob (enqueued msg fc)
  = list_set (_ob fc) (Z.to_nat (_obi fc))
      (slot_with msg (nth (Z.to_nat (_obi fc)) (_ob fc) [])).
Proof. reflexivity. Qed.

Lemma next_obi_enqueued (msg : list Z) (fc : FastComms) :
  _obi (enqueued msg fc) = next_slot (_obi fc).
Proof. reflexivity. Qed.

Lemma count_enqueued (msg : list Z) (fc : FastComms) :
  _o (enqueued msg fc) = _o fc + 1.
Proof. reflexivity. Qed.

Lemma slot_cells_enqueued_same (msg : list Z) (fc : FastComms) :
  wf_queue fc ->
  slot_cells (enqueued msg fc) (_obi fc)
  = slot_with msg (slot_cells fc (_obi fc)).
Proof.
  intros Hwf. unfold slot_cells. rewrite ob_enqueued.
  apply nth_list_set_eq.
  pose proof (wf_ob fc Hwf) as H1. pose proof (wf_obi fc Hwf) as H2.
  unfold zlen in H1. lia.
Qed.

Lemma slot_cells_enqueued_other (msg : list Z) (fc : FastComms) (k : Z) :
  0 <= k -> 0 <= _obi fc -> k <> _obi fc ->
  slot_cells (enqueued msg fc) k = slot_cells fc k.
Proof.
  intros Hk Hobi Hne. unfold slot_cells. rewrite ob_enqueued.
  apply nth_list_set_neq. lia.
Qed.

Lemma has_nul_slot_with (msg old : list Z) : has_nul (slot_with msg old) = true.
Proof. unfold slot_with. apply has_nul_app_zero. Qed.

Lemma queue_ok_tx_side (a b : FastComms) :
  tx_side a = tx_side b -> queue_ok a -> queue_ok b.
Proof.
  intros H. apply tx_side_eq in H.
  destruct H as (Hout & Hob & Hobi & Ho & Htxb & Htxlen).
  intros [[W1 W2 W3 W4 W5] Hring Hstr Hcur].
  unfold slot_cells in *.
  constructor; [constructor|..]; unfold slot_cells;
    rewrite <- ?Hout, <- ?Hob, <- ?Hobi, <- ?Ho, <- ?Htxb, <- ?Htxlen;
    assumption.
Qed.

Lemma queue_ok_new (msg inb : list Z) (out : list ptr) (ob : list (list Z)) :
  zlen out = TX_QUEUE_SIZE -> zlen ob = TX_QUEUE_SIZE ->
  Forall (fun s => zlen s = BUFFER_SIZE) ob ->
  queue_ok (FastComms_new msg inb out ob).
Proof.
  intros Ho Hob Hs. constructor.
  - constructor; cbn; try assumption; unfold TX_QUEUE_SIZE; lia.
  - cbn. intros j Hj. lia.
  - cbn. intros j Hj. lia.
  - cbn. split; [lia | now left].
Qed.

Lemma queue_ok_enqueued (msg : list Z) (fc : FastComms) :
  queue_ok fc -> _o fc < TX_QUEUE_SIZE -> strlen msg < BUFFER_SIZE ->
  queue_ok (enqueued msg fc).
Proof.
  intros [Hwf Hring Hstr Hcur] Hroom Hlen.
  pose proof (wf_obi fc Hwf) as Hobi. pose proof (wf_o fc Hwf) as Ho.
  pose proof (wf_out fc Hwf) as Hout.
  constructor.
  - now apply wf_queue_enqueued.
  - rewrite count_enqueued, next_obi_enqueued, out_enqueued.
    intros j Hj. destruct (Z.eq_dec j (_o fc)) as [->|Hne].
    + rewrite nth_error_list_set_eq by (unfold zlen in Hout; lia).
      now rewrite ring_slot_last.
    + rewrite nth_error_list_set_neq by lia.
      rewrite ring_slot_enq by exact Hobi. apply Hring. lia.
  - rewrite count_enqueued, next_obi_enqueued.
    intros j Hj. destruct (Z.eq_dec j (_o fc)) as [->|Hne].
    + rewrite ring_slot_last by exact Hobi.
      rewrite slot_cells_enqueued_same by exact Hwf.
      apply has_nul_slot_with.
    + rewrite ring_slot_enq by exact Hobi.
      rewrite slot_cells_enqueued_other.
      * apply Hstr. lia.
      * apply ring_slot_range.
      * lia.
      * apply ring_slot_not_next; lia.
  - rewrite count_enqueued, next_obi_enqueued, txb_enqueued, txlen_enqueued.
    destruct Hcur as [Hb [Hz|[Hpos Hle]]].
    + split; [exact Hb | now left].
    + split; [exact Hb|]. right. split; [lia|].
      rewrite ring_slot_enq by exact Hobi.
      rewrite slot_cells_enqueued_other; [exact Hle | apply ring_slot_range | lia |].
      apply ring_slot_not_next; lia.
Qed.

Lemma sendMsg_queue_ok (msg : list Z) (fc fc' : FastComms) (r : Z) :
  queue_ok fc -> sendMsg msg fc = Ok (r, fc') -> queue_ok fc'.
Proof.
  intros Hq. rewrite (sendMsg_spec msg fc (qk_wf fc Hq)).
  destruct (Z.leb_spec TX_QUEUE_SIZE (_o fc)); [now intros [= _ <-]|].
  destruct (BUFFER_SIZE <=? u8 (strlen msg)); [now intros [= _ <-]|].
  intros E.
  assert (Hfc : fc' = enqueued (firstn (Z.to_nat (BUFFER_SIZE - 1)) (cstr msg))
                        fc) by congruence.
  rewrite Hfc. apply queue_ok_enqueued; [exact Hq | lia | apply strlen_prefix].
Qed.

Lemma sendMsg_never_faults (msg : list Z) (fc : FastComms) :
  wf_queue fc -> exists r fc', sendMsg msg fc = Ok (r, fc').
Proof.
  intros Hwf. rewrite (sendMsg_spec msg fc Hwf).
  destruct (TX_QUEUE_SIZE <=? _o fc); [now eexists; eexists|].
  destruct (BUFFER_SIZE <=? u8 (strlen msg)); now eexists; eexists.
Qed.

(** ** The transmit half on a queue that is in order *)

Lemma c_string_has_nul (a : array_id) (buf : list Z) :
  has_nul buf = true -> c_string a buf = Ok (cstr buf).
Proof. intros H. unfold c_string. now rewrite H. Qed.

Lemma zlen_cstr_lt (l : list Z) : has_nul l = true -> zlen (cstr l) < zlen l.
Proof.
  induction l as [|c l IH]; [discriminate|].
  cbn [has_nul existsb cstr]. rewrite zlen_cons.
  destruct (Z.eqb_spec c 0) as [->|Hc].
  - intros _. change (zlen (@nil Z)) with 0. pose proof (zlen_nonneg l). lia.
  - cbn [orb]. intros H. rewrite zlen_cons. apply IH in H. lia.
Qed.

Lemma head_of_queue (fc : FastComms) :
  queue_ok fc -> 0 < _o fc ->
  let k := ring_slot (_obi fc) (_o fc) 0 in
  load Arr_out (_out fc) 0 = Ok (Slot k)
  /\ deref (_ob fc) (Slot k) = Ok (slot_cells fc k)
  /\ zlen (slot_cells fc k) = BUFFER_SIZE
  /\ has_nul (slot_cells fc k) = true.
Proof.
  intros [Hwf Hring Hstr _] Hpos k.
  pose proof (wf_out fc Hwf) as Hout. pose proof (wf_ob fc Hwf) as Hob.
  pose proof (ring_slot_range (_obi fc) (_o fc) 0) as Hk. fold k in Hk.
  destruct (load_Ok Arr_out (_out fc) 0) as (p & Ep & Np);
    [unfold TX_QUEUE_SIZE in *; lia|].
  rewrite (Hring 0) in Np by lia. injection Np as <-.
  destruct (load_Ok Arr_ob (_ob fc) k) as (cells & Ec & Nc); [lia|].
  assert (Hcells : slot_cells fc k = cells)
    by (unfold slot_cells; now apply nth_error_nth).
  rewrite Hcells. repeat split.
  - exact Ep.
  - exact Ec.
  - pose proof (wf_slots fc Hwf) as Hs. rewrite Forall_forall in Hs.
    apply Hs. eapply nth_error_In; eauto.
  - rewrite <- Hcells. apply Hstr. lia.
Qed.

Lemma tx_start_queue_ok (fc : FastComms) :
  queue_ok fc -> 0 < _o fc ->
  exists fc1,
    tx_start fc = Ok fc1 /\ queue_ok fc1 /\ rx_side fc1 = rx_side fc
    /\ _out fc1 = _out fc /\ _o fc1 = _o fc /\ 0 < _txlen fc1.
Proof.
  intros Hq Hpos.
  destruct (head_of_queue fc Hq Hpos) as (Eh & Ec & Hlen & Hnul).
  set (k := ring_slot (_obi fc) (_o fc) 0) in *.
  pose proof (zlen_cstr_lt _ Hnul) as Hs. rewrite Hlen in Hs.
  pose proof (zlen_nonneg (cstr (slot_cells fc k))) as Hs0.
  destruct Hq as [Hwf Hring Hstr Hcur].
  unfold tx_start.
  destruct (Z.eqb_spec (_txb fc) 0) as [Hb|Hb];
    [destruct (Z.eqb_spec (_txlen fc) 0) as [Hl|Hl]|]; cbn [andb].
  - rewrite Eh. cbn [bind]. rewrite Ec. cbn [bind].
    rewrite c_string_has_nul by exact Hnul. cbn [bind].
    eexists. split; [reflexivity|].
    assert (Hu : u8 (zlen (cstr (slot_cells fc k))
                     + (if _useChecksum fc then 3 else 2))
                 = zlen (cstr (slot_cells fc k))
                   + (if _useChecksum fc then 3 else 2)).
    { apply u8_small. unfold BUFFER_SIZE in *.
      destruct (_useChecksum fc); lia. }
    rewrite Hu.
    split; [|split; [reflexivity|split; [reflexivity|split; [reflexivity|]]]].
    + constructor.
      * destruct Hwf. constructor; assumption.
      * exact Hring.
      * exact Hstr.
      * cbn [_txb _txlen set_txlen _o _obi]. fold k.
        split; [destruct (_useChecksum fc); lia|]. right.
        split; [exact Hpos|]. unfold strlen, slot_cells in *.
        cbn [_ob set_txlen]. destruct (_useChecksum fc); lia.
    + cbn [_txlen set_txlen]. destruct (_useChecksum fc); lia.
  - exists fc. split; [reflexivity|]. split; [now constructor|].
    repeat split. lia.
  - exists fc. split; [reflexivity|]. split; [now constructor|].
    repeat split. lia.
Qed.

Lemma tx_select_total (fc : FastComms) :
  queue_ok fc -> 0 < _o fc -> _txb fc < _txlen fc ->
  exists b, tx_select fc = Ok b.
Proof.
  intros Hq Hpos Hlt.
  destruct (head_of_queue fc Hq Hpos) as (Eh & Ec & Hlen & Hnul).
  set (k := ring_slot (_obi fc) (_o fc) 0) in *.
  pose proof (zlen_cstr_lt _ Hnul) as Hs. rewrite Hlen in Hs.
  pose proof (zlen_nonneg (cstr (slot_cells fc k))) as Hs0.
  destruct Hq as [Hwf Hring Hstr Hcur].
  destruct Hcur as [Hb [Hz|[_ Hle]]]; [lia|]. fold k in Hle.
  unfold strlen in Hle.
  assert (Hck : exists c, tx_checksum fc = Ok c).
  { unfold tx_checksum. rewrite Eh. cbn [bind]. rewrite Ec. cbn [bind].
    rewrite c_string_has_nul by exact Hnul. cbn [bind]. now eexists. }
  assert (Hpb : _txb fc < BUFFER_SIZE -> exists c, tx_payload_byte fc = Ok c).
  { intros Hin. unfold tx_payload_byte. rewrite Eh. cbn [bind].
    rewrite Ec. cbn [bind].
    destruct (load_Ok Arr_slot (slot_cells fc k) (_txb fc)) as (c & E & _);
      [lia|]. now exists c. }
  unfold tx_select. unfold BUFFER_SIZE in *.
  rewrite (u8_small (_txlen fc - _txb fc)) by lia.
  destruct (_useChecksum fc).
  - destruct (Z.leb_spec (_txlen fc - _txb fc) 3).
    + destruct (_ =? 3).
      * destruct Hck as [c ->]. cbn [bind]. now eexists.
      * destruct (_ =? 2); [now eexists|]. destruct (_ =? 1); now eexists.
    + destruct Hpb as [c ->]; [lia|]. cbn [bind]. now eexists.
  - destruct (Z.leb_spec (_txlen fc - _txb fc) 2).
    + destruct (_ =? 2); [now eexists|]. destruct (_ =? 1); now eexists.
    + destruct Hpb as [c ->]; [lia|]. cbn [bind]. now eexists.
Qed.

Lemma queue_ok_advance (fc : FastComms) :
  queue_ok fc -> _txb fc < _txlen fc ->
  queue_ok (set_txb (u8 (_txb fc + 1)) fc).
Proof.
  intros [Hwf Hring Hstr Hcur] Hlt.
  destruct Hcur as [Hb [Hz|[Hpos Hle]]]; [lia|].
  assert (Hlen : _txlen fc <= 66).
  { pose proof (ring_slot_range (_obi fc) (_o fc) 0) as Hk.
    assert (Ho : 0 <= 0 < _o fc) by lia.
    pose proof (Hstr 0 Ho) as Hnul. apply zlen_cstr_lt in Hnul.
    assert (Hz : zlen (slot_cells fc (ring_slot (_obi fc) (_o fc) 0))
                 = BUFFER_SIZE).
    { pose proof (wf_slots fc Hwf) as Hs. rewrite Forall_forall in Hs.
      apply Hs. unfold slot_cells. apply nth_In.
      pose proof (wf_ob fc Hwf) as Hob. unfold zlen in Hob. lia. }
    unfold strlen in Hle. unfold BUFFER_SIZE in *. lia. }
  rewrite u8_small by lia.
  constructor.
  - destruct Hwf. constructor; assumption.
  - exact Hring.
  - exact Hstr.
  - cbn [_txb _txlen set_txb _o _obi]. split; [lia|]. right.
    split; [exact Hpos | exact Hle].
Qed.

Lemma queue_ok_dequeued (fc : FastComms) (out' : list ptr) :
  queue_ok fc -> 0 < _o fc -> shifted (_o fc) (_out fc) out' ->
  queue_ok (set_txb 0 (set_txlen 0 (set_o (_o fc - 1) (set_out out' fc)))).
Proof.
  intros [Hwf Hring Hstr Hcur] Hpos [Hlen Hsh].
  constructor.
  - destruct Hwf as [W1 W2 W3 W4 W5].
    constructor; cbn; try assumption; [congruence | lia].
  - cbn [_out _o _obi set_txb set_txlen set_o set_out].
    intros j Hj. rewrite Hsh by lia. rewrite ring_slot_deq.
    apply Hring. lia.
  - cbn [_o _obi set_txb set_txlen set_o set_out]. unfold slot_cells.
    cbn [_ob set_txb set_txlen set_o set_out].
    intros j Hj. rewrite ring_slot_deq. apply Hstr. lia.
  - cbn [_txb _txlen set_txb set_txlen]. split; [lia | now left].
Qed.

(** The transmit half either keeps the queue in order or, on a full
    queue whose head frame has been written, leaves [_out]. *)
Lemma tx_section_queue_ok (w : World) :
  queue_ok (this w) ->
  (exists w', tx_section w = Ok w' /\ queue_ok (this w')
              /\ _o (this w') <= _o (this w))
  \/ (tx_section w = Fault (OutOfBounds Arr_out TX_QUEUE_SIZE)
      /\ _o (this w) = TX_QUEUE_SIZE).
Proof.
  intros Hq. unfold tx_section.
  destruct (Z.ltb_spec 0 (_o (this w))) as [Hpos|Hzero].
  2:{ left. exists w. split; [reflexivity|]. split; [exact Hq | lia]. }
  destruct (tx_start_queue_ok _ Hq Hpos)
    as (fc1 & E1 & Hq1 & _ & Hout1 & Ho1 & Hlen1).
  rewrite E1. cbn [bind].
  destruct (Z.ltb_spec (_txb fc1) (_txlen fc1)) as [Hlt|Hge].
  - destruct (0 <? availableForWrite _).
    + destruct (tx_select_total fc1 Hq1) as (b & Eb); [lia | exact Hlt|].
      rewrite Eb. cbn [bind]. left. eexists. split; [reflexivity|].
      pose proof (queue_ok_advance fc1 Hq1 Hlt) as Hq2.
      destruct b as [b|]; cbn [this with_this port_write emit];
        (split; [exact Hq2 | cbn [_o set_txb]; lia]).
    + left. eexists. split; [reflexivity|]. cbn [this].
      split; [exact Hq1 | lia].
  - pose proof (wf_o _ (qk_wf _ Hq1)) as Ho.
    pose proof (wf_out _ (qk_wf _ Hq1)) as Hout.
    destruct (Z.eq_dec (_o fc1) TX_QUEUE_SIZE) as [Hfull|Hnot].
    + right. rewrite tx_dequeue_full by assumption. split; [reflexivity | lia].
    + destruct (tx_dequeue_ok fc1) as (out' & Ed & Hsh); [lia | exact Hout|].
      rewrite Ed. cbn [bind]. left. eexists. split; [reflexivity|].
      cbn [this]. split.
      * apply queue_ok_dequeued; [exact Hq1 | lia | exact Hsh].
      * cbn [_o set_txb set_txlen set_o]. lia.
Qed.

(** ** The receive half and the transmit queue *)

Lemma send_diag_wf (msg : list Z) (w w' : World) :
  wf_queue (this w) -> send_diag msg w = Ok w' -> wf_queue (this w').
Proof.
  intros Hwf H. destruct (send_diag_total msg w Hwf) as (w1 & E & Hwf1).
  rewrite E in H. now injection H as <-.
Qed.

Lemma send_diag_no_fault (msg : list Z) (w : World) (f : fault) :
  wf_queue (this w) -> send_diag msg w = Fault f -> False.
Proof.
  intros Hwf H. destruct (send_diag_total msg w Hwf) as (w1 & E & _).
  rewrite E in H. discriminate.
Qed.

Section Preserved.

(** A property of the object that the receive half keeps: one that
    does not depend on the input buffer, its index and the flag, that
    stays when the message buffer is overwritten in place, and that
    [sendMsg] keeps. *)
Variable Q : FastComms -> Prop.
Hypothesis Q_in : forall v fc, Q fc -> Q (set_in v fc).
Hypothesis Q_i : forall v fc, Q fc -> Q (set_i v fc).
Hypothesis Q_rx : forall v fc, Q fc -> Q (set_rx v fc).
Hypothesis Q_msg : forall v fc,
  zlen v = zlen (_msg fc) -> Q fc -> Q (set_msg v fc).
Hypothesis Q_send : forall msg fc r fc',
  Q fc -> sendMsg msg fc = Ok (r, fc') -> Q fc'.

Lemma send_diag_preserves (msg : list Z) (w w' : World) :
  Q (this w) -> send_diag msg w = Ok w' -> Q (this w').
Proof.
  unfold send_diag. intros HQ H. inv_bind H. destruct x as [r fc].
  injection H as <-. cbn [this]. eapply Q_send; eauto.
Qed.

Lemma strcpy_msg_preserves (fc : FastComms) (s m : list Z) :
  Q fc -> strcpy Arr_msg (_msg fc) s = Ok m -> Q (set_msg m fc).
Proof.
  intros HQ H. apply strcpy_inv in H. destruct H as [-> Hle].
  apply Q_msg; [now apply zlen_msg_with | exact HQ].
Qed.

Lemma rx_plain_preserves (w w' : World) :
  Q (this w) -> rx_plain w = Ok w' -> Q (this w').
Proof.
  unfold rx_plain. intros HQ H. inv_bind H.
  apply call_handler_this in H. rewrite H.
  cbn [this with_this].
  apply (strcpy_msg_preserves (set_in x (set_rx true (this w))) x0 x1);
    [|exact E1].
  apply Q_in, Q_rx, HQ.
Qed.

Lemma rx_checksummed_preserves (w w' : World) :
  Q (this w) -> rx_checksummed w = Ok w' -> Q (this w').
Proof.
  unfold rx_checksummed. intros HQ H. inv_bind H. injection H as <-.
  cbn [this with_this]. apply Q_i.
  assert (HQ0 : Q (this (with_this (set_in x0) w)))
    by (cbn [this with_this]; apply Q_in, HQ).
  match type of E4 with
  | context [if ?c then _ else _] => destruct c
  end.
  - inv_bind E4. apply call_handler_this in E4. rewrite E4.
    cbn [this with_this] in *.
    apply (strcpy_msg_preserves (set_rx true (set_in x0 (this w))) x3 x5);
      [|exact E5].
    apply Q_rx, HQ0.
  - inv_bind E4.
    repeat match goal with
           | Hs : send_diag _ ?u = Ok ?v, Hu : Q (this ?u) |- _ =>
             pose proof (send_diag_preserves _ _ _ Hu Hs); clear Hs
           end.
    assumption.
Qed.

Lemma rx_byte_preserves (w w' : World) :
  Q (this w) -> rx_byte w = Ok w' -> Q (this w').
Proof.
  unfold rx_byte. destruct (port_read w) as [b w0] eqn:Er.
  apply port_read_this in Er. destruct Er as (Ht & _).
  intros HQ H. inv_bind H.
  set (w1 := with_this (set_in x) w0) in *.
  assert (HQ1 : Q (this w1)).
  { unfold w1. cbn [this with_this]. rewrite Ht. apply Q_in, HQ. }
  assert (Hstep : forall v, Q (this (with_this (set_i v) w1))).
  { intros v. cbn [this with_this]. apply Q_i, HQ1. }
  destruct ((0 <? _i (this w1)) && (x0 =? MSG_END_B)).
  - inv_bind H. destruct (x1 =? MSG_END_A).
    + inv_bind H. injection H as <-. cbn [this with_this]. apply Q_i.
      destruct (_useChecksum (this w1) && (2 <? _i (this w1))).
      * match goal with
        | Hc : rx_checksummed _ = Ok _ |- _ =>
          exact (rx_checksummed_preserves _ _ HQ1 Hc)
        end.
      * match goal with
        | Hc : rx_plain _ = Ok _ |- _ =>
          exact (rx_plain_preserves _ _ HQ1 Hc)
        end.
    + injection H as <-. apply Hstep.
  - injection H as <-. apply Hstep.
Qed.

Lemma rx_section_preserves (w w' : World) :
  Q (this w) -> rx_section w = Ok w' -> Q (this w').
Proof.
  unfold rx_section. intros HQ. destruct (_i (this w) <? BUFFER_SIZE).
  - destruct (0 <? available w); [now apply rx_byte_preserves|].
    now intros [= <-].
  - apply send_diag_preserves. cbn [this with_this]. apply Q_i, HQ.
Qed.

End Preserved.

Lemma rx_section_queue_ok (w w' : World) :
  queue_ok (this w) -> rx_section w = Ok w' -> queue_ok (this w').
Proof.
  apply (rx_section_preserves queue_ok).
  - intros v fc. now apply queue_ok_tx_side.
  - intros v fc. now apply queue_ok_tx_side.
  - intros v fc. now apply queue_ok_tx_side.
  - intros v fc _. now apply queue_ok_tx_side.
  - intros msg fc r fc' Hq H. exact (sendMsg_queue_ok msg fc fc' r Hq H).
Qed.

Lemma wf_queue_tx_side (a b : FastComms) :
  tx_side a = tx_side b -> wf_queue a -> wf_queue b.
Proof.
  intros H. apply tx_side_eq in H.
  destruct H as (Hout & Hob & Hobi & Ho & _).
  intros [W1 W2 W3 W4 W5].
  constructor; rewrite <- ?Hout, <- ?Hob, <- ?Hobi, <- ?Ho; assumption.
Qed.

(** The message buffer keeps its size. *)
Lemma rx_section_msg_len (n : Z) (w w' : World) :
  zlen (_msg (this w)) = n -> rx_section w = Ok w' ->
  zlen (_msg (this w')) = n.
Proof.
  apply (rx_section_preserves (fun fc => zlen (_msg fc) = n)).
  - intros v fc H. exact H.
  - intros v fc H. exact H.
  - intros v fc H. exact H.
  - intros v fc Hv H. cbn [_msg set_msg]. congruence.
  - intros msg fc r fc' H E. apply sendMsg_rx_side, rx_side_eq in E.
    destruct E as (_ & _ & -> & _). exact H.
Qed.

(** ** The accesses that can leave an array *)

Lemma zlen_cstr_list_set (l : list Z) (n : nat) :
  (n < List.length l)%nat -> zlen (cstr (list_set l n 0)) <= Z.of_nat n.
Proof.
  revert n. induction l as [|c l IH]; intros [|n] H; cbn in H; try lia.
  - cbn. lia.
  - cbn [list_set cstr]. destruct (c =? 0).
    + change (zlen (@nil Z)) with 0. lia.
    + rewrite zlen_cons. specialize (IH n). lia.
Qed.

Lemma rx_plain_no_fault (w : World) (f : fault) :
  0 < _i (this w) < zlen (_in (this w)) ->
  zlen (_in (this w)) = BUFFER_SIZE -> zlen (_msg (this w)) = BUFFER_SIZE ->
  rx_plain w = Fault f -> False.
Proof.
  intros Hi Hin Hmsg. unfold rx_plain. intros H.
  inv_fault H; [apply store_fault_id in H; lia|].
  apply store_inv in E. destruct E as (_ & -> & _).
  inv_fault H.
  { apply c_string_fault_id in H. destruct H as [_ H].
    rewrite has_nul_list_set in H; [discriminate|]. unfold zlen in Hi. lia. }
  apply c_string_inv in E. destruct E as [-> _].
  pose proof (zlen_cstr_list_set (_in (this w)) (Z.to_nat (_i (this w) - 1)))
    as Hs.
  inv_fault H.
  { rewrite strcpy_ok in H; [discriminate|].
    unfold zlen in Hi, Hs |- *. unfold zlen in Hin, Hmsg.
    unfold BUFFER_SIZE in *. lia. }
  apply strcpy_inv in E. destruct E as [-> _].
  erewrite call_handler_ok in H; [discriminate|].
  cbn [this with_this _msg set_msg]. reflexivity.
Qed.

Lemma rx_checksummed_known_fault (w : World) (f : fault) :
  2 < _i (this w) < zlen (_in (this w)) ->
  zlen (_in (this w)) = BUFFER_SIZE -> zlen (_msg (this w)) = BUFFER_SIZE ->
  wf_queue (this w) ->
  rx_checksummed w = Fault f ->
  f = OutOfBounds Arr_data (BUFFER_SIZE - 3) \/ f = OutOfBounds Arr_sum 10.
Proof.
  intros Hi Hin Hmsg Hwf. unfold rx_checksummed. intros H.
  inv_fault H; [apply load_fault_id in H; lia|].
  inv_fault H; [apply store_fault_id in H; lia|].
  apply store_inv in E0. destruct E0 as (_ & -> & _).
  inv_fault H.
  { apply c_string_fault_id in H. destruct H as [_ H].
    rewrite has_nul_list_set in H; [discriminate|]. unfold zlen in Hi. lia. }
  apply c_string_inv in E0. destruct E0 as [-> _].
  inv_fault H.
  { left. apply write_at_fault_id in H. subst f. unfold uninit.
    rewrite zlen_repeat. reflexivity. }
  apply strcpy_inv in E0. destruct E0 as [-> Hfit].
  unfold uninit in Hfit. rewrite zlen_repeat in Hfit.
  rewrite c_string_msg_with in H. cbn [bind] in H.
  set (d := cstr _) in *.
  set (w0 := with_this _ w) in *.
  assert (Hwf0 : wf_queue (this w0)) by (apply wf_queue_set_in, Hwf).
  assert (Hmsg0 : zlen (_msg (this w0)) = BUFFER_SIZE) by exact Hmsg.
  pose proof (zlen_nonneg d) as Hd0.
  inv_fault H; [|discriminate].
  destruct (x =? checkSum d).
  - inv_fault H.
    { rewrite strcpy_ok in H; [discriminate|].
      cbn [this with_this _msg set_rx]. rewrite Hmsg0.
      unfold BUFFER_SIZE in *. lia. }
    apply strcpy_inv in E0. destruct E0 as [-> _].
    erewrite call_handler_ok in H; [discriminate|].
    cbn [this with_this _msg set_msg]. unfold d. reflexivity.
  - inv_fault H; [now apply send_diag_no_fault in H|].
    pose proof (send_diag_wf _ _ _ Hwf0 E0) as Hwf1.
    inv_fault H.
    { rewrite sprintf_ok in H; [discriminate|].
      unfold uninit. rewrite zlen_repeat, zlen_app.
      change (zlen (bytes_of_string "!")) with 1.
      unfold BUFFER_SIZE in *. lia. }
    inv_fault H; [now apply send_diag_no_fault in H|].
    pose proof (send_diag_wf _ _ _ Hwf1 E2) as Hwf2.
    inv_fault H.
    { right. apply write_at_fault_id in H. subst f. reflexivity. }
    now apply send_diag_no_fault in H.
Qed.

Lemma rx_byte_known_fault (w : World) (f : fault) :
  0 <= _i (this w) < zlen (_in (this w)) ->
  zlen (_in (this w)) = BUFFER_SIZE -> zlen (_msg (this w)) = BUFFER_SIZE ->
  wf_queue (this w) ->
  rx_byte w = Fault f ->
  f = OutOfBounds Arr_data (BUFFER_SIZE - 3) \/ f = OutOfBounds Arr_sum 10.
Proof.
  intros Hi Hin Hmsg Hwf. unfold rx_byte.
  destruct (port_read w) as [b w0] eqn:Er.
  apply port_read_this in Er. destruct Er as (Hw0 & _).
  rewrite Hw0. intros H.
  inv_fault H; [apply store_fault_id in H; lia|].
  apply store_inv in E. destruct E as (_ & _ & L).
  set (w1 := with_this (set_in x) w0) in *.
  assert (Hi1 : _i (this w1) = _i (this w)) by (unfold w1; cbn; now rewrite Hw0).
  assert (Hl1 : zlen (_in (this w1)) = zlen (_in (this w))) by exact L.
  assert (Hm1 : zlen (_msg (this w1)) = BUFFER_SIZE)
    by (unfold w1; cbn [this with_this _msg set_in]; now rewrite Hw0).
  assert (Hwf1 : wf_queue (this w1))
    by (unfold w1; cbn [this with_this]; rewrite Hw0;
        now apply wf_queue_set_in).
  rewrite Hi1 in H.
  inv_fault H; [apply load_fault_id in H; lia|].
  destruct (Z.ltb_spec 0 (_i (this w))) as [Hpos|]; cbn [andb] in H;
    [|discriminate].
  destruct (x0 =? MSG_END_B); [|discriminate].
  inv_fault H; [apply load_fault_id in H; lia|].
  destruct (x1 =? MSG_END_A); [|discriminate].
  inv_fault H; [|discriminate].
  destruct (_useChecksum (this w1)); cbn [andb] in H.
  - destruct (Z.ltb_spec 2 (_i (this w))).
    + apply rx_checksummed_known_fault in H; try assumption; lia.
    + apply rx_plain_no_fault in H; [contradiction| lia | lia | assumption].
  - apply rx_plain_no_fault in H; [contradiction| lia | lia | assumption].
Qed.

Lemma rx_section_known_fault (w : World) (f : fault) :
  inbound_ok (this w) -> zlen (_msg (this w)) = BUFFER_SIZE ->
  wf_queue (this w) ->
  rx_section w = Fault f ->
  f = OutOfBounds Arr_data (BUFFER_SIZE - 3) \/ f = OutOfBounds Arr_sum 10.
Proof.
  intros [Hl Hi] Hmsg Hwf. unfold rx_section.
  destruct (Z.ltb_spec (_i (this w)) BUFFER_SIZE) as [Hlt|Hge].
  - destruct (0 <? available w); [|discriminate].
    apply rx_byte_known_fault; try assumption; lia.
  - intros H. apply send_diag_no_fault in H; [contradiction|].
    cbn [this with_this]. now apply wf_queue_set_i.
Qed.

(** ** The invariant of the reachable states *)

Lemma state_ok_rx_section (w w' : World) :
  state_ok (this w) -> rx_section w = Ok w' -> state_ok (this w').
Proof.
  intros (Hin & Hmsg & Hq) H. split; [|split].
  - exact (rx_section_inbound w w' Hin H).
  - exact (rx_section_msg_len _ w w' Hmsg H).
  - exact (rx_section_queue_ok w w' Hq H).
Qed.

Lemma state_ok_rx_side (a b : FastComms) :
  rx_side b = rx_side a -> queue_ok b -> state_ok a -> state_ok b.
Proof.
  intros H Hq ((Hl & Hi) & Hmsg & _). apply rx_side_eq in H.
  destruct H as (_ & _ & Em & Ein & Ei & _).
  split; [split|split]; try rewrite Ein; try rewrite Ei; try rewrite Em;
    assumption.
Qed.

Lemma txrx_state_ok (w w' : World) (r : bool) :
  state_ok (this w) -> txrx w = Ok (r, w') -> state_ok (this w').
Proof.
  intros Hok. unfold txrx.
  destruct (negb (_port (this w))); [now intros [= _ <-]|].
  intros H. inv_bind H.
  pose proof (state_ok_rx_section w x Hok E) as Hok1.
  assert (Hok2 : state_ok (this x0)).
  { pose proof Hok1 as (Hin1 & Hmsg1 & Hq1).
    destruct (tx_section_queue_ok x Hq1) as [(w2 & E2 & Hq2 & _)|(E2 & _)].
    - rewrite E2 in E0. injection E0 as <-.
      apply (state_ok_rx_side (this x)); [|exact Hq2|exact Hok1].
      now apply tx_section_rx_side.
    - rewrite E2 in E0. discriminate. }
  destruct (_rx (this x0)); injection H as _ <-; [|exact Hok2].
  cbn [this with_this]. destruct Hok2 as (Hin2 & Hmsg2 & Hq2).
  split; [exact Hin2|]. split; [exact Hmsg2|].
  revert Hq2. apply queue_ok_tx_side. reflexivity.
Qed.

Lemma txrx_known_fault (w : World) (f : fault) :
  state_ok (this w) -> txrx w = Fault f -> known_fault f.
Proof.
  intros (Hin & Hmsg & Hq). unfold txrx, known_fault.
  destruct (negb (_port (this w))); [discriminate|].
  intros H. inv_fault H.
  - apply rx_section_known_fault in H; try assumption; [tauto|].
    exact (qk_wf _ Hq).
  - pose proof (rx_section_queue_ok w x Hq E) as Hq1.
    inv_fault H.
    + destruct (tx_section_queue_ok x Hq1) as [(w2 & E2 & _)|(E2 & _)];
        rewrite E2 in H; [discriminate|]. injection H as <-. tauto.
    + destruct (_rx (this x0)); discriminate.
Qed.

Lemma reachable_state_ok (w : World) : reachable w -> state_ok (this w).
Proof.
  induction 1 as [msg inb out ob p Hm Hi Ho Hob Hs
                 | w c p _ IH | w h _ IH | w msg r w' _ IH Hsend
                 | w r w' _ IH Htick | w p _ IH].
  - split; [|split].
    + split; [exact Hi | cbn; unfold BUFFER_SIZE; lia].
    + exact Hm.
    + now apply queue_ok_new.
  - destruct IH as (Hin & Hmsg & Hq). cbn [this with_this].
    split; [destruct p; exact Hin|]. split; [destruct p; exact Hmsg|].
    revert Hq. apply queue_ok_tx_side. destruct p; reflexivity.
  - destruct IH as (Hin & Hmsg & Hq). cbn [this with_this].
    split; [exact Hin|]. split; [exact Hmsg|].
    revert Hq. apply queue_ok_tx_side. reflexivity.
  - unfold app_sendMsg in Hsend. inv_bind Hsend. destruct x as [r0 fc].
    injection Hsend as _ <-. cbn [this].
    apply (state_ok_rx_side (this w)); [|
      |exact IH].
    + now apply sendMsg_rx_side in E.
    + destruct IH as (_ & _ & Hq). exact (sendMsg_queue_ok _ _ _ _ Hq E).
  - exact (txrx_state_ok w w' r IH Htick).
  - exact IH.
Qed.

(** ** What holds in every reachable state *)

Lemma live_nth_error (fc : FastComms) (p : ptr) :
  queue_ok fc -> In p (live fc) ->
  exists j, 0 <= j < _o fc /\ p = Slot (ring_slot (_obi fc) (_o fc) j).
Proof.
  intros Hq Hin. unfold live in Hin.
  apply In_nth_error in Hin. destruct Hin as [n Hn].
  assert (Hlt : (n < Z.to_nat (_o fc))%nat).
  { assert (Hsome : nth_error (firstn (Z.to_nat (_o fc)) (_out fc)) n <> None)
      by congruence.
    apply nth_error_Some in Hsome. rewrite length_firstn in Hsome. lia. }
  rewrite nth_error_firstn in Hn.
  destruct (Nat.ltb_spec n (Z.to_nat (_o fc))); [|lia].
  exists (Z.of_nat n). split; [lia|].
  pose proof (qk_ring fc Hq (Z.of_nat n)) as R. rewrite Nat2Z.id in R.
  rewrite R in Hn by lia. congruence.
Qed.

Lemma next_slot_not_live (fc : FastComms) :
  queue_ok fc -> _o fc < TX_QUEUE_SIZE -> ~ In (Slot (_obi fc)) (live fc).
Proof.
  intros Hq Hroom Hin. apply live_nth_error in Hin; [|exact Hq].
  destruct Hin as (j & Hj & E). injection E as E. symmetry in E.
  revert E. apply ring_slot_not_next; [|exact Hj|exact Hroom].
  exact (wf_obi _ (qk_wf _ Hq)).
Qed.

Lemma live_NoDup (fc : FastComms) : queue_ok fc -> NoDup (live fc).
Proof.
  intros Hq. pose proof (wf_o _ (qk_wf _ Hq)) as Ho.
  pose proof (wf_out _ (qk_wf _ Hq)) as Hout.
  apply NoDup_nth_error. intros i j Hi E.
  unfold live in *. rewrite length_firstn in Hi.
  rewrite !nth_error_firstn in E.
  destruct (Nat.ltb_spec i (Z.to_nat (_o fc))); [|lia].
  pose proof (qk_ring fc Hq (Z.of_nat i)) as Ri. rewrite Nat2Z.id in Ri.
  rewrite Ri in E by lia.
  destruct (Nat.ltb_spec j (Z.to_nat (_o fc))); [|discriminate].
  pose proof (qk_ring fc Hq (Z.of_nat j)) as Rj. rewrite Nat2Z.id in Rj.
  rewrite Rj in E by lia.
  injection E as E. apply ring_slot_inj in E; lia.
Qed.

Lemma queued_entries (fc : FastComms) :
  queue_ok fc ->
  Forall (fun q => exists s, q = Ok s /\ zlen s < BUFFER_SIZE /\ cstr s = s)
    (queued fc).
Proof.
  intros Hq. unfold queued. apply Forall_map. apply Forall_forall.
  intros p Hp. fold (live fc) in Hp.
  apply live_nth_error in Hp; [|exact Hq]. destruct Hp as (j & Hj & ->).
  pose proof (ring_slot_range (_obi fc) (_o fc) j) as Hk.
  set (k := ring_slot (_obi fc) (_o fc) j) in *.
  pose proof (qk_str fc Hq j Hj) as Hnul. fold k in Hnul.
  pose proof (wf_ob _ (qk_wf _ Hq)) as Hob.
  destruct (load_Ok Arr_ob (_ob fc) k) as (cells & Ec & Nc); [lia|].
  assert (Hcells : slot_cells fc k = cells)
    by (unfold slot_cells; now apply nth_error_nth).
  cbn [deref]. rewrite Ec. cbn [bind]. rewrite <- Hcells.
  rewrite c_string_has_nul by exact Hnul.
  exists (cstr (slot_cells fc k)). split; [reflexivity|]. split.
  - apply zlen_cstr_lt in Hnul.
    assert (Hz : zlen (slot_cells fc k) = BUFFER_SIZE).
    { pose proof (wf_slots _ (qk_wf _ Hq)) as Hs. rewrite Forall_forall in Hs.
      apply Hs. rewrite Hcells. eapply nth_error_In; eauto. }
    lia.
  - apply cstr_idem.
Qed.

(** X6.  In every state that calls of [init], [setMsgHandler],
    [sendMsg] and [txrx] can reach, a call of [txrx] stays inside every
    array of the object and of its own frame but for three accesses: the
    copy into [data] of a checksummed payload of [BUFFER_SIZE - 3]
    bytes, the report of a wrong checksum of three digits written into
    [sum], and the shift of a full queue, which reads [_out] one entry
    past its end.  No null queue pointer is ever followed. *)
Theorem txrx_leaves_arrays_in_three_ways_only (w : World) (f : fault) :
  reachable w -> txrx w = Fault f -> known_fault f.
Proof.
  intros Hr. apply txrx_known_fault. now apply reachable_state_ok.
Qed.

Lemma txrx_leaves_arrays_in_three_ways_only_witness :
  exists w1,
    feed (repeat 98 61 ++ [7; MSG_END_A]) (fresh_world true None 0)
    = Ok (repeat false 63, w1)
    /\ txrx (arrive MSG_END_B w1)
       = Fault (OutOfBounds Arr_data (BUFFER_SIZE - 3))
    /\ known_fault (OutOfBounds Arr_data (BUFFER_SIZE - 3)).
Proof.
  pose (w1 := match feed (repeat 98 61 ++ [7; MSG_END_A])
                      (fresh_world true None 0) with
              | Ok (_, w1) => w1
              | Fault _ => fresh_world true None 0
              end).
  assert (Hf : feed (repeat 98 61 ++ [7; MSG_END_A]) (fresh_world true None 0)
               = Ok (repeat false 63, w1)) by (vm_compute; reflexivity).
  assert (Ht : txrx (arrive MSG_END_B w1)
               = Fault (OutOfBounds Arr_data (BUFFER_SIZE - 3)))
    by (vm_compute; reflexivity).
  assert (Hr : reachable (arrive MSG_END_B w1)).
  { apply (reach_port w1).
    exact (reachable_feed _ _ _ _ (reachable_fresh true None 0) Hf). }
  exists w1. split; [exact Hf|]. split; [exact Ht|].
  exact (txrx_leaves_arrays_in_three_ways_only _ _ Hr Ht).
Defined.

(** X3.  In every reachable state the transmit queue is in order:
    it holds between 0 and [TX_QUEUE_SIZE] entries, its entries point to
    slots that are pairwise distinct, every entry is a terminated string
    shorter than a slot, and the cursor lies inside a frame
    ([_txb <= _txlen <= BUFFER_SIZE + 2]) and is at rest when the queue
    is empty. *)
Theorem reachable_queue_in_order (w : World) :
  reachable w ->
  0 <= _o (this w) <= TX_QUEUE_SIZE
  /\ zlen (queued (this w)) = _o (this w)
  /\ NoDup (live (this w))
  /\ Forall (fun q => exists s, q = Ok s /\ zlen s < BUFFER_SIZE
                                /\ cstr s = s)
       (queued (this w))
  /\ 0 <= _txb (this w) <= _txlen (this w)
  /\ _txlen (this w) <= BUFFER_SIZE + 2
  /\ (_o (this w) = 0 -> _txlen (this w) = 0).
Proof.
  intros Hr. apply reachable_state_ok in Hr. destruct Hr as (_ & _ & Hq).
  pose proof (wf_o _ (qk_wf _ Hq)) as Ho.
  pose proof (wf_out _ (qk_wf _ Hq)) as Hout.
  split; [exact Ho|]. split.
  { unfold queued, zlen in *. rewrite length_map, length_firstn. lia. }
  split; [now apply live_NoDup|]. split; [now apply queued_entries|].
  destruct (qk_cursor _ Hq) as [Hb Hc]. split; [exact Hb|].
  destruct Hc as [Hz|[Hpos Hle]].
  - split; [unfold BUFFER_SIZE; lia | intros _; exact Hz].
  - split; [|lia].
    assert (H0 : 0 <= 0 < _o (this w)) by lia.
    pose proof (qk_str _ Hq 0 H0) as Hnul. apply zlen_cstr_lt in Hnul.
    assert (Hz : zlen (slot_cells (this w)
                         (ring_slot (_obi (this w)) (_o (this w)) 0))
                 = BUFFER_SIZE).
    { pose proof (wf_slots _ (qk_wf _ Hq)) as Hs. rewrite Forall_forall in Hs.
      apply Hs. unfold slot_cells. apply nth_In.
      pose proof (wf_ob _ (qk_wf _ Hq)) as Hob.
      pose proof (ring_slot_range (_obi (this w)) (_o (this w)) 0).
      unfold zlen in Hob. lia. }
    unfold strlen in Hle. lia.
Qed.

Lemma reachable_queue_in_order_witness :
  let w := mkWorld (enqueued [104; 105] (init false true FastComms_static))
             (mkSerial [] 8) [] in
  0 <= _o (this w) <= TX_QUEUE_SIZE
  /\ zlen (queued (this w)) = _o (this w)
  /\ NoDup (live (this w))
  /\ Forall (fun q => exists s, q = Ok s /\ zlen s < BUFFER_SIZE
                                /\ cstr s = s)
       (queued (this w))
  /\ 0 <= _txb (this w) <= _txlen (this w)
  /\ _txlen (this w) <= BUFFER_SIZE + 2
  /\ (_o (this w) = 0 -> _txlen (this w) = 0).
Proof.
  intros w. apply (reachable_queue_in_order w).
  apply (reach_sendMsg
           (mkWorld (init false true FastComms_static) (mkSerial [] 8) [])
           [104; 105] 1 w).
  - apply (reach_init (mkWorld FastComms_static (mkSerial [] 8) []) false true).
    apply reach_new; try reflexivity. repeat constructor.
  - vm_compute. reflexivity.
Defined.

(** X2.  In a reachable state, a call of [sendMsg] that returns 1
    adds the message, cut to [BUFFER_SIZE - 1] characters, at the end of
    the queue, in the slot [_obi], which no entry is using: the entries
    already queued keep their order and their text.  Nothing else
    changes: not the port, not the log, not the receive side. *)
Theorem sendMsg_appends_to_the_queue (w w' : World) (msg : list Z) :
  reachable w -> app_sendMsg msg w = Ok (1, w') ->
  queued (this w')
  = queued (this w) ++ [Ok (firstn (Z.to_nat (BUFFER_SIZE - 1)) (cstr msg))]
  /\ live (this w') = live (this w) ++ [Slot (_obi (this w))]
  /\ ~ In (Slot (_obi (this w))) (live (this w))
  /\ rx_side (this w') = rx_side (this w)
  /\ serial w' = serial w /\ log w' = log w.
Proof.
  intros Hr. apply reachable_state_ok in Hr. destruct Hr as (_ & _ & Hq).
  pose proof (qk_wf _ Hq) as Hwf.
  unfold app_sendMsg. intros H. inv_bind H. destruct x as [r fc].
  injection H as -> <-. cbn [this serial log].
  pose proof (sendMsg_rx_side _ _ _ _ E) as Hside.
  rewrite (sendMsg_spec msg _ Hwf) in E.
  destruct (Z.leb_spec TX_QUEUE_SIZE (_o (this w))); [discriminate|].
  destruct (BUFFER_SIZE <=? u8 (strlen msg)); [discriminate|].
  assert (Hfc : fc = enqueued (firstn (Z.to_nat (BUFFER_SIZE - 1)) (cstr msg))
                       (this w)) by congruence.
  clear E. rewrite Hfc in *. clear Hfc.
  pose proof (next_slot_not_live _ Hq H) as Hfree.
  rewrite queued_enqueued, live_enqueued by assumption.
  rewrite cstr_firstn_cstr. repeat split; assumption.
Qed.

Lemma sendMsg_appends_to_the_queue_witness :
  let w := mkWorld (enqueued [104; 105] (init false true FastComms_static))
             (mkSerial [] 8) [] in
  exists w',
    app_sendMsg [33] w = Ok (1, w')
    /\ queued (this w')
       = queued (this w) ++ [Ok (firstn (Z.to_nat (BUFFER_SIZE - 1)) (cstr [33]))]
    /\ live (this w') = live (this w) ++ [Slot (_obi (this w))]
    /\ ~ In (Slot (_obi (this w))) (live (this w))
    /\ rx_side (this w') = rx_side (this w)
    /\ serial w' = serial w /\ log w' = log w.
Proof.
  intros w.
  pose (w' := match app_sendMsg [33] w with
              | Ok (_, w') => w'
              | Fault _ => w
              end).
  assert (Hs : app_sendMsg [33] w = Ok (1, w')) by (vm_compute; reflexivity).
  assert (Hr : reachable w).
  { apply (reach_sendMsg
             (mkWorld (init false true FastComms_static) (mkSerial [] 8) [])
             [104; 105] 1 w).
    - apply (reach_init (mkWorld FastComms_static (mkSerial [] 8) []) false true).
      apply reach_new; try reflexivity. repeat constructor.
    - vm_compute. reflexivity. }
  exists w'. split; [exact Hs|].
  exact (sendMsg_appends_to_the_queue w w' [33] Hr Hs).
Defined.

(** ** Emptying the queue *)

Lemma ticks_app (n m : nat) : forall (w : World),
  ticks (n + m) w
  = (let? (r1, w1) := ticks n w in
     let? (r2, w2) := ticks m w1 in
     Ok (r1 ++ r2, w2)).
Proof.
  induction n as [|n IH]; intros w; cbn [ticks Nat.add bind].
  - destruct (ticks m w) as [[r2 w2]|f]; reflexivity.
  - destruct (txrx w) as [[r w1]|f]; cbn [bind]; [|reflexivity].
    rewrite IH. destruct (ticks n w1) as [[r1 w2]|f]; cbn [bind]; [|reflexivity].
    destruct (ticks m w2) as [[r2 w3]|f]; reflexivity.
Qed.

Lemma txrx_queue_ok (w w' : World) (r : bool) :
  queue_ok (this w) -> txrx w = Ok (r, w') -> queue_ok (this w').
Proof.
  intros Hq. unfold txrx.
  destruct (negb (_port (this w))); [now intros [= _ <-]|].
  intros H. inv_bind H.
  pose proof (rx_section_queue_ok w x Hq E) as Hq1.
  assert (Hq2 : queue_ok (this x0)).
  { destruct (tx_section_queue_ok x Hq1) as [(w2 & E2 & Hq2 & _)|(E2 & _)];
      rewrite E2 in E0; [|discriminate]. now injection E0 as <-. }
  destruct (_rx (this x0)); injection H as _ <-; [|exact Hq2].
  cbn [this with_this]. revert Hq2. apply queue_ok_tx_side. reflexivity.
Qed.

Lemma ticks_queue_ok (n : nat) : forall (w w' : World) (rs : list bool),
  queue_ok (this w) -> ticks n w = Ok (rs, w') -> queue_ok (this w').
Proof.
  induction n as [|n IH]; intros w w' rs Hq H; cbn [ticks] in H.
  - now injection H as _ <-.
  - inv_bind H. destruct x as [r w1]. inv_bind H. destruct x as [rs1 w2].
    injection H as _ <-.
    apply (IH w1 w2 rs1); [|exact E0]. exact (txrx_queue_ok w w1 r Hq E).
Qed.

Lemma has_nul_split (l : list Z) :
  has_nul l = true ->
  l = cstr l ++ 0 :: skipn (S (List.length (cstr l))) l.
Proof.
  induction l as [|c l IH]; [discriminate|].
  cbn [has_nul existsb cstr].
  destruct (Z.eqb_spec c 0) as [->|Hc]; [reflexivity|].
  cbn [orb]. intros H. cbn [List.length skipn app].
  f_equal. now apply IH.
Qed.

Lemma head_slot_of_queue (fc : FastComms) (s : list Z) (qs : list (res (list Z))) :
  queue_ok fc -> queued fc = Ok s :: qs -> Forall is_char s ->
  0 < _o fc /\ exists k, head_slot fc k s.
Proof.
  intros Hq Hqd Hs.
  pose proof (wf_o _ (qk_wf _ Hq)) as Ho.
  assert (Hpos : 0 < _o fc).
  { destruct (Z.eq_dec (_o fc) 0) as [E|]; [|lia].
    unfold queued in Hqd. rewrite E in Hqd. discriminate. }
  split; [exact Hpos|].
  destruct (head_of_queue fc Hq Hpos) as (Eh & Ec & Hlen & Hnul).
  set (k := ring_slot (_obi fc) (_o fc) 0) in *.
  exists k.
  assert (Es : s = cstr (slot_cells fc k)).
  { unfold queued in Hqd.
    apply load_inv in Eh. destruct Eh as [_ N0]. cbn in N0.
    destruct (_out fc) as [|p out]; [discriminate|]. injection N0 as ->.
    replace (Z.to_nat (_o fc)) with (S (Z.to_nat (_o fc - 1))) in Hqd by lia.
    cbn [firstn map] in Hqd. rewrite Ec in Hqd. cbn [bind] in Hqd.
    rewrite c_string_has_nul in Hqd by exact Hnul. congruence. }
  subst s.
  unfold head_slot. split; [exact Eh|]. split; [|exact Hs].
  exists (skipn (S (List.length (cstr (slot_cells fc k)))) (slot_cells fc k)).
  cbn [deref] in Ec.
  rewrite <- has_nul_split by exact Hnul. split; assumption.
Qed.

Lemma firstn_shifted (o : Z) (out out' : list ptr) :
  0 < o <= zlen out -> shifted o out out' ->
  firstn (Z.to_nat (o - 1)) out' = tl (firstn (Z.to_nat o) out).
Proof.
  intros Ho [Hlen Hsh].
  apply nth_error_ext. intros n.
  rewrite nth_error_firstn.
  destruct out as [|p out]; [change (zlen (@nil ptr)) with 0 in Ho; lia|].
  replace (Z.to_nat o) with (S (Z.to_nat (o - 1))) by lia.
  cbn [firstn tl]. rewrite nth_error_firstn.
  destruct (Nat.ltb_spec n (Z.to_nat (o - 1))); [|reflexivity].
  specialize (Hsh (Z.of_nat n)). rewrite Nat2Z.id in Hsh.
  rewrite Hsh by lia.
  replace (Z.to_nat (Z.of_nat n + 1)) with (S n) by lia. reflexivity.
Qed.

Lemma queued_dequeued (fc : FastComms) (out' : list ptr) :
  0 < _o fc <= zlen (_out fc) -> shifted (_o fc) (_out fc) out' ->
  queued (set_txb 0 (set_txlen 0 (set_o (_o fc - 1) (set_out out' fc))))
  = tl (queued fc).
Proof.
  intros Ho Hsh. unfold queued.
  cbn [_ob _o _out set_txb set_txlen set_o set_out].
  rewrite (firstn_shifted _ _ _ Ho Hsh).
  now destruct (firstn (Z.to_nat (_o fc)) (_out fc)).
Qed.

Lemma written_map_EvWrite (l : list event) (bs : list Z) :
  written (l ++ map EvWrite bs) = written l ++ bs.
Proof. now rewrite written_app, written_writes. Qed.

(** The head entry is written, frame byte by frame byte, and then taken
    off the queue. *)
Lemma send_head_and_dequeue (w : World) (s : list Z) (qs : list (res (list Z))) :
  let cs := _useChecksum (this w) in
  tx_quiet w -> queue_ok (this w) ->
  _txb (this w) = 0 -> _txlen (this w) = 0 -> _o (this w) < TX_QUEUE_SIZE ->
  queued (this w) = Ok s :: qs -> Forall is_char s ->
  total_of cs s <= tx_free (serial w) ->
  exists w2,
    ticks (List.length (frame cs s) + 1) w
    = Ok (repeat false (List.length (frame cs s) + 1), w2)
    /\ tx_quiet w2 /\ queue_ok (this w2)
    /\ _txb (this w2) = 0 /\ _txlen (this w2) = 0
    /\ _o (this w2) = _o (this w) - 1
    /\ queued (this w2) = qs
    /\ _useChecksum (this w2) = cs
    /\ tx_free (serial w2) = tx_free (serial w) - total_of cs s
    /\ written (log w2) = written (log w) ++ frame cs s.
Proof.
  intros cs Hquiet Hq Hb Hl Hroom Hqd Hs Hfree.
  destruct (head_slot_of_queue _ s qs Hq Hqd Hs) as (Hpos & k & Hh).
  pose proof (ticks_send_frame w k s Hquiet Hpos Hh Hb Hl Hfree) as E1.
  cbv zeta in E1. fold cs in E1.
  pose proof (head_slot_len _ _ _ Hh) as Hslen.
  pose proof (total_of_range cs s Hslen) as Htot.
  set (total := total_of cs s) in *.
  set (fc1 := set_txb total (set_txlen total (this w))) in *.
  assert (P1 : tx_side fc1 = (_out (this w), _ob (this w), _obi (this w),
                              _o (this w), total, total)) by reflexivity.
  assert (P2 : rx_side fc1 = rx_side (this w)) by reflexivity.
  assert (P3 : queued fc1 = queued (this w)) by reflexivity.
  clearbody fc1.
  assert (P1' := P1). unfold tx_side in P1'.
  injection P1' as Eout Eob Eobi Eo Etxb Etxlen.
  apply rx_side_eq in P2.
  destruct P2 as (Ecs & Eport & Emsg & Ein & Ei & Erx & Eh).
  destruct Hquiet as (Hport & Hi & Hrx & Hpend).
  set (w1 := mkWorld fc1 (mkSerial [] (tx_free (serial w) - total))
               (log w ++ map EvWrite (frame cs s))) in *.
  assert (Hq1 : queue_ok (this w1))
    by exact (ticks_queue_ok _ _ _ _ Hq E1).
  pose proof (wf_out _ (qk_wf _ Hq)) as Hout.
  destruct (tx_section_dequeue w1) as (out' & E2 & Hsh).
  { cbn [this w1]. rewrite Eo. lia. }
  { cbn [this w1]. now rewrite Eout. }
  { cbn [this w1]. rewrite Etxlen. lia. }
  { cbn [this w1]. rewrite Etxlen, Etxb. lia. }
  cbn [this serial log w1] in E2, Hsh.
  set (fc2 := set_txb 0 (set_txlen 0 (set_o (_o fc1 - 1) (set_out out' fc1))))
    in *.
  assert (R1 : rx_side fc2 = rx_side fc1) by reflexivity.
  assert (R2 : _txb fc2 = 0 /\ _txlen fc2 = 0 /\ _o fc2 = _o fc1 - 1)
    by (repeat split).
  assert (R3 : queued fc2 = tl (queued fc1)).
  { apply queued_dequeued; [|exact Hsh]. rewrite Eo, Eout, Hout. lia. }
  clearbody fc2.
  apply rx_side_eq in R1.
  destruct R1 as (Ecs2 & Eport2 & Emsg2 & Ein2 & Ei2 & Erx2 & Eh2).
  destruct R2 as (Rb & Rl & Ro).
  set (w2 := mkWorld fc2 (mkSerial [] (tx_free (serial w) - total))
               (log w ++ map EvWrite (frame cs s))) in *.
  assert (E3 : txrx w1 = Ok (false, w2)).
  { rewrite txrx_unfold by (cbn [this w1]; congruence).
    rewrite rx_section_quiet;
      [|cbn [this w1]; rewrite Ei; lia | reflexivity].
    cbn [bind]. rewrite E2. cbn [bind].
    assert (Hrx2 : _rx (this w2) = false) by (cbn [this w2]; congruence).
    rewrite Hrx2. reflexivity. }
  exists w2. split.
  { rewrite ticks_app, E1. cbn [bind ticks]. rewrite E3. cbn [bind].
    rewrite (repeat_app false (List.length (frame cs s)) 1). reflexivity. }
  split.
  { unfold tx_quiet. cbn [this serial w2 rx_pending].
    repeat split; try congruence; rewrite Ei2, Ei; lia. }
  split; [exact (txrx_queue_ok _ _ _ Hq1 E3)|].
  cbn [this serial log w2 tx_free].
  split; [exact Rb|]. split; [exact Rl|]. split; [congruence|].
  split; [rewrite R3, P3, Hqd; reflexivity|].
  split; [unfold cs; congruence|]. split; [reflexivity|].
  apply written_map_EvWrite.
Qed.

Lemma queued_nil_empty (fc : FastComms) :
  wf_queue fc -> queued fc = [] -> _o fc = 0.
Proof.
  intros Hwf H. pose proof (wf_o _ Hwf) as Ho. pose proof (wf_out _ Hwf) as Hout.
  apply (f_equal (@List.length _)) in H. unfold queued in H.
  rewrite length_map, length_firstn in H. cbn [List.length] in H.
  unfold zlen, TX_QUEUE_SIZE in *. lia.
Qed.

Lemma drain (ss : list (list Z)) : forall (w : World),
  let cs := _useChecksum (this w) in
  tx_quiet w -> queue_ok (this w) ->
  _txb (this w) = 0 -> _txlen (this w) = 0 -> _o (this w) < TX_QUEUE_SIZE ->
  queued (this w) = map Ok ss -> Forall (Forall is_char) ss ->
  zlen (wire cs ss) <= tx_free (serial w) ->
  exists w',
    ticks (drain_ticks cs ss) w = Ok (repeat false (drain_ticks cs ss), w')
    /\ written (log w') = written (log w) ++ wire cs ss
    /\ _o (this w') = 0
    /\ _txb (this w') = 0 /\ _txlen (this w') = 0.
Proof.
  induction ss as [|s ss IH]; intros w cs Hquiet Hq Hb Hl Hroom Hqd Hss Hfree.
  - exists w. cbn [drain_ticks fold_right ticks repeat wire flat_map].
    rewrite app_nil_r. repeat split; try assumption.
    apply queued_nil_empty; [exact (qk_wf _ Hq) | exact Hqd].
  - cbn [map] in Hqd. inversion Hss as [|s0 ss0 Hs Hss']; subst s0 ss0.
    assert (Hw : zlen (wire cs (s :: ss)) = total_of cs s + zlen (wire cs ss)).
    { unfold wire. cbn [flat_map]. now rewrite zlen_app, zlen_frame. }
    pose proof (zlen_nonneg (wire cs ss)) as Hw0.
    destruct (send_head_and_dequeue w s (map Ok ss) Hquiet Hq Hb Hl Hroom Hqd Hs)
      as (w2 & E1 & Hquiet2 & Hq2 & Hb2 & Hl2 & Ho2 & Hqd2 & Hcs2 & Hfree2 & Hwr2).
    { fold cs. lia. }
    fold cs in E1, Hcs2, Hfree2, Hwr2.
    destruct (IH w2) as (w' & E2 & Hwr & Ho' & Hb' & Hl'); try assumption.
    { lia. }
    { rewrite Hcs2, Hfree2. lia. }
    rewrite Hcs2 in E2, Hwr.
    exists w'. split.
    + change (drain_ticks cs (s :: ss))
        with ((List.length (frame cs s) + 1) + drain_ticks cs ss)%nat.
      rewrite ticks_app, E1. cbn [bind]. rewrite E2. cbn [bind].
      now rewrite (repeat_app false (List.length (frame cs s) + 1)
                     (drain_ticks cs ss)).
    + split; [|repeat split; assumption].
      rewrite Hwr, Hwr2. unfold wire. cbn [flat_map].
      now rewrite app_assoc.
Qed.

(** X4.  From a reachable state with the cursor at rest, fewer
    than [TX_QUEUE_SIZE] entries queued, nothing arriving and room in the
    port for all of it, the queue empties in the order in which it was
    filled: the bytes written are the frames of the queued strings, head
    first, and nothing else; every entry takes one call per frame byte
    and one more call that removes it; every call returns false, and in
    the end the queue is empty with the cursor at rest. *)
Theorem queue_drains_in_order (w : World) (ss : list (list Z)) :
  let cs := _useChecksum (this w) in
  reachable w -> tx_quiet w ->
  _txb (this w) = 0 -> _txlen (this w) = 0 -> _o (this w) < TX_QUEUE_SIZE ->
  queued (this w) = map Ok ss -> Forall (Forall is_char) ss ->
  zlen (wire cs ss) <= tx_free (serial w) ->
  exists w',
    ticks (drain_ticks cs ss) w = Ok (repeat false (drain_ticks cs ss), w')
    /\ written (log w') = written (log w) ++ wire cs ss
    /\ _o (this w') = 0
    /\ _txb (this w') = 0 /\ _txlen (this w') = 0.
Proof.
  intros cs Hr. apply reachable_state_ok in Hr. destruct Hr as (_ & _ & Hq).
  intros Hquiet. now apply drain.
Qed.

Lemma queue_drains_in_order_witness :
  let w := mkWorld (enqueued [33]
                      (enqueued [104; 105] (init true true FastComms_static)))
             (mkSerial [] 16) [] in
  let ss := [[104; 105]; [33]] in
  exists w',
    ticks (drain_ticks true ss) w = Ok (repeat false (drain_ticks true ss), w')
    /\ written (log w') = written (log w) ++ wire true ss
    /\ _o (this w') = 0
    /\ _txb (this w') = 0 /\ _txlen (this w') = 0.
Proof.
  intros w ss.
  apply (queue_drains_in_order w ss).
  - apply (reach_sendMsg
             (mkWorld (enqueued [104; 105] (init true true FastComms_static))
                (mkSerial [] 16) [])
             [33] 1 w); [|vm_compute; reflexivity].
    apply (reach_sendMsg
             (mkWorld (init true true FastComms_static) (mkSerial [] 16) [])
             [104; 105] 1); [|vm_compute; reflexivity].
    apply (reach_init (mkWorld FastComms_static (mkSerial [] 16) []) true true).
    apply reach_new; try reflexivity. repeat constructor.
  - repeat split. cbv. discriminate.
  - reflexivity.
  - reflexivity.
  - reflexivity.
  - vm_compute. reflexivity.
  - repeat constructor.
  - vm_compute. discriminate.
Defined.

(** ** Receiving while the transmit half works *)

Lemma rx_side_set_rx (a b : FastComms) (v : bool) :
  rx_side a = rx_side b -> rx_side (set_rx v a) = rx_side (set_rx v b).
Proof.
  intros H. apply rx_side_eq in H.
  destruct H as (E1 & E2 & E3 & E4 & E5 & _ & E7).
  unfold rx_side. cbn [_useChecksum _port _msg _in _i _rx _msgHandler set_rx].
  congruence.
Qed.

Lemma rx_side_set_rx_same (a : FastComms) :
  rx_side (set_rx (_rx a) a) = rx_side a.
Proof. reflexivity. Qed.

Lemma rx_side_set_in_i (a b : FastComms) (u : list Z) (v : Z) :
  rx_side a = rx_side b ->
  rx_side (set_i v (set_in u a)) = rx_side (set_i v (set_in u b)).
Proof.
  intros H. apply rx_side_eq in H.
  destruct H as (E1 & E2 & E3 & _ & _ & E6 & E7).
  unfold rx_side.
  cbn [_useChecksum _port _msg _in _i _rx _msgHandler set_i set_in].
  congruence.
Qed.

Lemma reads_app (l1 l2 : list event) : reads (l1 ++ l2) = reads l1 ++ reads l2.
Proof. unfold reads. apply flat_map_app. Qed.

Lemma tx_section_reads (w w' : World) :
  tx_section w = Ok w' ->
  reads (log w') = reads (log w)
  /\ rx_pending (serial w') = rx_pending (serial w).
Proof.
  intros H. apply tx_section_log in H. destruct H as [Hp [->|[b ->]]].
  - now split.
  - rewrite reads_app. cbn. now rewrite app_nil_r.
Qed.

(** A call whose receive half did not fault, on a queue that is in order
    and not full: the transmit half does not fault either, and it leaves
    the receive side and the inbound traffic alone. *)
Lemma txrx_duplex (w w1 : World) :
  _port (this w) = true -> rx_section w = Ok w1 ->
  queue_ok (this w1) -> _o (this w1) < TX_QUEUE_SIZE ->
  exists w2,
    txrx w = Ok (_rx (this w1), w2)
    /\ rx_side (this w2) = rx_side (set_rx false (this w1))
    /\ rx_pending (serial w2) = rx_pending (serial w1)
    /\ queue_ok (this w2) /\ _o (this w2) <= _o (this w1)
    /\ handled (log w2) = handled (log w1)
    /\ diagnostics (log w2) = diagnostics (log w1)
    /\ reads (log w2) = reads (log w1).
Proof.
  intros Hport Hrx Hq Ho.
  rewrite txrx_unfold by exact Hport. rewrite Hrx. cbn [bind].
  destruct (tx_section_queue_ok w1 Hq) as [(w2 & E2 & Hq2 & Ho2)|(_ & Hfull)];
    [|lia].
  rewrite E2. cbn [bind].
  pose proof (tx_section_rx_side _ _ E2) as Hside.
  pose proof (tx_section_handled _ _ E2) as [Hh Hd].
  pose proof (tx_section_reads _ _ E2) as [Hr Hp].
  pose proof (rx_side_eq _ _ Hside) as (_ & _ & _ & _ & _ & Erx & _).
  rewrite Erx. destruct (_rx (this w1)) eqn:Hflag.
  - eexists. split; [reflexivity|]. cbn [this with_this serial log].
    split; [now apply rx_side_set_rx|]. split; [exact Hp|].
    split; [revert Hq2; apply queue_ok_tx_side; reflexivity|].
    repeat split; assumption.
  - exists w2. split; [reflexivity|].
    split.
    { rewrite Hside. pose proof (rx_side_set_rx_same (this w1)) as S.
      rewrite Hflag in S. now rewrite S. }
    split; [exact Hp|]. split; [exact Hq2|]. split; [exact Ho2|].
    split; [exact Hh|]. split; [exact Hd | exact Hr].
Qed.

(** One byte that completes no terminator. *)
Lemma txrx_store_duplex (w : World) (pre : list Z) (y : Z) (rest : list Z) (b : Z) :
  listening w ->
  _in (this w) = pre ++ y :: rest -> _i (this w) = zlen pre ->
  zlen pre < BUFFER_SIZE -> is_byte b -> boundary pre b = false ->
  exists w',
    txrx (arrive b w) = Ok (false, w')
    /\ listening w'
    /\ rx_side (this w')
       = rx_side (set_i (zlen pre + 1) (set_in (pre ++ b :: rest) (this w)))
    /\ _o (this w') <= _o (this w)
    /\ handled (log w') = handled (log w)
    /\ diagnostics (log w') = diagnostics (log w)
    /\ reads (log w') = reads (log w) ++ [b].
Proof.
  intros (Hport & Hrx & Hp & Hq & Ho) Hin Hi Hlt Hb Hnb.
  pose proof (rx_section_store w pre y rest b Hin Hi Hlt Hp Hb Hnb) as E1.
  set (fc1 := set_i (zlen pre + 1) (set_in (pre ++ b :: rest) (this w))) in *.
  assert (T1 : tx_side (this w) = tx_side fc1) by reflexivity.
  assert (R1 : _rx fc1 = _rx (this w) /\ _port fc1 = _port (this w))
    by (split; reflexivity).
  clearbody fc1. destruct R1 as [R1 R2].
  set (w1 := mkWorld fc1 (serial w) (log w ++ [EvRead b])) in *.
  destruct (txrx_duplex (arrive b w) w1) as
    (w2 & E2 & Hside & Hp2 & Hq2 & Ho2 & Hh2 & Hd2 & Hr2).
  - exact Hport.
  - exact E1.
  - cbn [this w1]. revert Hq. now apply queue_ok_tx_side.
  - cbn [this w1]. apply tx_side_eq in T1.
    destruct T1 as (_ & _ & _ & <- & _). exact Ho.
  - cbn [this serial log w1] in *.
    assert (Hside' : rx_side (this w2) = rx_side fc1).
    { rewrite Hside. pose proof (rx_side_set_rx_same fc1) as S.
      rewrite R1, Hrx in S. exact S. }
    pose proof (rx_side_eq _ _ Hside') as (_ & Ep & _ & _ & _ & Er & _).
    exists w2. split; [rewrite E2; now rewrite R1, Hrx|].
    split.
    { unfold listening. split; [congruence|]. split; [congruence|].
      split; [congruence|]. split; [exact Hq2|].
      apply tx_side_eq in T1. destruct T1 as (_ & _ & _ & E & _). lia. }
    split; [exact Hside'|].
    apply tx_side_eq in T1. destruct T1 as (_ & _ & _ & E & _).
    split; [lia|].
    rewrite Hh2, Hd2, Hr2, handled_app, diagnostics_app, reads_app. cbn.
    now rewrite !app_nil_r.
Qed.

(** Bytes that complete no terminator pile up in the buffer, whatever
    the transmit half is doing. *)
Lemma feed_store_duplex (bs : list Z) : forall (pre rest : list Z) (w : World),
  listening w ->
  _in (this w) = pre ++ rest -> _i (this w) = zlen pre ->
  zlen bs <= zlen rest -> zlen pre + zlen bs <= BUFFER_SIZE ->
  Forall is_byte bs -> has_term_pair (pre ++ bs) = false ->
  exists w',
    feed bs w = Ok (repeat false (List.length bs), w')
    /\ listening w'
    /\ rx_side (this w')
       = rx_side (set_i (zlen pre + zlen bs)
                    (set_in (pre ++ bs ++ skipn (List.length bs) rest) (this w)))
    /\ _o (this w') <= _o (this w)
    /\ handled (log w') = handled (log w)
    /\ diagnostics (log w') = diagnostics (log w)
    /\ reads (log w') = reads (log w) ++ bs.
Proof.
  induction bs as [|b bs IH]; intros pre rest w Hl Hin Hi Hr Hc Hb Hnp.
  - exists w. cbn [feed List.length repeat skipn app].
    rewrite !app_nil_r, Z.add_0_r, <- Hin, <- Hi.
    split; [reflexivity|]. split; [exact Hl|].
    split; [reflexivity|]. repeat split; lia.
  - rewrite zlen_cons in Hr, Hc.
    pose proof (zlen_nonneg bs) as Hbs. pose proof (zlen_nonneg pre) as Hpre.
    destruct rest as [|y rest]; [cbn in Hr; lia|].
    rewrite zlen_cons in Hr. inversion Hb as [|? ? Hb1 Hb2]; subst.
    destruct (txrx_store_duplex w pre y rest b)
      as (w1 & E1 & Hl1 & Hside1 & Ho1 & Hh1 & Hd1 & Hr1);
      try assumption; try lia; [now apply has_term_pair_boundary with bs|].
    pose proof (rx_side_eq _ _ Hside1) as (_ & _ & _ & Ein1 & Ei1 & _).
    cbn [_in _i set_i set_in] in Ein1, Ei1.
    destruct (IH (pre ++ [b]) rest w1) as
      (w' & E2 & Hl2 & Hside2 & Ho2 & Hh2 & Hd2 & Hr2); try assumption.
    + rewrite Ein1. now rewrite <- app_assoc.
    + rewrite Ei1, zlen_app, zlen_cons. reflexivity.
    + lia.
    + rewrite zlen_app, zlen_cons. change (zlen (@nil Z)) with 0. lia.
    + now rewrite <- app_assoc.
    + exists w'. cbn [feed]. rewrite E1. cbn [bind]. rewrite E2. cbn [bind].
      split; [reflexivity|]. split; [exact Hl2|].
      split.
      { rewrite Hside2.
        rewrite (rx_side_set_in_i _ _ _ _ Hside1).
        rewrite zlen_app, !zlen_cons. change (zlen (@nil Z)) with 0.
        cbn [List.length skipn]. rewrite <- !app_assoc. cbn [app].
        replace (zlen pre + (0 + 1) + zlen bs) with (zlen pre + (zlen bs + 1))
          by lia.
        reflexivity. }
      split; [lia|].
      rewrite Hh2, Hd2, Hr2, Hh1, Hd1, Hr1, <- app_assoc.
      repeat split.
Qed.

Lemma handled_handler_events (h : option handler) (m : list Z) :
  handled (handler_events h m) = handler_calls h [m].
Proof. now destruct h. Qed.

Lemma reads_handler_events (h : option handler) (m : list Z) :
  reads (handler_events h m) = [].
Proof. now destruct h. Qed.

(** The body of a frame and the first terminator byte. *)
Lemma feed_body_duplex (w : World) (body : list Z) :
  between_frames w ->
  zlen body + 2 <= BUFFER_SIZE ->
  Forall is_byte body -> has_term_pair body = false ->
  exists w1 y rest,
    feed (body ++ [MSG_END_A]) w
    = Ok (repeat false (List.length body + 1), w1)
    /\ listening w1
    /\ rx_side (this w1)
       = rx_side (set_i (zlen body + 1)
                    (set_in ((body ++ [MSG_END_A]) ++ y :: rest) (this w)))
    /\ _o (this w1) <= _o (this w)
    /\ handled (log w1) = handled (log w)
    /\ diagnostics (log w1) = diagnostics (log w)
    /\ reads (log w1) = reads (log w) ++ body ++ [MSG_END_A].
Proof.
  intros (Hl & Hin & Hmsg & Hi) Hlen Hb Hnp.
  pose proof (zlen_nonneg body) as Hb0.
  assert (Hl1 : zlen (body ++ [MSG_END_A]) = zlen body + 1).
  { rewrite zlen_app, zlen_cons. change (zlen (@nil Z)) with 0. lia. }
  destruct (skipn_cons_ex (_in (this w)) (zlen body + 1)) as (y & rest & Hsk);
    [unfold BUFFER_SIZE in *; lia|].
  destruct (feed_store_duplex (body ++ [MSG_END_A]) [] (_in (this w)) w)
    as (w1 & E1 & Hl1' & Hside & Ho1 & Hh1 & Hd1 & Hr1); try assumption.
  - reflexivity.
  - rewrite Hl1. unfold BUFFER_SIZE in *. lia.
  - cbn [zlen List.length Z.of_nat Z.add]. fold (zlen (body ++ [MSG_END_A])).
    lia.
  - apply Forall_app. split; [assumption|].
    repeat constructor; unfold MSG_END_A; lia.
  - cbn [app]. now rewrite has_term_pair_snoc_A.
  - exists w1, y, rest.
    rewrite length_app in E1. cbn [List.length] in E1.
    split; [exact E1|]. split; [exact Hl1'|].
    split.
    { rewrite Hside. cbn [app zlen List.length Z.of_nat Z.add].
      fold (zlen (body ++ [MSG_END_A])). rewrite Hl1.
      rewrite length_app. cbn [List.length].
      replace (List.length body + 1)%nat with (Z.to_nat (zlen body + 1))
        by (unfold zlen; lia).
      rewrite Hsk. reflexivity. }
    repeat split; assumption.
Qed.

(** The last byte of a frame taken without checksum. *)
Lemma txrx_plain_duplex (w : World) (body : list Z) (y : Z) (rest : list Z) :
  listening w ->
  _in (this w) = (body ++ [MSG_END_A]) ++ y :: rest ->
  _i (this w) = zlen body + 1 -> zlen body + 1 < BUFFER_SIZE ->
  zlen (_msg (this w)) = BUFFER_SIZE ->
  _useChecksum (this w) = false \/ zlen body <= 1 ->
  exists w',
    txrx (arrive MSG_END_B w) = Ok (true, w')
    /\ listening w'
    /\ rx_side (this w')
       = rx_side (set_i 0 (set_msg (msg_with (cstr body) (_msg (this w)))
                    (set_in (body ++ 0 :: MSG_END_B :: rest) (this w))))
    /\ _o (this w') <= _o (this w)
    /\ handled (log w')
       = handled (log w) ++ handler_calls (_msgHandler (this w)) [cstr body]
    /\ diagnostics (log w') = diagnostics (log w)
    /\ reads (log w') = reads (log w) ++ [MSG_END_B].
Proof.
  intros (Hport & Hrx & Hp & Hq & Ho) Hin Hi Hlt Hmsg Hmode.
  pose proof (rx_section_plain w body y rest Hin Hi Hlt Hmsg Hp Hmode) as E1.
  cbv zeta in E1.
  set (fc1 := set_i 0 (set_msg _ (set_in _ (set_rx true (this w))))) in *.
  assert (T1 : tx_side (this w) = tx_side fc1) by reflexivity.
  assert (R1 : _rx fc1 = true) by reflexivity.
  assert (S1 : rx_side (set_rx false fc1)
               = rx_side (set_i 0 (set_msg (msg_with (cstr body) (_msg (this w)))
                            (set_in (body ++ 0 :: MSG_END_B :: rest)
                               (set_rx false (this w)))))) by reflexivity.
  clearbody fc1.
  set (w1 := mkWorld fc1 (serial w) _) in *.
  destruct (txrx_duplex (arrive MSG_END_B w) w1) as
    (w2 & E2 & Hside & Hp2 & Hq2 & Ho2 & Hh2 & Hd2 & Hr2).
  - exact Hport.
  - exact E1.
  - cbn [this w1]. revert Hq. now apply queue_ok_tx_side.
  - cbn [this w1]. apply tx_side_eq in T1.
    destruct T1 as (_ & _ & _ & <- & _). exact Ho.
  - cbn [this serial log w1] in *.
    apply tx_side_eq in T1. destruct T1 as (_ & _ & _ & Eo & _).
    assert (Hside' : rx_side (this w2)
               = rx_side (set_i 0 (set_msg (msg_with (cstr body) (_msg (this w)))
                            (set_in (body ++ 0 :: MSG_END_B :: rest) (this w))))).
    { rewrite Hside, S1. rewrite <- Hrx. reflexivity. }
    pose proof (rx_side_eq _ _ Hside') as (_ & Ep & _ & _ & _ & Er & _).
    cbn [_port _rx set_i set_msg set_in] in Ep, Er.
    exists w2. split; [rewrite E2; now rewrite R1|].
    split.
    { unfold listening. split; [congruence|]. split; [congruence|].
      split; [congruence|]. split; [exact Hq2 | lia]. }
    split; [exact Hside'|]. split; [lia|].
    rewrite Hh2, Hd2, Hr2.
    change (log w ++ EvRead MSG_END_B
              :: handler_events (_msgHandler (this w)) (cstr body))
      with (log w ++ [EvRead MSG_END_B]
              ++ handler_events (_msgHandler (this w)) (cstr body)).
    rewrite !handled_app, !diagnostics_app, !reads_app.
    rewrite handled_handler_events, handled_handler_events_diag,
      reads_handler_events.
    cbn. rewrite !app_nil_r. repeat split.
Qed.

(** The last byte of a frame taken with its checksum, checksum right. *)
Lemma txrx_checksum_ok_duplex (w : World) (P : list Z) (c y : Z) (rest : list Z) :
  listening w ->
  _in (this w) = (P ++ [c; MSG_END_A]) ++ y :: rest ->
  _i (this w) = zlen P + 2 -> zlen P + 2 < BUFFER_SIZE -> 0 < zlen P ->
  zlen (_msg (this w)) = BUFFER_SIZE -> _useChecksum (this w) = true ->
  zlen (cstr P) + 1 <= BUFFER_SIZE - 3 -> c = checkSum (cstr P) ->
  exists w',
    txrx (arrive MSG_END_B w) = Ok (true, w')
    /\ listening w'
    /\ rx_side (this w')
       = rx_side (set_i 0 (set_msg (msg_with (cstr P) (_msg (this w)))
                    (set_in (P ++ 0 :: MSG_END_A :: MSG_END_B :: rest)
                       (this w))))
    /\ _o (this w') <= _o (this w)
    /\ handled (log w')
       = handled (log w) ++ handler_calls (_msgHandler (this w)) [cstr P]
    /\ diagnostics (log w') = diagnostics (log w)
    /\ reads (log w') = reads (log w) ++ [MSG_END_B].
Proof.
  intros (Hport & Hrx & Hp & Hq & Ho) Hin Hi Hlt Hpos Hmsg Hcs Hfit Hsum.
  pose proof (rx_section_checksum_ok w P c y rest Hin Hi Hlt Hpos Hmsg Hp Hcs
                Hfit Hsum) as E1.
  cbv zeta in E1.
  set (fc1 := set_i 0 (set_msg _ (set_rx true (set_in _ (this w))))) in *.
  assert (T1 : tx_side (this w) = tx_side fc1) by reflexivity.
  assert (R1 : _rx fc1 = true) by reflexivity.
  assert (S1 : rx_side (set_rx false fc1)
               = rx_side (set_i 0 (set_msg (msg_with (cstr P) (_msg (this w)))
                            (set_in (P ++ 0 :: MSG_END_A :: MSG_END_B :: rest)
                               (set_rx false (this w)))))) by reflexivity.
  clearbody fc1.
  set (w1 := mkWorld fc1 (serial w) _) in *.
  destruct (txrx_duplex (arrive MSG_END_B w) w1) as
    (w2 & E2 & Hside & Hp2 & Hq2 & Ho2 & Hh2 & Hd2 & Hr2).
  - exact Hport.
  - exact E1.
  - cbn [this w1]. revert Hq. now apply queue_ok_tx_side.
  - cbn [this w1]. apply tx_side_eq in T1.
    destruct T1 as (_ & _ & _ & <- & _). exact Ho.
  - cbn [this serial log w1] in *.
    apply tx_side_eq in T1. destruct T1 as (_ & _ & _ & Eo & _).
    assert (Hside' : rx_side (this w2)
               = rx_side (set_i 0 (set_msg (msg_with (cstr P) (_msg (this w)))
                            (set_in (P ++ 0 :: MSG_END_A :: MSG_END_B :: rest)
                               (this w))))).
    { rewrite Hside, S1. rewrite <- Hrx. reflexivity. }
    pose proof (rx_side_eq _ _ Hside') as (_ & Ep & _ & _ & _ & Er & _).
    cbn [_port _rx set_i set_msg set_in] in Ep, Er.
    exists w2. split; [rewrite E2; now rewrite R1|].
    split.
    { unfold listening. split; [congruence|]. split; [congruence|].
      split; [congruence|]. split; [exact Hq2 | lia]. }
    split; [exact Hside'|]. split; [lia|].
    rewrite Hh2, Hd2, Hr2.
    change (log w ++ EvRead MSG_END_B
              :: handler_events (_msgHandler (this w)) (cstr P))
      with (log w ++ [EvRead MSG_END_B]
              ++ handler_events (_msgHandler (this w)) (cstr P)).
    rewrite !handled_app, !diagnostics_app, !reads_app.
    rewrite handled_handler_events, handled_handler_events_diag,
      reads_handler_events.
    cbn. rewrite !app_nil_r. repeat split.
Qed.

Lemma feed_state_ok (bs : list Z) : forall (w w' : World) (rs : list bool),
  state_ok (this w) -> feed bs w = Ok (rs, w') -> state_ok (this w').
Proof.
  induction bs as [|b bs IH]; intros w w' rs Hok H; cbn [feed] in H.
  - now injection H as _ <-.
  - inv_bind H. destruct x as [r w1]. inv_bind H. destruct x as [rs1 w2].
    injection H as _ <-.
    apply (IH w1 w2 rs1); [|exact E0].
    exact (txrx_state_ok (arrive b w) w1 r Hok E).
Qed.

Lemma between_frames_state_ok (w : World) :
  between_frames w -> state_ok (this w).
Proof.
  intros ((_ & _ & _ & Hq & _) & Hin & Hmsg & Hi).
  split; [|split; assumption].
  split; [exact Hin | rewrite Hi; unfold BUFFER_SIZE; lia].
Qed.

(** A frame taken without checksum, at an object that may be sending. *)
Lemma feed_plain_duplex (w : World) (body : list Z) :
  between_frames w ->
  _useChecksum (this w) = false \/ zlen body <= 1 ->
  zlen body + 2 <= BUFFER_SIZE ->
  Forall is_byte body -> has_term_pair body = false ->
  exists w',
    feed (body ++ [MSG_END_A; MSG_END_B]) w
    = Ok (repeat false (List.length body + 1) ++ [true], w')
    /\ between_frames w'
    /\ frame_taken w w' (cstr body) (body ++ [MSG_END_A; MSG_END_B]).
Proof.
  intros Hbf Hmode Hlen Hb Hnp.
  pose proof (between_frames_state_ok w Hbf) as Hok.
  destruct (feed_body_duplex w body Hbf Hlen Hb Hnp)
    as (w1 & y & rest & E1 & Hl1 & Hside1 & Ho1 & Hh1 & Hd1 & Hr1).
  destruct Hbf as (Hl & Hin & Hmsg & Hi).
  pose proof (rx_side_eq _ _ Hside1)
    as (Ecs1 & _ & Emsg1 & Ein1 & Ei1 & _ & Eh1).
  cbn [_useChecksum _msg _in _i _msgHandler set_i set_in] in *.
  destruct (txrx_plain_duplex w1 body y rest)
    as (w' & E2 & Hl2 & Hside2 & Ho2 & Hh2 & Hd2 & Hr2); try assumption.
  { unfold BUFFER_SIZE in *. lia. }
  { congruence. }
  { destruct Hmode as [Hm|Hm]; [left; congruence | now right]. }
  pose proof (rx_side_eq _ _ Hside2)
    as (Ecs2 & _ & Emsg2 & _ & Ei2 & _ & Eh2).
  cbn [_useChecksum _msg _in _i _msgHandler set_i set_in set_msg] in *.
  assert (Hfeed : feed (body ++ [MSG_END_A; MSG_END_B]) w
                  = Ok (repeat false (List.length body + 1) ++ [true], w')).
  { replace (body ++ [MSG_END_A; MSG_END_B])
      with ((body ++ [MSG_END_A]) ++ [MSG_END_B]) by (now rewrite <- app_assoc).
    rewrite feed_app, E1. cbn [bind feed]. rewrite E2. reflexivity. }
  exists w'. split; [exact Hfeed|].
  pose proof (feed_state_ok _ _ _ _ Hok Hfeed) as ((Hin' & _) & Hmsg' & _).
  split.
  { split; [exact Hl2|]. split; [exact Hin'|]. split; [exact Hmsg' | exact Ei2]. }
  unfold frame_taken, getMsg.
  split; [congruence|]. split; [congruence|].
  split; [rewrite Emsg2; apply cstr_msg_with, cstr_idem|].
  split; [lia|].
  split; [rewrite Hh2, Hh1, Eh1; reflexivity|].
  split; [congruence|].
  rewrite Hr2, Hr1, <- !app_assoc. reflexivity.
Qed.

(** A frame taken with its checksum, at an object that may be sending. *)
Lemma feed_checksum_duplex (w : World) (P : list Z) :
  between_frames w -> _useChecksum (this w) = true ->
  Forall is_char P -> 0 < zlen P <= BUFFER_SIZE - 4 ->
  has_term_pair (P ++ [checkSum P]) = false ->
  exists w',
    feed (P ++ [checkSum P; MSG_END_A; MSG_END_B]) w
    = Ok (repeat false (List.length P + 2) ++ [true], w')
    /\ between_frames w'
    /\ frame_taken w w' P (P ++ [checkSum P; MSG_END_A; MSG_END_B]).
Proof.
  intros Hbf Hcs HP Hlen Hnp.
  pose proof (between_frames_state_ok w Hbf) as Hok.
  pose proof (cstr_chars P HP) as HcP.
  set (c := checkSum P) in *.
  assert (Hbody : Forall is_byte (P ++ [c])).
  { apply Forall_app. split; [now apply is_char_byte|].
    repeat constructor; apply checkSum_range. }
  assert (Hbl : zlen (P ++ [c]) = zlen P + 1).
  { rewrite zlen_app, zlen_cons. change (zlen (@nil Z)) with 0. lia. }
  destruct (feed_body_duplex w (P ++ [c]))
    as (w1 & y & rest & E1 & Hl1 & Hside1 & Ho1 & Hh1 & Hd1 & Hr1);
    try assumption.
  { rewrite Hbl. unfold BUFFER_SIZE in *. lia. }
  destruct Hbf as (Hl & Hin & Hmsg & Hi).
  pose proof (rx_side_eq _ _ Hside1)
    as (Ecs1 & _ & Emsg1 & Ein1 & Ei1 & _ & Eh1).
  cbn [_useChecksum _msg _in _i _msgHandler set_i set_in] in *.
  rewrite Hbl in Ei1.
  destruct (txrx_checksum_ok_duplex w1 P c y rest)
    as (w' & E2 & Hl2 & Hside2 & Ho2 & Hh2 & Hd2 & Hr2); try assumption.
  { rewrite Ein1. now rewrite <- !app_assoc. }
  { lia. }
  { unfold BUFFER_SIZE in *. lia. }
  { lia. }
  { congruence. }
  { congruence. }
  { rewrite HcP. unfold BUFFER_SIZE in *. lia. }
  { now rewrite HcP. }
  pose proof (rx_side_eq _ _ Hside2)
    as (Ecs2 & _ & Emsg2 & _ & Ei2 & _ & Eh2).
  cbn [_useChecksum _msg _in _i _msgHandler set_i set_in set_msg] in *.
  assert (Hfeed : feed (P ++ [c; MSG_END_A; MSG_END_B]) w
                  = Ok (repeat false (List.length P + 2) ++ [true], w')).
  { replace (P ++ [c; MSG_END_A; MSG_END_B])
      with (((P ++ [c]) ++ [MSG_END_A]) ++ [MSG_END_B])
      by (now rewrite <- !app_assoc).
    rewrite feed_app, E1. cbn [bind feed]. rewrite E2. cbn [bind].
    rewrite length_app. cbn [List.length].
    replace (List.length P + 1 + 1)%nat with (List.length P + 2)%nat by lia.
    reflexivity. }
  exists w'. split; [exact Hfeed|].
  pose proof (feed_state_ok _ _ _ _ Hok Hfeed) as ((Hin' & _) & Hmsg' & _).
  split.
  { split; [exact Hl2|]. split; [exact Hin'|]. split; [exact Hmsg' | exact Ei2]. }
  unfold frame_taken, getMsg. rewrite HcP in *.
  split; [congruence|]. split; [congruence|].
  split; [rewrite Emsg2; now apply cstr_msg_with|].
  split; [lia|].
  split; [rewrite Hh2, Hh1, Eh1; reflexivity|].
  split; [congruence|].
  rewrite Hr2, Hr1, <- !app_assoc. reflexivity.
Qed.

(** A frame at an object that may be sending. *)
Lemma feed_frame_duplex (w : World) (P : list Z) :
  let cs := _useChecksum (this w) in
  between_frames w -> valid_payload cs P ->
  exists w',
    feed (frame cs P) w = Ok (frame_results cs P, w')
    /\ between_frames w'
    /\ frame_taken w w' P (frame cs P).
Proof.
  intros cs Hbf (HP & Hlen & Hnp).
  pose proof (cstr_chars P HP) as HcP.
  pose proof (zlen_nonneg P) as HP0.
  unfold frame_results, frame, max_payload in *.
  destruct cs eqn:Hcs; unfold cs in Hcs.
  - destruct P as [|p0 P'] eqn:EP.
    + destruct (feed_plain_duplex w [checkSum []] Hbf)
        as (w' & Hf & Hbf' & Ht).
      * right. cbv. congruence.
      * cbv. congruence.
      * repeat constructor; cbv; congruence.
      * reflexivity.
      * exists w'. cbn [app] in *. split; [exact Hf|].
        split; [exact Hbf' | exact Ht].
    + rewrite <- EP in *.
      assert (Hpos : 0 < zlen P)
        by (rewrite EP, zlen_cons; pose proof (zlen_nonneg P'); lia).
      destruct (feed_checksum_duplex w P Hbf Hcs HP) as (w' & Hf & Hbf' & Ht);
        [lia | exact Hnp|].
      exists w'. cbn [app].
      replace (List.length (P ++ [checkSum P; MSG_END_A; MSG_END_B]) - 1)%nat
        with (List.length P + 2)%nat by (rewrite length_app; cbn; lia).
      split; [exact Hf|]. split; [exact Hbf' | exact Ht].
  - rewrite app_nil_r in Hnp. cbn [app].
    destruct (feed_plain_duplex w P Hbf) as (w' & Hf & Hbf' & Ht).
    + now left.
    + unfold BUFFER_SIZE in *. lia.
    + now apply is_char_byte.
    + exact Hnp.
    + exists w'. rewrite HcP in *.
      replace (List.length (P ++ [MSG_END_A; MSG_END_B]) - 1)%nat
        with (List.length P + 1)%nat by (rewrite length_app; cbn; lia).
      split; [exact Hf|]. split; [exact Hbf' | exact Ht].
Qed.

(** ** Frames one after another *)

Lemma txrx_rx_down (w w' : World) (r : bool) :
  _rx (this w) = false -> txrx w = Ok (r, w') -> _rx (this w') = false.
Proof.
  intros Hrx. unfold txrx.
  destruct (negb (_port (this w))); [now intros [= _ <-]|].
  intros H. inv_bind H.
  destruct (_rx (this x0)) eqn:E1; injection H as _ <-; [reflexivity | exact E1].
Qed.

Lemma reachable_rx_down (w : World) : reachable w -> _rx (this w) = false.
Proof.
  induction 1 as [msg inb out ob p Hm Hi Ho Hob Hs
                 | w c p _ IH | w h _ IH | w msg r w' _ IH Hsend
                 | w r w' _ IH Htick | w p _ IH].
  - reflexivity.
  - destruct p; exact IH.
  - exact IH.
  - unfold app_sendMsg in Hsend. inv_bind Hsend. destruct x as [r0 fc].
    injection Hsend as _ <-. apply sendMsg_rx_side, rx_side_eq in E.
    destruct E as (_ & _ & _ & _ & _ & E & _). cbn [this]. congruence.
  - exact (txrx_rx_down w w' r IH Htick).
  - exact IH.
Qed.

Lemma reachable_between_frames (w : World) :
  reachable w -> _port (this w) = true -> rx_pending (serial w) = [] ->
  _i (this w) = 0 -> _o (this w) < TX_QUEUE_SIZE ->
  between_frames w.
Proof.
  intros Hr Hport Hp Hi Ho.
  pose proof (reachable_rx_down w Hr) as Hrx.
  apply reachable_state_ok in Hr. destruct Hr as ((Hin & _) & Hmsg & Hq).
  repeat (split; try assumption).
Qed.

Lemma handler_calls_cons (h : option handler) (P : list Z) (Ps : list (list Z)) :
  handler_calls h (P :: Ps) = handler_calls h [P] ++ handler_calls h Ps.
Proof. now destruct h. Qed.

Lemma last_cons_default {A} (Ps : list A) : forall (P d : A),
  last (P :: Ps) d = last Ps P.
Proof.
  induction Ps as [|Q Ps IH]; intros P d; [reflexivity|].
  change (last (P :: Q :: Ps) d) with (last (Q :: Ps) d).
  now rewrite !IH.
Qed.

Lemma feed_frames_duplex (Ps : list (list Z)) : forall (w : World),
  let cs := _useChecksum (this w) in
  between_frames w -> Forall (valid_payload cs) Ps ->
  exists w',
    feed (wire cs Ps) w = Ok (flat_map (frame_results cs) Ps, w')
    /\ between_frames w'
    /\ _useChecksum (this w') = cs
    /\ _msgHandler (this w') = _msgHandler (this w)
    /\ cstr (getMsg (this w')) = last Ps (cstr (getMsg (this w)))
    /\ _o (this w') <= _o (this w)
    /\ handled (log w')
       = handled (log w) ++ handler_calls (_msgHandler (this w)) Ps
    /\ diagnostics (log w') = diagnostics (log w)
    /\ reads (log w') = reads (log w) ++ wire cs Ps.
Proof.
  induction Ps as [|P Ps IH]; intros w cs Hbf HPs.
  - exists w. cbn [wire flat_map feed last].
    split; [reflexivity|]. split; [exact Hbf|].
    assert (Hnil : handler_calls (_msgHandler (this w)) [] = [])
      by (now destruct (_msgHandler (this w))).
    rewrite Hnil, !app_nil_r. repeat split. lia.
  - inversion HPs as [|P0 Ps0 HP HPs']; subst P0 Ps0.
    destruct (feed_frame_duplex w P Hbf HP) as (w1 & E1 & Hbf1 & Ht1).
    fold cs in E1, Ht1.
    destruct Ht1 as (Ecs1 & Eh1 & Em1 & Ho1 & Hh1 & Hd1 & Hr1).
    fold cs in Ecs1.
    destruct (IH w1 Hbf1) as
      (w' & E2 & Hbf2 & Ecs2 & Eh2 & Em2 & Ho2 & Hh2 & Hd2 & Hr2).
    { now rewrite Ecs1. }
    rewrite Ecs1 in E2, Ecs2, Hr2.
    exists w'. unfold wire in *. cbn [flat_map].
    rewrite feed_app, E1. cbn [bind]. rewrite E2. cbn [bind].
    split; [reflexivity|]. split; [exact Hbf2|].
    split; [exact Ecs2|]. split; [congruence|].
    split.
    { rewrite Em2, Em1. symmetry. apply last_cons_default. }
    split; [lia|].
    split.
    { rewrite Hh2, Hh1, Eh1.
      rewrite (handler_calls_cons (_msgHandler (this w)) P Ps).
      now rewrite app_assoc. }
    split; [congruence|].
    rewrite Hr2, Hr1, app_assoc. reflexivity.
Qed.

(** X11.  Frames that arrive back to back at a reachable object
    with a port, an empty input buffer and a queue that is not full are
    delivered one by one, in order, whatever the transmit half is doing
    meanwhile: [txrx] returns true exactly on the last byte of each
    frame, the handler is called once per frame, on its payload, no
    diagnostic is enqueued, and in the end [getMsg] holds the last
    payload and the input buffer is empty again. *)
Theorem frames_are_delivered_in_order (w : World) (Ps : list (list Z)) :
  let cs := _useChecksum (this w) in
  reachable w -> _port (this w) = true -> rx_pending (serial w) = [] ->
  _i (this w) = 0 -> _o (this w) < TX_QUEUE_SIZE ->
  Forall (valid_payload cs) Ps ->
  exists w',
    feed (wire cs Ps) w = Ok (flat_map (frame_results cs) Ps, w')
    /\ handled (log w')
       = handled (log w) ++ handler_calls (_msgHandler (this w)) Ps
    /\ diagnostics (log w') = diagnostics (log w)
    /\ reads (log w') = reads (log w) ++ wire cs Ps
    /\ cstr (getMsg (this w')) = last Ps (cstr (getMsg (this w)))
    /\ _i (this w') = 0 /\ rx_pending (serial w') = [].
Proof.
  intros cs Hr Hport Hp Hi Ho HPs.
  pose proof (reachable_between_frames w Hr Hport Hp Hi Ho) as Hbf.
  destruct (feed_frames_duplex Ps w Hbf HPs) as
    (w' & E & Hbf' & _ & _ & Em & _ & Hh & Hd & Hrd).
  exists w'. split; [exact E|]. split; [exact Hh|]. split; [exact Hd|].
  split; [exact Hrd|]. split; [exact Em|].
  destruct Hbf' as ((_ & _ & Hp' & _) & _ & _ & Hi'). split; assumption.
Qed.

Lemma frames_are_delivered_in_order_witness :
  let w := mkWorld (setMsgHandler (Some 7%nat)
                      (enqueued [33] (init true true FastComms_static)))
             (mkSerial [] 2) [] in
  let Ps := [[104; 105]; [111; 107]] in
  exists w',
    feed (wire true Ps) w = Ok (flat_map (frame_results true) Ps, w')
    /\ handled (log w')
       = handled (log w) ++ handler_calls (_msgHandler (this w)) Ps
    /\ diagnostics (log w') = diagnostics (log w)
    /\ reads (log w') = reads (log w) ++ wire true Ps
    /\ cstr (getMsg (this w')) = last Ps (cstr (getMsg (this w)))
    /\ _i (this w') = 0 /\ rx_pending (serial w') = [].
Proof.
  intros w Ps.
  apply (frames_are_delivered_in_order w Ps).
  - apply (reach_setMsgHandler
             (mkWorld (enqueued [33] (init true true FastComms_static))
                (mkSerial [] 2) []) (Some 7%nat)).
    apply (reach_sendMsg
             (mkWorld (init true true FastComms_static) (mkSerial [] 2) [])
             [33] 1); [|vm_compute; reflexivity].
    apply (reach_init (mkWorld FastComms_static (mkSerial [] 2) []) true true).
    apply reach_new; try reflexivity. repeat constructor.
  - reflexivity.
  - reflexivity.
  - reflexivity.
  - reflexivity.
  - repeat constructor; vm_compute; congruence.
Defined.

(** The call that finds the input buffer full, on a queue with room:
    the index is reset, the notice is enqueued and no byte is read. *)
Lemma txrx_overflow_general (w : World) :
  _port (this w) = true -> _rx (this w) = false -> queue_ok (this w) ->
  _i (this w) = BUFFER_SIZE -> _o (this w) + 1 < TX_QUEUE_SIZE ->
  exists w',
    txrx w = Ok (false, w')
    /\ rx_side (this w') = rx_side (set_i 0 (this w))
    /\ rx_pending (serial w') = rx_pending (serial w)
    /\ queue_ok (this w') /\ _o (this w') <= _o (this w) + 1
    /\ handled (log w') = handled (log w)
    /\ diagnostics (log w') = diagnostics (log w) ++ [(RX_BUFFER_OVERFLOW, 1)]
    /\ reads (log w') = reads (log w).
Proof.
  intros Hport Hrx Hq Hi Ho.
  assert (Hq0 : queue_ok (this (with_this (set_i 0) w)))
    by (cbn [this with_this]; revert Hq; now apply queue_ok_tx_side).
  pose proof (rx_section_overflow w Hi) as E1.
  rewrite send_diag_ok in E1;
    [|exact (qk_wf _ Hq0) | cbn [this with_this _o set_i]; lia
     |vm_compute; reflexivity].
  change (cstr RX_BUFFER_OVERFLOW) with RX_BUFFER_OVERFLOW in E1.
  cbn [this serial log with_this] in E1.
  set (fc1 := enqueued RX_BUFFER_OVERFLOW (set_i 0 (this w))) in *.
  assert (Hq1 : queue_ok fc1).
  { apply queue_ok_enqueued; [exact Hq0 | cbn [_o set_i]; lia
                             | vm_compute; reflexivity]. }
  assert (O1 : _o fc1 = _o (this w) + 1) by reflexivity.
  assert (S1 : rx_side fc1 = rx_side (set_i 0 (this w))) by reflexivity.
  clearbody fc1.
  set (w1 := mkWorld fc1 (serial w) _) in *.
  destruct (txrx_duplex w w1 Hport E1) as
    (w2 & E2 & Hside & Hp2 & Hq2 & Ho2 & Hh2 & Hd2 & Hr2).
  - exact Hq1.
  - cbn [this w1]. lia.
  - cbn [this serial log w1] in *.
    pose proof (rx_side_eq _ _ S1) as (_ & Ep1 & _ & _ & _ & Er1 & _).
    cbn [_port _rx set_i] in Ep1, Er1.
    assert (Hside' : rx_side (this w2) = rx_side (set_i 0 (this w))).
    { rewrite Hside, <- S1. pose proof (rx_side_set_rx_same fc1) as S.
      rewrite Er1, Hrx in S. exact S. }
    exists w2. split; [rewrite E2; now rewrite Er1, Hrx|].
    split; [exact Hside'|]. split; [exact Hp2|]. split; [exact Hq2|].
    split; [lia|].
    rewrite Hh2, Hd2, Hr2, handled_app, diagnostics_app, reads_app. cbn.
    rewrite !app_nil_r. repeat split.
Qed.

Lemma txrx_overflow_duplex (w : World) :
  listening w -> _i (this w) = BUFFER_SIZE ->
  _o (this w) + 1 < TX_QUEUE_SIZE ->
  exists w',
    txrx w = Ok (false, w')
    /\ listening w'
    /\ rx_side (this w') = rx_side (set_i 0 (this w))
    /\ handled (log w') = handled (log w)
    /\ diagnostics (log w') = diagnostics (log w) ++ [(RX_BUFFER_OVERFLOW, 1)]
    /\ reads (log w') = reads (log w).
Proof.
  intros (Hport & Hrx & Hp & Hq & _) Hi Ho.
  destruct (txrx_overflow_general w Hport Hrx Hq Hi Ho)
    as (w' & E & Hside & Hp' & Hq' & Ho' & Hh & Hd & Hr).
  pose proof (rx_side_eq _ _ Hside) as (_ & Ep & _ & _ & _ & Er & _).
  cbn [_port _rx set_i] in Ep, Er.
  exists w'. split; [exact E|]. split.
  { unfold listening. split; [congruence|]. split; [congruence|].
    split; [congruence|]. split; [exact Hq' | lia]. }
  split; [exact Hside|]. split; [exact Hh|]. split; [exact Hd | exact Hr].
Qed.

(** X12.  A reachable object with a port, an empty input buffer
    and room for two more queue entries, fed [BUFFER_SIZE] bytes without
    a terminator and then, after the call that resets the index and
    enqueues the overflow notice, a well-formed frame: the [BUFFER_SIZE]
    bytes are lost, the frame is received as if nothing had happened.
    Its payload is delivered once, to the handler and to [getMsg], and
    the overflow notice is the only diagnostic. *)
Theorem receiver_recovers_after_overflow (w : World) (bs P : list Z) :
  let cs := _useChecksum (this w) in
  reachable w -> _port (this w) = true -> rx_pending (serial w) = [] ->
  _i (this w) = 0 -> _o (this w) + 1 < TX_QUEUE_SIZE ->
  zlen bs = BUFFER_SIZE -> Forall is_byte bs -> has_term_pair bs = false ->
  valid_payload cs P ->
  exists w1 w2 w3,
    feed bs w = Ok (repeat false (List.length bs), w1)
    /\ _i (this w1) = BUFFER_SIZE
    /\ txrx w1 = Ok (false, w2)
    /\ _i (this w2) = 0
    /\ feed (frame cs P) w2 = Ok (frame_results cs P, w3)
    /\ handled (log w3)
       = handled (log w) ++ handler_calls (_msgHandler (this w)) [P]
    /\ diagnostics (log w3)
       = diagnostics (log w) ++ [(RX_BUFFER_OVERFLOW, 1)]
    /\ cstr (getMsg (this w3)) = P.
Proof.
  intros cs Hr Hport Hp Hi Ho Hlen Hb Hnp HP.
  assert (Ho' : _o (this w) < TX_QUEUE_SIZE) by lia.
  pose proof (reachable_between_frames w Hr Hport Hp Hi Ho') as Hbf.
  pose proof (between_frames_state_ok w Hbf) as Hok.
  destruct Hbf as (Hl & Hin & Hmsg & _).
  destruct (feed_store_duplex bs [] (_in (this w)) w Hl)
    as (w1 & E1 & Hl1 & Hside1 & Ho1 & Hh1 & Hd1 & Hr1); try assumption.
  { reflexivity. }
  { lia. }
  { cbn [zlen List.length Z.of_nat Z.add]. lia. }
  pose proof (rx_side_eq _ _ Hside1) as (Ecs1 & _ & _ & _ & Ei1 & _ & Eh1).
  cbn [_useChecksum _i _msgHandler set_i set_in] in Ecs1, Ei1, Eh1.
  change (zlen (@nil Z)) with 0 in Ei1. rewrite Hlen in Ei1. cbn in Ei1.
  destruct (txrx_overflow_duplex w1 Hl1 Ei1)
    as (w2 & E2 & Hl2 & Hside2 & Hh2 & Hd2 & Hr2); [lia|].
  pose proof (rx_side_eq _ _ Hside2) as (Ecs2 & _ & _ & _ & Ei2 & _ & Eh2).
  cbn [_useChecksum _i _msgHandler set_i] in Ecs2, Ei2, Eh2.
  pose proof (feed_state_ok _ _ _ _ Hok E1) as Hok1.
  pose proof (txrx_state_ok _ _ _ Hok1 E2) as ((Hin2 & _) & Hmsg2 & _).
  assert (Hbf2 : between_frames w2).
  { split; [exact Hl2|]. split; [exact Hin2|]. split; [exact Hmsg2 | exact Ei2]. }
  assert (Hcs2 : _useChecksum (this w2) = cs) by (unfold cs; congruence).
  destruct (feed_frame_duplex w2 P Hbf2) as (w3 & E3 & _ & Ht3).
  { now rewrite Hcs2. }
  rewrite Hcs2 in E3, Ht3.
  destruct Ht3 as (_ & _ & Em3 & _ & Hh3 & Hd3 & _).
  exists w1, w2, w3.
  split; [exact E1|]. split; [exact Ei1|]. split; [exact E2|].
  split; [exact Ei2|]. split; [exact E3|].
  split; [rewrite Hh3, Hh2, Hh1; congruence|].
  split; [rewrite Hd3, Hd2, Hd1; reflexivity | exact Em3].
Qed.

Lemma receiver_recovers_after_overflow_witness :
  let w := fresh_world true (Some 7%nat) 8 in
  exists w1 w2 w3,
    feed (repeat 97 64) w = Ok (repeat false (List.length (repeat 97 64)), w1)
    /\ _i (this w1) = BUFFER_SIZE
    /\ txrx w1 = Ok (false, w2)
    /\ _i (this w2) = 0
    /\ feed (frame true [104; 105]) w2 = Ok (frame_results true [104; 105], w3)
    /\ handled (log w3)
       = handled (log w) ++ handler_calls (_msgHandler (this w)) [[104; 105]]
    /\ diagnostics (log w3)
       = diagnostics (log w) ++ [(RX_BUFFER_OVERFLOW, 1)]
    /\ cstr (getMsg (this w3)) = [104; 105].
Proof.
  intros w.
  apply (receiver_recovers_after_overflow w (repeat 97 64) [104; 105]).
  - apply reachable_fresh.
  - reflexivity.
  - reflexivity.
  - reflexivity.
  - reflexivity.
  - reflexivity.
  - apply Forall_forall. intros x Hx. apply repeat_spec in Hx. subst x.
    cbv. split; [discriminate | reflexivity].
  - vm_compute. reflexivity.
  - repeat constructor; vm_compute; congruence.
Defined.

(** ** Diagnostics and a full queue *)

Lemma tx_section_cases (w w' : World) :
  tx_section w = Ok w' ->
  (_out (this w') = _out (this w) /\ _ob (this w') = _ob (this w)
   /\ _o (this w') = _o (this w))
  \/ (exists fc1, tx_dequeue fc1 = Ok (this w')
                  /\ _o fc1 = _o (this w) /\ _out fc1 = _out (this w)).
Proof.
  unfold tx_section. destruct (0 <? _o (this w)); [|intros [= <-]; auto].
  intros H. inv_bind H.
  assert (Hx : _out x = _out (this w) /\ _ob x = _ob (this w)
               /\ _o x = _o (this w)).
  { unfold tx_start in E. destruct (_ && _).
    - inv_bind E. injection E as <-. repeat split.
    - injection E as <-. repeat split. }
  destruct Hx as (X1 & X2 & X3).
  destruct (_txb x <? _txlen x).
  - left. destruct (0 <? availableForWrite _).
    + inv_bind H. injection H as <-. destruct x0; repeat split; assumption.
    + injection H as <-. repeat split; assumption.
  - right. inv_bind H. injection H as <-. exists x. cbn [this].
    repeat split; assumption.
Qed.

Lemma queued_same (a b : FastComms) :
  _out a = _out b -> _ob a = _ob b -> _o a = _o b -> queued a = queued b.
Proof. intros E1 E2 E3. unfold queued. now rewrite E1, E2, E3. Qed.

(** X16.  In a reachable state with the input buffer full and the
    transmit queue full, the call of [txrx] resets the index and calls
    [sendMsg] for the overflow notice, which is refused with -1; the
    result is not looked at, so the notice is lost: the queue holds what
    it held, no byte is read and the call returns false. *)
Theorem overflow_notice_is_lost_on_a_full_queue (w w' : World) (r : bool) :
  reachable w -> _port (this w) = true ->
  _i (this w) = BUFFER_SIZE -> _o (this w) = TX_QUEUE_SIZE ->
  txrx w = Ok (r, w') ->
  r = false
  /\ _i (this w') = 0
  /\ diagnostics (log w')
     = diagnostics (log w) ++ [(RX_BUFFER_OVERFLOW, -1)]
  /\ queued (this w') = queued (this w)
  /\ reads (log w') = reads (log w)
  /\ rx_pending (serial w') = rx_pending (serial w).
Proof.
  intros Hr Hport Hi Ho H.
  pose proof (reachable_rx_down w Hr) as Hrx.
  apply reachable_state_ok in Hr. destruct Hr as (_ & _ & Hq).
  rewrite txrx_unfold in H by exact Hport.
  rewrite rx_section_overflow_queue_full in H;
    [|exact Hi | rewrite Ho; apply Z.le_refl].
  cbn [bind] in H. inv_bind H.
  set (w1 := mkWorld _ _ _) in *.
  pose proof (tx_section_rx_side _ _ E) as Hside.
  apply rx_side_eq in Hside. destruct Hside as (_ & _ & _ & _ & Ei & Er & _).
  pose proof (tx_section_handled _ _ E) as [_ Hd].
  pose proof (tx_section_reads _ _ E) as [Hrd Hp].
  assert (Hqd : queued (this x) = queued (this w)).
  { destruct (tx_section_cases _ _ E) as [(E1 & E2 & E3)|(fc1 & Ed & E3 & E1)].
    - now apply queued_same.
    - rewrite tx_dequeue_full in Ed; [discriminate| |].
      + rewrite E3. exact Ho.
      + rewrite E1. exact (wf_out _ (qk_wf _ Hq)). }
  cbn [this serial log w1 _i _rx set_i] in *.
  rewrite Er, Hrx in H. injection H as <- <-.
  split; [reflexivity|]. split; [exact Ei|].
  rewrite Hd, Hrd, diagnostics_app, reads_app. cbn. rewrite app_nil_r.
  repeat split; assumption.
Qed.

Lemma overflow_notice_is_lost_on_a_full_queue_witness :
  let fc := enqueued [52] (enqueued [51] (enqueued [50] (enqueued [49]
              (init false true FastComms_static)))) in
  let w0 := mkWorld fc (mkSerial [] 0) [] in
  exists w w',
    feed (repeat 97 64) w0 = Ok (repeat false 64, w)
    /\ txrx w = Ok (false, w')
    /\ _i (this w') = 0
    /\ diagnostics (log w')
       = diagnostics (log w) ++ [(RX_BUFFER_OVERFLOW, -1)]
    /\ queued (this w') = queued (this w)
    /\ reads (log w') = reads (log w)
    /\ rx_pending (serial w') = rx_pending (serial w).
Proof.
  intros fc w0.
  assert (Hr0 : reachable w0).
  { apply (reach_sendMsg
             (mkWorld (enqueued [51] (enqueued [50] (enqueued [49]
                         (init false true FastComms_static))))
                (mkSerial [] 0) []) [52] 1); [|vm_compute; reflexivity].
    apply (reach_sendMsg
             (mkWorld (enqueued [50] (enqueued [49]
                         (init false true FastComms_static)))
                (mkSerial [] 0) []) [51] 1); [|vm_compute; reflexivity].
    apply (reach_sendMsg
             (mkWorld (enqueued [49] (init false true FastComms_static))
                (mkSerial [] 0) []) [50] 1); [|vm_compute; reflexivity].
    apply (reach_sendMsg
             (mkWorld (init false true FastComms_static) (mkSerial [] 0) [])
             [49] 1); [|vm_compute; reflexivity].
    apply (reach_init (mkWorld FastComms_static (mkSerial [] 0) []) false true).
    apply reach_new; try reflexivity. repeat constructor. }
  pose (w := match feed (repeat 97 64) w0 with
             | Ok (_, w) => w
             | Fault _ => w0
             end).
  assert (Hf : feed (repeat 97 64) w0 = Ok (repeat false 64, w))
    by (vm_compute; reflexivity).
  pose (w' := match txrx w with
              | Ok (_, w') => w'
              | Fault _ => w
              end).
  assert (Ht : txrx w = Ok (false, w')) by (vm_compute; reflexivity).
  assert (Hr : reachable w) by exact (reachable_feed _ _ _ _ Hr0 Hf).
  assert (Hport : _port (this w) = true) by (vm_compute; reflexivity).
  assert (Hi : _i (this w) = BUFFER_SIZE) by (vm_compute; reflexivity).
  assert (Ho : _o (this w) = TX_QUEUE_SIZE) by (vm_compute; reflexivity).
  destruct (overflow_notice_is_lost_on_a_full_queue w w' false Hr Hport Hi Ho Ht)
    as (_ & H).
  exists w, w'. split; [exact Hf|]. split; [exact Ht | exact H].
Defined.

(** ** A frame under way *)

(** The call that finds the head frame written: the head entry leaves
    the queue. *)
Lemma dequeue_tick (w : World) :
  tx_quiet w -> queue_ok (this w) ->
  0 < _o (this w) < TX_QUEUE_SIZE ->
  0 < _txlen (this w) -> _txlen (this w) <= _txb (this w) ->
  exists w2,
    txrx w = Ok (false, w2)
    /\ tx_quiet w2 /\ queue_ok (this w2)
    /\ _txb (this w2) = 0 /\ _txlen (this w2) = 0
    /\ _o (this w2) = _o (this w) - 1
    /\ queued (this w2) = tl (queued (this w))
    /\ _useChecksum (this w2) = _useChecksum (this w)
    /\ serial w2 = serial w /\ log w2 = log w.
Proof.
  intros (Hport & Hi & Hrx & Hpend) Hq Ho Hl Hb.
  pose proof (wf_out _ (qk_wf _ Hq)) as Hout.
  destruct (tx_section_dequeue w Ho Hout Hl Hb) as (out' & E2 & Hsh).
  set (fc2 := set_txb 0 (set_txlen 0 (set_o (_o (this w) - 1)
                (set_out out' (this w))))) in *.
  assert (R1 : rx_side fc2 = rx_side (this w)) by reflexivity.
  assert (R2 : _txb fc2 = 0 /\ _txlen fc2 = 0 /\ _o fc2 = _o (this w) - 1)
    by (repeat split).
  assert (R3 : queued fc2 = tl (queued (this w))).
  { apply queued_dequeued; [|exact Hsh]. rewrite Hout. lia. }
  clearbody fc2.
  apply rx_side_eq in R1.
  destruct R1 as (Ecs2 & Eport2 & Emsg2 & Ein2 & Ei2 & Erx2 & Eh2).
  destruct R2 as (Rb & Rl & Ro).
  set (w2 := mkWorld fc2 (serial w) (log w)) in *.
  assert (E3 : txrx w = Ok (false, w2)).
  { rewrite txrx_unfold by exact Hport.
    rewrite rx_section_quiet; [|lia | exact Hpend].
    cbn [bind]. rewrite E2. cbn [bind].
    assert (Hrx2 : _rx (this w2) = false) by (cbn [this w2]; congruence).
    rewrite Hrx2. reflexivity. }
  exists w2. split; [exact E3|]. split.
  { unfold tx_quiet. cbn [this serial w2].
    split; [congruence|]. split; [rewrite Ei2; exact Hi|].
    split; [congruence | exact Hpend]. }
  split; [exact (txrx_queue_ok _ _ _ Hq E3)|].
  cbn [this serial log w2]. repeat split; assumption.
Qed.

Lemma firstn_skipn_rest {A} (l : list A) (j : nat) :
  firstn (List.length l - j) (skipn j l) = skipn j l.
Proof. apply firstn_all2. rewrite length_skipn. lia. Qed.

(** The rest of the head frame is written from the cursor on, and the
    head entry is then taken off the queue. *)
Lemma finish_head_and_dequeue (w : World) (s : list Z) (qs : list (res (list Z))) :
  let cs := _useChecksum (this w) in
  let j := Z.to_nat (_txb (this w)) in
  tx_quiet w -> queue_ok (this w) -> _o (this w) < TX_QUEUE_SIZE ->
  queued (this w) = Ok s :: qs -> Forall is_char s ->
  _txlen (this w) = total_of cs s -> 0 <= _txb (this w) <= _txlen (this w) ->
  total_of cs s - _txb (this w) <= tx_free (serial w) ->
  exists w2,
    ticks (List.length (frame cs s) - j + 1) w
    = Ok (repeat false (List.length (frame cs s) - j + 1), w2)
    /\ tx_quiet w2 /\ queue_ok (this w2)
    /\ _txb (this w2) = 0 /\ _txlen (this w2) = 0
    /\ _o (this w2) = _o (this w) - 1
    /\ queued (this w2) = qs
    /\ _useChecksum (this w2) = cs
    /\ tx_free (serial w2)
       = tx_free (serial w) - (total_of cs s - _txb (this w))
    /\ written (log w2) = written (log w) ++ skipn j (frame cs s).
Proof.
  intros cs j Hquiet Hq Hroom Hqd Hs Hl Hb Hfree.
  destruct (head_slot_of_queue _ s qs Hq Hqd Hs) as (Hpos & k & Hh).
  pose proof (head_slot_len _ _ _ Hh) as Hslen.
  pose proof (total_of_range cs s Hslen) as Htot.
  pose proof (zlen_frame cs s) as Hfl.
  set (n := (List.length (frame cs s) - j)%nat).
  assert (Hn : Z.of_nat n = total_of cs s - _txb (this w))
    by (unfold n, j, zlen in *; lia).
  pose proof (ticks_send n w k s Hquiet Hpos Hh Hl) as E1.
  cbv zeta in E1. fold cs in E1.
  specialize (E1 (proj1 Hb)). rewrite Hn in E1.
  assert (Hn1 : _txb (this w) + (total_of cs s - _txb (this w)) <= total_of cs s)
    by lia.
  specialize (E1 Hn1 Hfree).
  fold j in E1. unfold n in E1 at 3. rewrite firstn_skipn_rest in E1.
  replace (_txb (this w) + (total_of cs s - _txb (this w)))
    with (total_of cs s) in E1 by lia.
  set (total := total_of cs s) in *.
  set (fc1 := set_txb total (this w)) in *.
  assert (P1 : tx_side fc1 = (_out (this w), _ob (this w), _obi (this w),
                              _o (this w), total, _txlen (this w)))
    by reflexivity.
  assert (P2 : rx_side fc1 = rx_side (this w)) by reflexivity.
  assert (P3 : queued fc1 = queued (this w)) by reflexivity.
  clearbody fc1.
  assert (P1' := P1). unfold tx_side in P1'.
  injection P1' as Eout Eob Eobi Eo Etxb Etxlen.
  apply rx_side_eq in P2.
  destruct P2 as (Ecs & Eport & Emsg & Ein & Ei & Erx & Eh).
  destruct Hquiet as (Hport & Hi & Hrx & Hpend).
  set (w1 := mkWorld fc1 (mkSerial [] (tx_free (serial w) - (total - _txb (this w))))
               (log w ++ map EvWrite (skipn j (frame cs s)))) in *.
  assert (Hq1 : queue_ok (this w1)) by exact (ticks_queue_ok _ _ _ _ Hq E1).
  destruct (dequeue_tick w1) as
    (w2 & E3 & Hquiet2 & Hq2 & Hb2 & Hl2 & Ho2 & Hqd2 & Hcs2 & Hser2 & Hlog2).
  { unfold tx_quiet. cbn [this serial w1 rx_pending].
    split; [congruence|]. split; [rewrite Ei; exact Hi|].
    split; [congruence | reflexivity]. }
  { exact Hq1. }
  { cbn [this w1]. rewrite Eo. lia. }
  { cbn [this w1]. rewrite Etxlen. lia. }
  { cbn [this w1]. rewrite Etxlen, Etxb. lia. }
  cbn [this serial log w1] in *.
  exists w2. split.
  { rewrite ticks_app, E1. cbn [bind ticks]. rewrite E3. cbn [bind].
    fold n. rewrite (repeat_app false n 1). reflexivity. }
  split; [exact Hquiet2|]. split; [exact Hq2|].
  split; [exact Hb2|]. split; [exact Hl2|]. split; [congruence|].
  split; [rewrite Hqd2, P3, Hqd; reflexivity|].
  split; [unfold cs; congruence|].
  split; [rewrite Hser2; reflexivity|].
  rewrite Hlog2. apply written_map_EvWrite.
Qed.

Lemma skipn_app_l {A} (l1 l2 : list A) (j : nat) :
  (j <= List.length l1)%nat -> skipn j (l1 ++ l2) = skipn j l1 ++ l2.
Proof.
  intros H. rewrite skipn_app.
  replace (j - List.length l1)%nat with O by lia. reflexivity.
Qed.

(** The queue empties from a cursor inside the head frame. *)
Lemma drain_from_cursor (w : World) (s : list Z) (ss : list (list Z)) :
  let cs := _useChecksum (this w) in
  let j := Z.to_nat (_txb (this w)) in
  tx_quiet w -> queue_ok (this w) -> _o (this w) < TX_QUEUE_SIZE ->
  queued (this w) = map Ok (s :: ss) -> Forall (Forall is_char) (s :: ss) ->
  _txlen (this w) = total_of cs s -> 0 <= _txb (this w) <= _txlen (this w) ->
  zlen (wire cs (s :: ss)) - _txb (this w) <= tx_free (serial w) ->
  exists w',
    ticks (drain_ticks cs (s :: ss) - j) w
    = Ok (repeat false (drain_ticks cs (s :: ss) - j), w')
    /\ written (log w') = written (log w) ++ skipn j (wire cs (s :: ss))
    /\ _o (this w') = 0
    /\ _txb (this w') = 0 /\ _txlen (this w') = 0.
Proof.
  intros cs j Hquiet Hq Hroom Hqd Hss Hl Hb Hfree.
  cbn [map] in Hqd. inversion Hss as [|s0 ss0 Hs Hss']; subst s0 ss0.
  assert (Hw : zlen (wire cs (s :: ss)) = total_of cs s + zlen (wire cs ss)).
  { unfold wire. cbn [flat_map]. now rewrite zlen_app, zlen_frame. }
  pose proof (zlen_nonneg (wire cs ss)) as Hw0.
  pose proof (zlen_frame cs s) as Hfl.
  destruct (finish_head_and_dequeue w s (map Ok ss) Hquiet Hq Hroom Hqd Hs Hl Hb)
    as (w2 & E1 & Hquiet2 & Hq2 & Hb2 & Hl2 & Ho2 & Hqd2 & Hcs2 & Hfree2 & Hwr2).
  { fold cs. lia. }
  fold cs j in E1, Hcs2, Hfree2, Hwr2.
  destruct (drain ss w2) as (w' & E2 & Hwr & Ho' & Hb' & Hl'); try assumption.
  { lia. }
  { rewrite Hcs2, Hfree2. lia. }
  rewrite Hcs2 in E2, Hwr.
  assert (Hj : (j <= List.length (frame cs s))%nat)
    by (unfold j, zlen in *; lia).
  exists w'. split.
  - replace (drain_ticks cs (s :: ss) - j)%nat
      with ((List.length (frame cs s) - j + 1) + drain_ticks cs ss)%nat
      by (cbn [drain_ticks fold_right]; fold (drain_ticks cs ss); lia).
    rewrite ticks_app, E1. cbn [bind]. rewrite E2. cbn [bind].
    now rewrite (repeat_app false (List.length (frame cs s) - j + 1)
                   (drain_ticks cs ss)).
  - split; [|repeat split; assumption].
    rewrite Hwr, Hwr2. unfold wire. cbn [flat_map].
    rewrite skipn_app_l by exact Hj. now rewrite app_assoc.
Qed.

Lemma strlen_chars (m : list Z) : Forall is_char m -> strlen m = zlen m.
Proof. intros H. unfold strlen. now rewrite cstr_chars. Qed.

(** X5.  A message handed to [sendMsg] while a frame is under way
    does not disturb it.  In a reachable state whose cursor stands at
    offset [_txb] in the frame of the head entry, with room in the queue
    and in the port and nothing arriving, [sendMsg] accepts the message,
    and the calls of [txrx] that follow write the rest of the head
    frame from the cursor on, then the frames of the entries that were
    queued, then the frame of the new message, and leave the queue
    empty. *)
Theorem message_queued_during_a_frame_follows_it
    (w : World) (s : list Z) (ss : list (list Z)) (m : list Z) :
  let cs := _useChecksum (this w) in
  let j := Z.to_nat (_txb (this w)) in
  reachable w -> tx_quiet w -> _o (this w) + 1 < TX_QUEUE_SIZE ->
  queued (this w) = map Ok (s :: ss) -> Forall (Forall is_char) (s :: ss) ->
  _txlen (this w) = total_of cs s -> 0 <= _txb (this w) <= _txlen (this w) ->
  Forall is_char m -> zlen m < BUFFER_SIZE ->
  zlen (wire cs (s :: ss ++ [m])) - _txb (this w) <= tx_free (serial w) ->
  exists w1 w',
    app_sendMsg m w = Ok (1, w1)
    /\ ticks (drain_ticks cs (s :: ss ++ [m]) - j) w1
       = Ok (repeat false (drain_ticks cs (s :: ss ++ [m]) - j), w')
    /\ written (log w')
       = written (log w) ++ skipn j (wire cs (s :: ss)) ++ frame cs m
    /\ _o (this w') = 0.
Proof.
  intros cs j Hr Hquiet Hroom Hqd Hss Hl Hb Hm Hmlen Hfree.
  apply reachable_state_ok in Hr. destruct Hr as (_ & _ & Hq).
  pose proof (qk_wf _ Hq) as Hwf.
  assert (Hroom' : _o (this w) < TX_QUEUE_SIZE) by lia.
  assert (Hsl : strlen m < BUFFER_SIZE) by (now rewrite strlen_chars).
  unfold app_sendMsg. rewrite sendMsg_ok by assumption. cbn [bind].
  set (fc1 := enqueued m (this w)).
  assert (Hq1 : queue_ok fc1) by now apply queue_ok_enqueued.
  assert (Hqd1 : queued fc1 = map Ok (s :: ss ++ [m])).
  { unfold fc1. rewrite queued_enqueued; try assumption.
    - rewrite Hqd, (cstr_chars m Hm). change (s :: ss ++ [m]) with ((s :: ss) ++ [m]).
      now rewrite map_app.
    - now apply next_slot_not_live. }
  assert (T1 : _txb fc1 = _txb (this w) /\ _txlen fc1 = _txlen (this w)
               /\ _o fc1 = _o (this w) + 1) by (repeat split).
  assert (R1 : rx_side fc1 = rx_side (this w)) by reflexivity.
  clearbody fc1. destruct T1 as (Tb & Tl & To).
  apply rx_side_eq in R1.
  destruct R1 as (Ecs & Eport & _ & _ & Ei & Erx & _).
  set (w1 := mkWorld fc1 (serial w) (log w)).
  destruct Hquiet as (Hport & Hi & Hrx & Hpend).
  destruct (drain_from_cursor w1 s (ss ++ [m])) as
    (w' & E & Hwr & Ho' & _).
  - unfold tx_quiet. cbn [this serial w1].
    split; [congruence|]. split; [rewrite Ei; exact Hi|].
    split; [congruence | exact Hpend].
  - exact Hq1.
  - cbn [this w1]. lia.
  - exact Hqd1.
  - change (s :: ss ++ [m]) with ((s :: ss) ++ [m]).
    apply Forall_app. split; [exact Hss | now repeat constructor].
  - cbn [this w1]. rewrite Tl, Ecs. exact Hl.
  - cbn [this w1]. rewrite Tb, Tl. exact Hb.
  - cbn [this serial w1]. rewrite Tb, Ecs. exact Hfree.
  - cbn [this serial log w1] in E, Hwr. rewrite Tb, Ecs in E, Hwr.
    fold cs j in E, Hwr.
    exists w1, w'. split; [reflexivity|]. split; [exact E|].
    split; [|exact Ho'].
    assert (Hj : (j <= List.length (wire cs (s :: ss)))%nat).
    { assert (Hws : zlen (wire cs (s :: ss))
                    = total_of cs s + zlen (wire cs ss)).
      { unfold wire. cbn [flat_map]. now rewrite zlen_app, zlen_frame. }
      pose proof (zlen_nonneg (wire cs ss)).
      unfold j, zlen in *. lia. }
    rewrite Hwr. f_equal.
    change (s :: ss ++ [m]) with ((s :: ss) ++ [m]).
    unfold wire in *. rewrite flat_map_app.
    change (flat_map (frame cs) [m]) with (frame cs m ++ []).
    rewrite app_nil_r.
    apply skipn_app_l. exact Hj.
Qed.

Lemma message_queued_during_a_frame_follows_it_witness :
  let w0 := mkWorld (enqueued [104; 105] (init false true FastComms_static))
              (mkSerial [] 16) [] in
  exists w w1 w',
    txrx w0 = Ok (false, w)
    /\ _txb (this w) = 1
    /\ app_sendMsg [33] w = Ok (1, w1)
    /\ ticks (drain_ticks false ([104; 105] :: [] ++ [[33]]) - 1) w1
       = Ok (repeat false (drain_ticks false ([104; 105] :: [] ++ [[33]]) - 1),
             w')
    /\ written (log w')
       = written (log w) ++ skipn 1 (wire false ([104; 105] :: []))
                         ++ frame false [33]
    /\ _o (this w') = 0.
Proof.
  intros w0.
  pose (w := match txrx w0 with
             | Ok (_, w) => w
             | Fault _ => w0
             end).
  assert (Ht : txrx w0 = Ok (false, w)) by (vm_compute; reflexivity).
  assert (Hr : reachable w).
  { apply (reach_txrx w0 false w); [|exact Ht].
    apply (reach_sendMsg
             (mkWorld (init false true FastComms_static) (mkSerial [] 16) [])
             [104; 105] 1); [|vm_compute; reflexivity].
    apply (reach_init (mkWorld FastComms_static (mkSerial [] 16) []) false true).
    apply reach_new; try reflexivity. repeat constructor. }
  destruct (message_queued_during_a_frame_follows_it w [104; 105] [] [33])
    as (w1 & w' & Hs & Hticks & Hwr & Ho).
  - exact Hr.
  - repeat split. cbv. discriminate.
  - vm_compute. reflexivity.
  - vm_compute. reflexivity.
  - repeat constructor.
  - vm_compute. reflexivity.
  - vm_compute. split; discriminate.
  - repeat constructor.
  - reflexivity.
  - vm_compute. discriminate.
  - exists w, w1, w'. split; [exact Ht|]. split; [reflexivity|].
    split; [exact Hs|]. split; [exact Hticks|]. split; [exact Hwr | exact Ho].
Defined.

(** ** Messages that can be sent and not received *)

Lemma feed_oversize_body (w : World) (body : list Z) :
  between_frames w -> _o (this w) + 1 < TX_QUEUE_SIZE ->
  zlen body = BUFFER_SIZE - 1 -> Forall is_byte body ->
  has_term_pair body = false ->
  exists w',
    feed (body ++ [MSG_END_A; MSG_END_B]) w
    = Ok (repeat false (List.length (body ++ [MSG_END_A; MSG_END_B])), w')
    /\ rx_pending (serial w') = [MSG_END_B]
    /\ _i (this w') = 0
    /\ getMsg (this w') = getMsg (this w)
    /\ handled (log w') = handled (log w)
    /\ diagnostics (log w')
       = diagnostics (log w) ++ [(RX_BUFFER_OVERFLOW, 1)]
    /\ reads (log w') = reads (log w) ++ body ++ [MSG_END_A].
Proof.
  intros (Hl & Hin & Hmsg & Hi) Ho Hlen Hb Hnp.
  assert (Hl1 : zlen (body ++ [MSG_END_A]) = BUFFER_SIZE).
  { rewrite zlen_app, zlen_cons. change (zlen (@nil Z)) with 0. lia. }
  destruct (feed_store_duplex (body ++ [MSG_END_A]) [] (_in (this w)) w Hl)
    as (w1 & E1 & Hl1' & Hside1 & Ho1 & Hh1 & Hd1 & Hr1); try assumption.
  { reflexivity. }
  { lia. }
  { cbn [zlen List.length Z.of_nat Z.add]. fold (zlen (body ++ [MSG_END_A])).
    lia. }
  { apply Forall_app. split; [assumption|].
    repeat constructor; unfold MSG_END_A; lia. }
  { cbn [app]. now rewrite has_term_pair_snoc_A. }
  pose proof (rx_side_eq _ _ Hside1) as (_ & Ep1 & Em1 & _ & Ei1 & Er1 & _).
  cbn [_port _msg _i _rx set_i set_in] in Ep1, Em1, Ei1, Er1.
  change (zlen (@nil Z)) with 0 in Ei1. rewrite Hl1 in Ei1. cbn in Ei1.
  destruct Hl as (Hport & Hrx & Hp & Hq & _).
  destruct Hl1' as (Hport1 & Hrx1 & Hp1 & Hq1 & _).
  destruct (txrx_overflow_general (arrive MSG_END_B w1))
    as (w2 & E2 & Hside2 & Hp2 & _ & _ & Hh2 & Hd2 & Hr2); try assumption.
  { cbn [this arrive]. lia. }
  pose proof (rx_side_eq _ _ Hside2) as (_ & _ & Em2 & _ & Ei2 & _).
  cbn [_msg _i set_i this arrive serial log rx_pending] in *.
  rewrite Hp1 in Hp2. cbn [app] in Hp2.
  exists w2. split.
  { replace (body ++ [MSG_END_A; MSG_END_B])
      with ((body ++ [MSG_END_A]) ++ [MSG_END_B]) by (now rewrite <- app_assoc).
    rewrite feed_app, E1. cbn [bind feed]. rewrite E2. cbn [bind].
    rewrite (length_app (body ++ [MSG_END_A]) [MSG_END_B]).
    change (List.length [MSG_END_B]) with 1%nat.
    now rewrite (repeat_app false (List.length (body ++ [MSG_END_A])) 1). }
  split; [exact Hp2|]. split; [exact Ei2|].
  unfold getMsg. split; [congruence|].
  split; [congruence|]. split; [rewrite Hd2, Hd1; reflexivity|].
  rewrite Hr2, Hr1. reflexivity.
Qed.

(** X13.  [sendMsg] accepts messages of up to [BUFFER_SIZE - 1]
    characters, but the frame of the longest ones (65 bytes: 63
    characters without checksum, 62 with) cannot be received by an
    object of this class: its first [BUFFER_SIZE] bytes fill the input
    buffer, the call made for its last byte resets the buffer and
    enqueues the overflow notice instead of reading the byte, and no
    message is delivered.  The unread terminator byte is left waiting in
    the port. *)
Theorem longest_message_is_sent_but_not_received
    (wt wr : World) (P : list Z) :
  let cs := _useChecksum (this wr) in
  wf_queue (this wt) -> _o (this wt) < TX_QUEUE_SIZE ->
  reachable wr -> _port (this wr) = true -> rx_pending (serial wr) = [] ->
  _i (this wr) = 0 -> _o (this wr) + 1 < TX_QUEUE_SIZE ->
  Forall is_char P -> zlen (frame cs P) = BUFFER_SIZE + 1 ->
  has_term_pair (P ++ (if cs then [checkSum P] else [])) = false ->
  exists wt1 wr',
    app_sendMsg P wt = Ok (1, wt1)
    /\ feed (frame cs P) wr
       = Ok (repeat false (List.length (frame cs P)), wr')
    /\ handled (log wr') = handled (log wr)
    /\ getMsg (this wr') = getMsg (this wr)
    /\ diagnostics (log wr')
       = diagnostics (log wr) ++ [(RX_BUFFER_OVERFLOW, 1)]
    /\ rx_pending (serial wr') = [MSG_END_B]
    /\ _i (this wr') = 0.
Proof.
  intros cs Hwf Hot Hr Hport Hp Hi Ho HP Hlen Hnp.
  assert (Ho' : _o (this wr) < TX_QUEUE_SIZE) by lia.
  pose proof (reachable_between_frames wr Hr Hport Hp Hi Ho') as Hbf.
  rewrite zlen_frame in Hlen. unfold total_of in Hlen.
  assert (Hsl : strlen P < BUFFER_SIZE).
  { rewrite strlen_chars by exact HP. destruct cs; lia. }
  set (body := P ++ (if cs then [checkSum P] else [])) in *.
  assert (Hfr : frame cs P = body ++ [MSG_END_A; MSG_END_B]).
  { unfold frame, body. now rewrite app_assoc. }
  destruct (feed_oversize_body wr body Hbf Ho)
    as (wr' & E & Hp' & Hi' & Hm' & Hh' & Hd' & _).
  - unfold body. rewrite zlen_app. destruct cs.
    + rewrite zlen_cons. change (zlen (@nil Z)) with 0. lia.
    + change (zlen (@nil Z)) with 0. lia.
  - unfold body. apply Forall_app. split; [now apply is_char_byte|].
    destruct cs; repeat constructor; apply checkSum_range.
  - exact Hnp.
  - exists (mkWorld (enqueued P (this wt)) (serial wt) (log wt)), wr'.
    split.
    { unfold app_sendMsg. rewrite sendMsg_ok by assumption. reflexivity. }
    rewrite Hfr. repeat split; assumption.
Qed.

Lemma longest_message_is_sent_but_not_received_witness :
  let wt := fresh_world false None 80 in
  let wr := fresh_world false (Some 7%nat) 8 in
  let P := repeat 97 63 in
  exists wt1 wr',
    app_sendMsg P wt = Ok (1, wt1)
    /\ feed (frame false P) wr
       = Ok (repeat false (List.length (frame false P)), wr')
    /\ handled (log wr') = handled (log wr)
    /\ getMsg (this wr') = getMsg (this wr)
    /\ diagnostics (log wr')
       = diagnostics (log wr) ++ [(RX_BUFFER_OVERFLOW, 1)]
    /\ rx_pending (serial wr') = [MSG_END_B]
    /\ _i (this wr') = 0.
Proof.
  intros wt wr P.
  apply (longest_message_is_sent_but_not_received wt wr P).
  - constructor;
      [reflexivity | reflexivity | repeat constructor
      | cbv; split; [discriminate | reflexivity]
      | cbv; split; discriminate].
  - reflexivity.
  - apply reachable_fresh.
  - reflexivity.
  - reflexivity.
  - reflexivity.
  - reflexivity.
  - apply Forall_forall. intros x Hx. apply repeat_spec in Hx. subst x.
    cbv. split; reflexivity.
  - vm_compute. reflexivity.
  - vm_compute. reflexivity.
Defined.

(** ** A frame with a wrong checksum, and the frame after it *)

(** The last byte of a frame with a wrong checksum, on an empty queue:
    three diagnostics are enqueued and the input buffer is reset. *)
Lemma txrx_checksum_bad_duplex (w : World) (P : list Z) (c y : Z) (rest : list Z) :
  listening w -> _o (this w) = 0 ->
  _in (this w) = (P ++ [c; MSG_END_A]) ++ y :: rest ->
  _i (this w) = zlen P + 2 -> zlen P + 2 < BUFFER_SIZE -> 0 < zlen P ->
  _useChecksum (this w) = true ->
  zlen (cstr P) + 1 <= BUFFER_SIZE - 3 ->
  0 <= c < 100 -> c <> checkSum (cstr P) ->
  exists w',
    txrx (arrive MSG_END_B w) = Ok (false, w')
    /\ listening w'
    /\ rx_side (this w')
       = rx_side (set_i 0 (set_in (P ++ 0 :: MSG_END_A :: MSG_END_B :: rest)
                             (this w)))
    /\ handled (log w') = handled (log w)
    /\ diagnostics (log w')
       = diagnostics (log w)
         ++ [(RX_BAD_CHECKSUM, 1); (bad_checksum_echo (cstr P), 1);
             (bad_checksum_report c, 1)]
    /\ reads (log w') = reads (log w) ++ [MSG_END_B].
Proof.
  intros (Hport & Hrx & Hp & Hq & _) Ho Hin Hi Hlt Hpos Hcs Hfit Hc Hsum.
  pose proof (qk_wf _ Hq) as Hwf.
  assert (Ho3 : _o (this w) + 3 <= TX_QUEUE_SIZE) by (rewrite Ho; cbv; congruence).
  pose proof (rx_section_checksum_bad w P c y rest Hin Hi Hlt Hpos Hp Hcs Hfit
                Hc Hsum Hwf Ho3) as E1.
  cbv zeta in E1.
  set (d := cstr P) in *.
  set (fc0 := set_in (P ++ 0 :: MSG_END_A :: MSG_END_B :: rest) (this w)) in *.
  assert (Hq0 : queue_ok fc0)
    by (revert Hq; now apply queue_ok_tx_side).
  assert (O0 : _o fc0 = 0) by exact Ho.
  assert (S0 : rx_side (set_i 0 fc0)
               = rx_side (set_i 0 (set_in (P ++ 0 :: MSG_END_A :: MSG_END_B :: rest)
                                     (this w)))) by reflexivity.
  clearbody fc0.
  assert (He : strlen (bad_checksum_echo d) < BUFFER_SIZE).
  { unfold strlen. pose proof (zlen_cstr_le (bad_checksum_echo d)) as Hle.
    unfold bad_checksum_echo in *. rewrite zlen_app in Hle.
    change (zlen (bytes_of_string "!")) with 1 in Hle.
    unfold BUFFER_SIZE in *. lia. }
  assert (Hr : strlen (bad_checksum_report c) < BUFFER_SIZE).
  { unfold strlen. destruct (bad_checksum_report_spec c) as [-> Hl]; [lia|].
    rewrite Hl. unfold BUFFER_SIZE.
    destruct (c <? 10); [lia|]. destruct (c <? 100); lia. }
  set (fc1 := enqueued RX_BAD_CHECKSUM fc0) in *.
  assert (Hq1 : queue_ok fc1)
    by (apply queue_ok_enqueued; [exact Hq0 | rewrite O0; cbv; congruence
                                 | vm_compute; reflexivity]).
  assert (O1 : _o fc1 = 1) by (unfold fc1; rewrite count_enqueued, O0; reflexivity).
  assert (S1 : rx_side fc1 = rx_side fc0) by reflexivity.
  clearbody fc1.
  set (fc2 := enqueued (bad_checksum_echo d) fc1) in *.
  assert (Hq2 : queue_ok fc2)
    by (apply queue_ok_enqueued; [exact Hq1 | rewrite O1; cbv; congruence
                                 | exact He]).
  assert (O2 : _o fc2 = 2) by (unfold fc2; rewrite count_enqueued, O1; reflexivity).
  assert (S2 : rx_side fc2 = rx_side fc1) by reflexivity.
  clearbody fc2.
  set (fc3 := enqueued (bad_checksum_report c) fc2) in *.
  assert (Hq3 : queue_ok fc3)
    by (apply queue_ok_enqueued; [exact Hq2 | rewrite O2; cbv; congruence
                                 | exact Hr]).
  assert (O3 : _o fc3 = 3) by (unfold fc3; rewrite count_enqueued, O2; reflexivity).
  assert (S3 : rx_side fc3 = rx_side fc2) by reflexivity.
  clearbody fc3.
  set (fc4 := set_i 0 fc3) in *.
  assert (Hq4 : queue_ok fc4) by (revert Hq3; now apply queue_ok_tx_side).
  assert (O4 : _o fc4 = 3) by exact O3.
  assert (S4 : rx_side fc4 = rx_side (set_i 0 fc0)).
  { unfold fc4. apply rx_side_eq in S1, S2, S3.
    destruct S1 as (A1 & A2 & A3 & A4 & A5 & A6 & A7).
    destruct S2 as (B1 & B2 & B3 & B4 & B5 & B6 & B7).
    destruct S3 as (C1 & C2 & C3 & C4 & C5 & C6 & C7).
    unfold rx_side.
    cbn [_useChecksum _port _msg _in _i _rx _msgHandler set_i]. congruence. }
  clearbody fc4.
  set (w1 := mkWorld fc4 (serial w) _) in *.
  destruct (txrx_duplex (arrive MSG_END_B w) w1) as
    (w2 & E2 & Hside & Hp2 & Hq2' & Ho2 & Hh2 & Hd2 & Hr2).
  - exact Hport.
  - exact E1.
  - exact Hq4.
  - cbn [this w1]. rewrite O4. cbv. congruence.
  - cbn [this serial log w1] in *.
    pose proof (rx_side_eq _ _ (eq_trans S4 S0)) as (_ & Ep4 & _ & _ & _ & Er4 & _).
    cbn [_port _rx set_i set_in] in Ep4, Er4.
    assert (Hside' : rx_side (this w2)
               = rx_side (set_i 0 (set_in (P ++ 0 :: MSG_END_A :: MSG_END_B :: rest)
                                     (this w)))).
    { rewrite Hside, <- S0, <- S4. pose proof (rx_side_set_rx_same fc4) as S.
      rewrite Er4, Hrx in S. exact S. }
    pose proof (rx_side_eq _ _ Hside') as (_ & Ep & _ & _ & _ & Er & _).
    cbn [_port _rx set_i set_in] in Ep, Er.
    exists w2. split; [rewrite E2; now rewrite Er4, Hrx|].
    split.
    { unfold listening. split; [congruence|]. split; [congruence|].
      split; [congruence|]. split; [exact Hq2'|]. rewrite O4 in Ho2.
      unfold TX_QUEUE_SIZE. lia. }
    split; [rewrite S0; exact Hside'|].
    rewrite Hh2, Hd2, Hr2, handled_app, diagnostics_app, reads_app. cbn.
    rewrite !app_nil_r. repeat split.
Qed.

(** X21.  A frame with a wrong checksum does not harm the frame
    after it.  A reachable object in checksum mode with a port, an empty
    input buffer and an empty queue, fed a frame whose checksum byte
    (below 100) is wrong and then a well-formed frame, delivers the
    second payload, once, to the handler and to [getMsg]; the first
    frame leaves its three diagnostics and nothing else, and the second
    is received while they are being sent. *)
Theorem good_frame_after_bad_checksum_is_delivered
    (w : World) (P1 : list Z) (c : Z) (P2 : list Z) :
  reachable w -> _port (this w) = true -> rx_pending (serial w) = [] ->
  _i (this w) = 0 -> _o (this w) = 0 -> _useChecksum (this w) = true ->
  Forall is_char P1 -> 0 < zlen P1 <= BUFFER_SIZE - 4 ->
  has_term_pair (P1 ++ [c]) = false -> 0 <= c < 100 -> c <> checkSum P1 ->
  valid_payload true P2 ->
  exists w1 w2,
    feed (P1 ++ [c; MSG_END_A; MSG_END_B]) w
    = Ok (repeat false (List.length P1 + 3), w1)
    /\ feed (frame true P2) w1 = Ok (frame_results true P2, w2)
    /\ handled (log w2)
       = handled (log w) ++ handler_calls (_msgHandler (this w)) [P2]
    /\ diagnostics (log w2)
       = diagnostics (log w)
         ++ [(RX_BAD_CHECKSUM, 1); (bad_checksum_echo P1, 1);
             (bad_checksum_report c, 1)]
    /\ cstr (getMsg (this w2)) = P2.
Proof.
  intros Hr Hport Hp Hi Ho Hcs HP1 Hlen Hnp Hc Hsum HP2.
  assert (Ho' : _o (this w) < TX_QUEUE_SIZE) by (rewrite Ho; reflexivity).
  pose proof (reachable_between_frames w Hr Hport Hp Hi Ho') as Hbf.
  pose proof (between_frames_state_ok w Hbf) as Hok.
  pose proof (cstr_chars P1 HP1) as HcP.
  assert (Hbody : Forall is_byte (P1 ++ [c])).
  { apply Forall_app. split; [now apply is_char_byte|].
    repeat constructor; lia. }
  assert (Hbl : zlen (P1 ++ [c]) = zlen P1 + 1).
  { rewrite zlen_app, zlen_cons. change (zlen (@nil Z)) with 0. lia. }
  destruct (feed_body_duplex w (P1 ++ [c]))
    as (wa & y & rest & E1 & Hl1 & Hside1 & Ho1 & Hh1 & Hd1 & Hr1);
    try assumption.
  { rewrite Hbl. unfold BUFFER_SIZE in *. lia. }
  pose proof (rx_side_eq _ _ Hside1)
    as (Ecs1 & _ & _ & Ein1 & Ei1 & _ & Eh1).
  cbn [_useChecksum _msg _in _i _msgHandler set_i set_in] in *.
  rewrite Hbl in Ei1.
  destruct (txrx_checksum_bad_duplex wa P1 c y rest)
    as (w1 & E2 & Hl2 & Hside2 & Hh2 & Hd2 & Hr2); try assumption.
  { pose proof (wf_o _ (qk_wf _ (proj1 (proj2 (proj2 (proj2 Hl1)))))). lia. }
  { rewrite Ein1. now rewrite <- !app_assoc. }
  { lia. }
  { unfold BUFFER_SIZE in *. lia. }
  { lia. }
  { congruence. }
  { rewrite HcP. unfold BUFFER_SIZE in *. lia. }
  { now rewrite HcP. }
  rewrite HcP in Hd2.
  pose proof (rx_side_eq _ _ Hside2) as (Ecs2 & _ & _ & _ & Ei2 & _ & Eh2).
  cbn [_useChecksum _i _msgHandler set_i set_in] in Ecs2, Ei2, Eh2.
  assert (Hfeed : feed (P1 ++ [c; MSG_END_A; MSG_END_B]) w
                  = Ok (repeat false (List.length P1 + 3), w1)).
  { replace (P1 ++ [c; MSG_END_A; MSG_END_B])
      with (((P1 ++ [c]) ++ [MSG_END_A]) ++ [MSG_END_B])
      by (now rewrite <- !app_assoc).
    rewrite feed_app, E1. cbn [bind feed]. rewrite E2. cbn [bind].
    rewrite length_app. cbn [List.length].
    replace (List.length P1 + 3)%nat with ((List.length P1 + 1 + 1) + 1)%nat
      by lia.
    now rewrite (repeat_app false (List.length P1 + 1 + 1) 1). }
  pose proof (feed_state_ok _ _ _ _ Hok Hfeed) as ((Hin' & _) & Hmsg' & _).
  assert (Hbf1 : between_frames w1).
  { split; [exact Hl2|]. split; [exact Hin'|]. split; [exact Hmsg' | exact Ei2]. }
  assert (Hcs1 : _useChecksum (this w1) = true) by congruence.
  destruct (feed_frame_duplex w1 P2 Hbf1) as (w2 & E3 & _ & Ht3).
  { now rewrite Hcs1. }
  rewrite Hcs1 in E3, Ht3.
  destruct Ht3 as (_ & _ & Em3 & _ & Hh3 & Hd3 & _).
  exists w1, w2. split; [exact Hfeed|]. split; [exact E3|].
  split; [rewrite Hh3, Hh2, Hh1; congruence|].
  split; [rewrite Hd3, Hd2, Hd1; reflexivity | exact Em3].
Qed.

Lemma good_frame_after_bad_checksum_is_delivered_witness :
  let w := fresh_world true (Some 7%nat) 8 in
  exists w1 w2,
    feed ([97; 98] ++ [0; MSG_END_A; MSG_END_B]) w
    = Ok (repeat false (List.length [97; 98] + 3), w1)
    /\ feed (frame true [104; 105]) w1 = Ok (frame_results true [104; 105], w2)
    /\ handled (log w2)
       = handled (log w) ++ handler_calls (_msgHandler (this w)) [[104; 105]]
    /\ diagnostics (log w2)
       = diagnostics (log w)
         ++ [(RX_BAD_CHECKSUM, 1); (bad_checksum_echo [97; 98], 1);
             (bad_checksum_report 0, 1)]
    /\ cstr (getMsg (this w2)) = [104; 105].
Proof.
  intros w.
  apply (good_frame_after_bad_checksum_is_delivered w [97; 98] 0 [104; 105]).
  - apply reachable_fresh.
  - reflexivity.
  - reflexivity.
  - reflexivity.
  - reflexivity.
  - reflexivity.
  - repeat constructor.
  - cbv. split; [reflexivity | discriminate].
  - reflexivity.
  - lia.
  - cbv. discriminate.
  - repeat constructor; vm_compute; congruence.
Defined.

(** ** Back-pressure *)

(** A call that finds no room in the port writes nothing and keeps its
    place in the frame. *)
Lemma txrx_no_room (w : World) (k : Z) (s : list Z) :
  let fc := this w in
  let total := total_of (_useChecksum fc) s in
  tx_quiet w -> 0 < _o fc -> head_slot fc k s -> tx_free (serial w) <= 0 ->
  (_txb fc = 0 /\ _txlen fc = 0) \/ (_txlen fc = total /\ 0 <= _txb fc < total) ->
  exists w',
    txrx w = Ok (false, w')
    /\ rx_side (this w') = rx_side fc
    /\ tx_side (this w') = (_out fc, _ob fc, _obi fc, _o fc, _txb fc, total)
    /\ serial w' = serial w /\ log w' = log w.
Proof.
  intros fc total (Hport & Hi & Hrx & Hp) Ho Hh Hf Hc.
  pose proof (head_slot_len _ _ _ Hh) as Hs.
  pose proof (total_of_range (_useChecksum fc) s Hs) as Ht. fold total in Ht.
  rewrite txrx_unfold by exact Hport.
  rewrite rx_section_quiet by (assumption || lia). cbn [bind].
  destruct Hc as [[Hb Hl]|[Hl Hb]].
  - rewrite (tx_section_no_room w k s) by assumption. cbn [bind].
    fold fc. fold total.
    replace (_rx (this _)) with (_rx fc) by reflexivity.
    unfold fc at 1. rewrite Hrx.
    eexists. split; [reflexivity|]. cbn [this serial log].
    split; [reflexivity|]. split; [|split; reflexivity].
    unfold tx_side. cbn [_out _ob _obi _o _txb _txlen set_txlen]. reflexivity.
  - assert (E : tx_section w = Ok (mkWorld fc (serial w) (log w))).
    { unfold tx_section. fold fc.
      destruct (Z.ltb_spec 0 (_o fc)); [|lia].
      rewrite tx_start_busy by lia. cbn [bind].
      destruct (Z.ltb_spec (_txb fc) (_txlen fc)); [|lia].
      unfold availableForWrite. cbn [serial].
      destruct (Z.ltb_spec 0 (tx_free (serial w))); [lia | reflexivity]. }
    rewrite E. cbn [bind this]. unfold fc at 1. rewrite Hrx.
    eexists. split; [reflexivity|]. cbn [this serial log].
    split; [reflexivity|]. split; [|split; reflexivity].
    unfold tx_side. now rewrite Hl.
Qed.

Lemma cursor_ok_tx_side (a b : FastComms) (s : list Z) :
  _useChecksum a = _useChecksum b -> _txb a = _txb b -> _txlen a = _txlen b ->
  cursor_ok a s -> cursor_ok b s.
Proof. unfold cursor_ok. intros -> -> ->. auto. Qed.

Lemma outstanding_next (cs : bool) (s : list Z) (ss : list (list Z)) (j : Z) :
  0 <= j < total_of cs s ->
  nth (Z.to_nat j) (frame cs s) 0
  :: skipn (Z.to_nat (j + 1)) (wire cs (s :: ss))
  = skipn (Z.to_nat j) (wire cs (s :: ss)).
Proof.
  intros Hj. pose proof (zlen_frame cs s) as Hl. unfold zlen in Hl.
  unfold wire. cbn [flat_map].
  replace (Z.to_nat (j + 1)) with (S (Z.to_nat j)) by lia.
  rewrite (skipn_nth_cons 0 (frame cs s ++ _) (Z.to_nat j))
    by (rewrite length_app; lia).
  rewrite app_nth1 by lia. reflexivity.
Qed.

Lemma outstanding_done (cs : bool) (s : list Z) (ss : list (list Z)) :
  skipn (Z.to_nat (total_of cs s)) (wire cs (s :: ss)) = wire cs ss.
Proof.
  pose proof (zlen_frame cs s) as Hl. unfold zlen in Hl.
  unfold wire. cbn [flat_map].
  rewrite skipn_app, <- Hl, Nat2Z.id, skipn_all, Nat.sub_diag. reflexivity.
Qed.

(** One call of [txrx] on a sender: it writes the next outstanding byte
    or nothing. *)
Lemma sending_tick (w : World) (ss : list (list Z)) :
  sending w ss ->
  exists w' ss' bs,
    txrx w = Ok (false, w')
    /\ sending w' ss'
    /\ _useChecksum (this w') = _useChecksum (this w)
    /\ written (log w') = written (log w) ++ bs
    /\ bs ++ outstanding w' ss' = outstanding w ss
    /\ zlen bs <= 1
    /\ tx_free (serial w') = tx_free (serial w) - zlen bs.
Proof.
  intros Hsend. pose proof Hsend as (Hquiet & Hq & Ho & Hqd & Hss & Hc & Hfree).
  destruct ss as [|s ss].
  - pose proof (queued_nil_empty _ (qk_wf _ Hq) Hqd) as Ho0.
    exists w, [], []. destruct Hquiet as (Hport & Hi & Hrx & Hp).
    split.
    { rewrite txrx_unfold by exact Hport.
      rewrite rx_section_quiet by (assumption || lia). cbn [bind].
      rewrite tx_section_idle by exact Ho0. cbn [bind]. now rewrite Hrx. }
    split; [exact Hsend|].
    rewrite app_nil_r. change (zlen (@nil Z)) with 0.
    repeat split; lia.
  - cbn [hd] in Hc. cbn [map] in Hqd.
    inversion Hss as [|s0 ss0 Hs Hss']; subst s0 ss0.
    destruct (head_slot_of_queue _ s _ Hq Hqd Hs) as (Hpos & k & Hh).
    pose proof (head_slot_len _ _ _ Hh) as Hslen.
    pose proof (total_of_range (_useChecksum (this w)) s Hslen) as Htot.
    set (cs := _useChecksum (this w)) in *.
    assert (Hcase : ((_txb (this w) = 0 /\ _txlen (this w) = 0)
                     \/ (_txlen (this w) = total_of cs s
                         /\ 0 <= _txb (this w) < total_of cs s))
                    \/ (_txlen (this w) = total_of cs s
                        /\ _txb (this w) = total_of cs s)).
    { destruct Hc as [Hc|[Hl Hb]]; [now left; left|].
      fold cs in Hl.
      destruct (Z.eq_dec (_txb (this w)) (total_of cs s)); [now right|].
      left. right. split; [exact Hl | lia]. }
    destruct Hcase as [Hgo|[Hl Hb]].
    + assert (Hj : 0 <= _txb (this w) < total_of cs s)
        by (destruct Hgo as [[-> _]|[_ ?]]; lia).
      destruct (Z.ltb_spec 0 (tx_free (serial w))) as [Hroom|Hroom].
      * pose proof (txrx_send_byte w k s Hquiet Hpos Hh Hroom Hgo) as E.
        cbv zeta in E. fold cs in E.
        set (b := nth _ _ 0) in E.
        set (fc1 := set_txb _ _) in E.
        assert (R1 : rx_side fc1 = rx_side (this w)) by reflexivity.
        assert (T1 : tx_side fc1
                     = (_out (this w), _ob (this w), _obi (this w),
                        _o (this w), _txb (this w) + 1, total_of cs s))
          by reflexivity.
        clearbody fc1.
        apply rx_side_eq in R1.
        destruct R1 as (Ecs & Eport & Emsg & Ein & Ei & Erx & Eh).
        unfold tx_side in T1. injection T1 as Eout Eob Eobi Eo Etxb Etxlen.
        set (w1 := mkWorld fc1 _ _) in E.
        exists w1, (s :: ss), [b]. split; [exact E|]. split.
        { unfold sending. cbn [this serial w1 tx_free rx_pending].
          destruct Hquiet as (Hport & Hi & Hrx & Hp).
          split.
          { unfold tx_quiet. cbn [this serial w1 rx_pending].
            split; [congruence|]. split; [rewrite Ei; exact Hi|].
            split; [congruence | reflexivity]. }
          split; [exact (txrx_queue_ok _ _ _ Hq E)|].
          split; [rewrite Eo; exact Ho|].
          split; [cbn [map]; rewrite <- Hqd; now apply queued_same|].
          split; [exact Hss|]. split; [|lia].
          right. cbn [hd]. rewrite Ecs, Etxlen, Etxb. fold cs. lia. }
        cbn [this serial log w1 tx_free].
        split; [exact Ecs|]. split; [now rewrite written_app|].
        change (zlen [b]) with 1.
        split; [|split; [lia | reflexivity]].
        unfold outstanding. cbn [this w1]. rewrite Ecs, Etxb. fold cs.
        cbn [app]. now apply outstanding_next.
      * destruct (txrx_no_room w k s Hquiet Hpos Hh Hroom Hgo)
          as (w1 & E & R1 & T1 & Hser & Hlog).
        fold cs in T1.
        apply rx_side_eq in R1.
        destruct R1 as (Ecs & Eport & Emsg & Ein & Ei & Erx & Eh).
        unfold tx_side in T1. injection T1 as Eout Eob Eobi Eo Etxb Etxlen.
        exists w1, (s :: ss), []. split; [exact E|]. split.
        { unfold sending. destruct Hquiet as (Hport & Hi & Hrx & Hp).
          split.
          { unfold tx_quiet. rewrite Hser.
            split; [congruence|]. split; [rewrite Ei; exact Hi|].
            split; [congruence | exact Hp]. }
          split; [exact (txrx_queue_ok _ _ _ Hq E)|].
          split; [rewrite Eo; exact Ho|].
          split; [cbn [map]; rewrite <- Hqd; now apply queued_same|].
          split; [exact Hss|]. split; [|now rewrite Hser].
          right. cbn [hd]. rewrite Ecs, Etxlen, Etxb. fold cs. lia. }
        split; [exact Ecs|]. rewrite Hlog, Hser, app_nil_r.
        change (zlen (@nil Z)) with 0.
        split; [reflexivity|]. split; [|split; lia].
        unfold outstanding. now rewrite Ecs, Etxb.
    + destruct (dequeue_tick w Hquiet Hq) as
        (w2 & E & Hquiet2 & Hq2 & Hb2 & Hl2 & Ho2 & Hqd2 & Hcs2 & Hser2 & Hlog2);
        [lia | lia | lia |].
      exists w2, ss, []. split; [exact E|]. split.
      { unfold sending. split; [exact Hquiet2|]. split; [exact Hq2|].
        split; [lia|]. split; [now rewrite Hqd2, Hqd|].
        split; [exact Hss'|]. split; [now left | now rewrite Hser2]. }
      split; [exact Hcs2|]. rewrite Hlog2, Hser2, app_nil_r.
      change (zlen (@nil Z)) with 0.
      split; [reflexivity|]. split; [|split; lia].
      unfold outstanding. rewrite Hcs2, Hb2, Hb. fold cs. cbn [Z.to_nat skipn app].
      symmetry. apply outstanding_done.
Qed.

(** Any number of calls. *)
Lemma sending_ticks (n : nat) : forall (w : World) (ss : list (list Z)),
  sending w ss ->
  exists w' ss' bs,
    ticks n w = Ok (repeat false n, w')
    /\ sending w' ss'
    /\ _useChecksum (this w') = _useChecksum (this w)
    /\ written (log w') = written (log w) ++ bs
    /\ bs ++ outstanding w' ss' = outstanding w ss
    /\ zlen bs <= Z.of_nat n
    /\ tx_free (serial w') = tx_free (serial w) - zlen bs.
Proof.
  induction n as [|n IH]; intros w ss Hs.
  - exists w, ss, []. cbn [ticks repeat]. rewrite app_nil_r.
    change (zlen (@nil Z)) with 0.
    split; [reflexivity|]. split; [exact Hs|]. repeat split; lia.
  - destruct (sending_tick w ss Hs)
      as (w1 & ss1 & b1 & E1 & Hs1 & Hcs1 & Hw1 & Hrest1 & Hn1 & Hf1).
    destruct (IH w1 ss1 Hs1)
      as (w2 & ss2 & b2 & E2 & Hs2 & Hcs2 & Hw2 & Hrest2 & Hn2 & Hf2).
    exists w2, ss2, (b1 ++ b2). cbn [ticks]. rewrite E1. cbn [bind].
    rewrite E2. cbn [bind repeat].
    split; [reflexivity|]. split; [exact Hs2|].
    split; [congruence|]. split; [now rewrite Hw2, Hw1, app_assoc|].
    split; [now rewrite <- app_assoc, Hrest2|].
    rewrite zlen_app. split; lia.
Qed.

(** X22.  A port that is short of room delays the queue and loses
    nothing of it.  From a reachable state with the cursor at rest,
    fewer than [TX_QUEUE_SIZE] strings [ss] queued and nothing arriving,
    any number [n] of calls of [txrx], on a port with any room, return
    false and write a prefix [bs] of the frames of the queue, of at most
    [n] bytes and of no more bytes than the port had room for; what is
    queued afterwards, taken from the cursor on, is the rest of those
    frames. *)
Theorem back_pressure_keeps_the_stream
    (w : World) (ss : list (list Z)) (n : nat) :
  let cs := _useChecksum (this w) in
  reachable w -> tx_quiet w ->
  _txb (this w) = 0 -> _txlen (this w) = 0 -> _o (this w) < TX_QUEUE_SIZE ->
  queued (this w) = map Ok ss -> Forall (Forall is_char) ss ->
  0 <= tx_free (serial w) ->
  exists w' ss' bs,
    ticks n w = Ok (repeat false n, w')
    /\ written (log w') = written (log w) ++ bs
    /\ queued (this w') = map Ok ss'
    /\ bs ++ outstanding w' ss' = wire cs ss
    /\ zlen bs <= Z.of_nat n
    /\ tx_free (serial w') = tx_free (serial w) - zlen bs
    /\ 0 <= tx_free (serial w').
Proof.
  intros cs Hr Hquiet Hb Hl Ho Hqd Hss Hfree.
  apply reachable_state_ok in Hr. destruct Hr as (_ & _ & Hq).
  assert (Hs : sending w ss).
  { unfold sending. split; [exact Hquiet|]. split; [exact Hq|].
    split; [exact Ho|]. split; [exact Hqd|]. split; [exact Hss|].
    split; [now left | exact Hfree]. }
  destruct (sending_ticks n w ss Hs)
    as (w' & ss' & bs & E & Hs' & Hcs & Hw & Hrest & Hn & Hf).
  exists w', ss', bs. split; [exact E|]. split; [exact Hw|].
  destruct Hs' as (_ & _ & _ & Hqd' & _ & _ & Hfree').
  split; [exact Hqd'|]. split; [|repeat split; assumption].
  rewrite Hrest. unfold outstanding. now rewrite Hb.
Qed.

Lemma back_pressure_keeps_the_stream_witness :
  let w := mkWorld (enqueued [33]
                      (enqueued [104; 105] (init true true FastComms_static)))
             (mkSerial [] 3) [] in
  let ss := [[104; 105]; [33]] in
  exists w' ss' bs,
    ticks 9 w = Ok (repeat false 9, w')
    /\ written (log w') = written (log w) ++ bs
    /\ queued (this w') = map Ok ss'
    /\ bs ++ outstanding w' ss' = wire true ss
    /\ zlen bs <= Z.of_nat 9
    /\ tx_free (serial w') = tx_free (serial w) - zlen bs
    /\ 0 <= tx_free (serial w').
Proof.
  intros w ss.
  apply (back_pressure_keeps_the_stream w ss 9).
  - apply (reach_sendMsg
             (mkWorld (enqueued [104; 105] (init true true FastComms_static))
                (mkSerial [] 3) [])
             [33] 1 w); [|vm_compute; reflexivity].
    apply (reach_sendMsg
             (mkWorld (init true true FastComms_static) (mkSerial [] 3) [])
             [104; 105] 1); [|vm_compute; reflexivity].
    apply (reach_init (mkWorld FastComms_static (mkSerial [] 3) []) true true).
    apply reach_new; try reflexivity. repeat constructor.
  - repeat split. cbv. discriminate.
  - reflexivity.
  - reflexivity.
  - reflexivity.
  - vm_compute. reflexivity.
  - repeat constructor.
  - vm_compute. discriminate.
Defined.
